(* ===== verification/_CoqProject ===== *)
-Q . S2P
Prelude.v
Errors.v
Containers.v
Identity.v
Hash.v
Bandwidth.v
Time.v
Authority.v
Wire.v
Regeneration.v
Policy.v
Capacity.v
Reservation.v
Outcome.v
SegTree.v
Index.v
IndexLog.v
Durable.v
CodecBase.v
Codec.v
CodecReports.v
Protocol.v
Store.v
StoreContract.v
Coordinator.v
CoordRecords.v
CoordPersist.v
CoordAssess.v
CoordLifecycle.v
CoordCommit.v
CoordOps.v
CoordQuery.v
CoordSample.v
CoordSteps.v
CoordJournal.v
CoordGate.v
CoordClosure.v
CoordSessions.v
CoordAttempts.v
CoordResolve.v
CoordBook.v
CoordSound.v
CoordLife.v
CoordLifeOps.v
CoordLifetime.v
CoordAudit.v
CoordCapacity.v
CoordRenewal.v
CoordReconcile.v
CoordMirror.v
CoordLogged.v
CoordRestart.v
CoordReplay.v
CoordReopen.v
CoordTorn.v
CoordTyped.v
CoordTypedOps.v
CoordCompaction.v
CommandLine.v
Inspect.v
Server.v
Process.v
Killed.v
Journalled.v
Probe.v
ProbeClient.v
Transport.v
