(* ===== verification/Prelude.v ===== *)
(** * Bandwidth Reservation Fabric: verification library

    A model of the fabric under [src/] (the library in [include/brf] and [src],
    the programs in [tools]) and the theorems that make it correct.  The
    model is executable: every operation is a function that can be evaluated on
    a concrete state, and the concrete theorems do so with [vm_compute].

    ** The program

    One [ReservationCoordinator] owns all state.  Authorities tell it what exists
    (capacity, paths, policies); claimants reserve bandwidth on named resources
    over a time interval.  An admission assesses every bound resource against the
    capacity index, may preempt weaker reservations, and journals the decision
    before it changes memory.  Time, recalls and new authority generations move
    reservations through their lifecycle.  The journal and a sealed snapshot are
    the durable state, and opening a directory replays them.  Clients talk to a
    coordinator over a framed byte stream.

    ** The files and the code they model

    Values: [Errors] (error.hpp/.cpp), [Identity] (identity), [Hash] (hash),
    [Bandwidth] (bandwidth), [Time] (time, clock), [Authority] (authority), [Wire]
    (wire), [Outcome] (outcome), [Reservation] (reservation).

    Tables: [Regeneration] is the contract of a generation-stamped table, [Policy]
    (policy) and [Capacity] (capacity: ledger and path authority) its instances.
    [Containers] is [std::map] and [std::multimap] in iteration order, over the
    class [OrdKey] of key types.

    Capacity index: [SegTree] ([IntervalCapacityIndex]: a lazy segment tree in a
    node arena) and [Index] ([CapacityIndex], one tree triple per resource), both
    index.hpp/.cpp.

    Durable data: [Durable] (codec.hpp, store.hpp: payloads), [CodecBase], [Codec]
    and [CodecReports] (codec.cpp, every encoder and decoder, instances of the
    class [Codec] of [Wire]), [Store] (store.cpp: journal and snapshot files as
    byte strings) and [StoreContract] (the abstract durable contents and what each
    operation does to them).

    Coordinator: [Coordinator] (coordinator_impl.hpp and the first part of
    coordinator_core.cpp: the state in five records, the monad [co], the request
    gate), [CoordRecords] (coordinator_records.cpp), [CoordPersist]
    (coordinator_core.cpp: snapshot, compaction, replay), [CoordAssess] and
    [CoordCommit] (coordinator_admission.cpp), [CoordLifecycle]
    (coordinator_lifecycle.cpp), [CoordOps] (boot in coordinator_core.cpp,
    coordinator_ops.cpp, coordinator_overcommit.cpp), [CoordQuery]
    (coordinator_query.cpp).  The state [Coordinator] groups the members of
    [Impl]: [env] (configuration, clock, store, incarnation), [tables], [book]
    (records and queues), [sessions] (attempts, claimants, fences, holds,
    overcommit states) and [index] with the suspended entries.  A function
    [f_locked] of the code is the definition [f_locked]; a [ReservationRecord&] is
    passed and written back under its key.

    Programs: [Protocol] (protocol.hpp/.cpp and the frame functions of
    transport.cpp); [Server] (the session of tools/brf_coordinator.cpp: bytes in,
    requests run, bytes out) and [Process] (its [main]: the start, the accept
    loop, concurrent sessions, the shutdown); [Transport] (transport.hpp/.cpp: the
    loops over the kernel's calls, the objects that own a handle); [CommandLine] (arguments, the number
    parsers of the C++ library, exit codes), [Inspect] (tools/brf_inspect.cpp) and
    [Probe] (tools/brf_probe.cpp, as a tree of its interactions).

    ** What is shown

    Data: round trips of texts, identities, durable records, snapshots, frames and
    the protocol's payloads, each with the exact set of bytes the decoder accepts;
    the checks of validation as decision procedures; wrap-around and saturation.

    Index: after any sequence of insertions and removals the peaks the index
    answers are those of the live entries at every instant ([SegTree], [Index]).

    Store: a journal cut anywhere is read as a prefix of its records, damaged
    bytes are refused, and append, snapshot and rotation are atomic for the
    durable contents whatever calls fail ([Store], [StoreContract]).

    Coordinator, proved by relations that the primitives keep and the combinators
    lift ([CoordSteps]): durable facts change only with journal records
    ([CoordJournal], [CoordGate]); the gate refuses without effect; a fenced
    context stays refused and the attempt table stays bounded ([CoordSessions]); a
    commit attempt is decided once ([CoordAttempts]); the assessment decides
    whether a request fits at every instant ([CoordClosure]); the revocation loop
    of an overcommit resolution ends, with the weakest victims ([CoordResolve]); an
    identity has at most one live generation and what ended stays ended
    ([CoordBook], [CoordSound], [CoordLife], [CoordLifeOps], [CoordLifetime]); what
    the audit reports ([CoordAudit]); a commit, an amendment and a hold never
    oversell: after each the entries of the index stay within the ceiling at every
    instant on every resource taken ([IndexLog]: the log of insertions an index
    was built by, [CoordCapacity], [CoordRenewal]); time reconciliation does what
    is due and nothing else, on queues that stand for the records
    ([CoordReconcile]).

    Restart, by a simulation: [CoordMirror] says when two coordinators hold the
    same durable facts, and that replay respects it; [CoordLogged] has the rules
    for operations whose journal records replay to the state they leave,
    [CoordRestart] and [CoordReplay] apply them to every operation, and
    [CoordReopen] puts the directory under it: reopening gives the state back.
    [CoordTorn] has the same for a journal that ends inside a request or inside a
    record, as a kill leaves it.
    The requests it leaves out (an amendment to recurring terms, the revocation
    of an overcommit, a compaction) change the state with a restart, which is
    shown on concrete runs.  [CoordCompaction] says exactly which states can be
    opened again after a compaction.

    What is journalled can be read back, by a type invariant: [CoordTyped] says that
    tables, books and clock hold values within the bounds of the codec, and has the
    rules by which an operation keeps that and journals only records its own
    decoder accepts; [CoordTypedOps] applies them to every operation, to recovery
    and to the boot; [Journalled] adds that every request a server decodes is within
    the bounds, so recovery can decode whatever a server journals.

    Programs: whatever bytes a client sends, its session ends and its effect is a
    run of requests ([Server]), also when the bytes come over a socket in the pieces
    the kernel chooses, and no handle leaks ([Transport]); whatever the interleaving
    of the sessions and wherever a shutdown cuts them off, the frames they handled,
    one after the other, explain the fabric and every answer ([Process]), so the
    coordinator's theorems hold of the server; and wherever it is killed, also
    inside a request, its directory restores its fabric with the records that were
    complete ([Killed]).  The verdict of the inspection is
    decided by the bytes of the two files ([Inspect]).  The probe sends only
    requests the server can decode, and its exit code is the server's decision
    ([ProbeClient]).

    Several theorems state what the code does against its own comments or
    documents: a series regrown by an amendment, an overload accepted at the
    largest bandwidth, a snapshot or frame too large to be read back, an append
    after a failed flush, a lineage reported as a cycle, a hold that a retry
    strips of its capacity, a fence that a compaction and a restart lift, a state
    that is compacted into a snapshot nothing can read and the inspection calls
    sound, a shutdown that waits for the next connection, a flag of the probe
    without effect.

    ** Fuel and bounds

    A loop without a structural measure has fuel, and the fuel is shown or chosen
    to suffice: the segment tree is 63 levels deep (its range is below [2^63]); the
    journal reader and the session take the length of their input plus one, and
    each round consumes a byte at least; the lineage walks take the 4096 hops the
    code bounds them by; the resolution takes 4096 rounds plus one, the bound of
    the code.  The index theorems assume fewer than [2^24] operations, below the
    32-bit indices of the node arena; the theorems on overselling assume a log of
    at most [2^23] insertions and [2^62] bit/s together, for the same reason and
    so that no sum of the tree leaves 64 bits.

    Integers are [Z]; where the code computes in a fixed width the model reduces
    ([to_u], [to_i64]) or checks as the code does.

    ** What is not modelled, and why

    - Texts of errors and of the audit: callers branch on codes only.  The server
      puts an error's text into its answer; it is the parameter [describe].
    - The clock and the C library's files: arguments.  [Clock] yields the readings
      it is given; every fallible file operation takes an [Io] that says whether
      and where it fails.  Reading a file fails only for its size: the failures of
      [ftell] and [fread] in [read_all] are not modelled, nor are [flush] beyond
      its failure and directory creation.
    - The mutex: an operation is one step, and so is a round of a session, which
      shares nothing else with the other threads.  A kill inside such a step is
      seen in the directory only: its journal ends anywhere between what it was
      before the step and what it is behind it ([CoordTorn]).  A kill inside a
      compaction is in [StoreContract] only.  Memory below the mutex (the
      order of loads and stores) is not modelled; the two flags of the accept loop
      are set in one step.
    - The configuration flag [retain_journal_records], which no code reads.
    - Undefined behaviour: where [amend_locked] reads past the end of the
      successors (a series amended to fewer members), the model stops with
      [kInternal]; where the signed sums of [acquire_hold] overflow, it wraps.
    - The kernel: [Transport] has its calls as a class with their documented
      behaviour as laws; in the models of the programs a connection is the bytes
      its peer sends, and a bind or a connect succeeds or not.  The Windows
      branches are not modelled.
    - Entropy and the files named on a command line: identities drawn at random
      are given.
    - The benchmark, example and test programs. *)
From Stdlib Require Export ZArith Lia List Bool Strings.String Strings.Byte Sorted Permutation.
From stdpp Require Export base tactics list.
Export ListNotations.


(** ** Notations and scope *)
Declare Scope brf_scope.
Delimit Scope brf_scope with brf.

#[global] Open Scope Z_scope.
#[global] Open Scope brf_scope.

(** A [char] of the program is a byte, a [std::string] (or [string_view]) a
    list of them. *)
Abbreviation bytes := (list Byte.byte).

(** String literals of the source, as bytes. *)
Definition str (s : string) : bytes := list_byte_of_string s.
Arguments str s%_string_scope.

(** ** Machine integers *)

(** [static_cast] to an unsigned [w]-bit integer: reduction modulo [2^w]. *)
Definition to_u (w z : Z) : Z := z mod 2 ^ w.

(** [static_cast<std::int64_t>] of an unsigned 64-bit value (two's complement). *)
Definition to_i64 (z : Z) : Z :=
  let u := to_u 64 z in if u <? 2 ^ 63 then u else u - 2 ^ 64.

Definition u_ok (w z : Z) : bool := (0 <=? z) && (z <? 2 ^ w).
Definition i64_ok (z : Z) : bool := (- 2 ^ 63 <=? z) && (z <? 2 ^ 63).

Definition i64_max : Z := 2 ^ 63 - 1.
Definition i64_min : Z := - 2 ^ 63.
Definition u64_max : Z := 2 ^ 64 - 1.

(** ** Bytes as integers *)
Definition b2z (b : byte) : Z := Z.of_N (Byte.to_N b).

(** [static_cast<char>] / [static_cast<std::uint8_t>]: the low eight bits. *)
Definition z2b (z : Z) : byte :=
  match Byte.of_N (Z.to_N (z mod 256)) with Some b => b | None => x00 end.

Lemma b2z_range b : 0 <= b2z b < 256.
Proof. unfold b2z. pose proof (Byte.to_N_bounded b). lia. Qed.

Lemma z2b_b2z b : z2b (b2z b) = b.
Proof.
  unfold z2b. rewrite Z.mod_small by apply b2z_range.
  unfold b2z. rewrite N2Z.id, Byte.of_to_N. reflexivity.
Qed.

Lemma b2z_z2b z : b2z (z2b z) = z mod 256.
Proof.
  unfold z2b, b2z. pose proof (Z.mod_pos_bound z 256).
  destruct (Byte.of_N (Z.to_N (z mod 256))) eqn:E.
  - apply Byte.to_of_N in E. lia.
  - apply Byte.of_N_None_iff in E. lia.
Qed.

Lemma b2z_inj a b : b2z a = b2z b -> a = b.
Proof. intros H. rewrite <- (z2b_b2z a), <- (z2b_b2z b). congruence. Qed.

Definition byte_eqb (a b : byte) : bool := Byte.eqb a b.

#[export] Instance byte_eq_dec : EqDecision byte := Byte.byte_eq_dec.

(** ** Shared automation *)

(** Boolean connectives and comparisons into propositions, in hypotheses. *)
Ltac bool_prop :=
  repeat match goal with
  | H : _ && _ = true |- _ => apply andb_true_iff in H; destruct H
  | H : _ || _ = false |- _ => apply orb_false_iff in H; destruct H
  | H : negb _ = true |- _ => apply negb_true_iff in H
  | H : negb _ = false |- _ => apply negb_false_iff in H
  | H : (_ =? _) = true |- _ => apply Z.eqb_eq in H
  | H : (_ =? _) = false |- _ => apply Z.eqb_neq in H
  | H : (_ <? _) = true |- _ => apply Z.ltb_lt in H
  | H : (_ <? _) = false |- _ => apply Z.ltb_ge in H
  | H : (_ <=? _) = true |- _ => apply Z.leb_le in H
  | H : (_ <=? _) = false |- _ => apply Z.leb_gt in H
  | H : (_ >? _) = true |- _ => rewrite Z.gtb_ltb in H; apply Z.ltb_lt in H
  | H : (_ >? _) = false |- _ => rewrite Z.gtb_ltb in H; apply Z.ltb_ge in H
  | H : (_ >=? _) = true |- _ => rewrite Z.geb_leb in H; apply Z.leb_le in H
  | H : (_ >=? _) = false |- _ => rewrite Z.geb_leb in H; apply Z.leb_gt in H
  end.

(** The same on the goal. *)
Ltac bool_goal :=
  repeat lazymatch goal with
  | |- _ && _ = true => apply andb_true_iff; split
  | |- negb _ = true => apply negb_true_iff
  | |- (_ =? _) = true => apply Z.eqb_eq
  | |- (_ =? _) = false => apply Z.eqb_neq
  | |- (_ <? _) = true => apply Z.ltb_lt
  | |- (_ <? _) = false => apply Z.ltb_ge
  | |- (_ <=? _) = true => apply Z.leb_le
  | |- (_ <=? _) = false => apply Z.leb_gt
  end.

(** Split a conjunction of checks without touching their conditions. *)
Ltac split_andb :=
  repeat match goal with
  | H : _ && _ = true |- _ => apply andb_true_iff in H; destruct H
  end.

(** Case analysis on the condition of the first [if] of the goal. *)
Ltac case_if :=
  match goal with |- context [if ?c then _ else _] => destruct c eqn:? end.

(** Case analysis on the condition of the first [if] of a hypothesis. *)
Ltac case_if_in H :=
  match type of H with context [if ?c then _ else _] => destruct c eqn:? end.

(** Case analysis on the first [match] of the goal. *)
Ltac case_match_goal :=
  match goal with |- context [match ?c with _ => _ end] => destruct c eqn:? end.

Ltac blia := bool_prop; lia.

Create HintDb brf discriminated.
Create Rewrite HintDb brf.

Lemma to_u_range w z : 0 <= w -> 0 <= to_u w z < 2 ^ w.
Proof. intros. unfold to_u. apply Z.mod_pos_bound. apply Z.pow_pos_nonneg; lia. Qed.

Lemma to_u_id w z : u_ok w z = true -> to_u w z = z.
Proof. unfold u_ok, to_u. intros. bool_prop. apply Z.mod_small. lia. Qed.

Lemma to_i64_to_u z : i64_ok z = true -> to_i64 (to_u 64 z) = z.
Proof.
  unfold i64_ok, to_i64, to_u. intros. bool_prop.
  rewrite Z.mod_mod by lia.
  destruct (Z.neg_nonneg_cases z).
  - rewrite <- (Z.mod_add z 1 (2 ^ 64)) by lia.
    rewrite Z.mod_small by lia. case_if; bool_prop; lia.
  - rewrite Z.mod_small by lia. case_if; bool_prop; lia.
Qed.

Lemma to_i64_ok z : i64_ok (to_i64 z) = true.
Proof.
  unfold to_i64, i64_ok. pose proof (to_u_range 64 z).
  case_if; bool_goal; bool_prop; lia.
Qed.

Lemma to_u_to_i64 z : u_ok 64 z = true -> to_u 64 (to_i64 z) = z.
Proof.
  intros H. unfold to_i64. rewrite (to_u_id 64 z H). unfold u_ok in H. bool_prop.
  case_if; unfold to_u; [apply Z.mod_small; lia|].
  replace (z - 2 ^ 64) with (z + -1 * 2 ^ 64) by ring.
  rewrite Z.mod_add by lia. apply Z.mod_small. lia.
Qed.

#[export] Hint Resolve to_i64_ok b2z_range : brf.

(** ** Lists *)
Lemma forallb_rev {A} (f : A -> bool) l : forallb f (rev l) = forallb f l.
Proof.
  induction l as [|a l IH]; simpl; [reflexivity|].
  rewrite forallb_app, IH. simpl. rewrite andb_true_r, andb_comm. reflexivity.
Qed.

(** [forallb] over an initial segment of the naturals decides a bounded
    universal statement. *)
Lemma forallb_seq (f : Z -> bool) n z :
  forallb (fun i => f (Z.of_nat i)) (seq 0 n) = true ->
  0 <= z < Z.of_nat n -> f z = true.
Proof.
  intros H Hz. rewrite forallb_forall in H.
  rewrite <- (Z2Nat.id z) by lia. apply H. apply in_seq. lia.
Qed.

(** The same over [p] integers from [lo], by halving: ranges too long for [nat]. *)
Fixpoint all_below (f : Z -> bool) (p : positive) (lo : Z) : bool :=
  match p with
  | xH => f lo
  | xO p => all_below f p lo && all_below f p (lo + Zpos p)
  | xI p => all_below f p lo && all_below f p (lo + Zpos p) && f (lo + 2 * Zpos p)
  end.

Lemma all_below_spec f p lo z :
  all_below f p lo = true -> lo <= z < lo + Zpos p -> f z = true.
Proof.
  revert lo. induction p as [p IH|p IH|]; cbn [all_below]; intros lo H Hz.
  - bool_prop. destruct (Z.eq_dec z (lo + 2 * Zpos p)) as [->|]; [assumption|].
    destruct (Z.lt_ge_cases z (lo + Zpos p));
      [apply (IH lo) | apply (IH (lo + Zpos p))]; try assumption; lia.
  - bool_prop. destruct (Z.lt_ge_cases z (lo + Zpos p));
      [apply (IH lo) | apply (IH (lo + Zpos p))]; try assumption; lia.
  - replace z with lo by lia. exact H.
Qed.
