(* ===== verification/Errors.v ===== *)
(** * Error taxonomy and the [Result] carrier

    [include/brf/error.hpp] and [src/error.cpp].  Every fallible operation of
    the fabric returns a [Result<T>]: a value or an [Error].  Callers branch on
    the code of the error and never on its message, so an error of the model is
    its code; the message text is not modelled. *)
From S2P Require Import Prelude.

Inductive ErrorCode :=
  | kOk | kInvalidArgument | kInvalidInterval | kInvalidBandwidth
  | kInvalidIdentity | kInvalidName | kOverflow | kNotFound | kAlreadyExists
  | kGenerationMismatch | kStaleEpoch | kStaleGeneration | kFencedClaimant
  | kAuthorityRequired | kPolicyRejected | kInsufficientCapacity
  | kCapacityOvercommit | kIllegalTransition | kIdempotentReplay | kConflict
  | kCorrupt | kTornTail | kIo | kUnsupported | kResourceExhausted
  | kCancelled | kShuttingDown | kInternal.

#[export] Instance ErrorCode_eq_dec : EqDecision ErrorCode.
Proof. solve_decision. Defined.

(** The [std::uint16_t] an error code is on the wire. *)
Definition ErrorCode_to_Z (c : ErrorCode) : Z :=
  match c with
  | kOk => 0 | kInvalidArgument => 1 | kInvalidInterval => 2
  | kInvalidBandwidth => 3 | kInvalidIdentity => 4 | kInvalidName => 5
  | kOverflow => 6 | kNotFound => 7 | kAlreadyExists => 8
  | kGenerationMismatch => 9 | kStaleEpoch => 10 | kStaleGeneration => 11
  | kFencedClaimant => 12 | kAuthorityRequired => 13 | kPolicyRejected => 14
  | kInsufficientCapacity => 15 | kCapacityOvercommit => 16
  | kIllegalTransition => 17 | kIdempotentReplay => 18 | kConflict => 19
  | kCorrupt => 20 | kTornTail => 21 | kIo => 22 | kUnsupported => 23
  | kResourceExhausted => 24 | kCancelled => 25 | kShuttingDown => 26
  | kInternal => 27
  end.

(** All codes, in declaration order: [static_cast<ErrorCode>(i)] is entry [i]. *)
Definition ErrorCode_all : list ErrorCode :=
  [ kOk; kInvalidArgument; kInvalidInterval; kInvalidBandwidth;
    kInvalidIdentity; kInvalidName; kOverflow; kNotFound; kAlreadyExists;
    kGenerationMismatch; kStaleEpoch; kStaleGeneration; kFencedClaimant;
    kAuthorityRequired; kPolicyRejected; kInsufficientCapacity;
    kCapacityOvercommit; kIllegalTransition; kIdempotentReplay; kConflict;
    kCorrupt; kTornTail; kIo; kUnsupported; kResourceExhausted;
    kCancelled; kShuttingDown; kInternal ].

Definition ErrorCode_to_string (c : ErrorCode) : bytes :=
  match c with
  | kOk => str "OK"
  | kInvalidArgument => str "INVALID_ARGUMENT"
  | kInvalidInterval => str "INVALID_INTERVAL"
  | kInvalidBandwidth => str "INVALID_BANDWIDTH"
  | kInvalidIdentity => str "INVALID_IDENTITY"
  | kInvalidName => str "INVALID_NAME"
  | kOverflow => str "OVERFLOW"
  | kNotFound => str "NOT_FOUND"
  | kAlreadyExists => str "ALREADY_EXISTS"
  | kGenerationMismatch => str "GENERATION_MISMATCH"
  | kStaleEpoch => str "STALE_EPOCH"
  | kStaleGeneration => str "STALE_GENERATION"
  | kFencedClaimant => str "CLAIMANT_FENCED"
  | kAuthorityRequired => str "AUTHORITY_REQUIRED"
  | kPolicyRejected => str "POLICY_REJECTED"
  | kInsufficientCapacity => str "INSUFFICIENT_CAPACITY"
  | kCapacityOvercommit => str "CAPACITY_OVERCOMMIT"
  | kIllegalTransition => str "ILLEGAL_TRANSITION"
  | kIdempotentReplay => str "IDEMPOTENT_REPLAY"
  | kConflict => str "CONFLICT"
  | kCorrupt => str "CORRUPT"
  | kTornTail => str "TORN_TAIL"
  | kIo => str "IO"
  | kUnsupported => str "UNSUPPORTED"
  | kResourceExhausted => str "RESOURCE_EXHAUSTED"
  | kCancelled => str "CANCELLED"
  | kShuttingDown => str "SHUTTING_DOWN"
  | kInternal => str "INTERNAL"
  end.

Definition is_authority_refusal (c : ErrorCode) : bool :=
  match c with
  | kStaleEpoch | kStaleGeneration | kGenerationMismatch
  | kFencedClaimant | kAuthorityRequired => true
  | _ => false
  end.

(** [Result<T>]: a value or an error, never both.  [Status] is [Result<void>]. *)
Inductive Result (A : Type) :=
  | Ok (a : A)
  | Err (e : ErrorCode).
Arguments Ok {A} a.
Arguments Err {A} e.

Abbreviation Status := (Result unit).

Definition has_value {A} (r : Result A) : bool :=
  match r with Ok _ => true | Err _ => false end.

Definition rbind {A B} (r : Result A) (k : A -> Result B) : Result B :=
  match r with Ok a => k a | Err e => Err e end.

(** [guard c e]: the early return [if (c) return make_error(e, ...)]. *)
Definition refuse (c : bool) (e : ErrorCode) : Status :=
  if c then Err e else Ok tt.

Notation "'let?' x := r 'in' k" := (rbind r (fun x => k))
  (at level 10, x pattern, r at level 100, k at level 200) : brf_scope.
Notation "'refuse_if' c 'with' e 'in' k" := (rbind (refuse c e) (fun _ => k))
  (at level 10, c at level 100, e at level 100, k at level 200) : brf_scope.

Lemma rbind_Ok {A B} (r : Result A) (k : A -> Result B) b :
  rbind r k = Ok b -> exists a, r = Ok a /\ k a = Ok b.
Proof. destruct r; simpl; [eauto | discriminate]. Qed.

Lemma refuse_Ok c e u : refuse c e = Ok u -> c = false.
Proof. unfold refuse. destruct c; [discriminate | reflexivity]. Qed.

Lemma rbind_refuse_Ok {B} c e (k : unit -> Result B) b :
  rbind (refuse c e) k = Ok b <-> c = false /\ k tt = Ok b.
Proof. unfold refuse. destruct c; simpl; split; intuition discriminate. Qed.

Lemma rbind_assoc {A B C} (r : Result A) (f : A -> Result B) (g : B -> Result C) :
  rbind (rbind r f) g = rbind r (fun a => rbind (f a) g).
Proof. destruct r; reflexivity. Qed.

(** Inversion of a successful computation: one equation per step, one
    [false] condition per early return passed. *)
Ltac inv_result :=
  repeat match goal with
  | H : rbind (refuse _ _) _ = Ok _ |- _ =>
      apply rbind_refuse_Ok in H; destruct H as [? H]
  | H : rbind _ _ = Ok _ |- _ =>
      let a := fresh "a" in let E := fresh "E" in
      apply rbind_Ok in H; destruct H as (a & E & H)
  | H : Ok _ = Ok _ |- _ => injection H; clear H; intros; subst
  | H : Err _ = Ok _ |- _ => discriminate H
  | H : Ok _ = Err _ |- _ => discriminate H
  end.

Lemma ErrorCode_to_Z_range c : 0 <= ErrorCode_to_Z c <= 27.
Proof. destruct c; simpl; lia. Qed.

Lemma ErrorCode_all_lookup c :
  ErrorCode_all !! Z.to_nat (ErrorCode_to_Z c) = Some c.
Proof. destruct c; reflexivity. Qed.

(** A code has one spelling: [to_string] is injective on the closed taxonomy. *)
Lemma ErrorCode_to_string_inj c d :
  ErrorCode_to_string c = ErrorCode_to_string d -> c = d.
Proof. destruct c, d; try reflexivity; vm_compute; discriminate. Qed.
