(* ===== verification/Containers.v ===== *)
(** * Ordered containers

    The program keeps its state in [std::map] and [std::multimap] and relies on
    their iteration order (recovery, snapshots and victim selection walk the
    maps), so the model keeps the order too: a map is a list of pairs sorted
    by key, and a multimap a list sorted by key in which equal keys stay in
    insertion order.  [OrdKey] is the interface a key type offers: a three-way
    comparison ([operator<=>]) that is a strict total order. *)
From stdpp Require Import sorting.
From S2P Require Import Prelude.

(** ** Totally ordered keys *)
Class OrdKey (K : Type) := {
  kcmp : K -> K -> comparison;
  kcmp_eq : forall a b, kcmp a b = Eq <-> a = b;
  kcmp_antisym : forall a b, kcmp b a = CompOpp (kcmp a b);
  kcmp_trans : forall a b c, kcmp a b = Lt -> kcmp b c = Lt -> kcmp a c = Lt
}.

Section keys.
Context {K : Type} `{OrdKey K}.

Definition keqb (a b : K) : bool :=
    match kcmp a b with Eq => true | _ => false end.
Definition kltb (a b : K) : bool :=
    match kcmp a b with Lt => true | _ => false end.
Definition kleb (a b : K) : bool :=
    match kcmp a b with Gt => false | _ => true end.

Lemma kcmp_refl a : kcmp a a = Eq.
  Proof. apply kcmp_eq. reflexivity. Qed.

Lemma keqb_eq a b : keqb a b = true <-> a = b.
  Proof.
    unfold keqb. rewrite <- kcmp_eq.
    destruct (kcmp a b); split; congruence.
  Qed.

Lemma keqb_refl a : keqb a a = true.
  Proof. apply keqb_eq. reflexivity. Qed.

Lemma keqb_neq a b : keqb a b = false <-> a <> b.
  Proof. rewrite <- not_true_iff_false, keqb_eq. reflexivity. Qed.

Lemma keqb_sym a b : keqb a b = keqb b a.
  Proof. unfold keqb. rewrite (kcmp_antisym b a). destruct (kcmp b a); reflexivity. Qed.

Lemma kltb_Lt a b : kltb a b = true <-> kcmp a b = Lt.
  Proof. unfold kltb. destruct (kcmp a b); split; congruence. Qed.

Lemma kcmp_Gt a b : kcmp a b = Gt <-> kcmp b a = Lt.
  Proof. rewrite (kcmp_antisym a b). destruct (kcmp a b); simpl; split; congruence. Qed.

Lemma kltb_irrefl a : kltb a a = false.
  Proof. unfold kltb. rewrite kcmp_refl. reflexivity. Qed.

Lemma kltb_trans a b c : kltb a b = true -> kltb b c = true -> kltb a c = true.
  Proof. rewrite !kltb_Lt. apply kcmp_trans. Qed.

Lemma kltb_neq a b : kltb a b = true -> a <> b.
  Proof. intros L ->. rewrite kltb_irrefl in L. discriminate. Qed.

Lemma kltb_total a b : a <> b -> kltb a b = true \/ kltb b a = true.
  Proof.
    intros N. rewrite !kltb_Lt. rewrite <- (kcmp_Gt a b).
    destruct (kcmp a b) eqn:E; auto. apply kcmp_eq in E. contradiction.
  Qed.

Lemma kleb_negb a b : kleb a b = negb (kltb b a).
  Proof.
    unfold kleb, kltb. rewrite (kcmp_antisym a b). destruct (kcmp a b); reflexivity.
  Qed.

Lemma kleb_trans a b c : kleb a b = true -> kleb b c = true -> kleb a c = true.
  Proof.
    rewrite !kleb_negb, !negb_true_iff. intros A B.
    destruct (kltb c a) eqn:C; [|reflexivity].
    destruct (kcmp a b) eqn:E.
    - apply kcmp_eq in E. subst. congruence.
    - assert (kltb c b = true) by (eapply kltb_trans; [exact C|]; now apply kltb_Lt).
      congruence.
    - apply kcmp_Gt in E. apply kltb_Lt in E. congruence.
  Qed.

End keys.

#[export] Hint Resolve keqb_refl kltb_irrefl : brf.

(** *** Instances *)
#[export] Program Instance OrdKey_Z : OrdKey Z := {| kcmp := Z.compare |}.
Next Obligation. intros. apply Z.compare_eq_iff. Qed.
Next Obligation. intros. apply Z.compare_antisym. Qed.
Next Obligation. intros a b c. rewrite !Z.compare_lt_iff. lia. Qed.

(** A key type that embeds into an ordered one. *)
Program Definition OrdKey_inj {A B} `{OrdKey B} (f : A -> B)
  (f_inj : forall x y, f x = f y -> x = y) : OrdKey A :=
  {| kcmp a b := kcmp (f a) (f b) |}.
Next Obligation.
  intros A B O f f_inj a b. rewrite kcmp_eq. split; [apply f_inj | congruence].
Qed.
Next Obligation. intros A B O f f_inj a b. apply kcmp_antisym. Qed.
Next Obligation. intros A B O f f_inj a b c. apply kcmp_trans. Qed.

#[export] Instance OrdKey_byte : OrdKey byte := OrdKey_inj b2z b2z_inj.

(** Lexicographic order on pairs. *)
Definition cmp_then (c d : comparison) : comparison :=
  match c with Eq => d | _ => c end.

#[export] Program Instance OrdKey_pair {A B} `{OrdKey A} `{OrdKey B} : OrdKey (A * B) :=
  {| kcmp p q := cmp_then (kcmp p.1 q.1) (kcmp p.2 q.2) |}.
Next Obligation.
  intros A B OA OB [a1 b1] [a2 b2]. simpl. unfold cmp_then.
  destruct (kcmp a1 a2) eqn:E.
  - apply kcmp_eq in E. subst. rewrite kcmp_eq. split; congruence.
  - split; [discriminate|]. intros [= -> ->]. rewrite kcmp_refl in E. discriminate.
  - split; [discriminate|]. intros [= -> ->]. rewrite kcmp_refl in E. discriminate.
Qed.
Next Obligation.
  intros A B OA OB [a1 b1] [a2 b2]. simpl. unfold cmp_then.
  rewrite (kcmp_antisym a1 a2), (kcmp_antisym b1 b2). destruct (kcmp a1 a2); reflexivity.
Qed.
Next Obligation.
  intros A B OA OB [a1 b1] [a2 b2] [a3 b3]. simpl. unfold cmp_then.
  destruct (kcmp a1 a2) eqn:E1; [|..|discriminate].
  - apply kcmp_eq in E1. subst. destruct (kcmp a2 a3); eauto using kcmp_trans.
  - intros _. destruct (kcmp a2 a3) eqn:E2; [|..|discriminate].
    + apply kcmp_eq in E2. subst. rewrite E1. reflexivity.
    + rewrite (kcmp_trans _ _ _ E1 E2). reflexivity.
Qed.

(** Lexicographic order on sequences ([std::string_view], [std::array]). *)
Fixpoint list_cmp {A} `{OrdKey A} (l m : list A) : comparison :=
  match l, m with
  | [], [] => Eq
  | [], _ :: _ => Lt
  | _ :: _, [] => Gt
  | a :: l, b :: m => cmp_then (kcmp a b) (list_cmp l m)
  end.

#[export] Program Instance OrdKey_list {A} `{OrdKey A} : OrdKey (list A) :=
  {| kcmp := list_cmp |}.
Next Obligation.
  intros A O l. induction l as [|a l IH]; intros [|b m]; simpl;
    [split; congruence..|].
  unfold cmp_then. destruct (kcmp a b) eqn:E.
  - apply kcmp_eq in E. subst. rewrite IH. split; congruence.
  - split; [discriminate|]. intros [= -> ->]. rewrite kcmp_refl in E. discriminate.
  - split; [discriminate|]. intros [= -> ->]. rewrite kcmp_refl in E. discriminate.
Qed.
Next Obligation.
  intros A O l. induction l as [|a l IH]; intros [|b m]; simpl; try reflexivity.
  unfold cmp_then. rewrite (kcmp_antisym a b), IH. destruct (kcmp a b); reflexivity.
Qed.
Next Obligation.
  intros A O l. induction l as [|a l IH]; intros [|b m] [|c n]; simpl; try congruence.
  unfold cmp_then. destruct (kcmp a b) eqn:E1; [|..|discriminate].
  - apply kcmp_eq in E1. subst. destruct (kcmp b c); eauto.
  - intros _. destruct (kcmp b c) eqn:E2; [|..|discriminate].
    + apply kcmp_eq in E2. subst. rewrite E1. reflexivity.
    + rewrite (kcmp_trans _ _ _ E1 E2). reflexivity.
Qed.

(** ** [std::map] *)
Abbreviation omap K V := (list (K * V)).

Section omap.
Context {K V : Type} `{OrdKey K}.
  Implicit Types (m : omap K V) (k : K) (v : V).

  (** [find(k)], [None] for [end()]. *)
Fixpoint om_find m k : option V :=
    match m with
    | [] => None
    | (k', v) :: m => if keqb k' k then Some v else om_find m k
    end.

  (** [m[k] = v]: overwrite in place, or insert where the order wants it. *)
Fixpoint om_set m k v : omap K V :=
    match m with
    | [] => [(k, v)]
    | (k', v') :: m' =>
        match kcmp k k' with
        | Lt => (k, v) :: m
        | Eq => (k, v) :: m'
        | Gt => (k', v') :: om_set m' k v
        end
    end.

  (** [erase(k)]. *)
Definition om_erase m k : omap K V := List.filter (fun p => negb (keqb p.1 k)) m.

Definition om_mem m k : bool := match om_find m k with Some _ => true | None => false end.
Definition om_keys m : list K := m.*1.
Definition om_values m : list V := m.*2.

  (** Well-formed: keys strictly increase. *)
Definition om_sorted m : Prop := StronglySorted (fun p q => kltb p.1 q.1 = true) m.

Lemma om_find_set_eq m k v : om_find (om_set m k v) k = Some v.
  Proof.
    induction m as [|[k' v'] m IH]; simpl; [now rewrite keqb_refl|].
    destruct (kcmp k k') eqn:E; simpl; rewrite ?keqb_refl; [reflexivity..|].
    rewrite keqb_sym. unfold keqb at 1. rewrite E. exact IH.
  Qed.

Lemma om_find_set_ne m k k' v : k <> k' -> om_find (om_set m k v) k' = om_find m k'.
  Proof.
    intros N. apply keqb_neq in N.
    induction m as [|[k0 v0] m IH]; simpl; [now rewrite N|].
    destruct (kcmp k k0) eqn:E; simpl; rewrite ?N; [|reflexivity|now rewrite IH].
    apply kcmp_eq in E. subst. now rewrite N.
  Qed.

Lemma om_find_set m k k' v :
    om_find (om_set m k v) k' = if keqb k k' then Some v else om_find m k'.
  Proof.
    destruct (keqb k k') eqn:E.
    - apply keqb_eq in E. subst. apply om_find_set_eq.
    - apply om_find_set_ne. now apply keqb_neq.
  Qed.

Lemma om_find_erase m k k' :
    om_find (om_erase m k) k' = if keqb k k' then None else om_find m k'.
  Proof.
    induction m as [|[k0 v0] m IH]; simpl; [now case_if|].
    destruct (keqb k0 k) eqn:E; simpl.
    - apply keqb_eq in E. subst. rewrite IH. destruct (keqb k k'); reflexivity.
    - rewrite IH. destruct (keqb k0 k') eqn:E'; [|reflexivity].
      apply keqb_eq in E'. subst. rewrite keqb_sym, E. reflexivity.
  Qed.

Lemma om_find_In m k v : om_find m k = Some v -> In (k, v) m.
  Proof.
    induction m as [|[k' v'] m IH]; simpl; [discriminate|].
    destruct (keqb k' k) eqn:E; [|auto].
    apply keqb_eq in E. intros [= ->]. subst. auto.
  Qed.

Lemma om_sorted_cons p m :
    om_sorted (p :: m) <-> om_sorted m /\ (forall q, In q m -> kltb p.1 q.1 = true).
  Proof.
    unfold om_sorted. split.
    - intros S. inversion S as [|? ? S' F]; subst. split; [exact S'|].
      now apply List.Forall_forall.
    - intros [S F]. constructor; [exact S|]. now apply List.Forall_forall.
  Qed.

Lemma om_In_find m k v : om_sorted m -> In (k, v) m -> om_find m k = Some v.
  Proof.
    induction m as [|[k' v'] m IH]; simpl; [contradiction|].
    intros S [[= -> ->]|I]; [now rewrite keqb_refl|].
    apply om_sorted_cons in S. destruct S as [S F].
    specialize (F _ I). simpl in F. apply kltb_neq, keqb_neq in F. rewrite F. auto.
  Qed.

Lemma om_set_In m k v q : In q (om_set m k v) -> q = (k, v) \/ In q m.
  Proof.
    induction m as [|[k' v'] m IH]; simpl; [intuition auto|].
    destruct (kcmp k k'); simpl; intuition auto.
  Qed.

Lemma om_set_sorted m k v : om_sorted m -> om_sorted (om_set m k v).
  Proof.
    induction m as [|[k' v'] m IH]; simpl; intros S.
    { constructor; [exact S | constructor]. }
    pose proof S as S0. apply om_sorted_cons in S. destruct S as [S F].
    destruct (kcmp k k') eqn:E; apply om_sorted_cons.
    - apply kcmp_eq in E. subst. auto.
    - apply kltb_Lt in E. split; [exact S0|]. simpl. intros q [<-|I]; [exact E|].
      eapply kltb_trans; [exact E | exact (F _ I)].
    - split; [auto|]. intros q I. apply om_set_In in I. destruct I as [->|I]; [|auto].
      apply kcmp_Gt in E. now apply kltb_Lt.
  Qed.

Lemma om_erase_In m k q : In q (om_erase m k) <-> In q m /\ q.1 <> k.
  Proof.
    unfold om_erase. rewrite filter_In, negb_true_iff, keqb_neq. reflexivity.
  Qed.

Lemma om_erase_sorted m k : om_sorted m -> om_sorted (om_erase m k).
  Proof.
    induction m as [|p m IH]; simpl; intros S; [exact S|].
    apply om_sorted_cons in S. destruct S as [S F].
    destruct (negb (keqb p.1 k)); [|auto]. apply om_sorted_cons. split; [auto|].
    intros q I. apply om_erase_In in I. apply F, I.
  Qed.

Lemma om_find_None_In m k v : om_find m k = None -> ~ In (k, v) m.
  Proof.
    induction m as [|[k' v'] m IH]; simpl; [auto|].
    destruct (keqb k' k) eqn:E; [discriminate|]. apply keqb_neq in E.
    intros N [[= ? ?]|I]; [contradiction | now apply IH].
  Qed.
End omap.

#[export] Hint Resolve om_set_sorted om_erase_sorted om_find_In om_find_set_eq : brf.
#[export] Hint Rewrite @om_find_set_eq @om_find_set @om_find_erase : brf.

(** ** [std::multimap] *)
Section multimap.
Context {K V : Type} `{OrdKey K}.
  Implicit Types (m : list (K * V)) (k : K) (v : V).

  (** [emplace(k, v)]: after every element whose key is not greater. *)
Fixpoint mm_emplace m k v : list (K * V) :=
    match m with
    | [] => [(k, v)]
    | (k', v') :: m' =>
        if kltb k k' then (k, v) :: m else (k', v') :: mm_emplace m' k v
    end.

  (** Walk [equal_range(k)] and erase the first element that satisfies [P]. *)
Fixpoint mm_take m k (P : V -> bool) : option (V * list (K * V)) :=
    match m with
    | [] => None
    | (k', v) :: m' =>
        if keqb k' k && P v then Some (v, m')
        else match mm_take m' k P with
             | Some (w, r) => Some (w, (k', v) :: r)
             | None => None
             end
    end.

Definition mm_sorted m : Prop := StronglySorted (fun p q => kleb p.1 q.1 = true) m.

Lemma mm_emplace_perm m k v : mm_emplace m k v ≡ₚ (k, v) :: m.
  Proof.
    induction m as [|[k' v'] m IH]; simpl; [reflexivity|].
    destruct (kltb k k'); [reflexivity|]. rewrite IH. apply Permutation_swap.
  Qed.

Lemma mm_take_perm m k P w r :
    mm_take m k P = Some (w, r) -> m ≡ₚ (k, w) :: r /\ P w = true.
  Proof.
    revert r. induction m as [|[k' v'] m IH]; simpl; intros r; [discriminate|].
    destruct (keqb k' k && P v') eqn:E.
    - apply andb_true_iff in E. destruct E as [E1 E2]. apply keqb_eq in E1.
      intros [= <- <-]. subst. auto.
    - destruct (mm_take m k P) as [[w' r']|]; [|discriminate].
      intros [= <- <-]. destruct (IH r' eq_refl) as [IH1 IH2]. split; [|exact IH2].
      rewrite IH1. apply Permutation_swap.
  Qed.

Lemma mm_take_some m k P v :
    In (k, v) m -> P v = true -> exists w r, mm_take m k P = Some (w, r).
  Proof.
    induction m as [|[k' v'] m IH]; simpl; [contradiction|]. intros I Pv.
    destruct (keqb k' k && P v') eqn:E; [eauto|].
    destruct I as [[= -> ->]|I]; [rewrite keqb_refl, Pv in E; discriminate|].
    destruct (IH I Pv) as (w & r & ->). eauto.
  Qed.

Lemma mm_take_None m k P v : mm_take m k P = None -> In (k, v) m -> P v = false.
  Proof.
    intros N I. destruct (P v) eqn:E; [|reflexivity].
    destruct (mm_take_some _ _ _ _ I E) as (w & r & E'). congruence.
  Qed.

Lemma mm_emplace_sorted m k v : mm_sorted m -> mm_sorted (mm_emplace m k v).
  Proof.
    unfold mm_sorted. induction m as [|[k' v'] m IH]; simpl; intros S.
    { constructor; [exact S | constructor]. }
    inversion S as [|? ? S' F]; subst. rewrite List.Forall_forall in F.
    destruct (kltb k k') eqn:E; constructor; try exact S; auto.
    - constructor; [|]; simpl.
      + rewrite kleb_negb. destruct (kltb k' k) eqn:E'; [|reflexivity].
        pose proof (kltb_trans _ _ _ E E'). rewrite kltb_irrefl in *. discriminate.
      + apply List.Forall_forall. intros q I. specialize (F q I). simpl in *.
        eapply kleb_trans; [|exact F]. rewrite kleb_negb.
        destruct (kltb k' k) eqn:E'; [|reflexivity].
        pose proof (kltb_trans _ _ _ E E'). rewrite kltb_irrefl in *. discriminate.
    - apply List.Forall_forall. intros q I.
      rewrite mm_emplace_perm in I. destruct I as [<-|I]; [|exact (F _ I)].
      simpl. rewrite kleb_negb, E. reflexivity.
  Qed.

Lemma mm_take_sublist m k P w r q :
    mm_take m k P = Some (w, r) -> In q r -> In q m.
  Proof.
    intros E I. apply mm_take_perm in E. destruct E as [-> _]. simpl. auto.
  Qed.

Lemma mm_take_sorted m k P w r :
    mm_sorted m -> mm_take m k P = Some (w, r) -> mm_sorted r.
  Proof.
    unfold mm_sorted. revert r. induction m as [|[k' v'] m IH]; simpl; intros r S;
      [discriminate|].
    inversion S as [|? ? S' F]; subst.
    destruct (keqb k' k && P v'); [now intros [= <- <-]|].
    destruct (mm_take m k P) as [[w' r']|] eqn:E; [|discriminate].
    intros [= <- <-]. constructor; [now apply IH|].
    rewrite List.Forall_forall in F |- *. intros q I.
    apply F. now apply (mm_take_sublist _ _ _ _ _ _ E).
  Qed.
End multimap.

(** ** [std::sort]

    Insertion sort by a strict order.  Where two elements are equivalent for the
    order [std::sort] leaves their relative position open; the model keeps it. *)
Section sort.
Context {A : Type} (lt : A -> A -> bool).

Fixpoint sort_insert (x : A) (l : list A) : list A :=
    match l with
    | [] => [x]
    | y :: l' => if lt y x then y :: sort_insert x l' else x :: l
    end.

Definition sort (l : list A) : list A := foldr sort_insert [] l.

Lemma sort_insert_perm x l : sort_insert x l ≡ₚ x :: l.
  Proof.
    induction l as [|y l IH]; simpl; [reflexivity|].
    destruct (lt y x); [|reflexivity]. rewrite IH. apply Permutation_swap.
  Qed.

Lemma sort_perm l : sort l ≡ₚ l.
  Proof.
    induction l as [|x l IH]; simpl; [reflexivity|].
    rewrite sort_insert_perm, IH. reflexivity.
  Qed.

Lemma sort_In x l : In x (sort l) <-> In x l.
  Proof. rewrite sort_perm. reflexivity. Qed.

Hypothesis lt_asym : forall x y, lt x y = true -> lt y x = false.
Hypothesis lt_negtrans : forall x y z, lt x y = false -> lt y z = false -> lt x z = false.

Lemma sort_insert_sorted x l :
    StronglySorted (fun a b => lt b a = false) l ->
    StronglySorted (fun a b => lt b a = false) (sort_insert x l).
  Proof.
    induction l as [|y l IH]; simpl; intros S.
    { constructor; [exact S | constructor]. }
    inversion S as [|? ? S' F]; subst. rewrite List.Forall_forall in F.
    destruct (lt y x) eqn:E; constructor; auto.
    - apply List.Forall_forall. intros z I.
      rewrite sort_insert_perm in I. destruct I as [<-|I]; auto.
    - constructor; [exact E|]. apply List.Forall_forall. intros z I.
      eapply lt_negtrans; [exact (F z I) | exact E].
  Qed.

Lemma sort_sorted l : StronglySorted (fun a b => lt b a = false) (sort l).
  Proof. induction l; simpl; [constructor | now apply sort_insert_sorted]. Qed.
End sort.

(** [std::sort] by [operator<] of a key type: the sorted sequence is determined
    by the elements alone. *)
Definition sort_keys {K} `{OrdKey K} (l : list K) : list K := sort kltb l.

Section sort_keys.
Context {K : Type} `{OrdKey K}.

Lemma kltb_asym (a b : K) : kltb a b = true -> kltb b a = false.
  Proof.
    intros L. destruct (kltb b a) eqn:E; [|reflexivity].
    pose proof (kltb_trans _ _ _ L E) as I. rewrite kltb_irrefl in I. discriminate.
  Qed.

Lemma kltb_false_kleb (a b : K) : kltb a b = false <-> kleb b a = true.
  Proof. rewrite kleb_negb, negb_true_iff. reflexivity. Qed.

Lemma kltb_negtrans (a b c : K) : kltb a b = false -> kltb b c = false -> kltb a c = false.
  Proof. rewrite !kltb_false_kleb. eauto using kleb_trans. Qed.

Lemma sort_keys_sorted (l : list K) :
    StronglySorted (fun a b => kltb b a = false) (sort_keys l).
  Proof. apply sort_sorted; eauto using kltb_asym, kltb_negtrans. Qed.

Lemma sort_keys_perm (l l' : list K) : l ≡ₚ l' -> sort_keys l = sort_keys l'.
  Proof.
    intros P. apply (StronglySorted_unique_strong (fun a b => kltb b a = false)).
    - intros a b _ _ A B. destruct (decide (kcmp a b = Eq)) as [E|N]; [now apply kcmp_eq|].
      destruct (kltb_total a b) as [L|L]; [|congruence..].
      intros ->. apply N, kcmp_refl.
    - apply sort_keys_sorted.
    - apply sort_keys_sorted.
    - unfold sort_keys. rewrite !sort_perm. exact P.
  Qed.
End sort_keys.

(** [std::adjacent_find(begin, end) != end] on a sequence. *)
Fixpoint adjacent_dup {K} `{OrdKey K} (l : list K) : bool :=
  match l with
  | a :: (b :: _) as l' => keqb a b || adjacent_dup l'
  | _ => false
  end.

(** [erase(unique(begin, end), end)] on a sorted sequence. *)
Fixpoint unique_by {A} (eqb : A -> A -> bool) (l : list A) : list A :=
  match l with
  | a :: l' => match unique_by eqb l' with
               | b :: r => if eqb a b then a :: r else a :: b :: r
               | [] => [a]
               end
  | [] => []
  end.

(** Sorting and comparing neighbours finds any duplicate. *)
Lemma adjacent_dup_sorted {K} `{OrdKey K} (l : list K) :
  StronglySorted (fun a b => kltb b a = false) l -> (adjacent_dup l = false <-> NoDup l).
Proof.
  induction l as [|a [|b l] IH]; intros S.
  - split; [constructor | reflexivity].
  - split; [intros _; apply NoDup_singleton | reflexivity].
  - inversion S as [|? ? Sb Fa]; subst. specialize (IH Sb). cbn [adjacent_dup].
    rewrite orb_false_iff, IH, keqb_neq, (NoDup_cons a). split.
    + intros [N ND]. split; [|exact ND]. rewrite list_elem_of_In. intros [E|I]; [congruence|].
      rewrite List.Forall_forall in Fa. pose proof (Fa b (or_introl eq_refl)) as Lab.
      inversion Sb as [|? ? _ Fb]; subst. rewrite List.Forall_forall in Fb. specialize (Fb _ I).
      destruct (kltb_total a b N) as [L|L]; congruence.
    + intros [N ND]. split; [|exact ND]. intros ->. apply N. constructor.
Qed.

Lemma adjacent_dup_sort {K} `{OrdKey K} (l : list K) :
  adjacent_dup (sort_keys l) = false <-> NoDup l.
Proof.
  rewrite (adjacent_dup_sorted _ (sort_keys_sorted l)). unfold sort_keys. rewrite sort_perm. reflexivity.
Qed.

Lemma unique_by_In {A} (eqb : A -> A -> bool) (l : list A) a :
  (forall x y, eqb x y = true -> x = y) -> (In a (unique_by eqb l) <-> In a l).
Proof.
  intros Eq. induction l as [|b l IH]; [reflexivity|]. cbn [unique_by].
  destruct (unique_by eqb l) as [|c r].
  - simpl in *. tauto.
  - destruct (eqb b c) eqn:E; [apply Eq in E; subst c|]; simpl in *; tauto.
Qed.

(** A filter on the keys of a map. *)
Lemma om_find_filter {K V} `{OrdKey K} (f : K -> bool) (m : omap K V) k :
  om_find (List.filter (fun p => f p.1) m) k = if f k then om_find m k else None.
Proof.
  induction m as [|[k' v] m IH]; simpl; [destruct (f k); reflexivity|].
  destruct (keqb k' k) eqn:E.
  - apply keqb_eq in E. subst k'. destruct (f k) eqn:F; simpl; [now rewrite keqb_refl | exact IH].
  - destruct (f k'); simpl; rewrite ?E; exact IH.
Qed.

Lemma om_filter_sorted {K V} `{OrdKey K} (f : K * V -> bool) (m : omap K V) :
  om_sorted m -> om_sorted (List.filter f m).
Proof.
  induction m as [|p m IH]; intros S; [exact S|]. apply om_sorted_cons in S. destruct S as [S F].
  cbn [List.filter]. destruct (f p); [|auto]. apply om_sorted_cons. split; [auto|].
  intros q I. apply filter_In in I. apply F, I.
Qed.

Lemma om_sorted_NoDup {K V} `{OrdKey K} (m : omap K V) : om_sorted m -> NoDup (map fst m).
Proof.
  induction m as [|p m IH]; intros S; [constructor|]. apply om_sorted_cons in S. destruct S as [S F].
  cbn [map]. constructor; [|auto]. rewrite list_elem_of_In, in_map_iff. intros (q & E & I).
  specialize (F q I). rewrite E, kltb_irrefl in F. discriminate.
Qed.
