(* ===== verification/Identity.v ===== *)
(** * Identities, counters and names

    [include/brf/identity.hpp] and [src/identity.cpp]: the 128-bit identity and
    its hexadecimal spelling, the strong counters (one type per tag), decimal
    parsing and printing of 64-bit values, and the validated fixed-capacity
    names.  [random_identity] reads the entropy source and is not modelled. *)
From S2P Require Import Prelude Errors Containers.

(** ** [Identity128] *)

(** [std::array<std::uint8_t, 16>]; [id_ok] states the fixed length. *)
Record Identity128 := mkIdentity { id_bytes : bytes }.

Definition kByteCount : Z := 16.
Definition kHexLength : Z := 32.

Definition id_ok (i : Identity128) : bool := (Z.of_nat (length (id_bytes i)) =? kByteCount).

#[export] Instance Identity128_eq_dec : EqDecision Identity128.
Proof. solve_decision. Defined.

Lemma id_bytes_inj a b : id_bytes a = id_bytes b -> a = b.
Proof. destruct a, b; simpl; congruence. Qed.

#[export] Instance OrdKey_Identity128 : OrdKey Identity128 := OrdKey_inj id_bytes id_bytes_inj.

(** The value-initialised identity. *)
Definition nil_id : Identity128 := mkIdentity (repeat x00 16).

Definition is_nil (i : Identity128) : bool :=
  forallb (fun b => byte_eqb b x00) (id_bytes i).

(** *** Hexadecimal *)
Definition kHexDigits : bytes := str "0123456789abcdef".

Definition hex_value (ch : byte) : Z :=
  let c := b2z ch in
  if (48 <=? c) && (c <=? 57) then c - 48
  else if (97 <=? c) && (c <=? 102) then c - 97 + 10
  else if (65 <=? c) && (c <=? 70) then c - 65 + 10
  else -1.

(** [kHexDigits[i]]. *)
Definition hex_digit (i : Z) : byte := nth (Z.to_nat i) kHexDigits x00.

Definition to_hex (i : Identity128) : bytes :=
  flat_map (fun b => [hex_digit (Z.land (Z.shiftr (b2z b) 4) 15);
                      hex_digit (Z.land (b2z b) 15)]) (id_bytes i).

(** The loop of [from_hex]: two characters per byte. *)
Fixpoint hex_pairs (s : bytes) : option bytes :=
  match s with
  | [] => Some []
  | h :: l :: s =>
      let hi := hex_value h in
      let lo := hex_value l in
      if (hi <? 0) || (lo <? 0) then None
      else match hex_pairs s with
           | Some r => Some (z2b (Z.lor (Z.shiftl hi 4) lo) :: r)
           | None => None
           end
  | [_] => None
  end.

Definition from_hex (hex : bytes) : Result Identity128 :=
  refuse_if negb (Z.of_nat (length hex) =? kHexLength) with kInvalidIdentity in
  match hex_pairs hex with
  | Some b => Ok (mkIdentity b)
  | None => Err kInvalidIdentity
  end.

(** [format_identity]: 8-4-4-4-12 groups. *)
Definition substr (s : bytes) (pos n : nat) : bytes := firstn n (skipn pos s).

Definition format_identity (i : Identity128) : bytes :=
  let hex := to_hex i in
  substr hex 0 8 ++ str "-" ++ substr hex 8 4 ++ str "-" ++ substr hex 12 4 ++
  str "-" ++ substr hex 16 4 ++ str "-" ++ substr hex 20 12.

(** ** Counters

    [Counter<Tag>]: one type per tag, so a generation of one kind is not a
    generation of another. *)
Inductive CounterTag :=
  | ReservationGenerationTag | ClaimantGenerationTag | ResourceGenerationTag
  | PathAuthorityGenerationTag | CapacitySnapshotGenerationTag
  | PolicyGenerationTag | FabricEpochTag | DurableSequenceTag
  | SeriesGenerationTag | SeriesIndexTag | HoldGenerationTag
  | SessionGenerationTag | FailureDomainGenerationTag.

Record Counter (t : CounterTag) := mkCounter { value : Z }.
Arguments mkCounter {t} value.
Arguments value {t} c : rename.

Abbreviation ReservationGeneration := (Counter ReservationGenerationTag).
Abbreviation ClaimantGeneration := (Counter ClaimantGenerationTag).
Abbreviation ResourceGeneration := (Counter ResourceGenerationTag).
Abbreviation PathAuthorityGeneration := (Counter PathAuthorityGenerationTag).
Abbreviation CapacitySnapshotGeneration := (Counter CapacitySnapshotGenerationTag).
Abbreviation PolicyGeneration := (Counter PolicyGenerationTag).
Abbreviation FabricEpoch := (Counter FabricEpochTag).
Abbreviation DurableSequence := (Counter DurableSequenceTag).
Abbreviation SeriesGeneration := (Counter SeriesGenerationTag).
Abbreviation SeriesIndex := (Counter SeriesIndexTag).
Abbreviation HoldGeneration := (Counter HoldGenerationTag).
Abbreviation FailureDomainGeneration := (Counter FailureDomainGenerationTag).

#[export] Instance Counter_eq_dec t : EqDecision (Counter t).
Proof. solve_decision. Defined.

Lemma value_inj {t} (a b : Counter t) : value a = value b -> a = b.
Proof. destruct a, b; simpl; congruence. Qed.

#[export] Instance OrdKey_Counter t : OrdKey (Counter t) := OrdKey_inj value value_inj.

Definition counter_ok {t} (c : Counter t) : bool := u_ok 64 (value c).

(** [Counter::next]: the next value, or an overflow error at the ceiling. *)
Definition next {t} (c : Counter t) : Result (Counter t) :=
  refuse_if value c =? u64_max with kOverflow in
  Ok (mkCounter (value c + 1)).

(** ** Decimal *)

(** The character loop of [parse_uint64_decimal]. *)
Fixpoint decimal_loop (text : bytes) (acc : Z) : Result Z :=
  match text with
  | [] => Ok acc
  | ch :: text =>
      let c := b2z ch in
      if (c <? 48) || (57 <? c) then Err kInvalidArgument
      else
        let digit := c - 48 in
        if acc >? (u64_max - digit) / 10 then Err kOverflow
        else decimal_loop text (to_u 64 (to_u 64 (acc * 10) + digit))
  end.

Definition parse_uint64_decimal (text : bytes) : Result Z :=
  refuse_if (Z.of_nat (length text) =? 0) with kInvalidArgument in
  refuse_if (Z.of_nat (length text) >? 20) with kOverflow in
  decimal_loop text 0.

(** The digit loop of [to_decimal], least significant digit first.  [room] is
    what is left of [char buffer[20]]; [None] would be a write past its end. *)
Fixpoint decimal_digits (room : nat) (v : Z) : option bytes :=
  if v <=? 0 then Some []
  else match room with
       | O => None
       | S room =>
           match decimal_digits room (v / 10) with
           | Some ds => Some (z2b (48 + v mod 10) :: ds)
           | None => None
           end
       end.

Definition to_decimal (v : Z) : bytes :=
  if v =? 0 then str "0"
  else match decimal_digits 20 v with Some ds => rev ds | None => [] end.

Definition parse_counter {t} (text : bytes) : Result (Counter t) :=
  let? v := parse_uint64_decimal text in Ok (mkCounter v).

Definition counter_to_string {t} (c : Counter t) : bytes := to_decimal (value c).

(** ** Names *)

(** [FixedName<Capacity>]: the validated characters ([view()]); the unused part
    of the buffer is zero and never read. *)
Record FixedName (cap : Z) := mkName { name_view : bytes }.
Arguments mkName {cap} name_view.
Arguments name_view {cap} n : rename.

Definition name_char_ok (ch : byte) : bool :=
  let raw := b2z ch in
  let alpha := ((65 <=? raw) && (raw <=? 90)) || ((97 <=? raw) && (raw <=? 122)) in
  let digit := (48 <=? raw) && (raw <=? 57) in
  let punct := existsb (byte_eqb ch) (str "._-:/@+") in
  alpha || digit || punct.

(** [text.find("..") != npos]. *)
Fixpoint contains_dotdot (s : bytes) : bool :=
  match s with
  | a :: (b :: _) as s' => (byte_eqb a "."%byte && byte_eqb b "."%byte) || contains_dotdot s'
  | _ => false
  end.

Definition name_from_string {cap} (text : bytes) : Result (FixedName cap) :=
  refuse_if (Z.of_nat (length text) =? 0) with kInvalidName in
  refuse_if (Z.of_nat (length text) >? cap) with kInvalidName in
  refuse_if negb (forallb name_char_ok text) with kInvalidName in
  refuse_if contains_dotdot text with kInvalidName in
  Ok (mkName text).

Definition name_empty {cap} (n : FixedName cap) : bool := Z.of_nat (length (name_view n)) =? 0.

(** The value-initialised name. *)
Definition empty_name {cap} : FixedName cap := mkName [].

Abbreviation ResourceName := (FixedName 64).
Abbreviation PathName := (FixedName 64).
Abbreviation PolicyName := (FixedName 64).
Abbreviation FailureDomainName := (FixedName 64).
Abbreviation ActorName := (FixedName 48).

#[export] Instance FixedName_eq_dec cap : EqDecision (FixedName cap).
Proof. solve_decision. Defined.

Lemma name_view_inj {cap} (a b : FixedName cap) : name_view a = name_view b -> a = b.
Proof. destruct a, b; simpl; congruence. Qed.

#[export] Instance OrdKey_FixedName cap : OrdKey (FixedName cap) :=
  OrdKey_inj name_view name_view_inj.

(** A name the program can hold: empty, or accepted by [from_string]. *)
Definition name_ok {cap} (n : FixedName cap) : bool :=
  name_empty n || has_value (@name_from_string cap (name_view n)).

(** ** Hexadecimal round trip *)

Lemma hex_pair_value b :
  hex_value (hex_digit (Z.land (Z.shiftr (b2z b) 4) 15)) = Z.shiftr (b2z b) 4 /\
  hex_value (hex_digit (Z.land (b2z b) 15)) = Z.land (b2z b) 15 /\
  z2b (Z.lor (Z.shiftl (Z.shiftr (b2z b) 4) 4) (Z.land (b2z b) 15)) = b /\
  0 <= Z.shiftr (b2z b) 4 /\ 0 <= Z.land (b2z b) 15.
Proof. destruct b; vm_compute; intuition congruence. Qed.

Lemma length_to_hex i : length (to_hex i) = (2 * length (id_bytes i))%nat.
Proof. unfold to_hex. induction (id_bytes i); simpl; lia. Qed.

Lemma hex_pairs_to_hex l :
  hex_pairs (to_hex (mkIdentity l)) = Some l.
Proof.
  unfold to_hex. simpl. induction l as [|b l IH]; [reflexivity|].
  cbn [flat_map app hex_pairs]. rewrite IH.
  destruct (hex_pair_value b) as (-> & -> & -> & A & B).
  case_if; [|reflexivity]. apply orb_true_iff in Heqb0. destruct Heqb0; blia.
Qed.

Lemma from_hex_to_hex i : id_ok i = true -> from_hex (to_hex i) = Ok i.
Proof.
  unfold id_ok, kByteCount, from_hex, kHexLength. intros H. bool_prop.
  rewrite length_to_hex. replace (Z.of_nat (2 * length (id_bytes i)) =? 32) with true
    by (symmetry; apply Z.eqb_eq; lia).
  destruct i as [l]. simpl in *. rewrite hex_pairs_to_hex. reflexivity.
Qed.

Lemma hex_pairs_length n s b :
  (length s <= n)%nat -> hex_pairs s = Some b -> length s = (2 * length b)%nat.
Proof.
  revert s b. induction n as [|n IH]; intros [|h [|l s]] b; simpl; try discriminate.
  1,3: intros _ [= <-]; reflexivity.
  1: lia.
  intros Hn. case_if; [discriminate|].
  destruct (hex_pairs s) as [r|] eqn:E; [|discriminate].
  intros [= <-]. simpl. rewrite (IH s r); [lia | lia | assumption].
Qed.

(** What [from_hex] accepts has 16 bytes. *)
Lemma from_hex_ok s i : from_hex s = Ok i -> id_ok i = true.
Proof.
  unfold from_hex, kHexLength. intros H. inv_result.
  destruct (hex_pairs s) as [b|] eqn:E; inv_result. bool_prop.
  apply (hex_pairs_length (length s)) in E; [|lia].
  unfold id_ok, kByteCount. simpl. bool_goal. lia.
Qed.

(** ** Decimal round trip *)

(** The value a digit string denotes, most significant digit first. *)
Fixpoint decimal_value (ds : bytes) (acc : Z) : Z :=
  match ds with
  | [] => acc
  | d :: ds => decimal_value ds (acc * 10 + (b2z d - 48))
  end.

Definition is_digit (ch : byte) : bool := (48 <=? b2z ch) && (b2z ch <=? 57).

Lemma decimal_value_app a b acc :
  decimal_value (a ++ b) acc = decimal_value b (decimal_value a acc).
Proof. revert acc. induction a; simpl; auto. Qed.

Lemma decimal_value_mono ds acc :
  forallb is_digit ds = true -> 0 <= acc -> acc <= decimal_value ds acc.
Proof.
  unfold is_digit. revert acc. induction ds as [|d ds IH]; simpl; intros acc H A; [lia|].
  bool_prop. etransitivity; [|apply IH; [assumption | lia]]. lia.
Qed.

(** The loop accepts a digit string exactly when its value fits 64 bits. *)
Lemma decimal_loop_spec ds acc :
  forallb is_digit ds = true -> 0 <= acc <= u64_max ->
  decimal_loop ds acc =
    if decimal_value ds acc <=? u64_max then Ok (decimal_value ds acc) else Err kOverflow.
Proof.
  revert acc. induction ds as [|d ds IH]; intros acc D A; cbn [decimal_loop decimal_value].
  { destruct (Z.leb_spec acc u64_max); [reflexivity | lia]. }
  cbn [forallb] in D. apply andb_true_iff in D. destruct D as [D Ds].
  pose proof D as D'. unfold is_digit in D'. bool_prop.
  replace ((b2z d <? 48) || (57 <? b2z d)) with false
    by (symmetry; apply orb_false_iff; split; apply Z.ltb_ge; lia).
  assert ((acc >? (u64_max - (b2z d - 48)) / 10) = (u64_max <? acc * 10 + (b2z d - 48))) as ->.
  { rewrite Z.gtb_ltb. apply eq_true_iff_eq. rewrite !Z.ltb_lt.
    unfold u64_max. pose proof (Z.div_mod (2 ^ 64 - 1 - (b2z d - 48)) 10).
    pose proof (Z.mod_pos_bound (2 ^ 64 - 1 - (b2z d - 48)) 10). lia. }
  destruct (Z.ltb_spec u64_max (acc * 10 + (b2z d - 48))) as [O|O].
  - pose proof (decimal_value_mono ds (acc * 10 + (b2z d - 48)) Ds ltac:(lia)).
    destruct (Z.leb_spec (decimal_value ds (acc * 10 + (b2z d - 48))) u64_max); [lia | reflexivity].
  - unfold u64_max in *. unfold to_u. rewrite (Z.mod_small (acc * 10)) by lia.
    rewrite Z.mod_small by lia. apply IH; [assumption | lia].
Qed.

Lemma decimal_digits_spec room v :
  0 <= v < 10 ^ Z.of_nat room ->
  exists ds, decimal_digits room v = Some ds /\ (length ds <= room)%nat /\
             forallb is_digit ds = true /\ decimal_value (rev ds) 0 = v /\
             (0 < v -> ds <> []).
Proof.
  revert v. induction room as [|room IH]; intros v Hv; cbn [decimal_digits].
  { destruct (Z.leb_spec v 0); [exists []; simpl; intuition lia|].
    change (10 ^ Z.of_nat 0) with 1 in Hv. lia. }
  destruct (Z.leb_spec v 0) as [L|L]; [exists []; simpl; intuition lia|].
  rewrite Nat2Z.inj_succ, Z.pow_succ_r in Hv by lia.
  destruct (IH (v / 10)) as (ds & -> & Len & Dig & Val & _).
  { split; [apply Z.div_pos; lia | apply Z.div_lt_upper_bound; lia]. }
  pose proof (Z.mod_pos_bound v 10 ltac:(lia)). pose proof (Z.div_mod v 10 ltac:(lia)).
  assert (b2z (z2b (48 + v mod 10)) = 48 + v mod 10) as B
    by (rewrite b2z_z2b; apply Z.mod_small; lia).
  eexists; split; [reflexivity|]. repeat split; simpl.
  - lia.
  - unfold is_digit at 1. rewrite B. rewrite Dig, andb_true_r. bool_goal; lia.
  - rewrite decimal_value_app, Val. simpl. rewrite B. lia.
  - discriminate.
Qed.

(** [to_decimal] never writes past [buffer[20]], and [parse_uint64_decimal]
    reads back what it printed. *)
Lemma to_decimal_spec v :
  u_ok 64 v = true ->
  forallb is_digit (to_decimal v) = true /\ decimal_value (to_decimal v) 0 = v /\
  1 <= Z.of_nat (length (to_decimal v)) <= 20.
Proof.
  unfold u_ok, to_decimal. intros H. bool_prop.
  destruct (Z.eqb_spec v 0) as [->|N]; [vm_compute; intuition congruence|].
  destruct (decimal_digits_spec 20 v) as (ds & -> & Len & Dig & Val & NE).
  { change (10 ^ Z.of_nat 20) with 100000000000000000000. lia. }
  rewrite forallb_rev, length_rev. repeat split; try assumption.
  - destruct ds; [exfalso; apply NE; [lia | reflexivity] | simpl; lia].
  - lia.
Qed.

Lemma parse_to_decimal v : u_ok 64 v = true -> parse_uint64_decimal (to_decimal v) = Ok v.
Proof.
  intros H. destruct (to_decimal_spec v H) as (D & V & L).
  unfold parse_uint64_decimal, refuse.
  destruct (Z.eqb_spec (Z.of_nat (length (to_decimal v))) 0); [lia|].
  rewrite Z.gtb_ltb. destruct (Z.ltb_spec 20 (Z.of_nat (length (to_decimal v)))); [lia|].
  simpl. rewrite decimal_loop_spec, V; [|assumption | unfold u64_max; lia].
  unfold u_ok, u64_max in *. bool_prop.
  destruct (Z.leb_spec v (2 ^ 64 - 1)); [reflexivity | lia].
Qed.

(** ** Names *)
Lemma name_from_string_view {cap} s (n : FixedName cap) :
  name_from_string s = Ok n -> name_view n = s.
Proof. unfold name_from_string. intros H. inv_result. reflexivity. Qed.

Lemma name_from_string_length {cap} s (n : FixedName cap) :
  name_from_string s = Ok n -> 0 < Z.of_nat (length s) <= cap.
Proof. unfold name_from_string. intros H. inv_result. bool_prop. lia. Qed.
