(* ===== verification/Hash.v ===== *)
(** * Fingerprints and checksums

    [include/brf/hash.hpp] and [src/hash.cpp]: FNV-1a over 64 bits, the two-lane
    128-bit fingerprint, CRC-32C in one piece and incrementally, and the
    identities of [src/identity.cpp] and [src/reservation.cpp] that are derived
    from a fingerprint. *)
From S2P Require Import Prelude Errors Containers Identity.

Definition kFnvOffset : Z := 1469598103934665603.
Definition kFnvPrime : Z := 1099511628211.
Definition kFnvOffsetLane2 : Z := 14695981039346656037.

(** ** FNV-1a *)
Definition fnv1a_impl (data : bytes) (seed : Z) : Z :=
  fold_left (fun state b => to_u 64 (Z.lxor state (b2z b) * kFnvPrime)) data seed.

Definition fnv1a_64 (data : bytes) : Z := fnv1a_impl data kFnvOffset.

(** Byte [i] of eight, most significant first. *)
Definition be64 (v : Z) : bytes :=
  map (fun i => z2b (Z.land (Z.shiftr v (8 * (7 - i))) 255)) [0; 1; 2; 3; 4; 5; 6; 7].

Definition fingerprint128 (data : bytes) : Identity128 :=
  let lane1 := fnv1a_impl data kFnvOffset in
  let lane2 := fnv1a_impl data kFnvOffsetLane2 in
  mkIdentity (be64 lane1 ++ be64 lane2).

(** ** CRC-32C *)
Definition kPoly : Z := 0x82F63B78.

(** One bit of the table generator. *)
Definition crc_bit (crc : Z) : Z :=
  if negb (Z.land crc 1 =? 0) then Z.lxor (Z.shiftr crc 1) kPoly else Z.shiftr crc 1.

Definition crc_entry (i : Z) : Z := Nat.iter 8 crc_bit i.

(** [Crc32cTable]: the 256 entries. *)
Definition kCrcTable : list Z :=
  Eval vm_compute in map (fun i => crc_entry (Z.of_nat i)) (seq 0 256).

Definition crc_step (crc : Z) (b : byte) : Z :=
  Z.lxor (nth (Z.to_nat (Z.land (Z.lxor crc (b2z b)) 255)) kCrcTable 0) (Z.shiftr crc 8).

Definition crc_init : Z := 0xFFFFFFFF.

Definition crc32c (data : bytes) : Z :=
  Z.lxor (fold_left crc_step data crc_init) 0xFFFFFFFF.

(** [Crc32cBuilder]: its state, [update] and [finish]. *)
Definition Crc32cBuilder_update (state : Z) (data : bytes) : Z := fold_left crc_step data state.
Definition Crc32cBuilder_finish (state : Z) : Z := Z.lxor state 0xFFFFFFFF.

(** ** Derived identities *)

(** [Identity128::derive]. *)
Definition derive (parent : Identity128) (index : Z) : Identity128 :=
  fingerprint128 (id_bytes parent ++ be64 index).

Definition derive_member_id (series : Identity128) (index : SeriesIndex) : Identity128 :=
  derive series (value index).

Definition derive_series_id (claimant attempt : Identity128) (ordinal : Z) : Identity128 :=
  fingerprint128 (id_bytes claimant ++ id_bytes attempt ++ be64 ordinal).

(** ** Basic facts *)
Lemma fingerprint128_ok data : id_ok (fingerprint128 data) = true.
Proof. reflexivity. Qed.

Lemma derive_ok p i : id_ok (derive p i) = true.
Proof. reflexivity. Qed.

#[export] Hint Resolve fingerprint128_ok derive_ok : brf.

(** The table is the generator's: entry [i] is eight shift-and-reduce steps. *)
Lemma kCrcTable_entry i :
  0 <= i < 256 -> nth (Z.to_nat i) kCrcTable 0 = crc_entry i.
Proof.
  intros H. apply Z.eqb_eq.
  apply (forallb_seq (fun i => nth (Z.to_nat i) kCrcTable 0 =? crc_entry i) 256);
    [vm_compute; reflexivity | exact H].
Qed.

Definition u32 (z : Z) : Prop := 0 <= z < 2 ^ 32.

Lemma u32_lxor a b : u32 a -> u32 b -> u32 (Z.lxor a b).
Proof.
  unfold u32. intros A B.
  assert (forall z, 0 <= z < 2 ^ 32 -> forall n, 32 <= n -> Z.testbit z n = false) as T.
  { intros z Hz n Hn. destruct (Z.eq_dec z 0) as [->|]; [apply Z.testbit_0_l|].
    apply Z.bits_above_log2; [lia|]. apply Z.log2_lt_pow2; [lia|].
    eapply Z.lt_le_trans; [apply Hz | apply Z.pow_le_mono_r; lia]. }
  assert (0 <= Z.lxor a b) by (apply Z.lxor_nonneg; lia). split; [assumption|].
  destruct (Z.eq_dec (Z.lxor a b) 0) as [->|]; [lia|].
  apply Z.log2_lt_pow2; [lia|]. apply Z.nle_gt. intros L.
  assert (Z.testbit (Z.lxor a b) (Z.log2 (Z.lxor a b)) = true)
    by (apply Z.bit_log2; lia).
  rewrite Z.lxor_spec, !T in H0 by (try lia; auto). discriminate.
Qed.

Lemma u32_shiftr a n : u32 a -> 0 <= n -> u32 (Z.shiftr a n).
Proof.
  unfold u32. intros A N. rewrite Z.shiftr_div_pow2 by lia. split.
  - apply Z.div_pos; [lia | apply Z.pow_pos_nonneg; lia].
  - apply Z.div_lt_upper_bound; [apply Z.pow_pos_nonneg; lia|].
    assert (1 <= 2 ^ n) by (apply Z.pow_le_mono_r with (b := 0); lia). nia.
Qed.

Lemma low_byte_range z : 0 <= Z.land z 255 < 256.
Proof. change 255 with (Z.ones 8). rewrite Z.land_ones by lia. apply Z.mod_pos_bound. lia. Qed.

(** Every entry fits 32 bits, and no two entries share their top byte. *)
Lemma kCrcTable_u32 i : 0 <= i < 256 -> u32 (nth (Z.to_nat i) kCrcTable 0).
Proof.
  intros H. assert (u_ok 32 (nth (Z.to_nat i) kCrcTable 0) = true) as A.
  { apply (forallb_seq (fun i => u_ok 32 (nth (Z.to_nat i) kCrcTable 0)) 256);
      [vm_compute; reflexivity | exact H]. }
  unfold u_ok in A. bool_prop. split; assumption.
Qed.

Lemma kCrcTable_top_inj i j :
  0 <= i < 256 -> 0 <= j < 256 ->
  Z.shiftr (nth (Z.to_nat i) kCrcTable 0) 24 = Z.shiftr (nth (Z.to_nat j) kCrcTable 0) 24 ->
  i = j.
Proof.
  intros Hi Hj E.
  set (f := fun i => forallb (fun j =>
         (i =? Z.of_nat j) ||
         negb (Z.shiftr (nth (Z.to_nat i) kCrcTable 0) 24 =?
               Z.shiftr (nth j kCrcTable 0) 24)) (seq 0 256)).
  assert (f i = true) as F by (apply (forallb_seq f 256); [vm_compute; reflexivity | exact Hi]).
  unfold f in F. rewrite forallb_forall in F.
  specialize (F (Z.to_nat j)). rewrite E, Z.eqb_refl, orb_false_r, Z2Nat.id in F by lia.
  apply Z.eqb_eq, F, in_seq. lia.
Qed.

Lemma crc_step_u32 c b : u32 c -> u32 (crc_step c b).
Proof.
  intros H. apply u32_lxor; [apply kCrcTable_u32, low_byte_range | apply u32_shiftr; [exact H | lia]].
Qed.

Lemma crc_fold_u32 data c : u32 c -> u32 (fold_left crc_step data c).
Proof. revert c. induction data; simpl; auto using crc_step_u32. Qed.

(** One step determines the table index it used and the bits it shifted in. *)
Lemma crc_step_inj c d a b :
  u32 c -> u32 d -> crc_step c a = crc_step d b ->
  Z.land (Z.lxor c (b2z a)) 255 = Z.land (Z.lxor d (b2z b)) 255 /\
  Z.shiftr c 8 = Z.shiftr d 8.
Proof.
  intros C D E. unfold crc_step in E.
  set (i := Z.land (Z.lxor c (b2z a)) 255) in *.
  set (j := Z.land (Z.lxor d (b2z b)) 255) in *.
  assert (i = j) as IJ.
  { apply kCrcTable_top_inj; [apply low_byte_range..|].
    apply (f_equal (fun z => Z.shiftr z 24)) in E.
    rewrite !Z.shiftr_lxor, !Z.shiftr_shiftr in E by lia.
    assert (forall z, u32 z -> Z.shiftr z (8 + 24) = 0) as Zr.
    { unfold u32. intros z Hz. rewrite Z.shiftr_div_pow2 by lia. apply Z.div_small. lia. }
    rewrite (Zr c C), (Zr d D), !Z.lxor_0_r in E. exact E. }
  split; [exact IJ|]. rewrite IJ in E.
  apply (f_equal (Z.lxor (nth (Z.to_nat j) kCrcTable 0))) in E.
  rewrite <- !Z.lxor_assoc, Z.lxor_nilpotent, !Z.lxor_0_l in E. exact E.
Qed.

Lemma split_low_byte c d :
  Z.land c 255 = Z.land d 255 -> Z.shiftr c 8 = Z.shiftr d 8 -> c = d.
Proof.
  intros L S. change 255 with (Z.ones 8) in L. rewrite !Z.land_ones in L by lia.
  rewrite !Z.shiftr_div_pow2 in S by lia.
  pose proof (Z.div_mod c (2 ^ 8)). pose proof (Z.div_mod d (2 ^ 8)). lia.
Qed.

Lemma crc_step_state_inj c d b : u32 c -> u32 d -> crc_step c b = crc_step d b -> c = d.
Proof.
  intros C D E. destruct (crc_step_inj _ _ _ _ C D E) as [L S].
  apply split_low_byte; [|exact S].
  apply (f_equal (fun z => Z.land (Z.lxor z (b2z b)) 255)) in L.
  assert (forall z, Z.land (Z.lxor (Z.land (Z.lxor z (b2z b)) 255) (b2z b)) 255 = Z.land z 255) as A.
  { intros z. apply Z.bits_inj'. intros n Hn.
    rewrite !Z.land_spec, !Z.lxor_spec, !Z.land_spec, !Z.lxor_spec.
    destruct (Z.testbit z n), (Z.testbit (b2z b) n), (Z.testbit 255 n); reflexivity. }
  rewrite !A in L. exact L.
Qed.

Lemma crc_step_byte_inj c a b : u32 c -> crc_step c a = crc_step c b -> a = b.
Proof.
  intros C E. destruct (crc_step_inj _ _ _ _ C C E) as [L _]. apply b2z_inj.
  pose proof (b2z_range a). pose proof (b2z_range b).
  assert (forall x, 0 <= x < 256 -> Z.land (Z.lxor c (Z.land (Z.lxor c x) 255)) 255 = x) as A.
  { intros x Hx. transitivity (Z.land x 255).
    - apply Z.bits_inj'. intros n Hn.
      rewrite !Z.land_spec, !Z.lxor_spec, !Z.land_spec, !Z.lxor_spec.
      destruct (Z.testbit c n), (Z.testbit x n), (Z.testbit 255 n); reflexivity.
    - change 255 with (Z.ones 8). rewrite Z.land_ones by lia. apply Z.mod_small. lia. }
  rewrite <- (A (b2z a)), <- (A (b2z b)) by assumption. rewrite L. reflexivity.
Qed.

Lemma crc_fold_inj data c d :
  u32 c -> u32 d -> fold_left crc_step data c = fold_left crc_step data d -> c = d.
Proof.
  revert c d. induction data as [|b data IH]; simpl; intros c d C D E; [exact E|].
  apply IH in E; [|now apply crc_step_u32..]. now apply crc_step_state_inj in E.
Qed.

Lemma crc32c_one_byte pre post a b :
  crc32c (pre ++ a :: post) = crc32c (pre ++ b :: post) -> a = b.
Proof.
  intros E. unfold crc32c in E.
  apply (f_equal (fun z => Z.lxor z 0xFFFFFFFF)) in E.
  rewrite !Z.lxor_assoc, Z.lxor_nilpotent, !Z.lxor_0_r in E.
  rewrite !fold_left_app in E. simpl in E.
  assert (u32 (fold_left crc_step pre crc_init)) as U
    by (apply crc_fold_u32; unfold u32, crc_init; lia).
  apply crc_fold_inj in E; [|now apply crc_step_u32..].
  now apply crc_step_byte_inj in E.
Qed.

Lemma crc32c_u32 data : 0 <= crc32c data < 2 ^ 32.
Proof.
  change (u32 (crc32c data)). unfold crc32c. apply u32_lxor.
  - apply crc_fold_u32. unfold u32, crc_init. lia.
  - unfold u32. lia.
Qed.

(** C40. A checksum catches every single-byte corruption: two byte strings that
    differ in exactly one byte never have the same CRC-32C, so a journal record
    or snapshot with one damaged payload byte is always refused. *)
Theorem crc32c_detects_one_byte pre post a b :
  a <> b -> crc32c (pre ++ a :: post) <> crc32c (pre ++ b :: post).
Proof. intros N E. apply N. exact (crc32c_one_byte _ _ _ _ E). Qed.

Lemma crc32c_detects_one_byte_witness :
  x42 <> x43 /\ crc32c (str "A" ++ x42 :: str "C") <> crc32c (str "A" ++ x43 :: str "C").
Proof.
  assert (x42 <> x43) as N by discriminate.
  split; [exact N | exact (crc32c_detects_one_byte (str "A") (str "C") x42 x43 N)].
Defined.

(** The incremental builder and the one-shot checksum agree, however the
    input is cut into pieces. *)
Theorem Crc32cBuilder_crc32c pieces :
  Crc32cBuilder_finish (fold_left Crc32cBuilder_update pieces crc_init) =
  crc32c (concat pieces).
Proof.
  unfold Crc32cBuilder_finish, crc32c. f_equal. generalize crc_init.
  induction pieces as [|p ps IH]; intros c; simpl; [reflexivity|].
  rewrite fold_left_app. apply IH.
Qed.
