(* ===== verification/Bandwidth.v ===== *)
(** * Exact integer bandwidth

    [include/brf/bandwidth.hpp] and [src/bandwidth.cpp].  A bandwidth is a
    signed 64-bit count of bits per second; the checked operations keep it at or
    below [kMaxBandwidthBps].  The 64-bit multiplication of [parse_bandwidth] is
    unsigned and wraps, as in the source. *)
From S2P Require Import Prelude Errors Containers Identity.

Record Bandwidth := mkBandwidth { bps : Z }.

#[export] Instance Bandwidth_eq_dec : EqDecision Bandwidth.
Proof. solve_decision. Defined.

Definition bandwidth_ok (b : Bandwidth) : bool := i64_ok (bps b).

Definition kMaxBandwidthBps : Z := 1000000000000000.

Definition make_bandwidth (v : Z) : Result Bandwidth :=
  refuse_if v <=? 0 with kInvalidBandwidth in
  refuse_if v >? kMaxBandwidthBps with kInvalidBandwidth in
  Ok (mkBandwidth v).

(** [add(Bandwidth, Bandwidth)]. *)
Definition add_bandwidth (a b : Bandwidth) : Result Bandwidth :=
  refuse_if (bps a <? 0) || (bps b <? 0) with kInvalidBandwidth in
  refuse_if bps a >? kMaxBandwidthBps - bps b with kOverflow in
  Ok (mkBandwidth (bps a + bps b)).

(** [subtract(Bandwidth, Bandwidth)]. *)
Definition subtract_bandwidth (a b : Bandwidth) : Result Bandwidth :=
  refuse_if bps b >? bps a with kInvalidBandwidth in
  Ok (mkBandwidth (bps a - bps b)).

(** [saturating_add(Bandwidth, Bandwidth)]. *)
Definition saturating_add_bandwidth (a b : Bandwidth) : Bandwidth :=
  if bps a >? kMaxBandwidthBps - bps b then mkBandwidth kMaxBandwidthBps
  else mkBandwidth (bps a + bps b).

(** ** Text form *)
Record Scale := mkScale { suffix : byte; factor : Z; label : bytes }.

Definition kScales : list Scale :=
  [ mkScale "T"%byte 1000000000000 (str "Tbit/s");
    mkScale "G"%byte 1000000000 (str "Gbit/s");
    mkScale "M"%byte 1000000 (str "Mbit/s");
    mkScale "k"%byte 1000 (str "kbit/s") ].

(** [%0<w>lld] / [%0<w>u] of a non-negative value. *)
Definition pad_decimal (w : nat) (v : Z) : bytes :=
  let d := to_decimal v in repeat "0"%byte (w - length d) ++ d.

(** The loop of [format_bandwidth]: the first scale the value reaches. *)
Fixpoint format_scaled (scales : list Scale) (v : Z) : option bytes :=
  match scales with
  | [] => None
  | s :: scales =>
      if v >=? factor s then
        let whole := v / factor s in
        let milli := (v mod factor s) * 1000 / factor s in
        Some (to_decimal whole ++ str "." ++ pad_decimal 3 milli ++ str " " ++ label s)
      else format_scaled scales v
  end.

Definition format_bandwidth (bw : Bandwidth) : bytes :=
  if bps bw <? 0 then str "<invalid>"
  else match format_scaled kScales (bps bw) with
       | Some s => s
       | None => to_decimal (bps bw) ++ str " bit/s"
       end.

(** [text.back()] against the suffixes. *)
Definition scale_of (last : byte) : option Scale :=
  List.find (fun s => byte_eqb last (suffix s)) kScales.

Definition parse_bandwidth (text : bytes) : Result Bandwidth :=
  match rev text with
  | [] => Err kInvalidBandwidth
  | last :: front =>
      let '(digits, f) := match scale_of last with
                          | Some s => (rev front, factor s)
                          | None => (text, 1)
                          end in
      let? v := parse_uint64_decimal digits in
      refuse_if v >? kMaxBandwidthBps with kInvalidBandwidth in
      let scaled := to_u 64 (v * f) in
      refuse_if scaled >? kMaxBandwidthBps with kOverflow in
      make_bandwidth scaled
  end.

(** ** Checked arithmetic *)
Lemma add_bandwidth_Ok a b c :
  add_bandwidth a b = Ok c <->
  0 <= bps a /\ 0 <= bps b /\ bps a + bps b <= kMaxBandwidthBps /\
  c = mkBandwidth (bps a + bps b).
Proof.
  unfold add_bandwidth, refuse. rewrite Z.gtb_ltb.
  destruct (Z.ltb_spec (bps a) 0); simpl; [intuition (discriminate || lia)|].
  destruct (Z.ltb_spec (bps b) 0); simpl; [intuition (discriminate || lia)|].
  destruct (Z.ltb_spec (kMaxBandwidthBps - bps b) (bps a)); simpl;
    [intuition (discriminate || lia)|].
  split; [intros [= <-] | intros (_ & _ & _ & ->)]; intuition lia.
Qed.

Lemma saturating_add_bandwidth_spec a b :
  bps (saturating_add_bandwidth a b) = Z.min kMaxBandwidthBps (bps a + bps b).
Proof.
  unfold saturating_add_bandwidth. rewrite Z.gtb_ltb.
  destruct (Z.ltb_spec (kMaxBandwidthBps - bps b) (bps a)); simpl; lia.
Qed.

#[export] Hint Rewrite saturating_add_bandwidth_spec : brf.

(** Checked addition is subtraction's inverse on every pair it accepts, and
    it accepts a pair exactly when both are non-negative and the sum stays at or
    below the ceiling. *)
Theorem add_then_subtract a b :
  0 <= bps a -> 0 <= bps b -> bps a + bps b <= kMaxBandwidthBps ->
  exists c, add_bandwidth a b = Ok c /\ subtract_bandwidth c b = Ok a /\
            subtract_bandwidth c a = Ok b /\ bps c <= kMaxBandwidthBps.
Proof.
  intros A B S. exists (mkBandwidth (bps a + bps b)).
  split; [apply add_bandwidth_Ok; auto|].
  unfold subtract_bandwidth, refuse. simpl. rewrite !Z.gtb_ltb.
  destruct (Z.ltb_spec (bps a + bps b) (bps b)); [lia|].
  destruct (Z.ltb_spec (bps a + bps b) (bps a)); [lia|].
  simpl. destruct a as [a], b as [b]; simpl in *.
  repeat split; [do 2 f_equal; lia | do 2 f_equal; lia | lia].
Qed.

Lemma add_then_subtract_witness :
  exists c, add_bandwidth (mkBandwidth 7) (mkBandwidth 5) = Ok c /\
            subtract_bandwidth c (mkBandwidth 5) = Ok (mkBandwidth 7) /\
            subtract_bandwidth c (mkBandwidth 7) = Ok (mkBandwidth 5) /\
            bps c <= kMaxBandwidthBps.
Proof.
  apply (add_then_subtract (mkBandwidth 7) (mkBandwidth 5)); simpl; unfold kMaxBandwidthBps; lia.
Defined.

(** Without a suffix the parser reads back every accepted amount. *)
Lemma digit_not_suffix d : is_digit d = true -> scale_of d = None.
Proof. destruct d; vm_compute; congruence. Qed.

Theorem parse_bandwidth_decimal v :
  0 < v <= kMaxBandwidthBps -> parse_bandwidth (to_decimal v) = Ok (mkBandwidth v).
Proof.
  unfold kMaxBandwidthBps. intros H.
  assert (u_ok 64 v = true) as U by (unfold u_ok; bool_goal; lia).
  destruct (to_decimal_spec v U) as (D & V & L).
  unfold parse_bandwidth. destruct (rev (to_decimal v)) as [|last front] eqn:E.
  { apply (f_equal length) in E. rewrite length_rev in E. simpl in E. lia. }
  rewrite <- forallb_rev, E in D. simpl in D. apply andb_true_iff in D.
  rewrite digit_not_suffix by apply D.
  rewrite (parse_to_decimal v U). simpl. rewrite Z.mul_1_r, (to_u_id 64 v U).
  unfold refuse, make_bandwidth, kMaxBandwidthBps. rewrite !Z.gtb_ltb.
  destruct (Z.ltb_spec 1000000000000000 v); [lia|]. simpl.
  unfold refuse. destruct (Z.leb_spec v 0); [lia|]. simpl. reflexivity.
Qed.

(** Scaling in [parse_bandwidth] wraps: the text [18446745T] asks for more
    than [10^19] bits per second, is not refused, and is read as about 926
    Gbit/s, because the range check looks at the product after it has wrapped. *)
Theorem parse_bandwidth_wraps :
  parse_bandwidth (str "18446745T") = Ok (mkBandwidth 926290448384) /\
  18446745 * 1000000000000 > kMaxBandwidthBps.
Proof. split; vm_compute; reflexivity. Qed.

(** The same text with a factor that does not wrap is refused. *)
Example parse_bandwidth_refuses : parse_bandwidth (str "18446745G") = Err kOverflow.
Proof. reflexivity. Qed.
