(* ===== verification/Time.v ===== *)
(** * Instants, spans and half-open intervals

    [include/brf/time.hpp], [src/time.cpp] and the clocks of
    [include/brf/clock.hpp] and [src/clock.cpp].  Instants and spans are signed
    64-bit nanosecond counts; the calendar conversion is the source's
    proleptic-Gregorian arithmetic, and the text form is parsed and printed
    character by character. *)
From S2P Require Import Prelude Errors Containers Identity Hash Bandwidth.

Record Timestamp := mkTs { ns : Z }.
Record Duration := mkDur { dur_ns : Z }.

#[export] Instance Timestamp_eq_dec : EqDecision Timestamp.
Proof. solve_decision. Defined.
#[export] Instance Duration_eq_dec : EqDecision Duration.
Proof. solve_decision. Defined.

Lemma ns_inj a b : ns a = ns b -> a = b.
Proof. destruct a, b; simpl; congruence. Qed.

#[export] Instance OrdKey_Timestamp : OrdKey Timestamp := OrdKey_inj ns ns_inj.

Definition ts_ok (t : Timestamp) : bool := i64_ok (ns t).
Definition dur_ok (d : Duration) : bool := i64_ok (dur_ns d).

(** [operator<] and [operator<=] on instants. *)
Definition ts_lt (a b : Timestamp) : bool := ns a <? ns b.
Definition ts_le (a b : Timestamp) : bool := ns a <=? ns b.

Definition kNsPerSecond : Z := 1000000000.
Definition kNsPerMillisecond : Z := 1000000.
Definition kNsPerMinute : Z := 60 * kNsPerSecond.
Definition kNsPerHour : Z := 60 * kNsPerMinute.
Definition kNsPerDay : Z := 24 * kNsPerHour.
Definition kMaxReservationSpanNs : Z := 100 * 366 * kNsPerDay.
Definition kMaxTimestampNs : Z := 4102444800 * kNsPerSecond.

(** ** Intervals *)
Record Interval := mkInterval { start : Timestamp; end_ : Timestamp }.

#[export] Instance Interval_eq_dec : EqDecision Interval.
Proof. solve_decision. Defined.

Definition interval_ok (i : Interval) : bool := ts_ok (start i) && ts_ok (end_ i).

Definition empty (i : Interval) : bool := negb (ts_lt (start i) (end_ i)).

Definition span_ns (i : Interval) : Result Z :=
  refuse_if ns (end_ i) <=? ns (start i) with kInvalidInterval in
  refuse_if ns (start i) <? 0 with kInvalidInterval in
  let span := ns (end_ i) - ns (start i) in
  refuse_if span >? kMaxReservationSpanNs with kInvalidInterval in
  Ok span.

Definition overlaps (a b : Interval) : bool :=
  ts_lt (start a) (end_ b) && ts_lt (start b) (end_ a).

(** [contains(const Interval&)]. *)
Definition contains_interval (a b : Interval) : bool :=
  ts_le (start a) (start b) && ts_le (end_ b) (end_ a).

(** [contains(Timestamp)]. *)
Definition contains (i : Interval) (t : Timestamp) : bool :=
  ts_le (start i) t && ts_lt t (end_ i).

Definition interval_eqb (a b : Interval) : bool :=
  (ns (start a) =? ns (start b)) && (ns (end_ a) =? ns (end_ b)).

Definition validate_interval (i : Interval) : Status :=
  refuse_if ns (start i) <? 0 with kInvalidInterval in
  refuse_if ns (end_ i) >? kMaxTimestampNs with kInvalidInterval in
  refuse_if ns (end_ i) <=? ns (start i) with kInvalidInterval in
  let span := ns (end_ i) - ns (start i) in
  refuse_if span >? kMaxReservationSpanNs with kInvalidInterval in
  Ok tt.

Definition interval_id_hex (i : Interval) : bytes :=
  to_hex (fingerprint128 (be64 (to_u 64 (ns (start i))) ++ be64 (to_u 64 (ns (end_ i))))).

(** [add], [sub] and [difference] of instants and spans. *)
Definition add_ts (t : Timestamp) (d : Duration) : Result Timestamp :=
  refuse_if dur_ns d <? 0 with kInvalidInterval in
  refuse_if ns t >? kMaxTimestampNs - dur_ns d with kOverflow in
  Ok (mkTs (ns t + dur_ns d)).

Definition sub_ts (t : Timestamp) (d : Duration) : Result Timestamp :=
  refuse_if dur_ns d <? 0 with kInvalidInterval in
  refuse_if ns t <? dur_ns d with kOverflow in
  Ok (mkTs (ns t - dur_ns d)).

Definition difference (b a : Timestamp) : Result Duration :=
  refuse_if ts_lt b a with kInvalidInterval in
  Ok (mkDur (ns b - ns a)).

(** ** Calendar *)
Record CivilDate := mkDate { year : Z; month : Z; day : Z }.

(** [unsigned] is 32 bits wide; division and remainder of the signed values are
    C++'s ([Z.quot]). *)
Definition days_from_civil (y m d : Z) : Z :=
  let y := y - (if m <=? 2 then 1 else 0) in
  let era := Z.quot (if y >=? 0 then y else y - 399) 400 in
  let yoe := to_u 32 (y - era * 400) in
  let month_shift := if m >? 2 then to_u 32 (m - 3) else to_u 32 (m + 9) in
  let doy := to_u 32 (to_u 32 (153 * month_shift + 2) / 5 + d - 1) in
  let doe := to_u 32 (yoe * 365 + yoe / 4 - yoe / 100 + doy) in
  era * 146097 + doe - 719468.

Definition civil_from_days (z : Z) : CivilDate :=
  let z := z + 719468 in
  let era := Z.quot (if z >=? 0 then z else z - 146096) 146097 in
  let doe := to_u 32 (z - era * 146097) in
  let yoe := to_u 32 (doe - doe / 1460 + doe / 36524 - doe / 146096) / 365 in
  let y := yoe + era * 400 in
  let doy := to_u 32 (doe - (365 * yoe + yoe / 4 - yoe / 100)) in
  let mp := to_u 32 (5 * doy + 2) / 153 in
  let d := to_u 32 (doy - to_u 32 (153 * mp + 2) / 5 + 1) in
  let m := if mp <? 10 then to_u 32 (mp + 3) else to_u 32 (mp - 9) in
  mkDate (y + (if m <=? 2 then 1 else 0)) m d.

Definition is_leap (y : Z) : bool :=
  ((Z.rem y 4 =? 0) && negb (Z.rem y 100 =? 0)) || (Z.rem y 400 =? 0).

Definition days_in_month (y m : Z) : Z :=
  if (m <? 1) || (m >? 12) then 0
  else if (m =? 2) && is_leap y then 29
  else nth (Z.to_nat (m - 1)) [31; 28; 31; 30; 31; 30; 31; 31; 30; 31; 30; 31] 0.

(** ** Text form *)
Definition format_timestamp (ts : Timestamp) : bytes :=
  if ns ts <? 0 then str "<invalid>"
  else
    let seconds := Z.quot (ns ts) kNsPerSecond in
    let nanos := Z.rem (ns ts) kNsPerSecond in
    let days := Z.quot seconds 86400 in
    let second_of_day := Z.rem seconds 86400 in
    let date := civil_from_days days in
    pad_decimal 4 (year date) ++ str "-" ++ pad_decimal 2 (month date) ++ str "-" ++
    pad_decimal 2 (day date) ++ str "T" ++
    pad_decimal 2 (Z.quot second_of_day 3600) ++ str ":" ++
    pad_decimal 2 (Z.quot (Z.rem second_of_day 3600) 60) ++ str ":" ++
    pad_decimal 2 (Z.rem second_of_day 60) ++ str "." ++
    pad_decimal 9 nanos ++ str "Z".

(** [text[i]]; only used below [text.size()]. *)
Definition char_at (text : bytes) (i : nat) : byte := nth i text x00.

(** The loop of [parse_fixed_digits] over [count] characters. *)
Fixpoint fixed_digits_loop (s : bytes) (acc : Z) : option Z :=
  match s with
  | [] => Some acc
  | ch :: s =>
      if (b2z ch <? 48) || (b2z ch >? 57) then None
      else fixed_digits_loop s (acc * 10 + (b2z ch - 48))
  end.

Definition parse_fixed_digits (text : bytes) (offset count : nat) : option Z :=
  if (length text <? offset + count)%nat then None
  else fixed_digits_loop (substr text offset count) 0.

(** The fraction loop of [parse_timestamp]: value, number of digits, and the
    text behind them. *)
Fixpoint fraction_loop (s : bytes) (nanos : Z) (digits : nat) : Result (Z * nat * bytes) :=
  match s with
  | ch :: s' =>
      if is_digit ch then
        if (9 <=? digits)%nat then Err kInvalidArgument
        else fraction_loop s' (nanos * 10 + (b2z ch - 48)) (S digits)
      else Ok (nanos, digits, s)
  | [] => Ok (nanos, digits, [])
  end.

Definition parse_fraction (rest : bytes) : Result (Z * bytes) :=
  match rest with
  | ch :: s =>
      if byte_eqb ch "."%byte then
        let? (nanos, digits, tail) := fraction_loop s 0 0 in
        refuse_if (digits =? 0)%nat with kInvalidArgument in
        Ok (Nat.iter (9 - digits) (fun n => n * 10) nanos, tail)
      else Ok (0, rest)
  | [] => Ok (0, rest)
  end.

Definition parse_timestamp (text : bytes) : Result Timestamp :=
  refuse_if (length text <? 20)%nat with kInvalidArgument in
  refuse_if negb (byte_eqb (char_at text 4) "-"%byte && byte_eqb (char_at text 7) "-"%byte &&
                  byte_eqb (char_at text 10) "T"%byte && byte_eqb (char_at text 13) ":"%byte &&
                  byte_eqb (char_at text 16) ":"%byte) with kInvalidArgument in
  match parse_fixed_digits text 0 4, parse_fixed_digits text 5 2, parse_fixed_digits text 8 2,
        parse_fixed_digits text 11 2, parse_fixed_digits text 14 2, parse_fixed_digits text 17 2 with
  | Some y, Some mo, Some d, Some h, Some mi, Some s =>
      let? (nanos, tail) := parse_fraction (skipn 19 text) in
      refuse_if negb (match tail with [z] => byte_eqb z "Z"%byte | _ => false end)
        with kInvalidArgument in
      refuse_if (mo <? 1) || (mo >? 12) with kInvalidArgument in
      refuse_if (d <? 1) || (d >? days_in_month y mo) with kInvalidArgument in
      refuse_if (h >? 23) || (mi >? 59) || (s >? 59) with kInvalidArgument in
      let days := days_from_civil y mo d in
      let seconds := days * 86400 + h * 3600 + mi * 60 + s in
      refuse_if seconds <? 0 with kInvalidArgument in
      let total := seconds * kNsPerSecond + nanos in
      refuse_if total >? kMaxTimestampNs with kOverflow in
      Ok (mkTs total)
  | _, _, _, _, _, _ => Err kInvalidArgument
  end.

(** ** Clocks *)

(** [ManualClock]: the instant it was last set to. *)
Definition ManualClock_set (_ : Timestamp) (ts : Timestamp) : Timestamp := ts.
Definition ManualClock_advance (now_ : Timestamp) (d : Duration) : Timestamp :=
  mkTs (ns now_ + dur_ns d).

(** [SystemClock::now] with the host clock reading [reading] and the guard
    [last]: the reported instant and the new guard.  The compare-exchange loop
    is taken without interference, so it stores [current] when it is ahead. *)
Definition SystemClock_now (last reading : Z) : Z * Z :=
  let current := if reading <? 0 then 0 else reading in
  let last' := if current >? last then current else last in
  (if last >? current then last else current, last').

(** ** Intervals: the half-open convention *)
Lemma contains_spec i t : contains i t = true <-> ns (start i) <= ns t < ns (end_ i).
Proof.
  unfold contains, ts_le, ts_lt. rewrite andb_true_iff, Z.leb_le, Z.ltb_lt. reflexivity.
Qed.

Lemma empty_false i : empty i = false <-> ns (start i) < ns (end_ i).
Proof. unfold empty, ts_lt. rewrite negb_false_iff, Z.ltb_lt. reflexivity. Qed.

Lemma empty_true i : empty i = true <-> ns (end_ i) <= ns (start i).
Proof. unfold empty, ts_lt. rewrite negb_true_iff, Z.ltb_ge. reflexivity. Qed.

Lemma overlaps_lt a b :
  overlaps a b = true <-> ns (start a) < ns (end_ b) /\ ns (start b) < ns (end_ a).
Proof. unfold overlaps, ts_lt. rewrite andb_true_iff, !Z.ltb_lt. reflexivity. Qed.

Lemma validate_interval_Ok i :
  validate_interval i = Ok tt <->
  0 <= ns (start i) /\ ns (start i) < ns (end_ i) <= kMaxTimestampNs /\
  ns (end_ i) - ns (start i) <= kMaxReservationSpanNs.
Proof.
  unfold validate_interval. rewrite !rbind_refuse_Ok, !Z.gtb_ltb.
  rewrite !Z.ltb_ge, Z.leb_gt. intuition lia.
Qed.

(** Two non-empty intervals conflict exactly when some instant lies in both;
    in particular adjacent intervals never conflict. *)
Theorem overlaps_iff_shared_instant a b :
  empty a = false -> empty b = false ->
  (overlaps a b = true <-> exists t, contains a t = true /\ contains b t = true).
Proof.
  rewrite !empty_false, overlaps_lt. intros A B. split.
  - intros [L R]. exists (mkTs (Z.max (ns (start a)) (ns (start b)))).
    rewrite !contains_spec. simpl. lia.
  - intros (t & Ta & Tb). rewrite contains_spec in Ta, Tb. lia.
Qed.

Lemma overlaps_iff_shared_instant_witness :
  overlaps (mkInterval (mkTs 0) (mkTs 10)) (mkInterval (mkTs 10) (mkTs 20)) = true <->
  exists t, contains (mkInterval (mkTs 0) (mkTs 10)) t = true /\
            contains (mkInterval (mkTs 10) (mkTs 20)) t = true.
Proof. apply overlaps_iff_shared_instant; reflexivity. Defined.

(** A window the fabric admits lies on the timeline, and none of the interval
    arithmetic done on it leaves 64 bits. *)
Lemma validate_interval_bounds i :
  validate_interval i = Ok tt ->
  interval_ok i = true /\ i64_ok (ns (end_ i) - ns (start i)) = true /\
  span_ns i = Ok (ns (end_ i) - ns (start i)).
Proof.
  rewrite validate_interval_Ok. unfold kMaxTimestampNs, kMaxReservationSpanNs, kNsPerDay,
    kNsPerHour, kNsPerMinute, kNsPerSecond. intros (A & B & C).
  unfold interval_ok, ts_ok, i64_ok. split; [bool_goal; lia|]. split; [bool_goal; lia|].
  unfold span_ns, refuse. destruct (Z.leb_spec (ns (end_ i)) (ns (start i))); [lia|]. simpl.
  destruct (Z.ltb_spec (ns (start i)) 0); [lia|]. simpl. rewrite Z.gtb_ltb.
  unfold kMaxReservationSpanNs, kNsPerDay, kNsPerHour, kNsPerMinute, kNsPerSecond.
  destruct (Z.ltb_spec (100 * 366 * (24 * (60 * (60 * 1000000000)))) (ns (end_ i) - ns (start i)));
    [lia | reflexivity].
Qed.

(** ** Text form round trip *)
Lemma pad_decimal_spec w v :
  (1 <= w <= 18)%nat -> 0 <= v < 10 ^ Z.of_nat w ->
  length (pad_decimal w v) = w /\ forallb is_digit (pad_decimal w v) = true /\
  decimal_value (pad_decimal w v) 0 = v.
Proof.
  intros W H.
  assert (10 ^ Z.of_nat w <= 10 ^ 18) by (apply Z.pow_le_mono_r; lia).
  change (10 ^ 18) with 1000000000000000000 in *.
  assert (u_ok 64 v = true) as U by (unfold u_ok; bool_goal; lia).
  destruct (to_decimal_spec v U) as (D & V & L).
  assert (length (to_decimal v) <= w)%nat as LW.
  { unfold to_decimal in *. destruct (Z.eqb_spec v 0); [simpl; lia|].
    destruct (decimal_digits_spec w v H) as (ds & E & Len & _).
    assert (decimal_digits 20 v = Some ds) as ->; [|rewrite length_rev; exact Len].
    clear - E W. assert (w <= 20)%nat as G by lia. clear W. revert E G. generalize 20%nat as k.
    revert v ds. induction w as [|w IH]; intros v ds k E G.
    - simpl in E. destruct k; simpl; destruct (v <=? 0); congruence.
    - destruct k as [|k]; [lia|]. cbn [decimal_digits] in *. destruct (v <=? 0); [exact E|].
      destruct (decimal_digits w (v / 10)) as [r|] eqn:E'; [|discriminate].
      rewrite (IH _ _ k E') by lia. exact E. }
  unfold pad_decimal. rewrite length_app, repeat_length. split; [lia|].
  assert (forall n acc, forallb is_digit (repeat "0"%byte n) = true /\
                        decimal_value (repeat "0"%byte n) acc = acc * 10 ^ Z.of_nat n) as R.
  { induction n as [|n IH]; intros acc; [simpl; split; [reflexivity | lia]|].
    destruct (IH (acc * 10 + (b2z "0"%byte - 48))) as [I1 I2]. cbn [repeat forallb decimal_value].
    split; [rewrite I1; reflexivity|]. rewrite I2, Nat2Z.inj_succ, Z.pow_succ_r by lia.
    change (b2z "0"%byte) with 48. ring. }
  destruct (R (w - length (to_decimal v))%nat 0) as [R1 R2].
  rewrite forallb_app, R1, D, decimal_value_app, R2. split; [reflexivity|].
  rewrite Z.mul_0_l. exact V.
Qed.

Lemma fixed_digits_loop_spec s acc :
  forallb is_digit s = true -> fixed_digits_loop s acc = Some (decimal_value s acc).
Proof.
  revert acc. induction s as [|ch s IH]; cbn [forallb fixed_digits_loop decimal_value];
    intros acc H; [reflexivity|].
  apply andb_true_iff in H. destruct H as [D Ds]. unfold is_digit in D. bool_prop.
  rewrite Z.gtb_ltb. destruct (Z.ltb_spec (b2z ch) 48); [lia|].
  destruct (Z.ltb_spec 57 (b2z ch)); [lia|]. simpl. auto.
Qed.

Lemma fraction_loop_spec s nanos digits :
  forallb is_digit s = true -> (digits + length s <= 9)%nat ->
  fraction_loop (s ++ str "Z") nanos digits =
    Ok (decimal_value s nanos, (digits + length s)%nat, str "Z").
Proof.
  revert nanos digits. induction s as [|ch s IH]; cbn [app forallb length decimal_value];
    intros nanos digits H L.
  { simpl. rewrite Nat.add_0_r. reflexivity. }
  apply andb_true_iff in H. destruct H as [D Ds].
  cbn [fraction_loop]. rewrite D. destruct (Nat.leb_spec 9 digits); [lia|].
  rewrite IH by (assumption || lia). do 3 f_equal. lia.
Qed.

(** The calendar conversion inverts on every day of the fabric timeline.  The
    check takes the calendar results as arguments, so its meaning is proved
    without evaluating the calendar. *)
Definition date_ok (z dfc dim y mo d : Z) : bool :=
  (dfc =? z) && (1 <=? mo) && (mo <=? 12) && (1 <=? d) && (d <=? dim) && (d <=? 31) &&
  (1970 <=? y) && (y <=? 2100).

Lemma date_ok_spec z dfc dim y mo d :
  date_ok z dfc dim y mo d = true ->
  dfc = z /\ 1 <= mo <= 12 /\ 1 <= d <= 31 /\ d <= dim /\ 1970 <= y <= 2100.
Proof. unfold date_ok. intros H. bool_prop. lia. Qed.

Definition civil_date_ok (z : Z) (c : CivilDate) : bool :=
  date_ok z (days_from_civil (year c) (month c) (day c)) (days_in_month (year c) (month c))
    (year c) (month c) (day c).

Lemma civil_date_ok_spec z c :
  civil_date_ok z c = true ->
  exists y mo d, c = mkDate y mo d /\ days_from_civil y mo d = z /\
    1 <= mo <= 12 /\ 1 <= d <= 31 /\ d <= days_in_month y mo /\ 1970 <= y <= 2100.
Proof.
  destruct c as [y mo d]. unfold civil_date_ok. cbn [year month day]. intros C.
  exists y, mo, d. split; [reflexivity|].
  revert C. generalize (days_from_civil y mo d) as dfc, (days_in_month y mo) as dim.
  intros dfc dim C. exact (date_ok_spec _ _ _ _ _ _ C).
Qed.

Lemma civil_days_checked :
  all_below (fun z => civil_date_ok z (civil_from_days z)) 47483 0 = true.
Proof. vm_compute. reflexivity. Qed.

Lemma civil_days_spec z :
  0 <= z < 47483 ->
  exists y mo d, civil_from_days z = mkDate y mo d /\ days_from_civil y mo d = z /\
    1 <= mo <= 12 /\ 1 <= d <= 31 /\ d <= days_in_month y mo /\ 1970 <= y <= 2100.
Proof.
  intros H. apply civil_date_ok_spec.
  refine (all_below_spec (fun z => civil_date_ok z (civil_from_days z)) 47483 0 z
            civil_days_checked _).
  lia.
Qed.

Lemma byte_eqb_refl b : byte_eqb b b = true.
Proof. destruct b; reflexivity. Qed.

Lemma list_cons_inv {A} (l : list A) n :
  length l = S n -> exists a l', l = a :: l' /\ length l' = n.
Proof. destruct l as [|a l]; simpl; [discriminate|]. intros [= H]. eauto. Qed.

(** Replace a list of known length by that many elements. *)
Ltac explicit_list L :=
  repeat match type of L with
  | length ?l = S _ =>
      let a := fresh "c" in let l' := fresh "l" in let E := fresh "E" in
      apply list_cons_inv in L; destruct L as (a & l' & E & L); subst l; rename l' into l
  | length ?l = O => apply length_zero_iff_nil in L; subst l
  end.

(** The parser on a text assembled from its nine fields. *)
Lemma parse_printed_timestamp y mo d h mi s nanos :
  1970 <= y <= 2100 -> 1 <= mo <= 12 -> 1 <= d <= 31 -> d <= days_in_month y mo ->
  0 <= h < 24 -> 0 <= mi < 60 -> 0 <= s < 60 -> 0 <= nanos < 1000000000 ->
  let total := (days_from_civil y mo d * 86400 + h * 3600 + mi * 60 + s) * 1000000000 + nanos in
  0 <= days_from_civil y mo d -> total <= kMaxTimestampNs ->
  parse_timestamp
    (pad_decimal 4 y ++ str "-" ++ pad_decimal 2 mo ++ str "-" ++ pad_decimal 2 d ++ str "T" ++
     pad_decimal 2 h ++ str ":" ++ pad_decimal 2 mi ++ str ":" ++ pad_decimal 2 s ++ str "." ++
     pad_decimal 9 nanos ++ str "Z") = Ok (mkTs total).
Proof.
  intros Hy Hmo Hd Hdm Hh Hmi Hs Hn total Hdays Htot.
  destruct (pad_decimal_spec 4 y) as (Ly & Dy & Vy); [lia | simpl; lia|].
  destruct (pad_decimal_spec 2 mo) as (Lmo & Dmo & Vmo); [lia | simpl; lia|].
  destruct (pad_decimal_spec 2 d) as (Ld & Dd & Vd); [lia | simpl; lia|].
  destruct (pad_decimal_spec 2 h) as (Lh & Dh & Vh); [lia | simpl; lia|].
  destruct (pad_decimal_spec 2 mi) as (Lmi & Dmi & Vmi); [lia | simpl; lia|].
  destruct (pad_decimal_spec 2 s) as (Ls & Ds & Vs); [lia | simpl; lia|].
  destruct (pad_decimal_spec 9 nanos) as (Ln & Dn & Vn); [lia | simpl; lia|].
  pose proof (fraction_loop_spec (pad_decimal 9 nanos) 0 0 Dn ltac:(lia)) as F.
  revert Ly Dy Vy Lmo Dmo Vmo Ld Dd Vd Lh Dh Vh Lmi Dmi Vmi Ls Ds Vs F Ln Vn.
  generalize (pad_decimal 4 y) as py, (pad_decimal 2 mo) as pmo, (pad_decimal 2 d) as pd,
    (pad_decimal 2 h) as ph, (pad_decimal 2 mi) as pmi, (pad_decimal 2 s) as ps,
    (pad_decimal 9 nanos) as pn.
  intros.
  unfold parse_timestamp, refuse.
  explicit_list Ly. explicit_list Lmo. explicit_list Ld. explicit_list Lh. explicit_list Lmi.
  explicit_list Ls.
  assert (forall text off cnt l v, firstn cnt (skipn off text) = l ->
            (off + cnt <= length text)%nat -> forallb is_digit l = true ->
            decimal_value l 0 = v -> parse_fixed_digits text off cnt = Some v) as PF.
  { intros text off cnt l v El Len Dg Vl. unfold parse_fixed_digits, substr. rewrite El.
    destruct (Nat.ltb_spec (length text) (off + cnt)); [lia|].
    rewrite fixed_digits_loop_spec, Vl by assumption. reflexivity. }
  match goal with |- context [(length ?t <? 20)%nat] => set (text := t) end.
  assert (20 <= length text)%nat as Lt by (subst text; simpl; lia).
  destruct (Nat.ltb_spec (length text) 20); [lia|]. simpl rbind.
  rewrite (PF text 0%nat 4%nat _ _ eq_refl ltac:(lia) Dy Vy).
  rewrite (PF text 5%nat 2%nat _ _ eq_refl ltac:(lia) Dmo Vmo).
  rewrite (PF text 8%nat 2%nat _ _ eq_refl ltac:(lia) Dd Vd).
  rewrite (PF text 11%nat 2%nat _ _ eq_refl ltac:(lia) Dh Vh).
  rewrite (PF text 14%nat 2%nat _ _ eq_refl ltac:(lia) Dmi Vmi).
  rewrite (PF text 17%nat 2%nat _ _ eq_refl ltac:(lia) Ds Vs).
  rewrite F, Ln, Vn. simpl rbind.
  simpl rbind. rewrite !Z.gtb_ltb. cbv zeta.
  replace (byte_eqb "Z"%byte "Z"%byte) with true by reflexivity.
  destruct (Z.ltb_spec mo 1); [lia|]. destruct (Z.ltb_spec 12 mo); [lia|].
  destruct (Z.ltb_spec d 1); [lia|]. destruct (Z.ltb_spec (days_in_month y mo) d); [lia|].
  destruct (Z.ltb_spec 23 h); [lia|]. destruct (Z.ltb_spec 59 mi); [lia|].
  destruct (Z.ltb_spec 59 s); [lia|]. simpl orb. cbv iota. simpl rbind.
  match goal with |- context [?x <? 0] => destruct (Z.ltb_spec x 0); [lia|] end. simpl rbind.
  change kNsPerSecond with 1000000000. fold total.
  destruct (Z.ltb_spec kMaxTimestampNs total); [lia|]. reflexivity.
Qed.

Lemma quot_rem_bounds a b :
  0 <= a -> 0 < b -> a = Z.quot a b * b + Z.rem a b /\ 0 <= Z.rem a b < b /\ 0 <= Z.quot a b.
Proof.
  intros A B. rewrite Z.quot_div_nonneg, Z.rem_mod_nonneg by lia.
  pose proof (Z.div_mod a b). pose proof (Z.mod_pos_bound a b).
  pose proof (Z.div_pos a b). lia.
Qed.

(** The time of day splits into hours, minutes and seconds. *)
Lemma time_of_day_split sod :
  0 <= sod < 86400 ->
  let h := Z.quot sod 3600 in
  let mi := Z.quot (Z.rem sod 3600) 60 in
  let s := Z.rem sod 60 in
  sod = h * 3600 + mi * 60 + s /\ 0 <= h < 24 /\ 0 <= mi < 60 /\ 0 <= s < 60.
Proof.
  intros H h mi s. subst h mi s.
  destruct (quot_rem_bounds sod 3600) as (A1 & A2 & A3); [lia..|].
  destruct (quot_rem_bounds (Z.rem sod 3600) 60) as (B1 & B2 & B3); [lia..|].
  rewrite (Z.rem_mod_nonneg sod 60), (Z.rem_mod_nonneg sod 3600) in * by lia.
  rewrite (Z.rem_mod_nonneg (sod mod 3600) 60) in * by lia.
  pose proof (Z.div_mod sod 60). pose proof (Z.mod_pos_bound sod 60).
  pose proof (Z.div_mod (sod mod 3600) 60). lia.
Qed.

(** C39. Every instant of the fabric timeline survives printing and parsing. *)
Theorem parse_format_timestamp t :
  0 <= ns t <= kMaxTimestampNs -> parse_timestamp (format_timestamp t) = Ok t.
Proof.
  destruct t as [n]. cbn [ns]. intros H. unfold format_timestamp. cbn [ns].
  destruct (Z.ltb_spec n 0); [lia|]. cbv zeta.
  destruct (quot_rem_bounds n kNsPerSecond) as (En & Bn & Bs); [lia | reflexivity|].
  revert En Bn Bs. generalize (Z.quot n kNsPerSecond) as seconds, (Z.rem n kNsPerSecond) as nanos.
  intros seconds nanos En Bn Bs. unfold kMaxTimestampNs, kNsPerSecond in *.
  destruct (quot_rem_bounds seconds 86400) as (Es & Bsod & Bd); [lia | lia |].
  revert Es Bsod Bd. generalize (Z.quot seconds 86400) as days, (Z.rem seconds 86400) as sod.
  intros days sod Es Bsod Bd.
  destruct (time_of_day_split sod Bsod) as (Esod & Bh & Bmi & Bsec). revert Esod Bh Bmi Bsec.
  generalize (Z.quot sod 3600) as h, (Z.quot (Z.rem sod 3600) 60) as mi, (Z.rem sod 60) as s.
  intros h mi s Esod Bh Bmi Bsec.
  destruct (civil_days_spec days ltac:(lia)) as (y & mo & d & -> & Ed & Hmo & Hd & Hdm & Hy).
  cbn [year month day].
  pose proof (parse_printed_timestamp y mo d h mi s nanos) as P. cbv zeta in P.
  rewrite P; try lia; [do 2 f_equal; lia|]. unfold kMaxTimestampNs, kNsPerSecond. lia.
Qed.

Lemma parse_format_timestamp_witness :
  parse_timestamp (format_timestamp (mkTs 951782400123456789)) = Ok (mkTs 951782400123456789).
Proof.
  apply parse_format_timestamp. simpl. unfold kMaxTimestampNs, kNsPerSecond. lia.
Defined.

Example format_leap_day :
  format_timestamp (mkTs 951782400123456789) = str "2000-02-29T00:00:00.123456789Z".
Proof. vm_compute. reflexivity. Qed.

(** The header promises that [parse_timestamp] rejects shortened precision;
    it accepts a fraction of one digit, and a text with no fraction at all. *)
Theorem parse_timestamp_accepts_short_fraction :
  parse_timestamp (str "1970-01-01T00:00:01.5Z") = Ok (mkTs 1500000000) /\
  parse_timestamp (str "1970-01-01T00:00:01Z") = Ok (mkTs 1000000000).
Proof. split; vm_compute; reflexivity. Qed.

(** The guarded clock never runs backwards, whatever the host clock does. *)
Lemma SystemClock_monotone last reading :
  let '(t, last') := SystemClock_now last reading in last <= t /\ t = last'.
Proof.
  unfold SystemClock_now. set (c := if reading <? 0 then 0 else reading).
  rewrite !Z.gtb_ltb. destruct (Z.ltb_spec last c), (Z.ltb_spec c last); lia.
Qed.
