(* ===== verification/Authority.v ===== *)
(** * Provenance, bindings and the authority vector

    [include/brf/authority.hpp] and [src/authority.cpp], without the
    fingerprint encoding, which is in [Wire]: references to exact resource
    generations, the provenance of a decision, the vector of generations that
    justified it, and the canonical form of reference sets. *)
From S2P Require Import Prelude Errors Containers Identity Hash Bandwidth Time.

Definition kMaxBindingResources : Z := 64.
Definition kMaxProvenanceReasonBytes : Z := 512.

(** [PublisherId], [ClaimantId], ... are all [Identity128]; the clock header's
    [PublisherBootId] and [SessionId] too. *)
Record ResourceRef := mkResourceRef { resource : ResourceName; res_generation : ResourceGeneration }.
Record FailureDomainRef :=
  mkFailureDomainRef { domain : FailureDomainName; fd_generation : FailureDomainGeneration }.

#[export] Instance ResourceRef_eq_dec : EqDecision ResourceRef.
Proof. solve_decision. Defined.
#[export] Instance FailureDomainRef_eq_dec : EqDecision FailureDomainRef.
Proof. solve_decision. Defined.

(** [operator<=>]: by name, then by generation. *)
Definition ResourceRef_key (r : ResourceRef) : ResourceName * ResourceGeneration :=
  (resource r, res_generation r).
Definition FailureDomainRef_key (r : FailureDomainRef) : FailureDomainName * FailureDomainGeneration :=
  (domain r, fd_generation r).

Lemma ResourceRef_key_inj a b : ResourceRef_key a = ResourceRef_key b -> a = b.
Proof. destruct a, b. unfold ResourceRef_key. simpl. congruence. Qed.
Lemma FailureDomainRef_key_inj a b : FailureDomainRef_key a = FailureDomainRef_key b -> a = b.
Proof. destruct a, b. unfold FailureDomainRef_key. simpl. congruence. Qed.

#[export] Instance OrdKey_ResourceRef : OrdKey ResourceRef :=
  OrdKey_inj ResourceRef_key ResourceRef_key_inj.
#[export] Instance OrdKey_FailureDomainRef : OrdKey FailureDomainRef :=
  OrdKey_inj FailureDomainRef_key FailureDomainRef_key_inj.

Inductive BindingKind := kResources | kPath.

#[export] Instance BindingKind_eq_dec : EqDecision BindingKind.
Proof. solve_decision. Defined.

Definition BindingKind_to_Z (k : BindingKind) : Z :=
  match k with kResources => 0 | kPath => 1 end.

Record Provenance := mkProvenance {
  actor : ActorName;
  publisher : Identity128;
  publisher_boot : Identity128;
  session : Identity128;
  attempt : Identity128;
  p_fabric_epoch : FabricEpoch;
  coordinator_boot : Identity128;
  recorded_at : Timestamp;
  sequence : DurableSequence;
  reason : bytes }.

Record AuthorityVector := mkAuthorityVector {
  av_fabric_epoch : FabricEpoch;
  reservation_generation : ReservationGeneration;
  av_claimant : Identity128;
  av_claimant_generation : ClaimantGeneration;
  capacity_snapshot : Identity128;
  capacity_generation : CapacitySnapshotGeneration;
  av_policy : PolicyName;
  policy_generation : PolicyGeneration;
  path_generation : PathAuthorityGeneration;
  av_resources : list ResourceRef;
  av_failure_domains : list FailureDomainRef }.

(** The two [operator==] compare every field. *)
#[export] Instance Provenance_eq_dec : EqDecision Provenance.
Proof. solve_decision. Defined.
#[export] Instance AuthorityVector_eq_dec : EqDecision AuthorityVector.
Proof. solve_decision. Defined.

(** ** Reason text *)
Definition is_printable (ch : byte) : bool := (32 <=? b2z ch) && (b2z ch <=? 126).

(** The loop of [sanitize_reason]; [out] is the text so far, reversed. *)
Fixpoint sanitize_loop (text : bytes) (max_bytes : Z) (last_was_dot : bool) (out : bytes) : bytes :=
  match text with
  | [] => out
  | ch :: text =>
      if Z.of_nat (length out) >=? max_bytes then out
      else
        let normalized := if is_printable ch then ch else "."%byte in
        if byte_eqb normalized "."%byte then
          if last_was_dot then sanitize_loop text max_bytes last_was_dot out
          else sanitize_loop text max_bytes true (normalized :: out)
        else sanitize_loop text max_bytes false (normalized :: out)
  end.

(** The trailing dots; on the reversed text they lead. *)
Fixpoint strip_dots (rev_out : bytes) : bytes :=
  match rev_out with
  | ch :: l => if byte_eqb ch "."%byte then strip_dots l else rev_out
  | [] => []
  end.

Definition sanitize_reason_to (text : bytes) (max_bytes : Z) : bytes :=
  rev (strip_dots (sanitize_loop text max_bytes false [])).
Definition sanitize_reason (text : bytes) : bytes :=
  sanitize_reason_to text kMaxProvenanceReasonBytes.

(** ** Canonical reference sets *)
Section canonicalize.
Context {R N G : Type} `{OrdKey R} `{OrdKey N} `{OrdKey G}.
Variables (name_of : R -> N) (generation_of : R -> G).

  (** The loop over a sorted vector from [refs[i-1] = prev] on: an equal
      reference is erased, the same name with another generation is refused. *)
Fixpoint dedup_loop (prev : R) (refs : list R) : Result (list R) :=
    match refs with
    | [] => Ok []
    | r :: refs =>
        if keqb (name_of r) (name_of prev) then
          if keqb (generation_of r) (generation_of prev) then dedup_loop prev refs
          else Err kConflict
        else
          let? rest := dedup_loop r refs in
          Ok (r :: rest)
    end.

Definition canonicalize (refs : list R) : Result (list R) :=
    refuse_if Z.of_nat (length refs) >? kMaxBindingResources with kResourceExhausted in
    match sort kltb refs with
    | [] => Ok []
    | r :: rest => let? rest := dedup_loop r rest in Ok (r :: rest)
    end.
End canonicalize.

Definition canonicalize_resources (refs : list ResourceRef) : Result (list ResourceRef) :=
  canonicalize resource res_generation refs.
Definition canonicalize_failure_domains (refs : list FailureDomainRef) :
    Result (list FailureDomainRef) :=
  canonicalize domain fd_generation refs.

(** ** Canonical sets: what the normal form is *)
Section canonical_set.
Context {R N G : Type} `{OrdKey R} `{OrdKey N} `{OrdKey G}.
Variables (name_of : R -> N) (generation_of : R -> G).
Hypothesis order_spec : forall a b,
    kcmp a b = cmp_then (kcmp (name_of a) (name_of b)) (kcmp (generation_of a) (generation_of b)).

Definition strictly_by_name : list R -> Prop :=
    StronglySorted (fun a b => kltb (name_of a) (name_of b) = true).

  (** Two references name one object at two generations. *)
Definition contradictory (refs : list R) : Prop :=
    exists a b, In a refs /\ In b refs /\ name_of a = name_of b /\
                generation_of a <> generation_of b.

Lemma ordered_names a b :
    kltb b a = false -> name_of a = name_of b \/ kltb (name_of a) (name_of b) = true.
  Proof.
    intros L. destruct (kcmp (name_of a) (name_of b)) eqn:E.
    - left. now apply kcmp_eq.
    - right. unfold kltb. rewrite E. reflexivity.
    - apply kcmp_Gt in E. unfold kltb in L. rewrite order_spec, E in L. discriminate.
  Qed.

Lemma same_reference a b : name_of a = name_of b -> generation_of a = generation_of b -> a = b.
  Proof.
    intros A B. apply kcmp_eq. rewrite order_spec, A, B, !kcmp_refl. reflexivity.
  Qed.

Lemma dedup_loop_spec prev refs :
    StronglySorted (fun a b => kltb b a = false) (prev :: refs) ->
    match dedup_loop name_of generation_of prev refs with
    | Ok out => (forall r, In r (prev :: out) <-> In r (prev :: refs)) /\
                strictly_by_name (prev :: out)
    | Err e => e = kConflict /\ contradictory (prev :: refs)
    end.
  Proof.
    revert prev. induction refs as [|r refs IH]; intros prev S; cbn [dedup_loop].
    { split; [reflexivity|]. repeat constructor. }
    inversion S as [|? ? Sr F]; subst. inversion F as [|? ? Pr Fp]; subst.
    destruct (keqb (name_of r) (name_of prev)) eqn:En.
    - apply keqb_eq in En. destruct (keqb (generation_of r) (generation_of prev)) eqn:Eg.
      + apply keqb_eq in Eg. pose proof (same_reference _ _ En Eg) as ->.
        specialize (IH prev Sr).
        destruct (dedup_loop name_of generation_of prev refs) as [out|e].
        * destruct IH as [I1 I2]. split; [|exact I2]. intros x. rewrite I1. simpl. tauto.
        * destruct IH as [-> (a & b & Ia & Ib & C)]. split; [reflexivity|].
          exists a, b. simpl in *. tauto.
      + apply keqb_neq in Eg. split; [reflexivity|]. exists r, prev. simpl. auto.
    - apply keqb_neq in En. specialize (IH r Sr).
      destruct (dedup_loop name_of generation_of r refs) as [out|e]; simpl rbind.
      + destruct IH as [I1 I2]. cbv beta iota.
        assert (forall x, In x (r :: out) -> kltb (name_of prev) (name_of x) = true) as M.
        { assert (kltb (name_of prev) (name_of r) = true) as Mr.
          { destruct (ordered_names _ _ Pr) as [E|E]; [symmetry in E; contradiction | exact E]. }
          inversion I2 as [|? ? _ Fo]; subst. rewrite List.Forall_forall in Fo.
          intros x [<-|I]; [exact Mr|]. eapply kltb_trans; eauto. }
        split; [intros x; specialize (I1 x); simpl in *; tauto|].
        constructor; [exact I2|]. now apply List.Forall_forall.
      + destruct IH as [-> (a & b & Ia & Ib & C)]. split; [reflexivity|].
        exists a, b. simpl in *. tauto.
  Qed.

Lemma strictly_by_name_consistent refs : strictly_by_name refs -> ~ contradictory refs.
  Proof.
    intros S (a & b & Ia & Ib & E & Ng). induction S as [|x l S IH F]; [contradiction|].
    rewrite List.Forall_forall in F.
    destruct Ia as [->|Ia], Ib as [->|Ib]; [now apply Ng| | |auto].
    - specialize (F _ Ib). rewrite E, kltb_irrefl in F. discriminate.
    - specialize (F _ Ia). rewrite E, kltb_irrefl in F. discriminate.
  Qed.

Lemma canonicalize_cases refs :
    match canonicalize name_of generation_of refs with
    | Ok out => Z.of_nat (length refs) <= kMaxBindingResources /\
                (forall r, In r out <-> In r refs) /\ strictly_by_name out
    | Err e => (e = kResourceExhausted /\ kMaxBindingResources < Z.of_nat (length refs)) \/
               (e = kConflict /\ contradictory refs)
    end.
  Proof.
    unfold canonicalize, refuse. rewrite Z.gtb_ltb.
    destruct (Z.ltb_spec kMaxBindingResources (Z.of_nat (length refs))) as [L|L]; simpl rbind;
      [left; split; [reflexivity | exact L]|].
    pose proof (fun x => sort_In kltb x refs) as I.
    pose proof (sort_keys_sorted refs) as S. unfold sort_keys in S.
    destruct (sort kltb refs) as [|r rest].
    - split; [exact L|]. split; [exact I | constructor].
    - pose proof (dedup_loop_spec r rest S) as D.
      destruct (dedup_loop name_of generation_of r rest) as [out|e]; simpl rbind; cbv beta iota.
      + destruct D as [D1 D2]. split; [exact L|]. split; [|exact D2].
        intros x. rewrite D1. apply I.
      + right. destruct D as [-> (a & b & Ia & Ib & C)]. split; [reflexivity|].
        exists a, b. rewrite <- !I. auto.
  Qed.

Lemma canonicalize_perm refs refs' :
    refs ≡ₚ refs' ->
    canonicalize name_of generation_of refs = canonicalize name_of generation_of refs'.
  Proof.
    intros P. unfold canonicalize. rewrite (Permutation_length P).
    pose proof (sort_keys_perm _ _ P) as E. unfold sort_keys in E. rewrite E. reflexivity.
  Qed.
End canonical_set.

(** The canonical form of a resource set does not depend on the order the
    references arrive in, holds exactly the given references, each name once, in
    ascending order; it is refused exactly when the set is too wide or names a
    resource at two generations. *)
Theorem canonicalize_resources_spec refs refs' :
  refs ≡ₚ refs' ->
  canonicalize_resources refs' = canonicalize_resources refs /\
  match canonicalize_resources refs with
  | Ok out => Z.of_nat (length refs) <= kMaxBindingResources /\
              ~ contradictory resource res_generation refs /\
              (forall r, In r out <-> In r refs) /\ strictly_by_name resource out
  | Err e => (e = kResourceExhausted /\ kMaxBindingResources < Z.of_nat (length refs)) \/
             (e = kConflict /\ contradictory resource res_generation refs)
  end.
Proof.
  intros P. unfold canonicalize_resources. split; [apply canonicalize_perm; now symmetry|].
  pose proof (canonicalize_cases resource res_generation (fun _ _ => eq_refl) refs) as C.
  destruct (canonicalize resource res_generation refs) as [out|e]; [|exact C].
  destruct C as (L & I & S). split; [exact L|]. split; [|auto].
  intros (a & b & Ia & Ib & K). apply I in Ia. apply I in Ib.
  apply (strictly_by_name_consistent resource res_generation out S). exists a, b. auto.
Qed.

Lemma canonicalize_resources_spec_witness :
  let a := mkResourceRef (mkName (str "a")) (mkCounter 1) in
  let b := mkResourceRef (mkName (str "b")) (mkCounter 2) in
  canonicalize_resources [a; b] = canonicalize_resources [b; a] /\
  match canonicalize_resources [b; a] with
  | Ok out => Z.of_nat (length [b; a]) <= kMaxBindingResources /\
              ~ contradictory resource res_generation [b; a] /\
              (forall r, In r out <-> In r [b; a]) /\ strictly_by_name resource out
  | Err e => (e = kResourceExhausted /\ kMaxBindingResources < Z.of_nat (length [b; a])) \/
             (e = kConflict /\ contradictory resource res_generation [b; a])
  end.
Proof.
  intros a b. apply (canonicalize_resources_spec [b; a] [a; b]). apply perm_swap.
Defined.

(** ** Reason text *)
Lemma strip_dots_head l :
  match strip_dots l with ch :: _ => byte_eqb ch "."%byte = false | [] => True end.
Proof.
  induction l as [|ch l IH]; simpl; [exact I|].
  destruct (byte_eqb ch "."%byte) eqn:E; [exact IH | exact E].
Qed.

Lemma strip_dots_suffix l : exists p, l = p ++ strip_dots l.
Proof.
  induction l as [|ch l [p E]]; simpl; [exists []; reflexivity|].
  destruct (byte_eqb ch "."%byte); [|exists []; reflexivity].
  exists (ch :: p). simpl. congruence.
Qed.

Lemma sanitize_loop_spec text max_bytes dot out :
  0 <= max_bytes -> Z.of_nat (length out) <= max_bytes -> forallb is_printable out = true ->
  Z.of_nat (length (sanitize_loop text max_bytes dot out)) <= max_bytes /\
  forallb is_printable (sanitize_loop text max_bytes dot out) = true.
Proof.
  intros M. revert dot out. induction text as [|ch text IH]; intros dot out L P;
    cbn [sanitize_loop]; [auto|].
  rewrite Z.geb_leb. destruct (Z.leb_spec max_bytes (Z.of_nat (length out))); [auto|].
  assert (is_printable (if is_printable ch then ch else "."%byte) = true) as Pn.
  { destruct (is_printable ch) eqn:E; [exact E | reflexivity]. }
  cbv zeta. destruct (byte_eqb _ _); [destruct dot; [auto|]|];
    apply IH; cbn [length forallb]; try lia; rewrite Pn, P; reflexivity.
Qed.

(** A sanitised reason is printable ASCII within its bound and does not end
    in a dot, whatever bytes came in. *)
Theorem sanitize_reason_spec text :
  Z.of_nat (length (sanitize_reason text)) <= kMaxProvenanceReasonBytes /\
  forallb is_printable (sanitize_reason text) = true /\
  (forall pre ch, sanitize_reason text = pre ++ [ch] -> byte_eqb ch "."%byte = false).
Proof.
  unfold sanitize_reason, sanitize_reason_to.
  pose proof (sanitize_loop_spec text kMaxProvenanceReasonBytes false []) as S.
  destruct S as [L P]; [unfold kMaxProvenanceReasonBytes; simpl; lia..|reflexivity|].
  set (l := sanitize_loop _ _ _ _) in *.
  destruct (strip_dots_suffix l) as [p E]. rewrite length_rev, forallb_rev.
  rewrite E in L, P at 1. rewrite length_app in L. rewrite forallb_app in P.
  apply andb_true_iff in P. destruct P as [_ P]. split; [lia|]. split; [exact P|].
  intros pre ch R. pose proof (strip_dots_head l) as Hd.
  rewrite <- (rev_involutive (strip_dots l)), R, rev_app_distr in Hd. exact Hd.
Qed.
