(* ===== verification/Wire.v ===== *)
(** * Bounded canonical encoding primitives

    [include/brf/wire.hpp] and [src/wire.cpp].  A [Writer] is the bytes it
    appends, a [Reader] the bytes it has left: a read returns its value and the
    rest, and the position of a failed reader is never used again.  [Codec] is
    the interface every encoder/decoder pair of the fabric offers: decoding an
    encoding gives the value back, and a decoder accepts nothing but encodings. *)
From S2P Require Import Prelude Errors Containers Identity Hash Bandwidth Time Authority.

Definition kMaxBlobBytes : Z := 4 * 1024 * 1024.
Definition kMaxTextBytes : Z := 64 * 1024.
Definition kMaxCollectionItems : Z := Z.shiftl 1 16.

(** ** Writer *)
Definition w_u8 (v : Z) : bytes := [z2b v].
Definition w_u16 (v : Z) : bytes :=
  w_u8 (Z.land v 0xFF) ++ w_u8 (Z.land (Z.shiftr v 8) 0xFF).
Definition w_u32 (v : Z) : bytes :=
  w_u16 (Z.land v 0xFFFF) ++ w_u16 (Z.land (Z.shiftr v 16) 0xFFFF).
Definition w_u64 (v : Z) : bytes :=
  w_u32 (Z.land v 0xFFFFFFFF) ++ w_u32 (Z.land (Z.shiftr v 32) 0xFFFFFFFF).
Definition w_i64 (v : Z) : bytes := w_u64 (to_u 64 v).
Definition w_boolean (v : bool) : bytes := w_u8 (if v then 1 else 0).
Definition w_raw (data : bytes) : bytes := data.
Definition w_fixed128 (id : Identity128) : bytes := w_raw (id_bytes id).
Definition w_bytes (data : bytes) : bytes :=
  w_u32 (to_u 32 (Z.of_nat (length data))) ++ w_raw data.
Definition w_text (data : bytes) : bytes := w_bytes data.
Definition w_count (n : Z) : bytes := w_u32 (to_u 32 n).

(** ** Reader *)
Definition rd (A : Type) : Type := bytes -> Result (A * bytes).

Definition rret {A} (a : A) : rd A := fun s => Ok (a, s).
Definition rfail {A} (e : ErrorCode) : rd A := fun _ => Err e.
Definition rd_bind {A B} (r : rd A) (k : A -> rd B) : rd B :=
  fun s => match r s with Ok (a, s') => k a s' | Err e => Err e end.
Definition rd_refuse (c : bool) (e : ErrorCode) : rd unit :=
  fun s => if c then Err e else Ok (tt, s).

Notation "'let!' x := r 'in' k" := (rd_bind r (fun x => k))
  (at level 10, x pattern, r at level 100, k at level 200) : brf_scope.
Notation "'refuse!' c 'with' e 'in' k" := (rd_bind (rd_refuse c e) (fun _ => k))
  (at level 10, c at level 100, e at level 100, k at level 200) : brf_scope.

(** [remaining() < 1] is a truncated frame. *)
Definition r_u8 : rd Z := fun s =>
  match s with [] => Err kCorrupt | b :: s => Ok (b2z b, s) end.
Definition r_u16 : rd Z :=
  let! lo := r_u8 in
  let! hi := r_u8 in
  rret (Z.lor lo (Z.shiftl hi 8)).
Definition r_u32 : rd Z :=
  let! lo := r_u16 in
  let! hi := r_u16 in
  rret (Z.lor lo (Z.shiftl hi 16)).
Definition r_u64 : rd Z :=
  let! lo := r_u32 in
  let! hi := r_u32 in
  rret (Z.lor lo (Z.shiftl hi 32)).
Definition r_i64 : rd Z := let! raw := r_u64 in rret (to_i64 raw).
Definition r_boolean : rd bool :=
  let! raw := r_u8 in
  refuse! raw >? 1 with kCorrupt in
  rret (raw =? 1).
Definition r_raw (size : Z) : rd bytes := fun s =>
  if Z.of_nat (length s) <? size then Err kCorrupt
  else Ok (firstn (Z.to_nat size) s, skipn (Z.to_nat size) s).
Definition r_fixed128 : rd Identity128 :=
  let! raw_bytes := r_raw kByteCount in rret (mkIdentity raw_bytes).
Definition r_bytes (max_size : Z) : rd bytes :=
  let! size := r_u32 in
  refuse! size >? max_size with kResourceExhausted in
  r_raw size.
Definition r_text (max_size : Z) : rd bytes := r_bytes max_size.
Definition r_peek_count (max_size : Z) : rd Z :=
  let! size := r_u32 in
  refuse! size >? max_size with kResourceExhausted in
  rret size.

(** [Reader::exhausted]. *)
Definition r_exhausted (s : bytes) : bool := match s with [] => true | _ => false end.

(** The canonical bytes of an authority vector, [src/authority.cpp]. *)
Definition authority_fingerprint_bytes (a : AuthorityVector) : bytes :=
  w_u64 (value (av_fabric_epoch a)) ++
  w_u64 (value (reservation_generation a)) ++
  w_fixed128 (av_claimant a) ++
  w_u64 (value (av_claimant_generation a)) ++
  w_fixed128 (capacity_snapshot a) ++
  w_u64 (value (capacity_generation a)) ++
  w_text (name_view (av_policy a)) ++
  w_u64 (value (policy_generation a)) ++
  w_u64 (value (path_generation a)) ++
  w_count (Z.of_nat (length (av_resources a))) ++
  flat_map (fun ref => w_text (name_view (resource ref)) ++ w_u64 (value (res_generation ref)))
    (av_resources a) ++
  w_count (Z.of_nat (length (av_failure_domains a))) ++
  flat_map (fun ref => w_text (name_view (domain ref)) ++ w_u64 (value (fd_generation ref)))
    (av_failure_domains a).

(** ** The codec interface *)
Class Codec {A : Type} (enc : A -> bytes) (dec : rd A) (wf : A -> bool) : Prop := {
  codec_roundtrip : forall v rest, wf v = true -> dec (enc v ++ rest) = Ok (v, rest);
  codec_canonical : forall bs v rest, dec bs = Ok (v, rest) -> bs = enc v ++ rest /\ wf v = true
}.

Section interface.
Context {A : Type} {enc : A -> bytes} {dec : rd A} {wf : A -> bool} `{!Codec enc dec wf}.

Lemma rd_bind_enc {B} (k : A -> rd B) v rest :
    wf v = true -> rd_bind dec k (enc v ++ rest) = k v rest.
  Proof. intros W. unfold rd_bind. rewrite codec_roundtrip by exact W. reflexivity. Qed.

Lemma rd_bind_dec {B} (k : A -> rd B) bs b rest :
    rd_bind dec k bs = Ok (b, rest) ->
    exists v s, bs = enc v ++ s /\ wf v = true /\ k v s = Ok (b, rest).
  Proof.
    unfold rd_bind. destruct (dec bs) as [[v s]|] eqn:E; [|discriminate].
    intros K. destruct (codec_canonical _ _ _ E) as [-> W]. eauto.
  Qed.

  (** Two values with the same encoding are the same value. *)
Lemma enc_inj v w : wf v = true -> wf w = true -> enc v = enc w -> v = w.
  Proof.
    intros V W E. pose proof (codec_roundtrip v [] V) as Rv.
    pose proof (codec_roundtrip w [] W) as Rw. rewrite E in Rv. congruence.
  Qed.
End interface.

Lemma rd_refuse_pass {B} c e (k : unit -> rd B) s :
  negb c = true -> rd_bind (rd_refuse c e) k s = k tt s.
Proof. destruct c; [discriminate | reflexivity]. Qed.

Lemma rd_refuse_inv {B} c e (k : unit -> rd B) s b rest :
  rd_bind (rd_refuse c e) k s = Ok (b, rest) -> negb c = true /\ k tt s = Ok (b, rest).
Proof. unfold rd_bind, rd_refuse. destruct c; [discriminate|]. auto. Qed.

(** One step of a decoder on the encoding it reads. *)
Ltac rd_step :=
  first
    [ rewrite rd_bind_enc by first [assumption | reflexivity]
    | rewrite rd_refuse_pass by first [assumption | reflexivity] ].

(** One step of the inversion of a successful decoder. *)
Ltac rd_inv H :=
  match type of H with
  | rd_bind (rd_refuse _ _) _ _ = Ok _ => apply rd_refuse_inv in H; destruct H as [? H]
  | rd_bind _ _ _ = Ok _ =>
      let v := fresh "v" in let s := fresh "s" in
      apply rd_bind_dec in H; destruct H as (v & s & -> & ? & H)
  | rret _ _ = Ok _ => unfold rret in H; injection H as <- <-
  end.

(** Both laws of a record codec: the encoder, the decoder and the
    well-formedness test go through the fields in the same order. *)
Ltac solve_codec enc dec wf :=
  constructor;
  [ let v := fresh "v" in let rest := fresh "rest" in let W := fresh "W" in
    intros v rest W; unfold wf in W; split_andb; unfold enc, dec;
    rewrite <- ?app_assoc; repeat rd_step; destruct v; reflexivity
  | let H := fresh "H" in
    intros ? ? ? H; unfold dec in H; repeat rd_inv H; unfold enc, wf;
    split; [rewrite <- ?app_assoc; reflexivity
           | repeat lazymatch goal with |- _ && _ = true => apply andb_true_iff; split end;
             assumption] ].

(** ** Fixed-width integers *)
Lemma lor_shiftl a b n :
  0 <= n -> 0 <= a < 2 ^ n -> 0 <= b -> Z.lor a (Z.shiftl b n) = a + b * 2 ^ n.
Proof.
  intros N A B. rewrite Z.shiftl_mul_pow2 by exact N.
  rewrite <- Z.lxor_lor, <- Z.add_nocarry_lxor; try reflexivity.
  all: apply Z.bits_inj'; intros i I; rewrite Z.land_spec, Z.bits_0.
  all: rewrite <- (Z.mod_small a (2 ^ n)) by exact A; destruct (Z.lt_ge_cases i n).
  all: try (rewrite Z.mul_pow2_bits_low by lia; apply andb_false_r).
  all: rewrite Z.mod_pow2_bits_high by lia; reflexivity.
Qed.

(** Two halves of a little-endian word. *)
Lemma split_word v n :
  0 <= n -> u_ok (2 * n) v = true ->
  let lo := Z.land v (Z.ones n) in
  let hi := Z.land (Z.shiftr v n) (Z.ones n) in
  u_ok n lo = true /\ u_ok n hi = true /\ Z.lor lo (Z.shiftl hi n) = v.
Proof.
  intros N W lo hi. subst lo hi. unfold u_ok in *. bool_prop.
  assert (0 < 2 ^ n) as P by (apply Z.pow_pos_nonneg; lia).
  replace (2 * n) with (n + n) in * by lia. rewrite Z.pow_add_r in * by lia.
  rewrite !Z.land_ones, Z.shiftr_div_pow2 by exact N.
  pose proof (Z.mod_pos_bound v (2 ^ n) P).
  assert (0 <= v / 2 ^ n < 2 ^ n) as D.
  { split; [apply Z.div_pos; lia | apply Z.div_lt_upper_bound; lia]. }
  rewrite (Z.mod_small (v / 2 ^ n)) by exact D.
  repeat split; try (bool_goal; lia).
  rewrite lor_shiftl by lia. pose proof (Z.div_mod v (2 ^ n)). lia.
Qed.

Lemma join_words lo hi n :
  0 <= n -> u_ok n lo = true -> u_ok n hi = true ->
  let v := Z.lor lo (Z.shiftl hi n) in
  u_ok (2 * n) v = true /\ Z.land v (Z.ones n) = lo /\ Z.land (Z.shiftr v n) (Z.ones n) = hi.
Proof.
  intros N L H v. subst v. unfold u_ok in *. bool_prop. rewrite lor_shiftl by lia.
  assert (0 < 2 ^ n) as P by (apply Z.pow_pos_nonneg; lia).
  replace (2 * n) with (n + n) by lia. rewrite Z.pow_add_r by lia.
  rewrite !Z.land_ones, Z.shiftr_div_pow2 by exact N.
  split; [bool_goal; nia|].
  rewrite Z.mod_add, Z.div_add, (Z.mod_small lo), (Z.div_small lo) by lia.
  split; [reflexivity | apply Z.mod_small; lia].
Qed.

#[export] Instance Codec_u8 : Codec w_u8 r_u8 (u_ok 8).
Proof.
  constructor.
  - intros v rest W. unfold u_ok in W. bool_prop. unfold w_u8, r_u8. simpl.
    rewrite b2z_z2b, Z.mod_small by lia. reflexivity.
  - intros [|b bs] v rest H; [discriminate|]. injection H as <- <-. unfold w_u8.
    rewrite z2b_b2z. split; [reflexivity|]. unfold u_ok. pose proof (b2z_range b).
    bool_goal; lia.
Qed.

(** A word of [2n] bits is its two halves, low first. *)
Lemma Codec_halves n w r (half : Codec w r (u_ok n)) :
  0 <= n ->
  Codec (fun v => w (Z.land v (Z.ones n)) ++ w (Z.land (Z.shiftr v n) (Z.ones n)))
        (let! lo := r in let! hi := r in rret (Z.lor lo (Z.shiftl hi n)))
        (u_ok (2 * n)).
Proof.
  intros N. constructor.
  - intros v rest W. destruct (split_word v n N W) as (L & H & E).
    rewrite <- app_assoc, !rd_bind_enc by assumption. rewrite E. reflexivity.
  - intros bs v rest D. apply rd_bind_dec in D. destruct D as (lo & s & -> & L & D).
    apply rd_bind_dec in D. destruct D as (hi & s' & -> & H & D). injection D as <- <-.
    destruct (join_words lo hi n N L H) as (W & El & Eh).
    rewrite El, Eh, <- app_assoc. auto.
Qed.

#[export] Instance Codec_u16 : Codec w_u16 r_u16 (u_ok 16) := Codec_halves 8 _ _ Codec_u8 ltac:(lia).
#[export] Instance Codec_u32 : Codec w_u32 r_u32 (u_ok 32) := Codec_halves 16 _ _ Codec_u16 ltac:(lia).
#[export] Instance Codec_u64 : Codec w_u64 r_u64 (u_ok 64) := Codec_halves 32 _ _ Codec_u32 ltac:(lia).

#[export] Instance Codec_i64 : Codec w_i64 r_i64 i64_ok.
Proof.
  constructor.
  - intros v rest W. unfold w_i64, r_i64. rewrite rd_bind_enc.
    + unfold rret. rewrite to_i64_to_u by exact W. reflexivity.
    + pose proof (to_u_range 64 v). unfold u_ok. bool_goal; lia.
  - intros bs v rest D. unfold r_i64 in D. rd_inv D. rd_inv D.
    unfold w_i64. rewrite to_u_to_i64 by assumption. auto using to_i64_ok.
Qed.

Definition always {A} (_ : A) : bool := true.

#[export] Instance Codec_boolean : Codec w_boolean r_boolean always.
Proof.
  constructor.
  - intros [] rest _; reflexivity.
  - intros bs v rest D. unfold r_boolean in D. rd_inv D. rd_inv D. rd_inv D.
    unfold u_ok in *. bool_prop. unfold w_boolean.
    assert (v0 = 0 \/ v0 = 1) as [-> | ->] by lia; auto.
Qed.

(** ** Byte ranges *)
Lemma r_raw_app data rest :
  r_raw (Z.of_nat (length data)) (data ++ rest) = Ok (data, rest).
Proof.
  unfold r_raw. rewrite length_app, Nat2Z.id.
  destruct (Z.ltb_spec (Z.of_nat (length data + length rest)) (Z.of_nat (length data))); [lia|].
  rewrite firstn_app, Nat.sub_diag, firstn_all, firstn_O, app_nil_r.
  rewrite skipn_app, Nat.sub_diag, skipn_all. reflexivity.
Qed.

Lemma r_raw_inv size bs data rest :
  0 <= size -> r_raw size bs = Ok (data, rest) ->
  bs = data ++ rest /\ Z.of_nat (length data) = size.
Proof.
  unfold r_raw. intros N. destruct (Z.ltb_spec (Z.of_nat (length bs)) size); [discriminate|].
  intros [= <- <-]. rewrite firstn_skipn, length_firstn. split; [reflexivity | lia].
Qed.

#[export] Instance Codec_fixed128 : Codec w_fixed128 r_fixed128 id_ok.
Proof.
  constructor.
  - intros [v] rest W. unfold id_ok in W. bool_prop. simpl in W. unfold w_fixed128, w_raw, r_fixed128, rd_bind.
    simpl id_bytes. rewrite <- W, r_raw_app. reflexivity.
  - intros bs v rest D. unfold r_fixed128, rd_bind in D.
    destruct (r_raw kByteCount bs) as [[data s]|] eqn:E; [|discriminate]. injection D as <- <-.
    apply r_raw_inv in E; [|unfold kByteCount; lia]. destruct E as [-> L].
    split; [reflexivity|]. unfold id_ok. simpl. now apply Z.eqb_eq.
Qed.

(** A text fits its bound. *)
Definition text_ok (max_size : Z) (data : bytes) : bool := Z.of_nat (length data) <=? max_size.

Lemma Codec_bytes max_size : max_size < 2 ^ 32 -> Codec w_bytes (r_bytes max_size) (text_ok max_size).
Proof.
  intros M. constructor.
  - intros v rest W. unfold text_ok in W. bool_prop. unfold w_bytes, r_bytes, w_raw.
    assert (u_ok 32 (Z.of_nat (length v)) = true) as U by (unfold u_ok; bool_goal; lia).
    rewrite (to_u_id 32) by exact U. rewrite <- app_assoc, rd_bind_enc by exact U.
    rewrite rd_refuse_pass; [apply r_raw_app|].
    rewrite Z.gtb_ltb. bool_goal. lia.
  - intros bs v rest D. unfold r_bytes in D. rd_inv D. rd_inv D.
    unfold u_ok in *. bool_prop. apply r_raw_inv in D; [|lia]. destruct D as [-> <-].
    unfold w_bytes, w_raw, text_ok. rewrite to_u_id by (unfold u_ok; bool_goal; lia).
    rewrite <- app_assoc. split; [reflexivity | bool_goal; lia].
Qed.

(** The bounds the decoders use. *)
#[export] Instance Codec_text_bounded max_size (B : TCEq (max_size <? 2 ^ 32) true) :
  Codec w_text (r_text max_size) (text_ok max_size).
Proof. apply Codec_bytes. apply Z.ltb_lt. inversion B. congruence. Qed.
