(* ===== verification/Regeneration.v ===== *)
(** * Generation-stamped tables: the regeneration contract

    The capacity ledger, the path authority table and the policy registry keep
    one current statement per name and follow the same rules: a statement at a
    higher generation replaces the current one and the replaced generation is
    remembered; the current generation may only be repeated with the same
    content; a lower generation is refused.  [Versioned] is what an entry of
    such a table shows of itself, [advances] the contract an ingestion meets,
    and [table_ok] the invariant that follows from it. *)
From S2P Require Import Prelude Errors Containers.

Class Versioned (E : Type) := {
  current_generation : E -> Z;
  earlier_generations : E -> list Z
}.

Section regeneration.
Context {K E : Type} `{OrdKey K} `{Versioned E} (name_of : E -> K).

  (** Every generation the entry has had, oldest first. *)
Definition history (e : E) : list Z := earlier_generations e ++ [current_generation e].

Definition ascending (l : list Z) : Prop := StronglySorted Z.lt l.

Definition table_ok (m : omap K E) : Prop :=
    om_sorted m /\ forall k e, om_find m k = Some e -> name_of e = k /\ ascending (history e).

  (** What one accepted statement for [k] at generation [g] does to the table. *)
Definition advances (k : K) (g : Z) (m m' : omap K E) (changed : bool) : Prop :=
    exists e', m' = (if changed then om_set m k e' else m) /\
      om_find m' k = Some e' /\ name_of e' = k /\ current_generation e' = g /\
      match om_find m k with
      | None => changed = true /\ history e' = [g]
      | Some e =>
          (current_generation e < g /\ changed = true /\ history e' = history e ++ [g]) \/
          (current_generation e = g /\ history e' = history e)
      end.

Lemma ascending_snoc l a b : ascending (l ++ [a]) -> a < b -> ascending ((l ++ [a]) ++ [b]).
  Proof.
    unfold ascending. induction l as [|x l IH]; simpl; intros S L.
    - repeat constructor; assumption.
    - inversion S as [|? ? S' F]; subst. rewrite List.Forall_forall in F.
      constructor; [auto|]. apply List.Forall_forall. intros y I.
      apply in_app_iff in I. destruct I as [I|[<-|[]]]; [auto|].
      specialize (F a). rewrite in_app_iff in F. simpl in F. lia.
  Qed.

Lemma advances_other k g m m' changed k' :
    advances k g m m' changed -> k <> k' -> om_find m' k' = om_find m k'.
  Proof.
    intros (e' & -> & _) N. destruct changed; [|reflexivity]. now apply om_find_set_ne.
  Qed.

  (** The generation of a name never goes back, and no generation is forgotten. *)
Lemma advances_history k g m m' changed e :
    advances k g m m' changed -> om_find m k = Some e ->
    exists e' l, om_find m' k = Some e' /\ history e' = history e ++ l /\
                 current_generation e <= current_generation e'.
  Proof.
    intros (e' & _ & F' & _ & G & C) F. rewrite F in C. exists e'.
    destruct C as [(L & _ & ->) | (-> & ->)]; [exists [g] | exists []];
      rewrite ?app_nil_r; repeat split; auto; lia.
  Qed.

Lemma advances_ok k g m m' changed :
    table_ok m -> advances k g m m' changed -> table_ok m'.
  Proof.
    intros [S T] A. pose proof A as (e' & Em & F' & N & G & C). split.
    { subst m'. destruct changed; auto with brf. }
    intros k0 e0 F0. destruct (keqb k k0) eqn:D.
    - apply keqb_eq in D. subst k0. rewrite F' in F0. injection F0 as <-. split; [exact N|].
      destruct (om_find m k) as [e|] eqn:Fe.
      + destruct (T _ _ Fe) as [_ As]. destruct C as [(L & _ & ->) | (_ & ->)]; [|exact As].
        unfold history. apply ascending_snoc; assumption.
      + destruct C as [_ ->]. repeat constructor.
    - apply keqb_neq in D. rewrite (advances_other _ _ _ _ _ _ A D) in F0. exact (T _ _ F0).
  Qed.
End regeneration.

#[export] Hint Resolve advances_ok : brf.
