(* ===== verification/Policy.v ===== *)
(** * Reservation policy records and the policy registry

    [include/brf/policy.hpp] and [src/policy.cpp]. *)
From S2P Require Import Prelude Errors Containers Identity Hash Bandwidth Time Regeneration.

(** Weakest to strongest; the order decides who is displaced first. *)
Inductive GuaranteeClass := kScavenger | kPreemptible | kProtected | kGuaranteed.

#[export] Instance GuaranteeClass_eq_dec : EqDecision GuaranteeClass.
Proof. solve_decision. Defined.

Definition GuaranteeClass_to_Z (c : GuaranteeClass) : Z :=
  match c with kScavenger => 0 | kPreemptible => 1 | kProtected => 2 | kGuaranteed => 3 end.

Definition GuaranteeClass_to_string (c : GuaranteeClass) : bytes :=
  match c with
  | kScavenger => str "SCAVENGER"
  | kPreemptible => str "PREEMPTIBLE"
  | kProtected => str "PROTECTED"
  | kGuaranteed => str "GUARANTEED"
  end.

Definition parse_guarantee_class (text : bytes) : Result GuaranteeClass :=
  if decide (text = str "SCAVENGER") then Ok kScavenger
  else if decide (text = str "PREEMPTIBLE") then Ok kPreemptible
  else if decide (text = str "PROTECTED") then Ok kProtected
  else if decide (text = str "GUARANTEED") then Ok kGuaranteed
  else Err kInvalidArgument.

Definition kMaxPriority : Z := 1000.
Definition kMaxPolicyLabels : Z := 16.
Definition kMaxLabelBytes : Z := 64.

Record PolicyRecord := mkPolicyRecord {
  pr_name : PolicyName;
  pr_generation : PolicyGeneration;
  pr_ingested_at : Timestamp;
  allow_recall_guaranteed : bool;
  allow_recall_protected : bool;
  allow_preemption_on_commit : bool;
  max_preemption_victims : Z;
  default_recall_grace : Duration;
  allow_overcommit : bool;
  overcommit_allowance : Bandwidth;
  minimum_reservation_amount : Bandwidth;
  allow_past_start : bool;
  max_future_horizon : Duration;
  max_extra_headroom : Bandwidth;
  auto_revalidate_on_generation_change : bool;
  policy_headroom : Bandwidth;
  max_conflict_set : Z;
  max_explanation_bytes : Z;
  max_series_members : Z;
  max_hold_ttl : Duration;
  max_holds_per_session : Z;
  max_hold_bandwidth : Bandwidth }.

Definition beq {A} `{EqDecision A} (a b : A) : bool := bool_decide (a = b).

Definition materially_differs (r other : PolicyRecord) : bool :=
  negb (beq (allow_recall_guaranteed r) (allow_recall_guaranteed other)) ||
  negb (beq (allow_recall_protected r) (allow_recall_protected other)) ||
  negb (beq (allow_preemption_on_commit r) (allow_preemption_on_commit other)) ||
  negb (beq (max_preemption_victims r) (max_preemption_victims other)) ||
  negb (beq (allow_overcommit r) (allow_overcommit other)) ||
  negb (beq (overcommit_allowance r) (overcommit_allowance other)) ||
  negb (beq (auto_revalidate_on_generation_change r) (auto_revalidate_on_generation_change other)) ||
  negb (beq (policy_headroom r) (policy_headroom other)) ||
  negb (beq (minimum_reservation_amount r) (minimum_reservation_amount other)).

(** [operator==]: every field but the ingestion instant. *)
Definition PolicyRecord_eqb (a b : PolicyRecord) : bool :=
  beq (pr_name a) (pr_name b) && beq (pr_generation a) (pr_generation b) &&
  beq (allow_recall_guaranteed a) (allow_recall_guaranteed b) &&
  beq (allow_recall_protected a) (allow_recall_protected b) &&
  beq (allow_preemption_on_commit a) (allow_preemption_on_commit b) &&
  beq (max_preemption_victims a) (max_preemption_victims b) &&
  beq (default_recall_grace a) (default_recall_grace b) &&
  beq (allow_overcommit a) (allow_overcommit b) &&
  beq (overcommit_allowance a) (overcommit_allowance b) &&
  beq (minimum_reservation_amount a) (minimum_reservation_amount b) &&
  beq (allow_past_start a) (allow_past_start b) &&
  beq (max_future_horizon a) (max_future_horizon b) &&
  beq (max_extra_headroom a) (max_extra_headroom b) &&
  beq (auto_revalidate_on_generation_change a) (auto_revalidate_on_generation_change b) &&
  beq (policy_headroom a) (policy_headroom b) &&
  beq (max_conflict_set a) (max_conflict_set b) &&
  beq (max_explanation_bytes a) (max_explanation_bytes b) &&
  beq (max_series_members a) (max_series_members b) &&
  beq (max_hold_ttl a) (max_hold_ttl b) &&
  beq (max_holds_per_session a) (max_holds_per_session b) &&
  beq (max_hold_bandwidth a) (max_hold_bandwidth b).

(** [bps < 0 || bps > kMaxBandwidthBps] and the like. *)
Definition bandwidth_out_of_range (b : Bandwidth) : bool := (bps b <? 0) || (bps b >? kMaxBandwidthBps).
Definition span_out_of_range (d : Duration) : bool :=
  (dur_ns d <? 0) || (dur_ns d >? kMaxReservationSpanNs).

Definition validate_policy (record : PolicyRecord) : Status :=
  refuse_if name_empty (pr_name record) with kInvalidName in
  refuse_if (max_conflict_set record =? 0) || (max_conflict_set record >? 4096)
    with kInvalidArgument in
  refuse_if (max_explanation_bytes record <? 128) || (max_explanation_bytes record >? 65536)
    with kInvalidArgument in
  refuse_if (max_series_members record =? 0) || (max_series_members record >? 4096)
    with kInvalidArgument in
  refuse_if max_holds_per_session record >? 4096 with kInvalidArgument in
  refuse_if max_preemption_victims record >? 1024 with kInvalidArgument in
  refuse_if bandwidth_out_of_range (overcommit_allowance record) with kInvalidBandwidth in
  refuse_if bandwidth_out_of_range (policy_headroom record) with kInvalidBandwidth in
  refuse_if bandwidth_out_of_range (max_extra_headroom record) with kInvalidBandwidth in
  refuse_if bandwidth_out_of_range (minimum_reservation_amount record) with kInvalidBandwidth in
  refuse_if bandwidth_out_of_range (max_hold_bandwidth record) with kInvalidBandwidth in
  refuse_if span_out_of_range (max_future_horizon record) with kInvalidInterval in
  refuse_if span_out_of_range (default_recall_grace record) with kInvalidInterval in
  refuse_if span_out_of_range (max_hold_ttl record) with kInvalidInterval in
  Ok tt.

(** ** The registry: [entries_] by name *)
Record PolicyEntry := mkPolicyEntry {
  pe_record : PolicyRecord;
  pe_prior_generations : list PolicyGeneration;
  pe_ingested_at : Timestamp }.

Definition PolicyRegistry := omap PolicyName PolicyEntry.

#[export] Instance Versioned_PolicyEntry : Versioned PolicyEntry := {
  current_generation e := value (pr_generation (pe_record e));
  earlier_generations e := map value (pe_prior_generations e) }.

Definition PolicyRegistry_apply (entries_ : PolicyRegistry) (record : PolicyRecord) :
    Result (bool * PolicyRegistry) :=
  let? _ := validate_policy record in
  match om_find entries_ (pr_name record) with
  | None =>
      Ok (true, om_set entries_ (pr_name record) (mkPolicyEntry record [] (pr_ingested_at record)))
  | Some entry =>
      if value (pr_generation record) =? value (pr_generation (pe_record entry)) then
        refuse_if negb (PolicyRecord_eqb record (pe_record entry)) with kConflict in
        Ok (false, entries_)
      else
        refuse_if value (pr_generation record) <? value (pr_generation (pe_record entry))
          with kStaleGeneration in
        let next := mkPolicyEntry record
          (pe_prior_generations entry ++ [pr_generation (pe_record entry)])
          (pr_ingested_at record) in
        Ok (true, om_set entries_ (pr_name record) next)
  end.

Definition PolicyRegistry_inject (entries_ : PolicyRegistry) (entry : PolicyEntry) : PolicyRegistry :=
  om_set entries_ (pr_name (pe_record entry)) entry.
Definition PolicyRegistry_find (entries_ : PolicyRegistry) (name : PolicyName) : option PolicyEntry :=
  om_find entries_ name.
Definition PolicyRegistry_current (entries_ : PolicyRegistry) (name : PolicyName) :
    option PolicyRecord := option_map pe_record (PolicyRegistry_find entries_ name).
Definition policy_names (entries_ : PolicyRegistry) : list PolicyName := om_keys entries_.

Definition strict_default (name : PolicyName) : PolicyRecord :=
  mkPolicyRecord name (mkCounter 1) (mkTs 0) false true false 0 (mkDur 0) false (mkBandwidth 0)
    (mkBandwidth 0) false (mkDur 0) (mkBandwidth 0) false (mkBandwidth 0) 64 4096 64
    (mkDur (5 * kNsPerSecond)) 16 (mkBandwidth 1000000000).

(** ** Lemmas *)
Lemma beq_eq {A} `{EqDecision A} (a b : A) : beq a b = true <-> a = b.
Proof. unfold beq. apply bool_decide_eq_true. Qed.

Lemma beq_true {A} `{EqDecision A} (a b : A) : beq a b = true -> a = b.
Proof. apply beq_eq. Qed.

Lemma beq_refl {A} `{EqDecision A} (a : A) : beq a a = true.
Proof. now apply beq_eq. Qed.

Lemma PolicyRecord_eqb_refl a : PolicyRecord_eqb a a = true.
Proof. unfold PolicyRecord_eqb. rewrite !beq_refl. reflexivity. Qed.

Lemma PolicyRecord_eqb_name a b :
  PolicyRecord_eqb a b = true -> pr_name a = pr_name b /\ pr_generation a = pr_generation b.
Proof. unfold PolicyRecord_eqb. intros H. split_andb. split; now apply beq_eq. Qed.

Lemma in_range_bandwidth b : bandwidth_out_of_range b = false <-> 0 <= bps b <= kMaxBandwidthBps.
Proof.
  unfold bandwidth_out_of_range. rewrite orb_false_iff, Z.gtb_ltb, !Z.ltb_ge. lia.
Qed.

Lemma in_range_span d : span_out_of_range d = false <-> 0 <= dur_ns d <= kMaxReservationSpanNs.
Proof. unfold span_out_of_range. rewrite orb_false_iff, Z.gtb_ltb, !Z.ltb_ge. lia. Qed.

(** The built-in policy is one an authority could have supplied. *)
Lemma strict_default_valid name :
  name_empty name = false -> validate_policy (strict_default name) = Ok tt.
Proof.
  intros N. unfold validate_policy. cbn [pr_name strict_default]. rewrite N. vm_compute. reflexivity.
Qed.

Definition pe_name (e : PolicyEntry) : PolicyName := pr_name (pe_record e).

(** What the registry answers, by case. *)
Definition policy_refused (entries_ : PolicyRegistry) (record : PolicyRecord) (e : ErrorCode) : Prop :=
  validate_policy record = Err e \/
  exists entry, om_find entries_ (pr_name record) = Some entry /\
    ((e = kConflict /\ value (pr_generation record) = current_generation entry /\
      PolicyRecord_eqb record (pe_record entry) = false) \/
     (e = kStaleGeneration /\ value (pr_generation record) < current_generation entry)).

Lemma PolicyRegistry_apply_again m record e :
  validate_policy record = Ok tt -> om_find m (pr_name record) = Some e ->
  PolicyRecord_eqb record (pe_record e) = true ->
  PolicyRegistry_apply m record = Ok (false, m).
Proof.
  intros V F Q. unfold PolicyRegistry_apply. rewrite V, F. cbn [rbind].
  destruct (PolicyRecord_eqb_name _ _ Q) as [_ ->]. rewrite Z.eqb_refl, Q. reflexivity.
Qed.

(** A record stored as the new current one. *)
Lemma PolicyRegistry_store m record ent :
  validate_policy record = Ok tt -> table_ok pe_name m -> pe_record ent = record ->
  let m' := om_set m (pr_name record) ent in
  advances pe_name (pr_name record) (value (pr_generation record)) m m' true ->
  table_ok pe_name m' /\
  advances pe_name (pr_name record) (value (pr_generation record)) m m' true /\
  (exists cur, PolicyRegistry_current m' (pr_name record) = Some cur /\
               PolicyRecord_eqb record cur = true) /\
  PolicyRegistry_apply m' record = Ok (false, m').
Proof.
  intros V T E m' A. split; [eapply advances_ok; eauto|]. split; [exact A|].
  pose proof (om_find_set_eq m (pr_name record) ent) as F. fold m' in F. split.
  - exists record. unfold PolicyRegistry_current, PolicyRegistry_find. rewrite F, PolicyRecord_eqb_refl.
    cbn [option_map]. rewrite E. auto.
  - eapply PolicyRegistry_apply_again; eauto. rewrite E. apply PolicyRecord_eqb_refl.
Qed.

(** Ingesting a policy keeps the registry well formed and meets the
    regeneration contract: the record is then the current one, a replaced
    generation joins the history, no other policy changes; it is refused exactly
    when the record is invalid, contradicts its own generation, or is stale. *)
Theorem PolicyRegistry_apply_spec entries_ record :
  table_ok pe_name entries_ ->
  match PolicyRegistry_apply entries_ record with
  | Ok (changed, entries') =>
      validate_policy record = Ok tt /\ table_ok pe_name entries' /\
      advances pe_name (pr_name record) (value (pr_generation record)) entries_ entries' changed /\
      (exists cur, PolicyRegistry_current entries' (pr_name record) = Some cur /\
                   PolicyRecord_eqb record cur = true) /\
      PolicyRegistry_apply entries' record = Ok (false, entries')
  | Err e => policy_refused entries_ record e
  end.
Proof.
  intros T. unfold PolicyRegistry_apply at 1.
  destruct (validate_policy record) as [[]|ev] eqn:V; [|left; exact V]. cbn [rbind].
  destruct (om_find entries_ (pr_name record)) as [entry|] eqn:F.
  - destruct (Z.eqb_spec (value (pr_generation record)) (value (pr_generation (pe_record entry))))
      as [Eg|Ng]; unfold refuse.
    + destruct (PolicyRecord_eqb record (pe_record entry)) eqn:Q; cbn [negb rbind];
        [|right; exists entry; auto].
      split; [reflexivity|]. split; [exact T|]. destruct (PolicyRecord_eqb_name _ _ Q) as [Qn Qg].
      split; [|split; [|eapply PolicyRegistry_apply_again; eauto]].
      * exists entry. unfold pe_name. rewrite F. repeat split; auto.
      * exists (pe_record entry). unfold PolicyRegistry_current, PolicyRegistry_find. rewrite F. auto.
    + destruct (Z.ltb_spec (value (pr_generation record)) (value (pr_generation (pe_record entry))));
        cbn [rbind]; [right; exists entry; auto|]. cbv zeta. split; [reflexivity|].
      apply PolicyRegistry_store; try assumption; [reflexivity|].
      eexists. split; [reflexivity|]. rewrite F, om_find_set_eq. repeat split. left.
      cbn. split; [lia|]. split; [reflexivity|]. unfold history. cbn.
      rewrite map_app. reflexivity.
  - split; [reflexivity|]. apply PolicyRegistry_store; try assumption; [reflexivity|].
    eexists. split; [reflexivity|]. rewrite F, om_find_set_eq. repeat split.
Qed.

Lemma PolicyRegistry_apply_spec_witness :
  let record := strict_default (mkName (str "gold")) in
  match PolicyRegistry_apply [] record with
  | Ok (changed, entries') =>
      validate_policy record = Ok tt /\ table_ok pe_name entries' /\
      advances pe_name (pr_name record) (value (pr_generation record)) [] entries' changed /\
      (exists cur, PolicyRegistry_current entries' (pr_name record) = Some cur /\
                   PolicyRecord_eqb record cur = true) /\
      PolicyRegistry_apply entries' record = Ok (false, entries')
  | Err e => policy_refused [] record e
  end.
Proof.
  intros record. apply (PolicyRegistry_apply_spec [] record). split; [constructor | discriminate].
Defined.
