(* ===== verification/Capacity.v ===== *)
(** * Authoritative capacity and path authority

    [include/brf/capacity.hpp] and [src/capacity.cpp]: capacity statements and
    their ledger, path authority and its table.  Both tables follow the
    contract of [Regeneration]. *)
From S2P Require Import Prelude Errors Containers Identity Hash Bandwidth Time Authority Regeneration Policy.

Definition kMaxMaintenanceWindowsPerResource : Z := 64.
Definition kMaxPathComponents : Z := 64.
Definition kMaxResourcesPerSnapshot : Z := 4096.

Record MaintenanceWindow := mkMaintenanceWindow { mw_interval : Interval; mw_reason : bytes }.

Record ResourceCapacity := mkResourceCapacity {
  rc_resource : ResourceName;
  rc_generation : ResourceGeneration;
  reservable_capacity : Bandwidth;
  protected_headroom : Bandwidth;
  failure_domain : FailureDomainName;
  failure_domain_generation : FailureDomainGeneration;
  maintenance : list MaintenanceWindow }.

#[export] Instance MaintenanceWindow_eq_dec : EqDecision MaintenanceWindow.
Proof. solve_decision. Defined.
(** [operator==] of a capacity statement compares every field. *)
#[export] Instance ResourceCapacity_eq_dec : EqDecision ResourceCapacity.
Proof. solve_decision. Defined.

Definition committable_ceiling (c : ResourceCapacity) : Bandwidth :=
  if bps (reservable_capacity c) <=? bps (protected_headroom c) then mkBandwidth 0
  else mkBandwidth (bps (reservable_capacity c) - bps (protected_headroom c)).

Record CapacitySnapshot := mkCapacitySnapshot {
  cs_id : Identity128;
  cs_generation : CapacitySnapshotGeneration;
  cs_fabric_epoch : FabricEpoch;
  cs_ingested_at : Timestamp;
  cs_complete : bool;
  cs_resources : list ResourceCapacity }.

Record PathAuthority := mkPathAuthority {
  pa_path : PathName;
  pa_generation : PathAuthorityGeneration;
  pa_components : list ResourceName;
  pa_issued_at : Timestamp;
  pa_retired : bool }.

Record PathAuthoritySnapshot := mkPathAuthoritySnapshot {
  ps_id : Identity128;
  ps_generation : CapacitySnapshotGeneration;
  ps_fabric_epoch : FabricEpoch;
  ps_ingested_at : Timestamp;
  ps_complete : bool;
  ps_paths : list PathAuthority }.

(** [operator==] of a path authority leaves the issue instant out. *)
Definition PathAuthority_eqb (a b : PathAuthority) : bool :=
  beq (pa_path a) (pa_path b) && beq (pa_generation a) (pa_generation b) &&
  beq (pa_components a) (pa_components b) && beq (pa_retired a) (pa_retired b).

(** ** [CapacityLedger] *)
Record CapacityEntry := mkCapacityEntry {
  ce_capacity : ResourceCapacity;
  ce_snapshot : Identity128;
  ce_ingested_at : Timestamp;
  ce_withdrawn : bool;
  ce_withdrawn_at : Timestamp;
  ce_prior_generations : list ResourceGeneration }.

Definition CapacityLedger := omap ResourceName CapacityEntry.

#[export] Instance Versioned_CapacityEntry : Versioned CapacityEntry := {
  current_generation e := value (rc_generation (ce_capacity e));
  earlier_generations e := map value (ce_prior_generations e) }.

(** The loop over the maintenance windows. *)
Fixpoint validate_windows (windows : list MaintenanceWindow) : Status :=
  match windows with
  | [] => Ok tt
  | window :: windows => let? _ := validate_interval (mw_interval window) in validate_windows windows
  end.

(** The checks [CapacityLedger::apply] makes before it looks at the ledger. *)
Definition validate_capacity (capacity : ResourceCapacity) : Status :=
  refuse_if name_empty (rc_resource capacity) with kInvalidName in
  refuse_if bps (reservable_capacity capacity) <=? 0 with kInvalidBandwidth in
  refuse_if bps (reservable_capacity capacity) >? kMaxBandwidthBps with kInvalidBandwidth in
  refuse_if bandwidth_out_of_range (protected_headroom capacity) with kInvalidBandwidth in
  refuse_if Z.of_nat (length (maintenance capacity)) >? kMaxMaintenanceWindowsPerResource
    with kResourceExhausted in
  validate_windows (maintenance capacity).

Definition CapacityLedger_apply (entries_ : CapacityLedger) (capacity : ResourceCapacity)
    (snapshot : Identity128) (now : Timestamp) : Result (bool * CapacityLedger) :=
  let? _ := validate_capacity capacity in
  match om_find entries_ (rc_resource capacity) with
  | None =>
      Ok (true, om_set entries_ (rc_resource capacity)
                  (mkCapacityEntry capacity snapshot now false (mkTs 0) []))
  | Some entry =>
      if value (rc_generation capacity) =? value (rc_generation (ce_capacity entry)) then
        refuse_if negb (beq capacity (ce_capacity entry)) with kConflict in
        if ce_withdrawn entry then
          Ok (true, om_set entries_ (rc_resource capacity)
                      (mkCapacityEntry (ce_capacity entry) snapshot now false
                         (ce_withdrawn_at entry) (ce_prior_generations entry)))
        else Ok (false, entries_)
      else
        refuse_if value (rc_generation capacity) <? value (rc_generation (ce_capacity entry))
          with kStaleGeneration in
        Ok (true, om_set entries_ (rc_resource capacity)
                    (mkCapacityEntry capacity snapshot now false (mkTs 0)
                       (ce_prior_generations entry ++ [rc_generation (ce_capacity entry)])))
  end.

Definition CapacityLedger_withdraw (entries_ : CapacityLedger) (resource : ResourceName)
    (now : Timestamp) : Result CapacityLedger :=
  match om_find entries_ resource with
  | None => Err kNotFound
  | Some entry =>
      if ce_withdrawn entry then Ok entries_
      else Ok (om_set entries_ resource
                 (mkCapacityEntry (ce_capacity entry) (ce_snapshot entry) (ce_ingested_at entry) true
                    now (ce_prior_generations entry)))
  end.

Definition CapacityLedger_inject (entries_ : CapacityLedger) (entry : CapacityEntry) : CapacityLedger :=
  om_set entries_ (rc_resource (ce_capacity entry)) entry.
Definition CapacityLedger_find (entries_ : CapacityLedger) (resource : ResourceName) :
    option CapacityEntry := om_find entries_ resource.

Definition CapacityLedger_is_current (entries_ : CapacityLedger) (ref : ResourceRef) : bool :=
  match CapacityLedger_find entries_ (resource ref) with
  | None => false
  | Some entry =>
      if ce_withdrawn entry then false
      else value (rc_generation (ce_capacity entry)) =? value (res_generation ref)
  end.

(** The first live entry of the domain decides. *)
Fixpoint is_current_failure_domain (entries_ : CapacityLedger) (ref : FailureDomainRef) : bool :=
  match entries_ with
  | [] => false
  | (_, entry) :: entries_ =>
      if ce_withdrawn entry then is_current_failure_domain entries_ ref
      else if beq (failure_domain (ce_capacity entry)) (domain ref) then
        value (failure_domain_generation (ce_capacity entry)) =? value (fd_generation ref)
      else is_current_failure_domain entries_ ref
  end.

Definition resource_names (entries_ : CapacityLedger) : list ResourceName := om_keys entries_.

Definition maintenance_covers (capacity : ResourceCapacity) (interval : Interval) : bool :=
  existsb (fun window => overlaps (mw_interval window) interval) (maintenance capacity).

(** ** [PathAuthorityTable] *)
Record PathEntry := mkPathEntry {
  pt_path : PathAuthority;
  pt_snapshot : Identity128;
  pt_ingested_at : Timestamp;
  pt_retired : bool;
  pt_prior_generations : list PathAuthorityGeneration }.

Definition PathAuthorityTable := omap PathName PathEntry.

#[export] Instance Versioned_PathEntry : Versioned PathEntry := {
  current_generation e := value (pa_generation (pt_path e));
  earlier_generations e := map value (pt_prior_generations e) }.

Definition validate_path (path : PathAuthority) : Status :=
  refuse_if name_empty (pa_path path) with kInvalidName in
  refuse_if Z.of_nat (length (pa_components path)) =? 0 with kInvalidArgument in
  refuse_if Z.of_nat (length (pa_components path)) >? kMaxPathComponents with kResourceExhausted in
  refuse_if adjacent_dup (sort_keys (pa_components path)) with kConflict in
  Ok tt.

Definition PathAuthorityTable_apply (entries_ : PathAuthorityTable) (path : PathAuthority)
    (snapshot : Identity128) (now : Timestamp) : Result (bool * PathAuthorityTable) :=
  let? _ := validate_path path in
  match om_find entries_ (pa_path path) with
  | None =>
      Ok (true, om_set entries_ (pa_path path) (mkPathEntry path snapshot now (pa_retired path) []))
  | Some entry =>
      if value (pa_generation path) =? value (pa_generation (pt_path entry)) then
        refuse_if negb (PathAuthority_eqb path (pt_path entry)) with kConflict in
        if negb (beq (pt_retired entry) (pa_retired path)) then
          Ok (true, om_set entries_ (pa_path path)
                      (mkPathEntry (pt_path entry) (pt_snapshot entry) (pt_ingested_at entry)
                         (pa_retired path) (pt_prior_generations entry)))
        else Ok (false, entries_)
      else
        refuse_if value (pa_generation path) <? value (pa_generation (pt_path entry))
          with kStaleGeneration in
        Ok (true, om_set entries_ (pa_path path)
                    (mkPathEntry path snapshot now (pa_retired path)
                       (pt_prior_generations entry ++ [pa_generation (pt_path entry)])))
  end.

Definition PathAuthorityTable_retire (entries_ : PathAuthorityTable) (path : PathName)
    (now : Timestamp) : Result PathAuthorityTable :=
  match om_find entries_ path with
  | None => Err kNotFound
  | Some entry =>
      if pt_retired entry then Ok entries_
      else Ok (om_set entries_ path
                 (mkPathEntry (pt_path entry) (pt_snapshot entry) now true
                    (pt_prior_generations entry)))
  end.

Definition PathAuthorityTable_inject (entries_ : PathAuthorityTable) (entry : PathEntry) :
    PathAuthorityTable := om_set entries_ (pa_path (pt_path entry)) entry.
Definition PathAuthorityTable_find (entries_ : PathAuthorityTable) (path : PathName) :
    option PathEntry := om_find entries_ path.
Definition PathAuthorityTable_is_current (entries_ : PathAuthorityTable) (path : PathName)
    (generation : PathAuthorityGeneration) : bool :=
  match PathAuthorityTable_find entries_ path with
  | None => false
  | Some entry =>
      if pt_retired entry then false
      else value (pa_generation (pt_path entry)) =? value generation
  end.
Definition path_names (entries_ : PathAuthorityTable) : list PathName := om_keys entries_.

(** ** The committable ceiling *)
Lemma committable_ceiling_spec c :
  validate_capacity c = Ok tt ->
  bps (committable_ceiling c) = Z.max 0 (bps (reservable_capacity c) - bps (protected_headroom c)) /\
  0 <= bps (committable_ceiling c) <= kMaxBandwidthBps.
Proof.
  unfold validate_capacity. intros V. inv_result. rewrite in_range_bandwidth in *. bool_prop.
  unfold committable_ceiling.
  destruct (Z.leb_spec (bps (reservable_capacity c)) (bps (protected_headroom c))); cbn [bps]; lia.
Qed.

(** ** The regeneration contract of the two tables *)
Definition ce_name (e : CapacityEntry) : ResourceName := rc_resource (ce_capacity e).
Definition pt_name (e : PathEntry) : PathName := pa_path (pt_path e).

Definition capacity_refused (entries_ : CapacityLedger) (capacity : ResourceCapacity)
    (e : ErrorCode) : Prop :=
  validate_capacity capacity = Err e \/
  exists entry, om_find entries_ (rc_resource capacity) = Some entry /\
    ((e = kConflict /\ value (rc_generation capacity) = current_generation entry /\
      capacity <> ce_capacity entry) \/
     (e = kStaleGeneration /\ value (rc_generation capacity) < current_generation entry)).

Lemma CapacityLedger_is_current_set m c ent :
  ce_withdrawn ent = false -> ce_capacity ent = c ->
  CapacityLedger_is_current (om_set m (rc_resource c) ent)
    (mkResourceRef (rc_resource c) (rc_generation c)) = true.
Proof.
  intros W E. unfold CapacityLedger_is_current, CapacityLedger_find. cbn [resource res_generation].
  rewrite om_find_set_eq, W, E. apply Z.eqb_refl.
Qed.

Ltac advance_set F := eexists; split; [reflexivity|]; rewrite F, om_find_set_eq; repeat split.

(** Ingesting a capacity statement keeps the ledger well formed and meets
    the regeneration contract; exactly the offered statement is then current
    authority.  It is refused exactly when it is invalid, contradicts its own
    generation, or is stale. *)
Theorem CapacityLedger_apply_spec entries_ capacity snapshot now :
  table_ok ce_name entries_ ->
  match CapacityLedger_apply entries_ capacity snapshot now with
  | Ok (changed, entries') =>
      validate_capacity capacity = Ok tt /\ table_ok ce_name entries' /\
      advances ce_name (rc_resource capacity) (value (rc_generation capacity))
        entries_ entries' changed /\
      option_map ce_capacity (CapacityLedger_find entries' (rc_resource capacity)) = Some capacity /\
      (forall g, CapacityLedger_is_current entries' (mkResourceRef (rc_resource capacity) g) = true <->
                 g = rc_generation capacity)
  | Err e => capacity_refused entries_ capacity e
  end.
Proof.
  intros T. unfold CapacityLedger_apply.
  destruct (validate_capacity capacity) as [[]|ev] eqn:V; [|left; exact V]. cbn [rbind].
  assert (forall m' changed, advances ce_name (rc_resource capacity) (value (rc_generation capacity))
             entries_ m' changed ->
           (exists ent, om_find m' (rc_resource capacity) = Some ent /\ ce_capacity ent = capacity /\
                        ce_withdrawn ent = false) ->
           Ok tt = Ok tt /\ table_ok ce_name m' /\
           advances ce_name (rc_resource capacity) (value (rc_generation capacity)) entries_ m' changed /\
           option_map ce_capacity (CapacityLedger_find m' (rc_resource capacity)) = Some capacity /\
           (forall g, CapacityLedger_is_current m' (mkResourceRef (rc_resource capacity) g) = true <->
                      g = rc_generation capacity)) as K.
  { intros m' changed A (ent & F' & E & W). split; [reflexivity|].
    split; [eapply advances_ok; eauto|]. split; [exact A|].
    unfold CapacityLedger_is_current, CapacityLedger_find. cbn [resource res_generation].
    rewrite F', W. cbn [option_map]. rewrite E. split; [reflexivity|].
    intros g. rewrite Z.eqb_eq. split; [intros Eg; symmetry; now apply value_inj | now intros ->]. }
  destruct (om_find entries_ (rc_resource capacity)) as [entry|] eqn:F.
  - destruct (Z.eqb_spec (value (rc_generation capacity)) (value (rc_generation (ce_capacity entry))))
      as [Eg|Ng]; unfold refuse.
    + destruct (beq capacity (ce_capacity entry)) eqn:Q; cbn [negb rbind].
      2:{ right. exists entry. split; [exact F|]. left. repeat split; [exact Eg|].
          intros ->. rewrite beq_refl in Q. discriminate. }
      apply beq_true in Q. destruct (ce_withdrawn entry) eqn:W; apply K.
      * advance_set F; [unfold ce_name; cbn; congruence | cbn; congruence |]. right. cbn. auto.
      * eexists. rewrite om_find_set_eq. repeat split. cbn. auto.
      * exists entry. rewrite F. repeat split; [unfold ce_name; congruence | cbn; congruence |].
        right. cbn. auto.
      * exists entry. auto.
    + destruct (Z.ltb_spec (value (rc_generation capacity)) (value (rc_generation (ce_capacity entry))));
        cbn [rbind]; [right; exists entry; auto|]. apply K.
      * advance_set F. left. cbn. split; [lia|]. split; [reflexivity|]. unfold history. cbn.
        rewrite map_app. reflexivity.
      * eexists. rewrite om_find_set_eq. repeat split.
  - apply K; [advance_set F|]. eexists. rewrite om_find_set_eq. repeat split.
Qed.

Definition example_capacity : ResourceCapacity :=
  mkResourceCapacity (mkName (str "spine-1")) (mkCounter 3) (mkBandwidth 1000) (mkBandwidth 100)
    (mkName (str "row-a")) (mkCounter 1) [].

Lemma CapacityLedger_apply_spec_witness :
  match CapacityLedger_apply [] example_capacity nil_id (mkTs 5) with
  | Ok (changed, entries') =>
      validate_capacity example_capacity = Ok tt /\ table_ok ce_name entries' /\
      advances ce_name (rc_resource example_capacity) (value (rc_generation example_capacity))
        [] entries' changed /\
      option_map ce_capacity (CapacityLedger_find entries' (rc_resource example_capacity)) =
        Some example_capacity /\
      (forall g, CapacityLedger_is_current entries' (mkResourceRef (rc_resource example_capacity) g)
                 = true <-> g = rc_generation example_capacity)
  | Err e => capacity_refused [] example_capacity e
  end.
Proof. apply (CapacityLedger_apply_spec [] example_capacity nil_id (mkTs 5)). split; [constructor | discriminate]. Defined.

(** Withdrawal ends the authority of a resource and nothing else, until the same
    statement is ingested again. *)
Lemma CapacityLedger_withdraw_spec entries_ resource now entries' :
  table_ok ce_name entries_ -> CapacityLedger_withdraw entries_ resource now = Ok entries' ->
  table_ok ce_name entries' /\
  (forall g, CapacityLedger_is_current entries' (mkResourceRef resource g) = false) /\
  (forall k, k <> resource -> om_find entries' k = om_find entries_ k) /\
  option_map ce_capacity (om_find entries' resource) =
    option_map ce_capacity (om_find entries_ resource).
Proof.
  intros T. unfold CapacityLedger_withdraw.
  destruct (om_find entries_ resource) as [entry|] eqn:F; [|discriminate].
  destruct (ce_withdrawn entry) eqn:W; intros [= <-].
  - split; [exact T|]. rewrite F. split; [|split; [reflexivity..]]. intros g.
    unfold CapacityLedger_is_current, CapacityLedger_find. cbn [Authority.resource]. rewrite F, W. reflexivity.
  - destruct T as [S T]. rewrite om_find_set_eq. split; [|split; [|split]]; [split| | |reflexivity].
    + auto with brf.
    + intros k e. rewrite om_find_set. destruct (keqb resource k) eqn:D; [|apply T].
      apply keqb_eq in D. subst k. intros [= <-]. exact (T _ _ F).
    + intros g. unfold CapacityLedger_is_current, CapacityLedger_find. cbn [Authority.resource].
      rewrite om_find_set_eq. reflexivity.
    + intros k N. apply om_find_set_ne. congruence.
Qed.

Lemma PathAuthority_eqb_spec a b :
  PathAuthority_eqb a b = true <->
  pa_path a = pa_path b /\ pa_generation a = pa_generation b /\
  pa_components a = pa_components b /\ pa_retired a = pa_retired b.
Proof. unfold PathAuthority_eqb. rewrite !andb_true_iff, !beq_eq. tauto. Qed.

Lemma validate_path_Ok path :
  validate_path path = Ok tt ->
  pa_components path <> [] /\ NoDup (pa_components path) /\
  Z.of_nat (length (pa_components path)) <= kMaxPathComponents.
Proof.
  unfold validate_path. intros V. inv_result. rewrite adjacent_dup_sort in *. bool_prop.
  split; [|auto]. intros E. rewrite E in *. contradiction.
Qed.

Definition path_refused (entries_ : PathAuthorityTable) (path : PathAuthority) (e : ErrorCode) : Prop :=
  validate_path path = Err e \/
  exists entry, om_find entries_ (pa_path path) = Some entry /\
    ((e = kConflict /\ value (pa_generation path) = current_generation entry /\
      PathAuthority_eqb path (pt_path entry) = false) \/
     (e = kStaleGeneration /\ value (pa_generation path) < current_generation entry)).

(** Ingesting a path authority keeps the table well formed and meets the
    regeneration contract; the path is then granted at exactly the offered
    generation, or not at all when the statement retires it. *)
Theorem PathAuthorityTable_apply_spec entries_ path snapshot now :
  table_ok pt_name entries_ ->
  match PathAuthorityTable_apply entries_ path snapshot now with
  | Ok (changed, entries') =>
      validate_path path = Ok tt /\ table_ok pt_name entries' /\
      advances pt_name (pa_path path) (value (pa_generation path)) entries_ entries' changed /\
      (forall g, PathAuthorityTable_is_current entries' (pa_path path) g = true <->
                 pa_retired path = false /\ g = pa_generation path)
  | Err e => path_refused entries_ path e
  end.
Proof.
  intros T. unfold PathAuthorityTable_apply.
  destruct (validate_path path) as [[]|ev] eqn:V; [|left; exact V]. cbn [rbind].
  assert (forall m' changed, advances pt_name (pa_path path) (value (pa_generation path))
             entries_ m' changed ->
           (exists ent, om_find m' (pa_path path) = Some ent /\
                        pa_generation (pt_path ent) = pa_generation path /\
                        pt_retired ent = pa_retired path) ->
           Ok tt = Ok tt /\ table_ok pt_name m' /\
           advances pt_name (pa_path path) (value (pa_generation path)) entries_ m' changed /\
           (forall g, PathAuthorityTable_is_current m' (pa_path path) g = true <->
                      pa_retired path = false /\ g = pa_generation path)) as K.
  { intros m' changed A (ent & F' & E & W). split; [reflexivity|].
    split; [eapply advances_ok; eauto|]. split; [exact A|].
    unfold PathAuthorityTable_is_current, PathAuthorityTable_find. rewrite F', W, E.
    intros g. destruct (pa_retired path); [split; [discriminate | intros [? _]; discriminate]|].
    rewrite Z.eqb_eq. split; [intros Eg; split; [reflexivity | symmetry; now apply value_inj]|].
    now intros [_ ->]. }
  destruct (om_find entries_ (pa_path path)) as [entry|] eqn:F.
  - destruct (Z.eqb_spec (value (pa_generation path)) (value (pa_generation (pt_path entry))))
      as [Eg|Ng]; unfold refuse.
    + destruct (PathAuthority_eqb path (pt_path entry)) eqn:Q; cbn [negb rbind].
      2:{ right. exists entry. split; [exact F|]. left. auto. }
      apply PathAuthority_eqb_spec in Q. destruct Q as (Qp & Qg & _ & _).
      destruct (beq (pt_retired entry) (pa_retired path)) eqn:W; cbn [negb]; apply K.
      * exists entry. rewrite F. repeat split; [unfold pt_name; congruence | cbn; congruence |].
        right. cbn. auto.
      * exists entry. apply beq_true in W. auto.
      * advance_set F; [unfold pt_name; cbn; congruence | cbn; congruence |]. right. cbn. auto.
      * eexists. rewrite om_find_set_eq. repeat split. cbn. auto.
    + destruct (Z.ltb_spec (value (pa_generation path)) (value (pa_generation (pt_path entry))));
        cbn [rbind]; [right; exists entry; auto|]. apply K.
      * advance_set F. left. cbn. split; [lia|]. split; [reflexivity|]. unfold history. cbn.
        rewrite map_app. reflexivity.
      * eexists. rewrite om_find_set_eq. repeat split.
  - apply K; [advance_set F|]. eexists. rewrite om_find_set_eq. repeat split.
Qed.

Definition example_path : PathAuthority :=
  mkPathAuthority (mkName (str "a-b")) (mkCounter 2) [mkName (str "spine-1")] (mkTs 1) false.

Lemma PathAuthorityTable_apply_spec_witness :
  match PathAuthorityTable_apply [] example_path nil_id (mkTs 5) with
  | Ok (changed, entries') =>
      validate_path example_path = Ok tt /\ table_ok pt_name entries' /\
      advances pt_name (pa_path example_path) (value (pa_generation example_path)) [] entries' changed /\
      (forall g, PathAuthorityTable_is_current entries' (pa_path example_path) g = true <->
                 pa_retired example_path = false /\ g = pa_generation example_path)
  | Err e => path_refused [] example_path e
  end.
Proof.
  apply (PathAuthorityTable_apply_spec [] example_path nil_id (mkTs 5)).
  split; [constructor | discriminate].
Defined.
