(* ===== verification/Reservation.v ===== *)
(** * Reservation terms, records and lifecycle states

    [include/brf/reservation.hpp] and [src/reservation.cpp]: the lifecycle
    states and the predicate accounting trusts, structural validation of
    requested terms, the interval a record occupies, and the deterministic
    expansion of a recurrence. *)
From S2P Require Import Prelude Errors Containers Identity Hash Bandwidth Time Authority Policy Capacity.

Inductive ReservationState :=
  | kDeclared | kValidated | kPending | kCommitted | kActive | kAmendmentPending
  | kRecallPending | kReleased | kExpired | kRevoked | kFenced | kStale
  | kSuperseded | kRejected | kRetired.

#[export] Instance ReservationState_eq_dec : EqDecision ReservationState.
Proof. solve_decision. Defined.

Definition ReservationState_all : list ReservationState :=
  [ kDeclared; kValidated; kPending; kCommitted; kActive; kAmendmentPending;
    kRecallPending; kReleased; kExpired; kRevoked; kFenced; kStale;
    kSuperseded; kRejected; kRetired ].

Definition ReservationState_to_Z (s : ReservationState) : Z :=
  match s with
  | kDeclared => 0 | kValidated => 1 | kPending => 2 | kCommitted => 3 | kActive => 4
  | kAmendmentPending => 5 | kRecallPending => 6 | kReleased => 7 | kExpired => 8
  | kRevoked => 9 | kFenced => 10 | kStale => 11 | kSuperseded => 12 | kRejected => 13
  | kRetired => 14
  end.

Definition ReservationState_to_string (s : ReservationState) : bytes :=
  match s with
  | kDeclared => str "DECLARED"
  | kValidated => str "VALIDATED"
  | kPending => str "PENDING"
  | kCommitted => str "COMMITTED"
  | kActive => str "ACTIVE"
  | kAmendmentPending => str "AMENDMENT_PENDING"
  | kRecallPending => str "RECALL_PENDING"
  | kReleased => str "RELEASED"
  | kExpired => str "EXPIRED"
  | kRevoked => str "REVOKED"
  | kFenced => str "FENCED"
  | kStale => str "STALE"
  | kSuperseded => str "SUPERSEDED"
  | kRejected => str "REJECTED"
  | kRetired => str "RETIRED"
  end.

(** [kStates]: the spellings in declaration order. *)
Definition kStates : list (bytes * ReservationState) :=
  [ (str "DECLARED", kDeclared); (str "VALIDATED", kValidated); (str "PENDING", kPending);
    (str "COMMITTED", kCommitted); (str "ACTIVE", kActive);
    (str "AMENDMENT_PENDING", kAmendmentPending); (str "RECALL_PENDING", kRecallPending);
    (str "RELEASED", kReleased); (str "EXPIRED", kExpired); (str "REVOKED", kRevoked);
    (str "FENCED", kFenced); (str "STALE", kStale); (str "SUPERSEDED", kSuperseded);
    (str "REJECTED", kRejected); (str "RETIRED", kRetired) ].

Definition parse_reservation_state (text : bytes) : Result ReservationState :=
  match find (fun entry => beq entry.1 text) kStates with
  | Some entry => Ok entry.2
  | None => Err kInvalidArgument
  end.

Definition consumes_capacity (s : ReservationState) : bool :=
  match s with kCommitted | kActive | kRecallPending => true | _ => false end.

Definition is_terminal (s : ReservationState) : bool :=
  match s with
  | kReleased | kExpired | kRevoked | kFenced | kStale | kSuperseded | kRejected | kRetired => true
  | _ => false
  end.

Inductive Applicability := ap_kCurrent | ap_kRevalidationRequired | ap_kStale.

Inductive ApplicabilityReason :=
  | ar_kCurrent | ar_kResourceGenerationChanged | ar_kResourceWithdrawn
  | ar_kPathGenerationChanged | ar_kPathRetired | ar_kMaintenanceWindowAdded
  | ar_kPolicyMaterialChange | ar_kFailureDomainGenerationChanged
  | ar_kCapacityReducedBelowCommitments.

#[export] Instance Applicability_eq_dec : EqDecision Applicability.
Proof. solve_decision. Defined.
#[export] Instance ApplicabilityReason_eq_dec : EqDecision ApplicabilityReason.
Proof. solve_decision. Defined.

Definition Applicability_to_Z (a : Applicability) : Z :=
  match a with ap_kCurrent => 0 | ap_kRevalidationRequired => 1 | ap_kStale => 2 end.

Definition ApplicabilityReason_to_Z (r : ApplicabilityReason) : Z :=
  match r with
  | ar_kCurrent => 0 | ar_kResourceGenerationChanged => 1 | ar_kResourceWithdrawn => 2
  | ar_kPathGenerationChanged => 3 | ar_kPathRetired => 4 | ar_kMaintenanceWindowAdded => 5
  | ar_kPolicyMaterialChange => 6 | ar_kFailureDomainGenerationChanged => 7
  | ar_kCapacityReducedBelowCommitments => 8
  end.

Record RecurrenceSpec := mkRecurrenceSpec { enabled : bool; period : Duration; count : Z }.

Record ReservationTerms := mkReservationTerms {
  claimant : Identity128;
  claimant_generation : ClaimantGeneration;
  binding_kind : BindingKind;
  resources : list ResourceName;
  path : PathName;
  required_path_generation : PathAuthorityGeneration;
  interval : Interval;
  amount : Bandwidth;
  minimum_amount : option Bandwidth;
  maximum_amount : option Bandwidth;
  guarantee : GuaranteeClass;
  priority : Z;
  preemptible : bool;
  recall_permitted : bool;
  grace : Duration;
  headroom_requirement : Bandwidth;
  policy : PolicyName;
  policy_labels : list bytes;
  recurrence : RecurrenceSpec }.

#[export] Instance RecurrenceSpec_eq_dec : EqDecision RecurrenceSpec.
Proof. solve_decision. Defined.
(** [operator==] of terms compares every field. *)
#[export] Instance ReservationTerms_eq_dec : EqDecision ReservationTerms.
Proof. solve_decision. Defined.

Definition label_is_safe (label : bytes) : bool :=
  negb ((Z.of_nat (length label) =? 0) || (Z.of_nat (length label) >? kMaxLabelBytes)) &&
  forallb (fun ch => negb ((b2z ch <? 0x20) || (b2z ch >? 0x7E))) label.

(** [bps <= 0 || bps > kMaxBandwidthBps]. *)
Definition amount_out_of_range (b : Bandwidth) : bool := (bps b <=? 0) || (bps b >? kMaxBandwidthBps).

Definition validate_minimum (terms : ReservationTerms) : Status :=
  match minimum_amount terms with
  | Some m =>
      refuse_if amount_out_of_range m with kInvalidBandwidth in
      refuse (bps m >? bps (amount terms)) kInvalidBandwidth
  | None => Ok tt
  end.

Definition validate_maximum (terms : ReservationTerms) : Status :=
  match maximum_amount terms with
  | Some m =>
      refuse_if amount_out_of_range m with kInvalidBandwidth in
      refuse (bps m <? bps (amount terms)) kInvalidBandwidth
  | None => Ok tt
  end.

Definition validate_binding (terms : ReservationTerms) : Status :=
  match binding_kind terms with
  | kResources =>
      refuse_if Z.of_nat (length (resources terms)) =? 0 with kInvalidArgument in
      refuse_if Z.of_nat (length (resources terms)) >? kMaxBindingResources
        with kResourceExhausted in
      refuse_if negb (name_empty (path terms)) with kInvalidArgument in
      refuse_if adjacent_dup (sort_keys (resources terms)) with kConflict in
      refuse (existsb name_empty (resources terms)) kInvalidName
  | kPath =>
      refuse_if name_empty (path terms) with kInvalidName in
      refuse (negb (Z.of_nat (length (resources terms)) =? 0)) kInvalidArgument
  end.

Definition validate_recurrence (spec : RecurrenceSpec) : Status :=
  if enabled spec then
    refuse_if count spec <? 1 with kInvalidArgument in
    refuse_if (count spec >? 1) && (dur_ns (period spec) <=? 0) with kInvalidArgument in
    refuse (dur_ns (period spec) <? 0) kInvalidArgument
  else Ok tt.

Definition validate_terms (terms : ReservationTerms) : Status :=
  refuse_if is_nil (claimant terms) with kInvalidIdentity in
  refuse_if value (claimant_generation terms) =? 0 with kInvalidIdentity in
  let? _ := validate_interval (interval terms) in
  refuse_if bps (amount terms) <=? 0 with kInvalidBandwidth in
  refuse_if bps (amount terms) >? kMaxBandwidthBps with kInvalidBandwidth in
  let? _ := validate_minimum terms in
  let? _ := validate_maximum terms in
  refuse_if bandwidth_out_of_range (headroom_requirement terms) with kInvalidBandwidth in
  let? _ := validate_binding terms in
  refuse_if name_empty (policy terms) with kInvalidName in
  refuse_if priority terms >? kMaxPriority with kInvalidArgument in
  refuse_if bool_decide (guarantee terms = kGuaranteed) && preemptible terms with kConflict in
  refuse_if span_out_of_range (grace terms) with kInvalidInterval in
  refuse_if Z.of_nat (length (policy_labels terms)) >? kMaxPolicyLabels with kResourceExhausted in
  refuse_if negb (forallb label_is_safe (policy_labels terms)) with kInvalidArgument in
  validate_recurrence (recurrence terms).

(** ** Records *)
Record ReservationRecord := mkReservationRecord {
  rr_id : Identity128;
  rr_generation : ReservationGeneration;
  series_member : bool;
  rr_series : Identity128;
  series_index : SeriesIndex;
  terms : ReservationTerms;
  authority : AuthorityVector;
  rr_state : ReservationState;
  rr_applicability : Applicability;
  rr_applicability_reason : ApplicabilityReason;
  declared_at : Timestamp;
  committed_at : Timestamp;
  activated_at : Timestamp;
  rr_state_changed_at : Timestamp;
  rr_recall_effective_at : Timestamp;
  recall_grace : Duration;
  terminated_at : Timestamp;
  rr_predecessor : Identity128;
  rr_predecessor_generation : ReservationGeneration;
  state_reason : bytes;
  rr_last_provenance : Provenance;
  rr_sequence : DurableSequence }.

Definition consumes (r : ReservationRecord) : bool :=
  consumes_capacity (rr_state r) && negb (beq (rr_applicability r) ap_kStale).

Definition consuming_interval (r : ReservationRecord) : Interval :=
  let window := interval (terms r) in
  if (ns (rr_recall_effective_at r) >? 0) && ts_lt (rr_recall_effective_at r) (end_ window) then
    let released_at := ns (rr_recall_effective_at r) + dur_ns (recall_grace r) in
    let effective_end := if released_at >? ns (end_ window) then ns (end_ window) else released_at in
    mkInterval (start window)
      (mkTs (if effective_end <? ns (start window) then ns (start window) else effective_end))
  else window.

Record SupersessionEdge := mkSupersessionEdge {
  se_predecessor : Identity128;
  se_predecessor_generation : ReservationGeneration;
  successor : Identity128;
  successor_generation : ReservationGeneration;
  se_recorded_at : Timestamp;
  se_sequence : DurableSequence;
  se_reason : bytes }.

Record ReservationSeries := mkReservationSeries {
  rs_id : Identity128;
  rs_generation : SeriesGeneration;
  rs_claimant : Identity128;
  rs_claimant_generation : ClaimantGeneration;
  rs_spec : RecurrenceSpec;
  first_interval : Interval;
  rs_amount : Bandwidth;
  rs_state : ReservationState;
  rs_created_at : Timestamp;
  rs_state_changed_at : Timestamp;
  predecessor_series_generation : Identity128;
  rs_predecessor_generation : SeriesGeneration;
  members : list Identity128;
  rs_last_provenance : Provenance;
  rs_sequence : DurableSequence }.

(** ** Recurrence *)

(** The loop of [expand_series] from index [i], [room] members to go. *)
Fixpoint expand_loop (room : nat) (i start_ns period_ns span : Z) : Result (list Interval) :=
  match room with
  | O => Ok []
  | S room =>
      let offset := i * period_ns in
      let start := start_ns + offset in
      refuse_if (start >? kMaxTimestampNs) || (span >? kMaxTimestampNs - start) with kOverflow in
      let member := mkInterval (mkTs start) (mkTs (start + span)) in
      let? _ := validate_interval member in
      let? rest := expand_loop room (i + 1) start_ns period_ns span in
      Ok (member :: rest)
  end.

Definition expand_series (first_interval : Interval) (spec : RecurrenceSpec) (max_members : Z) :
    Result (list Interval) :=
  if negb (enabled spec) then Ok [first_interval]
  else
    refuse_if count spec =? 0 with kInvalidArgument in
    refuse_if count spec >? max_members with kResourceExhausted in
    let? _ := validate_interval first_interval in
    refuse_if (count spec >? 1) && (dur_ns (period spec) <=? 0) with kInvalidArgument in
    let span := ns (end_ first_interval) - ns (start first_interval) in
    refuse_if (count spec >? 1) && (dur_ns (period spec) <? span) with kInvalidArgument in
    refuse_if (dur_ns (period spec) >? 0) &&
              (count spec - 1 >? Z.quot (kMaxTimestampNs - ns (start first_interval))
                                   (dur_ns (period spec))) with kOverflow in
    expand_loop (Z.to_nat (count spec)) 0 (ns (start first_interval)) (dur_ns (period spec)) span.

(** ** Lifecycle states *)

(** Every state parses back from its spelling and nothing else parses; the
    states that occupy capacity are exactly the committed ones, and none of them
    is terminal. *)
Theorem reservation_states_spec s text :
  (parse_reservation_state text = Ok s <-> text = ReservationState_to_string s) /\
  (consumes_capacity s = true <-> s = kCommitted \/ s = kActive \/ s = kRecallPending) /\
  (consumes_capacity s = true -> is_terminal s = false).
Proof.
  split; [|split; [|destruct s; simpl; congruence]].
  - unfold parse_reservation_state. split; [|intros ->; destruct s; vm_compute; reflexivity].
    destruct (find _ kStates) as [[t s']|] eqn:E; [|discriminate]. intros [= <-].
    apply find_some in E. destruct E as [I B]. apply beq_true in B. cbn in B, I |- *. subst t.
    repeat (destruct I as [[= <- <-]|I]; [reflexivity|]). contradiction.
  - destruct s; simpl; split; intros H; try discriminate; auto;
      destruct H as [H|[H|H]]; discriminate.
Qed.

(** ** Structural validation *)

(** What [validate_terms] promises about terms it accepts. *)
Definition amount_bound (t : ReservationTerms) (m : option Bandwidth) (P : Z -> Prop) : Prop :=
  match m with Some b => 0 < bps b <= kMaxBandwidthBps /\ P (bps b) | None => True end.

Definition binding_wf (t : ReservationTerms) : Prop :=
  match binding_kind t with
  | kResources =>
      0 < Z.of_nat (length (resources t)) <= kMaxBindingResources /\ name_empty (path t) = true /\
      NoDup (resources t) /\ (forall n, In n (resources t) -> name_empty n = false)
  | kPath => name_empty (path t) = false /\ resources t = []
  end.

Definition recurrence_wf (r : RecurrenceSpec) : Prop :=
  enabled r = true ->
  1 <= count r /\ 0 <= dur_ns (period r) /\ (1 < count r -> 0 < dur_ns (period r)).

Definition terms_wf (t : ReservationTerms) : Prop :=
  (is_nil (claimant t) = false /\ value (claimant_generation t) <> 0) /\
  (validate_interval (interval t) = Ok tt /\ 0 < bps (amount t) <= kMaxBandwidthBps) /\
  amount_bound t (minimum_amount t) (fun b => b <= bps (amount t)) /\
  amount_bound t (maximum_amount t) (fun b => bps (amount t) <= b) /\
  0 <= bps (headroom_requirement t) <= kMaxBandwidthBps /\ binding_wf t /\
  (name_empty (policy t) = false /\ priority t <= kMaxPriority) /\
  ~ (guarantee t = kGuaranteed /\ preemptible t = true) /\
  0 <= dur_ns (grace t) <= kMaxReservationSpanNs /\
  (Z.of_nat (length (policy_labels t)) <= kMaxPolicyLabels /\
   forall l, In l (policy_labels t) -> label_is_safe l = true) /\
  recurrence_wf (recurrence t).

Lemma refuse_Ok_iff c e : refuse c e = Ok tt <-> c = false.
Proof. unfold refuse. destruct c; split; congruence. Qed.

Lemma rbind_Ok_iff (r : Status) (k : Status) : rbind r (fun _ => k) = Ok tt <-> r = Ok tt /\ k = Ok tt.
Proof. destruct r as [[]|]; simpl; intuition congruence. Qed.

Lemma gtb_false a b : (a >? b) = false <-> a <= b.
Proof. rewrite Z.gtb_ltb. apply Z.ltb_ge. Qed.

Lemma amount_in_range b : amount_out_of_range b = false <-> 0 < bps b <= kMaxBandwidthBps.
Proof. unfold amount_out_of_range. rewrite orb_false_iff, gtb_false, Z.leb_gt. lia. Qed.

Lemma validate_minimum_Ok t :
  validate_minimum t = Ok tt <-> amount_bound t (minimum_amount t) (fun b => b <= bps (amount t)).
Proof.
  unfold validate_minimum, amount_bound. destruct (minimum_amount t) as [m|]; [|split; auto].
  rewrite rbind_refuse_Ok, refuse_Ok_iff, amount_in_range, gtb_false. lia.
Qed.

Lemma validate_maximum_Ok t :
  validate_maximum t = Ok tt <-> amount_bound t (maximum_amount t) (fun b => bps (amount t) <= b).
Proof.
  unfold validate_maximum, amount_bound. destruct (maximum_amount t) as [m|]; [|split; auto].
  rewrite rbind_refuse_Ok, refuse_Ok_iff, amount_in_range, Z.ltb_ge. lia.
Qed.

Lemma existsb_false_iff {A} (f : A -> bool) l :
  existsb f l = false <-> forall x, In x l -> f x = false.
Proof.
  rewrite <- not_true_iff_false, existsb_exists. split.
  - intros N x I. apply not_true_iff_false. intros T. apply N. eauto.
  - intros A' (x & I & T). rewrite A' in T by exact I. discriminate.
Qed.

Lemma validate_binding_Ok t : validate_binding t = Ok tt <-> binding_wf t.
Proof.
  unfold validate_binding, binding_wf. destruct (binding_kind t).
  - rewrite !rbind_refuse_Ok, refuse_Ok_iff, gtb_false, negb_false_iff, adjacent_dup_sort,
      existsb_false_iff, Z.eqb_neq. intuition lia.
  - rewrite !rbind_refuse_Ok, refuse_Ok_iff, negb_false_iff, Z.eqb_eq.
    destruct (resources t); simpl; intuition (try discriminate; try lia).
Qed.

Lemma validate_recurrence_Ok r : validate_recurrence r = Ok tt <-> recurrence_wf r.
Proof.
  unfold validate_recurrence, recurrence_wf. destruct (enabled r); [|split; auto; discriminate].
  rewrite !rbind_refuse_Ok, refuse_Ok_iff, andb_false_iff, gtb_false, !Z.ltb_ge, Z.leb_gt.
  intuition lia.
Qed.


Lemma validate_terms_core t :
  validate_terms t = Ok tt ->
  validate_interval (interval t) = Ok tt /\ 0 < bps (amount t) /\ recurrence_wf (recurrence t).
Proof.
  unfold validate_terms. rewrite !rbind_Ok_iff, !refuse_Ok_iff, validate_recurrence_Ok, Z.leb_gt. tauto.
Qed.

(** ** The interval a record occupies *)

(** A record occupies an interval inside its terms: it starts with them, a
    recall can only shorten it, never below the start, and when the recall takes
    effect inside the window the grace is honoured up to the end of the window. *)
Theorem consuming_interval_spec r :
  let w := interval (terms r) in
  let c := consuming_interval r in
  let recall := ns (rr_recall_effective_at r) in
  ns (start w) < ns (end_ w) ->
  start c = start w /\ ns (start w) <= ns (end_ c) <= ns (end_ w) /\
  (recall <= 0 \/ ns (end_ w) <= recall -> c = w) /\
  (0 < recall < ns (end_ w) ->
   ns (end_ c) = Z.max (ns (start w)) (Z.min (ns (end_ w)) (recall + dur_ns (recall_grace r)))).
Proof.
  intros w c recall L. subst c. unfold consuming_interval, ts_lt. fold w recall.
  rewrite Z.gtb_ltb. destruct (Z.ltb_spec 0 recall), (Z.ltb_spec recall (ns (end_ w))); simpl;
    try (repeat split; [lia | reflexivity | lia]).
  rewrite Z.gtb_ltb. destruct (Z.ltb_spec (ns (end_ w)) (recall + dur_ns (recall_grace r)));
    [destruct (Z.ltb_spec (ns (end_ w)) (ns (start w)))
    |destruct (Z.ltb_spec (recall + dur_ns (recall_grace r)) (ns (start w)))];
    simpl; repeat split; intros; lia.
Qed.

(** A small record, for concrete instances of the theorems. *)
Definition example_id (b : byte) : Identity128 := mkIdentity (repeat b 16).

Definition example_provenance : Provenance :=
  mkProvenance (mkName (str "op")) (example_id x01) (example_id x02) (example_id x03)
    (example_id x04) (mkCounter 1) (example_id x05) (mkTs 10) (mkCounter 7) (str "initial").

Definition example_authority : AuthorityVector :=
  mkAuthorityVector (mkCounter 1) (mkCounter 1) (example_id x06) (mkCounter 1) (example_id x07)
    (mkCounter 1) (mkName (str "gold")) (mkCounter 1) (mkCounter 0)
    [mkResourceRef (mkName (str "spine-1")) (mkCounter 3)]
    [mkFailureDomainRef (mkName (str "row-a")) (mkCounter 1)].

Definition example_terms : ReservationTerms :=
  mkReservationTerms (example_id x06) (mkCounter 1) kResources [mkName (str "spine-1")]
    empty_name (mkCounter 0) (mkInterval (mkTs 100) (mkTs 200)) (mkBandwidth 40)
    (Some (mkBandwidth 30)) None kProtected 5 false true (mkDur 0) (mkBandwidth 0)
    (mkName (str "gold")) [str "tier=1"] (mkRecurrenceSpec false (mkDur 0) 1).

Definition example_record : ReservationRecord :=
  mkReservationRecord (example_id x08) (mkCounter 1) false nil_id (mkCounter 0) example_terms
    example_authority kRecallPending ap_kCurrent ar_kCurrent (mkTs 10) (mkTs 10) (mkTs 0) (mkTs 20)
    (mkTs 150) (mkDur 10) (mkTs 0) nil_id (mkCounter 0) (str "recalled") example_provenance
    (mkCounter 7).

Lemma consuming_interval_spec_witness :
  let w := interval (terms example_record) in
  let c := consuming_interval example_record in
  let recall := ns (rr_recall_effective_at example_record) in
  ns (start w) < ns (end_ w) /\
  (start c = start w /\ ns (start w) <= ns (end_ c) <= ns (end_ w) /\
  (recall <= 0 \/ ns (end_ w) <= recall -> c = w) /\
  (0 < recall < ns (end_ w) ->
   ns (end_ c) = Z.max (ns (start w))
                   (Z.min (ns (end_ w)) (recall + dur_ns (recall_grace example_record))))).
Proof. split; [reflexivity|]. apply consuming_interval_spec. reflexivity. Defined.

Example consuming_interval_recall :
  consuming_interval example_record = mkInterval (mkTs 100) (mkTs 160).
Proof. reflexivity. Qed.

(** ** Recurrence *)

(** Member [i] of a series. *)
Definition member_interval (first : Interval) (period_ns i : Z) : Interval :=
  mkInterval (mkTs (ns (start first) + i * period_ns)) (mkTs (ns (end_ first) + i * period_ns)).

Lemma expand_loop_spec room i first p :
  let s := ns (start first) in
  let span := ns (end_ first) - s in
  validate_interval first = Ok tt -> (forall j, i <= j < i + Z.of_nat room -> 0 <= j * p) ->
  match expand_loop room i s p span with
  | Ok l => l = map (fun j => member_interval first p (i + Z.of_nat j)) (seq 0 room) /\
            (forall m, In m l -> validate_interval m = Ok tt)
  | Err e => e = kOverflow /\
             exists j, i <= j < i + Z.of_nat room /\ kMaxTimestampNs < ns (end_ first) + j * p
  end.
Proof.
  intros s span V. revert i. induction room as [|room IH]; intros i P; cbn [expand_loop].
  { split; [reflexivity | contradiction]. }
  pose proof V as V0. rewrite validate_interval_Ok in V0. destruct V0 as (V1 & V2 & V3).
  fold s in V1, V2, V3. unfold refuse.
  destruct ((s + i * p >? kMaxTimestampNs) || (span >? kMaxTimestampNs - (s + i * p))) eqn:C;
    cbn [rbind].
  { split; [reflexivity|]. exists i. rewrite orb_true_iff, !Z.gtb_ltb, !Z.ltb_lt in C.
    subst span. lia. }
  rewrite orb_false_iff, !gtb_false in C. cbv zeta.
  assert (0 <= i * p) as Pos by (apply P; lia).
  assert (mkInterval (mkTs (s + i * p)) (mkTs (s + i * p + span)) = member_interval first p i) as Em.
  { unfold member_interval. fold s. do 2 f_equal. subst span. lia. }
  rewrite Em. assert (validate_interval (member_interval first p i) = Ok tt) as Vm.
  { rewrite validate_interval_Ok. unfold member_interval. cbn [start end_ ns]. fold s. lia. }
  rewrite Vm. cbn [rbind]. specialize (IH (i + 1) ltac:(intros; apply P; lia)).
  destruct (expand_loop room (i + 1) s p span) as [l|e]; cbn [rbind].
  - destruct IH as [-> IH]. split; [|intros m [<-|In_m]; auto].
    cbn [seq map]. rewrite <- seq_shift, map_map. f_equal; [f_equal; lia|].
    apply map_ext. intros j. f_equal. lia.
  - destruct IH as [-> (j & R & O)]. split; [reflexivity|]. exists j. split; [lia | exact O].
Qed.

(** The conditions on a recurrence. *)
Definition series_wf (first : Interval) (spec : RecurrenceSpec) (max_members : Z) : Prop :=
  1 <= count spec <= max_members /\ validate_interval first = Ok tt /\
  (1 < count spec -> 0 < dur_ns (period spec) /\
                     ns (end_ first) - ns (start first) <= dur_ns (period spec)) /\
  ns (end_ first) + (count spec - 1) * dur_ns (period spec) <= kMaxTimestampNs.

Lemma expand_series_enabled first spec max_members l :
  enabled spec = true -> 0 <= count spec ->
  expand_series first spec max_members = Ok l ->
  series_wf first spec max_members /\
  l = map (fun j => member_interval first (dur_ns (period spec)) (Z.of_nat j))
        (seq 0 (Z.to_nat (count spec))) /\
  (forall m, In m l -> validate_interval m = Ok tt).
Proof.
  intros E C H. unfold expand_series in H. rewrite E in H. cbn [negb] in H.
  apply rbind_refuse_Ok in H. destruct H as [H1 H]. apply rbind_refuse_Ok in H. destruct H as [H2 H].
  apply rbind_Ok in H. destruct H as ([] & V & H).
  apply rbind_refuse_Ok in H. destruct H as [H3 H]. cbv zeta in H.
  apply rbind_refuse_Ok in H. destruct H as [H4 H]. apply rbind_refuse_Ok in H. destruct H as [H5 H].
  rewrite andb_false_iff, gtb_false in H3, H4. rewrite Z.leb_gt in H3. rewrite Z.ltb_ge in H4.
  apply Z.eqb_neq in H1. rewrite gtb_false in H2.
  pose proof (expand_loop_spec (Z.to_nat (count spec)) 0 first (dur_ns (period spec)) V) as L.
  cbv zeta in L. rewrite H in L. destruct L as [L1 L2].
  { intros j R. destruct (Z.eq_dec j 0) as [->|]; [lia|]. apply Z.mul_nonneg_nonneg; lia. }
  assert (series_wf first spec max_members) as W; [|split; [exact W | split; [exact L1 | exact L2]]].
  split; [lia|]. split; [exact V|]. split; [lia|].
  assert (In (member_interval first (dur_ns (period spec)) (count spec - 1)) l) as I.
  { rewrite L1. apply in_map_iff. exists (Z.to_nat (count spec - 1)).
    rewrite in_seq, Z2Nat.id by lia. split; [f_equal; lia | lia]. }
  apply L2 in I. rewrite validate_interval_Ok in I. unfold member_interval in I.
  cbn [start end_ ns] in I. lia.
Qed.

Lemma expand_series_complete first spec max_members :
  enabled spec = true -> series_wf first spec max_members ->
  exists l, expand_series first spec max_members = Ok l.
Proof.
  intros E (C & V & P & B). unfold expand_series, refuse. rewrite E. cbn [negb].
  pose proof V as V0. rewrite validate_interval_Ok in V0.
  destruct (Z.eqb_spec (count spec) 0); [lia|]. cbn [rbind]. rewrite Z.gtb_ltb.
  destruct (Z.ltb_spec max_members (count spec)); [lia|]. cbn [rbind]. rewrite V. cbn [rbind].
  assert ((count spec >? 1) && (dur_ns (period spec) <=? 0) = false) as ->.
  { rewrite andb_false_iff, gtb_false, Z.leb_gt. lia. }
  cbn [rbind]. cbv zeta.
  assert ((count spec >? 1) &&
          (dur_ns (period spec) <? ns (end_ first) - ns (start first)) = false) as ->.
  { rewrite andb_false_iff, gtb_false, Z.ltb_ge. lia. }
  cbn [rbind].
  assert ((dur_ns (period spec) >? 0) && (count spec - 1 >?
            Z.quot (kMaxTimestampNs - ns (start first)) (dur_ns (period spec))) = false) as ->.
  { destruct (Z.ltb_spec 0 (dur_ns (period spec))) as [Pp|Pn]; rewrite Z.gtb_ltb;
      [|destruct (Z.ltb_spec 0 (dur_ns (period spec))); [lia | reflexivity]].
    apply andb_false_intro2. rewrite gtb_false, Z.quot_div_nonneg by lia.
    apply Z.div_le_lower_bound; lia. }
  cbn [rbind].
  pose proof (expand_loop_spec (Z.to_nat (count spec)) 0 first (dur_ns (period spec)) V) as L.
  cbv zeta in L. destruct (expand_loop _ _ _ _ _) as [l|e]; [eauto|]. exfalso.
  destruct L as [_ (j & R & O)].
  { intros j R. destruct (Z.eq_dec j 0) as [->|]; [lia|]. apply Z.mul_nonneg_nonneg; lia. }
  destruct (Z.eq_dec (count spec) 1); [assert (j = 0) by lia; subst; nia | nia].
Qed.

(** The members of an expansion: shifted copies, pairwise disjoint. *)
Lemma expand_series_members first spec max_members l :
  enabled spec = true -> 0 <= count spec -> expand_series first spec max_members = Ok l ->
  length l = Z.to_nat (count spec) /\
  forall i a, l !! i = Some a ->
    a = member_interval first (dur_ns (period spec)) (Z.of_nat i) /\
    validate_interval a = Ok tt /\
    forall j b, l !! j = Some b -> i <> j -> overlaps a b = false.
Proof.
  intros E C H. destruct (expand_series_enabled _ _ _ _ E C H) as ((W1 & _ & W3 & _) & L & V).
  split; [rewrite L, length_map, length_seq; reflexivity|].
  assert (forall i a, l !! i = Some a ->
            a = member_interval first (dur_ns (period spec)) (Z.of_nat i) /\
            (i < Z.to_nat (count spec))%nat) as At.
  { intros i a F. rewrite L, list_lookup_fmap in F. destruct (seq 0 (Z.to_nat (count spec)) !! i) as [k|] eqn:K;
      [|discriminate]. apply lookup_seq in K. destruct K as [-> R].
    injection F as <-. auto. }
  intros i a Fa. destruct (At _ _ Fa) as [Ea Ra]. split; [exact Ea|]. split.
  { apply V. apply list_elem_of_lookup_2 in Fa. now apply list_elem_of_In in Fa. }
  intros j b Fb N. destruct (At _ _ Fb) as [Eb Rb]. subst a b.
  apply not_true_iff_false. rewrite overlaps_lt. unfold member_interval. cbn [start end_ ns].
  destruct W3 as [Pp Ps]; [lia|]. intros [O1 O2]. destruct (Nat.lt_ge_cases i j); nia.
Qed.

(** An enabled recurrence expands exactly when its count is within the
    policy bound, its members do not overlap and the last one ends on the
    timeline; member [i] is then the first interval moved by [i] periods, and
    any two members are disjoint. *)
Theorem expand_series_spec first spec max_members :
  enabled spec = true -> 0 <= count spec ->
  ((exists l, expand_series first spec max_members = Ok l) <-> series_wf first spec max_members) /\
  (forall l, expand_series first spec max_members = Ok l ->
     length l = Z.to_nat (count spec) /\
     forall i a, l !! i = Some a ->
       a = member_interval first (dur_ns (period spec)) (Z.of_nat i) /\
       validate_interval a = Ok tt /\
       forall j b, l !! j = Some b -> i <> j -> overlaps a b = false).
Proof.
  intros E C. split.
  { split; [intros [l H]; eapply expand_series_enabled; eauto | now apply expand_series_complete]. }
  intros l H. exact (expand_series_members _ _ _ _ E C H).
Qed.

(** With or without a recurrence: valid intervals, no instant in two of them. *)
Lemma expand_series_windows first spec max_members l :
  recurrence_wf spec -> validate_interval first = Ok tt -> expand_series first spec max_members = Ok l ->
  (l <> [] /\ (enabled spec = false -> l = [first])) /\
  forall i a, l !! i = Some a -> validate_interval a = Ok tt /\
    forall j b p, l !! j = Some b -> ns (start a) <= p < ns (end_ a) -> ns (start b) <= p < ns (end_ b) -> i = j.
Proof.
  intros W V E. destruct (enabled spec) eqn:En.
  - specialize (W En). destruct (expand_series_members _ _ _ _ En ltac:(lia) E) as [L M].
    split; [split; [intros ->; cbn [length] in L; lia | discriminate]|]. intros i a A. destruct (M i a A) as (_ & Va & D).
    split; [exact Va|]. intros j b p B Pa Pb. destruct (decide (i = j)) as [->|N]; [reflexivity|].
    specialize (D j b B N). apply not_true_iff_false in D. rewrite overlaps_lt in D. lia.
  - unfold expand_series in E. rewrite En in E. injection E as <-. split; [split; [discriminate | reflexivity]|].
    intros [|i] a A; [|discriminate]. injection A as <-. split; [exact V|].
    intros [|j] b p B _ _; [reflexivity | discriminate].
Qed.

Lemma expand_series_spec_witness :
  let first := mkInterval (mkTs 100) (mkTs 150) in
  let spec := mkRecurrenceSpec true (mkDur 60) 3 in
  ((exists l, expand_series first spec 64 = Ok l) <-> series_wf first spec 64) /\
  (forall l, expand_series first spec 64 = Ok l ->
     length l = Z.to_nat (count spec) /\
     forall i a, l !! i = Some a ->
       a = member_interval first (dur_ns (period spec)) (Z.of_nat i) /\
       validate_interval a = Ok tt /\
       forall j b, l !! j = Some b -> i <> j -> overlaps a b = false).
Proof. intros first spec. apply expand_series_spec; [reflexivity | simpl; lia]. Defined.
