(* ===== verification/Outcome.v ===== *)
(** * Typed admission outcomes and bounded reports

    [include/brf/outcome.hpp] and [src/outcome.cpp].  A [has_x] flag with its
    [x] member is an option: the member is only meaningful under the flag. *)
From S2P Require Import Prelude Errors Containers Identity Hash Bandwidth Time Authority Policy Capacity Reservation.

Inductive AdmissionOutcome :=
  | ao_kCommittable | ao_kInsufficientCapacity | ao_kPolicyRejected | ao_kStaleResource
  | ao_kStalePathAuthority | ao_kConflictingReservation | ao_kInvalidInterval
  | ao_kClaimantFenced | ao_kUnsupported | ao_kEmergencyOvercommit | ao_kIdempotentReplay
  | ao_kStaleEpoch | ao_kInvalidRequest | ao_kGenerationMismatch | ao_kResourceExhausted
  | ao_kConflict.

#[export] Instance AdmissionOutcome_eq_dec : EqDecision AdmissionOutcome.
Proof. solve_decision. Defined.

Definition AdmissionOutcome_to_Z (o : AdmissionOutcome) : Z :=
  match o with
  | ao_kCommittable => 0 | ao_kInsufficientCapacity => 1 | ao_kPolicyRejected => 2
  | ao_kStaleResource => 3 | ao_kStalePathAuthority => 4 | ao_kConflictingReservation => 5
  | ao_kInvalidInterval => 6 | ao_kClaimantFenced => 7 | ao_kUnsupported => 8
  | ao_kEmergencyOvercommit => 9 | ao_kIdempotentReplay => 10 | ao_kStaleEpoch => 11
  | ao_kInvalidRequest => 12 | ao_kGenerationMismatch => 13 | ao_kResourceExhausted => 14
  | ao_kConflict => 15
  end.

Definition kOutcomes : list (bytes * AdmissionOutcome) :=
  [ (str "COMMITTABLE", ao_kCommittable);
    (str "INSUFFICIENT_CAPACITY", ao_kInsufficientCapacity);
    (str "POLICY_REJECTED", ao_kPolicyRejected);
    (str "STALE_RESOURCE", ao_kStaleResource);
    (str "STALE_PATH_AUTHORITY", ao_kStalePathAuthority);
    (str "CONFLICTING_RESERVATION", ao_kConflictingReservation);
    (str "INVALID_INTERVAL", ao_kInvalidInterval);
    (str "CLAIMANT_FENCED", ao_kClaimantFenced);
    (str "UNSUPPORTED", ao_kUnsupported);
    (str "EMERGENCY_OVERCOMMIT", ao_kEmergencyOvercommit);
    (str "IDEMPOTENT_REPLAY", ao_kIdempotentReplay);
    (str "STALE_EPOCH", ao_kStaleEpoch);
    (str "INVALID_REQUEST", ao_kInvalidRequest);
    (str "GENERATION_MISMATCH", ao_kGenerationMismatch);
    (str "RESOURCE_EXHAUSTED", ao_kResourceExhausted);
    (str "CONFLICT", ao_kConflict) ].

Definition AdmissionOutcome_to_string (outcome : AdmissionOutcome) : bytes :=
  match find (fun entry => beq entry.2 outcome) kOutcomes with
  | Some entry => entry.1
  | None => str "UNKNOWN"
  end.

Definition parse_admission_outcome (text : bytes) : Result AdmissionOutcome :=
  match find (fun entry => beq entry.1 text) kOutcomes with
  | Some entry => Ok entry.2
  | None => Err kInvalidArgument
  end.

Definition outcome_to_error_code (outcome : AdmissionOutcome) : ErrorCode :=
  match outcome with
  | ao_kCommittable => kOk
  | ao_kInsufficientCapacity => kInsufficientCapacity
  | ao_kPolicyRejected => kPolicyRejected
  | ao_kStaleResource => kStaleGeneration
  | ao_kStalePathAuthority => kStaleGeneration
  | ao_kConflictingReservation => kConflict
  | ao_kInvalidInterval => kInvalidInterval
  | ao_kClaimantFenced => kFencedClaimant
  | ao_kUnsupported => kUnsupported
  | ao_kEmergencyOvercommit => kCapacityOvercommit
  | ao_kIdempotentReplay => kIdempotentReplay
  | ao_kStaleEpoch => kStaleEpoch
  | ao_kInvalidRequest => kInvalidArgument
  | ao_kGenerationMismatch => kGenerationMismatch
  | ao_kResourceExhausted => kResourceExhausted
  | ao_kConflict => kConflict
  end.

Definition outcome_is_acceptance (outcome : AdmissionOutcome) : bool :=
  match outcome with ao_kCommittable | ao_kIdempotentReplay => true | _ => false end.

Record CapabilityDelta := mkCapabilityDelta {
  cd_resource : ResourceName;
  cd_generation : ResourceGeneration;
  cd_reservable_capacity : Bandwidth;
  cd_protected_headroom : Bandwidth;
  cd_committable_ceiling : Bandwidth;
  committed_peak_before : Bandwidth;
  committed_peak_after : Bandwidth;
  cd_holds_peak : Bandwidth;
  remaining_after : Bandwidth;
  cd_window : Interval;
  cd_maintenance_covers : bool;
  cd_overcommit_emergency : bool }.

Record ConflictEntry := mkConflictEntry {
  cf_id : Identity128;
  cf_generation : ReservationGeneration;
  cf_resource : ResourceName;
  cf_interval : Interval;
  cf_amount : Bandwidth;
  cf_guarantee : GuaranteeClass;
  cf_state : ReservationState;
  is_hold : bool }.

(** [std::size_t] is 64 bits wide. *)
Record ConflictSet := mkConflictSet {
  cf_entries : list ConflictEntry;
  total_considered : Z;
  scan_limit_hit : Z;
  cf_truncated : bool }.

Record AdmissionReport := mkAdmissionReport {
  ar_outcome : AdmissionOutcome;
  explanation : bytes;
  ar_resources : list CapabilityDelta;
  conflicts : ConflictSet;
  preemption_plan : list Identity128;
  preemption_plan_generations : list ReservationGeneration;
  preemption_planned : bool;
  ar_applicability_reason : ApplicabilityReason }.

Record CommitResult := mkCommitResult {
  cr_record : ReservationRecord;
  cr_series : option ReservationSeries;
  cr_members : list ReservationRecord;
  cr_report : AdmissionReport;
  cr_replayed : bool;
  cr_attempt : Identity128;
  cr_sequence : DurableSequence }.

Record AmendmentResult := mkAmendmentResult {
  am_predecessor : ReservationRecord;
  am_successor : ReservationRecord;
  am_series : option ReservationSeries;
  am_members : list ReservationRecord;
  am_report : AdmissionReport;
  am_replayed : bool }.

Record LifecycleResult := mkLifecycleResult {
  lr_record : ReservationRecord;
  lr_replayed : bool;
  transitions : Z }.

Record AttemptReconciliation := mkAttemptReconciliation {
  ac_attempt : Identity128;
  known : bool;
  ac_outcome : AdmissionOutcome;
  ac_reservation : Identity128;
  ac_generation : ReservationGeneration;
  ac_sequence : DurableSequence;
  committed : bool;
  note : bytes }.

Record RemainingCapacity := mkRemainingCapacity {
  rm_resource : ResourceName;
  rm_generation : ResourceGeneration;
  rm_window : Interval;
  rm_committable_ceiling : Bandwidth;
  rm_committed_peak : Bandwidth;
  rm_holds_peak : Bandwidth;
  remaining : Bandwidth;
  rm_maintenance_covers : bool;
  rm_overcommit_emergency : bool }.

Record ChangePoint := mkChangePoint {
  cp_at : Timestamp;
  cp_committed : Bandwidth;
  cp_holds : Bandwidth }.

Record CapacityTimeline := mkCapacityTimeline {
  ct_resource : ResourceName;
  ct_window : Interval;
  points : list ChangePoint;
  ct_truncated : bool }.

Record LineageView := mkLineageView {
  lv_id : Identity128;
  lv_generation : ReservationGeneration;
  ancestry : list SupersessionEdge;
  descendants : list SupersessionEdge;
  lv_truncated : bool }.

(** [OvercommitReport::Entry]. *)
Record OvercommitEntry := mkOvercommitEntry {
  oe_resource : ResourceName;
  oe_generation : ResourceGeneration;
  oe_committed_peak : Bandwidth;
  oe_committable_ceiling : Bandwidth;
  oe_window : Interval;
  detected_at : Timestamp }.

Record OvercommitReport := mkOvercommitReport {
  oe_entries : list OvercommitEntry;
  emergency_active : bool }.

Record CoordinatorStats := mkCoordinatorStats {
  commits : Z;
  commit_rejections : Z;
  replayed_attempts : Z;
  amendments : Z;
  releases : Z;
  expiries : Z;
  recalls : Z;
  revocations : Z;
  revalidations : Z;
  fenced_holds : Z;
  capacity_ingestions : Z;
  generation_advances : Z;
  durable_records : Z;
  overcommit_events : Z;
  tracked_reservations : Z;
  tracked_series : Z;
  live_holds : Z;
  index_entries : Z;
  st_epoch : FabricEpoch;
  st_coordinator_boot : Identity128;
  st_journal_bytes : Z;
  st_snapshot_sequence : Z }.

(** ** Lemmas *)

(** An outcome parses back from its spelling, only its own spelling parses
    to it, and it is an acceptance exactly when its error code is [OK] or marks
    a replay, so no refusal is ever reported as success. *)
Theorem admission_outcomes_spec o text :
  (parse_admission_outcome text = Ok o <-> text = AdmissionOutcome_to_string o) /\
  (outcome_is_acceptance o = true <->
   outcome_to_error_code o = kOk \/ outcome_to_error_code o = kIdempotentReplay).
Proof.
  split; [|destruct o; simpl; split; intros H; try discriminate H; auto;
           destruct H; discriminate].
  unfold parse_admission_outcome. split; [|intros ->; destruct o; vm_compute; reflexivity].
  destruct (find _ kOutcomes) as [[t s']|] eqn:E; [|discriminate]. intros [= <-].
  apply find_some in E. destruct E as [I B]. apply beq_true in B. cbn in B, I |- *. subst t.
  repeat (destruct I as [[= <- <-]|I]; [vm_compute; reflexivity|]). contradiction.
Qed.
