(* ===== verification/SegTree.v ===== *)
(** * The interval structure: range add and range maximum over the timeline

    [IntervalCapacityIndex] of [include/brf/index.hpp] and [src/index.cpp]: a
    segment tree over [[0, kMaxTimestampNs)] whose nodes are allocated on demand
    in a vector and refer to each other by index, 0 being no node.  The first
    part is the code on the vector; the second relates the vector to a tree
    and the tree to the occupancy of every instant. *)
From S2P Require Import Prelude Errors Containers Identity Hash Bandwidth Time.

(** 2^62. *)
Definition kIndexSaturation : Z := 4611686018427387904.
Definition kNoValue : Z := i64_min.

Definition saturating_add (a b : Z) : Z :=
  if (b >? 0) && (a >? kIndexSaturation - b) then kIndexSaturation
  else if (b <? 0) && (a <? - kIndexSaturation - b) then - kIndexSaturation
  else a + b.

(** ** [IntervalCapacityIndex::Impl] *)
Record Node := mkNode { max : Z; lazy : Z; left : Z; right : Z }.

Definition node0 : Node := mkNode 0 0 0 0.

(** [nodes[index]], and assignment through it. *)
Definition node_at (nodes : list Node) (index : Z) : Node := nth (Z.to_nat index) nodes node0.
Definition node_upd (nodes : list Node) (index : Z) (f : Node -> Node) : list Node :=
  <[Z.to_nat index := f (node_at nodes index)]> nodes.

(** [make_node]: the new vector and the 32-bit index of the new node. *)
Definition make_node (nodes : list Node) : list Node * Z :=
  (nodes ++ [node0], to_u 32 (Z.of_nat (length nodes))).

Definition set_left (k : Z) (n : Node) : Node := mkNode (max n) (lazy n) k (right n).
Definition set_right (k : Z) (n : Node) : Node := mkNode (max n) (lazy n) (left n) k.
Definition set_max (m : Z) (n : Node) : Node := mkNode m (lazy n) (left n) (right n).
Definition clear_lazy (n : Node) : Node := mkNode (max n) 0 (left n) (right n).
Definition shift_node (delta : Z) (n : Node) : Node :=
  mkNode (saturating_add (max n) delta) (saturating_add (lazy n) delta) (left n) (right n).

Definition ensure_left (nodes : list Node) (index : Z) : list Node :=
  if left (node_at nodes index) =? 0 then
    let (nodes, k) := make_node nodes in node_upd nodes index (set_left k)
  else nodes.
Definition ensure_right (nodes : list Node) (index : Z) : list Node :=
  if right (node_at nodes index) =? 0 then
    let (nodes, k) := make_node nodes in node_upd nodes index (set_right k)
  else nodes.

(** Hand the pending range add of [index] to its two children. *)
Definition push_down (nodes : list Node) (index : Z) : list Node :=
  let lft := left (node_at nodes index) in
  let rgt := right (node_at nodes index) in
  let carry := lazy (node_at nodes index) in
  if negb (carry =? 0) then
    let nodes := node_upd nodes lft (shift_node carry) in
    let nodes := node_upd nodes rgt (shift_node carry) in
    node_upd nodes index clear_lazy
  else nodes.

Fixpoint node_add (fuel : nat) (nodes : list Node) (index lo hi ql qr delta : Z) : list Node :=
  match fuel with
  | O => nodes
  | S fuel =>
      if (qr <=? lo) || (hi <=? ql) then nodes
      else if (ql <=? lo) && (hi <=? qr) then node_upd nodes index (shift_node delta)
      else
        let mid := lo + Z.quot (hi - lo) 2 in
        let nodes := ensure_left nodes index in
        let nodes := ensure_right nodes index in
        let lft := left (node_at nodes index) in
        let rgt := right (node_at nodes index) in
        let nodes := push_down nodes index in
        let nodes := node_add fuel nodes lft lo mid ql qr delta in
        let nodes := node_add fuel nodes rgt mid hi ql qr delta in
        node_upd nodes index
          (set_max (Z.max (max (node_at nodes lft)) (max (node_at nodes rgt))))
  end.

Fixpoint node_query (fuel : nat) (nodes : list Node) (index lo hi ql qr carry : Z) : Z :=
  match fuel with
  | O => kNoValue
  | S fuel =>
      if (qr <=? lo) || (hi <=? ql) then kNoValue
      else if index =? 0 then carry
      else
        let node := node_at nodes index in
        if (ql <=? lo) && (hi <=? qr) then saturating_add carry (max node)
        else
          let mid := lo + Z.quot (hi - lo) 2 in
          let next_carry := saturating_add carry (lazy node) in
          Z.max (node_query fuel nodes (left node) lo mid ql qr next_carry)
                (node_query fuel nodes (right node) mid hi ql qr next_carry)
  end.

Fixpoint node_exceeds (fuel : nat) (nodes : list Node) (index lo hi ql qr carry limit : Z) : bool :=
  match fuel with
  | O => false
  | S fuel =>
      if (qr <=? lo) || (hi <=? ql) then false
      else if index =? 0 then carry >? limit
      else
        let node := node_at nodes index in
        if (ql <=? lo) && (hi <=? qr) then saturating_add carry (max node) >? limit
        else
          let mid := lo + Z.quot (hi - lo) 2 in
          let next_carry := saturating_add carry (lazy node) in
          node_exceeds fuel nodes (left node) lo mid ql qr next_carry limit ||
          node_exceeds fuel nodes (right node) mid hi ql qr next_carry limit
  end.

(** The timeline is shorter than 2^62, and every level halves the region. *)
Definition tree_fuel : nat := 63.

(** ** The class *)
Record IntervalCapacityIndex := mkICI { nodes : list Node; live_intervals : Z }.

(** The constructor: the null node and the root at index 1. *)
Definition ici_new : IntervalCapacityIndex := mkICI (fst (make_node [node0])) 0.

Definition ensure_root (ns : list Node) : list Node :=
  if Z.of_nat (length ns) <=? 1 then fst (make_node ns) else ns.

Definition ici_add (x : IntervalCapacityIndex) (interval : Interval) (amount : Bandwidth) :
    IntervalCapacityIndex :=
  if empty interval || (bps amount =? 0) then x
  else
    mkICI (node_add tree_fuel (ensure_root (nodes x)) 1 0 kMaxTimestampNs
             (ns (start interval)) (ns (end_ interval)) (bps amount))
          (to_u 64 (live_intervals x + 1)).

Definition ici_remove (x : IntervalCapacityIndex) (interval : Interval) (amount : Bandwidth) :
    IntervalCapacityIndex :=
  if empty interval || (bps amount =? 0) then x
  else if Z.of_nat (length (nodes x)) <=? 1 then x
  else
    let arena := node_add tree_fuel (nodes x) 1 0 kMaxTimestampNs
                   (ns (start interval)) (ns (end_ interval)) (- bps amount) in
    let live := if live_intervals x >? 0 then live_intervals x - 1 else live_intervals x in
    mkICI (if live =? 0 then [node0] else arena) live.

Definition ici_query (x : IntervalCapacityIndex) (lo hi : Z) : Z :=
  if Z.of_nat (length (nodes x)) <=? 1 then 0
  else
    let v := node_query tree_fuel (nodes x) 1 0 kMaxTimestampNs lo hi 0 in
    if v =? kNoValue then 0 else v.

Definition ici_peak (x : IntervalCapacityIndex) (window : Interval) : Bandwidth :=
  if empty window then mkBandwidth 0
  else mkBandwidth (ici_query x (ns (start window)) (ns (end_ window))).

Definition ici_at (x : IntervalCapacityIndex) (instant : Timestamp) : Bandwidth :=
  if (ns instant <? 0) || (ns instant >=? kMaxTimestampNs) then mkBandwidth 0
  else mkBandwidth (ici_query x (ns instant) (ns instant + 1)).

Definition ici_exceeds (x : IntervalCapacityIndex) (window : Interval) (limit : Bandwidth) : bool :=
  if empty window then false
  else if Z.of_nat (length (nodes x)) <=? 1 then false
  else node_exceeds tree_fuel (nodes x) 1 0 kMaxTimestampNs (ns (start window)) (ns (end_ window)) 0
         (bps limit).

Example ici_example :
  let iv a b := mkInterval (mkTs a) (mkTs b) in
  let x := ici_add (ici_add ici_new (iv 10 20) (mkBandwidth 5)) (iv 15 30) (mkBandwidth 7) in
  (bps (ici_peak x (iv 0 100)), bps (ici_peak x (iv 10 15)), bps (ici_at x (mkTs 29)),
   bps (ici_peak (ici_remove x (iv 10 20) (mkBandwidth 5)) (iv 0 100)), ici_exceeds x (iv 0 100) (mkBandwidth 11))
  = (12, 5, 7, 7, true).
Proof. vm_compute. reflexivity. Qed.

(** ** The tree a vector stores *)
Inductive tree := E | T (i mx lz : Z) (l r : tree).

Definition idx (t : tree) : Z := match t with E => 0 | T i _ _ _ _ => i end.
Definition tmax (t : tree) : Z := match t with E => 0 | T _ mx _ _ _ => mx end.

Fixpoint ids (t : tree) : list Z :=
  match t with E => [] | T i _ _ l r => i :: ids l ++ ids r end.

(** [arena] holds [t]: every node of [t] is stored at its index. *)
Fixpoint stores (arena : list Node) (t : tree) : Prop :=
  match t with
  | E => True
  | T i mx lz l r =>
      0 < i < Z.of_nat (length arena) /\ node_at arena i = mkNode mx lz (idx l) (idx r) /\
      stores arena l /\ stores arena r
  end.

Definition shift_tree (delta : Z) (t : tree) : tree :=
  match t with
  | E => E
  | T i mx lz l r => T i (saturating_add mx delta) (saturating_add lz delta) l r
  end.

(** [next] is the index the next allocated node gets. *)
Definition fresh_child (next : Z) (t : tree) : tree * Z :=
  match t with E => (T next 0 0 E E, next + 1) | _ => (t, next) end.

Definition push_tree (carry : Z) (t : tree) : tree := if carry =? 0 then t else shift_tree carry t.

Fixpoint tree_add (fuel : nat) (t : tree) (next lo hi ql qr delta : Z) : tree * Z :=
  match fuel, t with
  | S fuel, T i mx lz l r =>
      if (qr <=? lo) || (hi <=? ql) then (t, next)
      else if (ql <=? lo) && (hi <=? qr) then (shift_tree delta t, next)
      else
        let mid := lo + Z.quot (hi - lo) 2 in
        let (l, next) := fresh_child next l in
        let (r, next) := fresh_child next r in
        let (l, next) := tree_add fuel (push_tree lz l) next lo mid ql qr delta in
        let (r, next) := tree_add fuel (push_tree lz r) next mid hi ql qr delta in
        (T i (Z.max (tmax l) (tmax r)) 0 l r, next)
  | _, _ => (t, next)
  end.

(** *** Vector lemmas *)
Lemma node_at_upd_eq arena i f :
  0 <= i < Z.of_nat (length arena) -> node_at (node_upd arena i f) i = f (node_at arena i).
Proof.
  intros H. unfold node_at at 1, node_upd. rewrite nth_lookup, list_lookup_insert_eq by lia.
  reflexivity.
Qed.

Lemma node_at_upd_ne arena i j f :
  0 <= i -> 0 <= j -> i <> j -> node_at (node_upd arena i f) j = node_at arena j.
Proof.
  intros Hi Hj N. unfold node_at, node_upd. rewrite !nth_lookup, list_lookup_insert_ne by lia.
  reflexivity.
Qed.

Lemma length_node_upd arena i f : length (node_upd arena i f) = length arena.
Proof. apply length_insert. Qed.

Lemma node_at_app arena n j :
  0 <= j < Z.of_nat (length arena) -> node_at (arena ++ [n]) j = node_at arena j.
Proof. intros H. unfold node_at. rewrite app_nth1 by lia. reflexivity. Qed.

Lemma node_at_new arena n : node_at (arena ++ [n]) (Z.of_nat (length arena)) = n.
Proof. unfold node_at. rewrite Nat2Z.id, app_nth2, Nat.sub_diag by lia. reflexivity. Qed.

(** Vectors that agree on the nodes of a tree store it alike. *)
Definition agrees (on : list Z) (a b : list Node) : Prop :=
  (length a <= length b)%nat /\ forall j, In j on -> node_at b j = node_at a j.

Lemma stores_agrees a b t : stores a t -> agrees (ids t) a b -> stores b t.
Proof.
  intros S [L A]. induction t as [|i mx lz l IHl r IHr]; [exact I|].
  destruct S as (B & N & Sl & Sr). simpl in A. split; [lia|]. split; [rewrite A by auto; exact N|].
  split; [apply IHl | apply IHr]; auto; intros j Ij; apply A; rewrite in_app_iff; auto.
Qed.

Lemma stores_bound arena t j : stores arena t -> In j (ids t) -> 0 < j < Z.of_nat (length arena).
Proof.
  induction t as [|i mx lz l IHl r IHr]; [contradiction|].
  intros (B & _ & Sl & Sr) [<-|I]; [exact B|]. apply in_app_iff in I. destruct I; auto.
Qed.

Lemma stores_idx arena t : stores arena t -> (idx t = 0 <-> t = E).
Proof.
  destruct t; [split; reflexivity|]. intros (B & _). simpl. split; [lia | discriminate].
Qed.

Lemma ids_shift d t : ids (shift_tree d t) = ids t.
Proof. destruct t; reflexivity. Qed.
Lemma idx_shift d t : idx (shift_tree d t) = idx t.
Proof. destruct t; reflexivity. Qed.
Lemma ids_push d t : ids (push_tree d t) = ids t.
Proof. unfold push_tree. case_if; [reflexivity | apply ids_shift]. Qed.
Lemma idx_push d t : idx (push_tree d t) = idx t.
Proof. unfold push_tree. case_if; [reflexivity | apply idx_shift]. Qed.

(** Changing nodes outside a tree does not touch it. *)
Lemma stores_upd_other arena i f t :
  stores arena t -> 0 <= i -> ~ In i (ids t) -> stores (node_upd arena i f) t.
Proof.
  intros S Hi N. eapply stores_agrees; [exact S|]. split; [rewrite length_node_upd; lia|].
  intros j Ij. pose proof (stores_bound _ _ _ S Ij). apply node_at_upd_ne; [lia..|]. intros ->. auto.
Qed.

Lemma stores_shift arena d t :
  stores arena t -> NoDup (ids t) -> t <> E ->
  stores (node_upd arena (idx t) (shift_node d)) (shift_tree d t).
Proof.
  destruct t as [|i mx lz l r]; [congruence|]. intros (B & N & Sl & Sr) ND _.
  cbn [ids] in ND. apply NoDup_cons in ND. destruct ND as [NI _].
  rewrite list_elem_of_In, in_app_iff in NI. cbn [idx shift_tree stores].
  rewrite length_node_upd. split; [exact B|].
  rewrite node_at_upd_eq by lia. rewrite N. split; [reflexivity|].
  split; apply stores_upd_other; auto; lia.
Qed.

(** *** One modification of a stored tree *)
Definition len (arena : list Node) : Z := Z.of_nat (length arena).

(** [arena'] stores [t'] where [arena] stored [t]; only nodes of [t] were
    written, and new nodes are at the end. *)
Record step (arena : list Node) (t : tree) (arena' : list Node) (t' : tree) : Prop := {
  step_stores : stores arena' t';
  step_nodup : NoDup (ids t');
  step_idx : idx t' = idx t;
  step_len : len arena <= len arena';
  step_ids : forall j, In j (ids t') -> In j (ids t) \/ len arena <= j < len arena';
  step_frame : forall j, 0 <= j < len arena -> ~ In j (ids t) -> node_at arena' j = node_at arena j
}.

Lemma step_refl arena t : stores arena t -> NoDup (ids t) -> step arena t arena t.
Proof. intros S N. constructor; auto; lia. Qed.

Lemma step_trans a t b u c v : step a t b u -> step b u c v -> stores a t -> step a t c v.
Proof.
  intros A B S. destruct A as [A1 A2 A3 A4 A5 A6], B as [B1 B2 B3 B4 B5 B6].
  constructor; auto; try lia.
  - intros j I. destruct (B5 _ I) as [I'|]; [|right; lia]. destruct (A5 _ I'); [auto | right; lia].
  - intros j R N. rewrite B6; [apply A6; auto | lia|]. intros I. destruct (A5 _ I); [auto | lia].
Qed.

Lemma NoDup_node i mx lz l r :
  NoDup (ids (T i mx lz l r)) <->
  ~ In i (ids l) /\ ~ In i (ids r) /\ NoDup (ids l) /\ NoDup (ids r) /\
  (forall j, In j (ids l) -> In j (ids r) -> False).
Proof.
  cbn [ids]. rewrite NoDup_cons, NoDup_app, list_elem_of_In, in_app_iff.
  setoid_rewrite list_elem_of_In. intuition eauto.
Qed.

Section in_node.
Variables (arena arena' : list Node) (i mx lz : Z) (l r : tree).
Hypothesis stored : stores arena (T i mx lz l r).
Hypothesis distinct : NoDup (ids (T i mx lz l r)).

Lemma stored_left : stores arena l. Proof. apply stored. Qed.
Lemma stored_right : stores arena r. Proof. apply stored. Qed.

  (** A modification of a subtree is one of the whole tree. *)
Lemma step_in_left l' :
    step arena l arena' l' -> step arena (T i mx lz l r) arena' (T i mx lz l' r).
  Proof.
    intros [S N X L D F]. apply NoDup_node in distinct. destruct distinct as (Nl & Nr & Dl & Dr & Dj).
    pose proof stored as (B & C & Sl & Sr). fold (len arena) in B.
    assert (forall j, In j (ids r) -> 0 < j < len arena) as Br.
    { intros j I. exact (stores_bound _ _ _ Sr I). }
    constructor.
    - cbn [stores]. fold (len arena'). split; [lia|]. rewrite X. split; [rewrite F; [exact C|lia|exact Nl]|].
      split; [exact S|]. eapply stores_agrees; [exact Sr|]. split; [unfold len in L; lia|].
      intros j I. apply F; [specialize (Br _ I); lia | eauto].
    - apply NoDup_node. split; [|split; [exact Nr | split; [exact N | split; [exact Dr|]]]].
      + intros I. destruct (D _ I); [auto | lia].
      + intros j I I'. destruct (D _ I); [eauto | specialize (Br _ I'); lia].
    - reflexivity.
    - exact L.
    - cbn [ids]. intros j [<-|I]; [left; left; reflexivity|]. apply in_app_iff in I.
      destruct I as [I|I]; [destruct (D _ I); [left; right; apply in_app_iff; auto | auto]
                           | left; right; apply in_app_iff; auto].
    - cbn [ids]. intros j R NI. apply F; [exact R|]. intros I. apply NI. right. apply in_app_iff. auto.
  Qed.

Lemma step_in_right r' :
    step arena r arena' r' -> step arena (T i mx lz l r) arena' (T i mx lz l r').
  Proof.
    intros [S N X L D F]. apply NoDup_node in distinct. destruct distinct as (Nl & Nr & Dl & Dr & Dj).
    pose proof stored as (B & C & Sl & Sr). fold (len arena) in B.
    assert (forall j, In j (ids l) -> 0 < j < len arena) as Bl.
    { intros j I. exact (stores_bound _ _ _ Sl I). }
    constructor.
    - cbn [stores]. fold (len arena'). split; [lia|]. rewrite X. split; [rewrite F; [exact C|lia|exact Nr]|].
      split; [|exact S]. eapply stores_agrees; [exact Sl|]. split; [unfold len in L; lia|].
      intros j I. apply F; [specialize (Bl _ I); lia | eauto].
    - apply NoDup_node. split; [exact Nl | split; [|split; [exact Dl | split; [exact N|]]]].
      + intros I. destruct (D _ I); [auto | lia].
      + intros j I I'. destruct (D _ I'); [eauto | specialize (Bl _ I); lia].
    - reflexivity.
    - exact L.
    - cbn [ids]. intros j [<-|I]; [left; left; reflexivity|]. apply in_app_iff in I.
      destruct I as [I|I]; [left; right; apply in_app_iff; auto |
                            destruct (D _ I); [left; right; apply in_app_iff; auto | auto]].
    - cbn [ids]. intros j R NI. apply F; [exact R|]. intros I. apply NI. right. apply in_app_iff. auto.
  Qed.

  (** Rewriting the node itself. *)
Lemma step_node f mx' lz' :
    f (mkNode mx lz (idx l) (idx r)) = mkNode mx' lz' (idx l) (idx r) ->
    step arena (T i mx lz l r) (node_upd arena i f) (T i mx' lz' l r).
  Proof.
    intros Hf. pose proof distinct as D0. apply NoDup_node in D0. destruct D0 as (Nl & Nr & _).
    pose proof stored as (B & C & Sl & Sr).
    constructor.
    - cbn [stores]. rewrite length_node_upd, node_at_upd_eq by lia. rewrite C. split; [exact B|].
      split; [exact Hf|]. split; apply stores_upd_other; auto; lia.
    - exact distinct.
    - reflexivity.
    - unfold len. rewrite length_node_upd. lia.
    - auto.
    - intros j R N. apply node_at_upd_ne; [lia..|]. intros ->. apply N. left. reflexivity.
  Qed.
End in_node.

Lemma step_shift arena d t :
  stores arena t -> NoDup (ids t) -> t <> E ->
  step arena t (node_upd arena (idx t) (shift_node d)) (shift_tree d t).
Proof.
  intros S N Ht. destruct t as [|i mx lz l r]; [congruence|]. cbn [idx shift_tree].
  apply step_node; auto.
Qed.

(** *** Allocation of a missing child *)
Lemma make_node_index arena :
  len arena + 1 <= 2 ^ 32 -> make_node arena = (arena ++ [node0], len arena).
Proof.
  intros H. unfold make_node, len in *. rewrite to_u_id; [reflexivity|]. unfold u_ok. bool_goal; lia.
Qed.

Lemma len_snoc arena n : len (arena ++ [n]) = len arena + 1.
Proof. unfold len. rewrite length_app. simpl. lia. Qed.

Section allocate.
Variables (arena : list Node) (i mx lz : Z) (l r : tree).
Hypothesis stored : stores arena (T i mx lz l r).
Hypothesis distinct : NoDup (ids (T i mx lz l r)).

  (** The vector grown by one node, as seen through an update of node [i]. *)
Lemma grown_other f t :
    stores arena t -> ~ In i (ids t) -> stores (node_upd (arena ++ [node0]) i f) t.
  Proof.
    intros S N. pose proof stored as (B & _). apply stores_upd_other; [|lia | exact N].
    eapply stores_agrees; [exact S|]. split; [rewrite length_app; lia|].
    intros j I. pose proof (stores_bound _ _ _ S I). apply node_at_app. lia.
  Qed.

Lemma grown_new f :
    stores (node_upd (arena ++ [node0]) i f) (T (len arena) 0 0 E E).
  Proof.
    pose proof stored as (B & _). cbn [stores idx]. rewrite length_node_upd.
    fold (len (arena ++ [node0])). rewrite len_snoc. split; [unfold len; lia|].
    rewrite node_at_upd_ne by (unfold len; lia). unfold len at 1. rewrite node_at_new. auto.
  Qed.

Lemma grown_step f l' r' :
    f (node_at arena i) = mkNode mx lz (idx l') (idx r') ->
    (l = E /\ l' = T (len arena) 0 0 E E /\ r' = r) \/
    (r = E /\ r' = T (len arena) 0 0 E E /\ l' = l) ->
    step arena (T i mx lz l r) (node_upd (arena ++ [node0]) i f) (T i mx lz l' r').
  Proof.
    intros Hf Cases. pose proof stored as (B & C & Sl & Sr).
    pose proof distinct as D0. apply NoDup_node in D0. destruct D0 as (Nl & Nr & Dl & Dr & Dj).
    assert (forall t, stores arena t -> ~ In (len arena) (ids t)) as Fresh.
    { intros t S I. pose proof (stores_bound _ _ _ S I) as R. unfold len in R. lia. }
    assert (len (node_upd (arena ++ [node0]) i f) = len arena + 1) as L.
    { unfold len. rewrite length_node_upd. apply len_snoc. }
    assert (i <> len arena) as Ni by (unfold len; lia).
    pose proof grown_other as Go. pose proof grown_new as Gn.
    constructor.
    - cbn [stores]. fold (len (node_upd (arena ++ [node0]) i f)). rewrite L.
      split; [unfold len; lia|]. rewrite node_at_upd_eq by (rewrite length_app; lia).
      rewrite node_at_app by lia. split; [exact Hf|].
      destruct Cases as [(-> & -> & ->) | (-> & -> & ->)]; split;
        auto.
    - apply NoDup_node. destruct Cases as [(-> & -> & ->) | (-> & -> & ->)]; cbn [ids app].
      + repeat split; auto using NoDup_singleton; simpl; [intuition congruence|].
        intros j [<-|[]] I. exact (Fresh _ Sr I).
      + repeat split; auto using NoDup_singleton; simpl; [intuition congruence|].
        intros j I [<-|[]]. exact (Fresh _ Sl I).
    - reflexivity.
    - lia.
    - rewrite L. destruct Cases as [(-> & -> & ->) | (-> & -> & ->)]; cbn [ids app];
        intros j [<-|I]; try (left; left; reflexivity).
      + destruct I as [<-|I]; [right; lia | left; right; exact I].
      + apply in_app_iff in I. rewrite app_nil_r. destruct I as [I|[<-|[]]]; [left; right; exact I | right; lia].
    - intros j R N. rewrite node_at_upd_ne; [apply node_at_app; exact R | lia | lia|].
      intros ->. apply N. left. reflexivity.
  Qed.
End allocate.

Lemma step_ensure_left arena i mx lz l r l' next :
  stores arena (T i mx lz l r) -> NoDup (ids (T i mx lz l r)) ->
  fresh_child (len arena) l = (l', next) -> next <= 2 ^ 32 ->
  step arena (T i mx lz l r) (ensure_left arena i) (T i mx lz l' r) /\
  len (ensure_left arena i) = next /\ l' <> E.
Proof.
  intros stored distinct F O. pose proof stored as (B & C & Sl & Sr).
  unfold ensure_left. rewrite C. cbn [left].
  destruct l as [|k a b u v]; cbn [fresh_child] in F; injection F as <- <-; cbn [idx].
  - rewrite Z.eqb_refl, make_node_index by exact O.
    split; [|split; [unfold len; rewrite length_node_upd; apply len_snoc | discriminate]].
    apply grown_step; [exact stored | exact distinct | rewrite C; reflexivity | left; auto].
  - destruct Sl as (Bk & _). destruct (Z.eqb_spec k 0); [lia|].
    split; [now apply step_refl | split; [reflexivity | discriminate]].
Qed.

Lemma step_ensure_right arena i mx lz l r r' next :
  stores arena (T i mx lz l r) -> NoDup (ids (T i mx lz l r)) ->
  fresh_child (len arena) r = (r', next) -> next <= 2 ^ 32 ->
  step arena (T i mx lz l r) (ensure_right arena i) (T i mx lz l r') /\
  len (ensure_right arena i) = next /\ r' <> E.
Proof.
  intros stored distinct F O. pose proof stored as (B & C & Sl & Sr).
  unfold ensure_right. rewrite C. cbn [right].
  destruct r as [|k a b u v]; cbn [fresh_child] in F; injection F as <- <-; cbn [idx].
  - rewrite Z.eqb_refl, make_node_index by exact O.
    split; [|split; [unfold len; rewrite length_node_upd; apply len_snoc | discriminate]].
    apply grown_step; [exact stored | exact distinct | rewrite C; reflexivity | right; auto].
  - destruct Sr as (Bk & _). destruct (Z.eqb_spec k 0); [lia|].
    split; [now apply step_refl | split; [reflexivity | discriminate]].
Qed.

Lemma step_push_down arena i mx lz l r :
  stores arena (T i mx lz l r) -> NoDup (ids (T i mx lz l r)) -> ~ l = E -> ~ r = E ->
  step arena (T i mx lz l r) (push_down arena i) (T i mx 0 (push_tree lz l) (push_tree lz r)) /\ len (push_down arena i) = len arena.
Proof.
  intros S N Hl Hr. pose proof S as (B & C & Sl & Sr). unfold push_down, push_tree.
  rewrite C. cbn [left right lazy]. destruct (Z.eqb_spec lz 0) as [->|Nz]; cbn [negb].
  { split; [now apply step_refl | reflexivity]. }
  pose proof N as N0. apply NoDup_node in N0. destruct N0 as (_ & _ & Nl & Nr & _).
  pose proof (step_in_left _ _ _ mx lz _ r S N _ (step_shift _ lz _ Sl Nl Hl)) as S1.
  destruct (step_stores _ _ _ _ S1) as (_ & _ & _ & Sr1).
  pose proof (step_in_right _ _ _ mx lz _ _ (step_stores _ _ _ _ S1) (step_nodup _ _ _ _ S1) _
                (step_shift _ lz _ Sr1 Nr Hr)) as S2.
  pose proof (step_node _ _ mx lz _ _ (step_stores _ _ _ _ S2) (step_nodup _ _ _ _ S2)
                clear_lazy mx 0 eq_refl) as S3.
  split.
  - eapply step_trans; [exact S1 | eapply step_trans; [exact S2 | exact S3|]|exact S].
    apply S1.
  - unfold len. rewrite !length_node_upd. reflexivity.
Qed.

(** ** The vector operations are the tree operations *)
Lemma fresh_child_next next t : next <= snd (fresh_child next t).
Proof. destruct t; simpl; lia. Qed.

Lemma tree_add_next fuel t next lo hi ql qr d : next <= snd (tree_add fuel t next lo hi ql qr d).
Proof.
  revert t next lo hi. induction fuel as [|fuel IH]; intros t next lo hi; [simpl; lia|].
  destruct t as [|i mx lz l r]; [simpl; lia|]. cbn [tree_add].
  case_if; [simpl; lia|]. case_if; [simpl; lia|]. cbv zeta.
  pose proof (fresh_child_next next l). destruct (fresh_child next l) as [l1 n1].
  pose proof (fresh_child_next n1 r). destruct (fresh_child n1 r) as [r1 n2].
  pose proof (IH (push_tree lz l1) n2 lo (lo + Z.quot (hi - lo) 2)).
  destruct (tree_add fuel (push_tree lz l1) _ _ _ _ _ _) as [l2 n3].
  pose proof (IH (push_tree lz r1) n3 (lo + Z.quot (hi - lo) 2) hi).
  destruct (tree_add fuel (push_tree lz r1) _ _ _ _ _ _) as [r2 n4]. simpl in *. lia.
Qed.

Lemma push_tree_E d t : push_tree d t = E <-> t = E.
Proof. unfold push_tree. case_if; destruct t; simpl; split; congruence. Qed.

Lemma node_add_tree fuel arena t lo hi ql qr d t' next :
  stores arena t -> NoDup (ids t) -> t <> E ->
  tree_add fuel t (len arena) lo hi ql qr d = (t', next) -> next <= 2 ^ 32 ->
  step arena t (node_add fuel arena (idx t) lo hi ql qr d) t' /\ len (node_add fuel arena (idx t) lo hi ql qr d) = next /\ t' <> E.
Proof.
  revert arena t lo hi t' next.
  induction fuel as [|fuel IH]; intros arena t lo hi t' next S N Ht A O.
  { simpl in *. injection A as <- <-. split; [now apply step_refl | auto]. }
  destruct t as [|i mx lz l r]; [congruence|]. cbn [tree_add node_add idx] in *.
  case_if; [injection A as <- <-; split; [now apply step_refl | auto]|].
  case_if.
  { injection A as <- <-. split; [apply (step_shift arena d (T i mx lz l r)); auto|].
    split; [unfold len; rewrite length_node_upd; reflexivity | discriminate]. }
  cbv zeta in *. set (mid := lo + Z.quot (hi - lo) 2) in *.
  destruct (fresh_child (len arena) l) as [l1 n1] eqn:Fl.
  destruct (fresh_child n1 r) as [r1 n2] eqn:Fr.
  destruct (tree_add fuel (push_tree lz l1) n2 lo mid ql qr d) as [l2 n3] eqn:Al.
  destruct (tree_add fuel (push_tree lz r1) n3 mid hi ql qr d) as [r2 n4] eqn:Ar.
  injection A as <- <-.
  pose proof (fresh_child_next n1 r) as M1. rewrite Fr in M1. simpl in M1.
  pose proof (tree_add_next fuel (push_tree lz l1) n2 lo mid ql qr d) as M2. rewrite Al in M2.
  pose proof (tree_add_next fuel (push_tree lz r1) n3 mid hi ql qr d) as M3. rewrite Ar in M3.
  simpl in M2, M3.
  destruct (step_ensure_left _ _ _ _ _ _ _ _ S N Fl ltac:(lia)) as (S1 & L1 & Hl1).
  set (a1 := ensure_left arena i) in *. rewrite <- L1 in Fr.
  destruct (step_ensure_right _ _ _ _ _ _ _ _ (step_stores _ _ _ _ S1) (step_nodup _ _ _ _ S1) Fr
              ltac:(lia)) as (S2 & L2 & Hr1).
  set (a2 := ensure_right a1 i) in *.
  destruct (step_push_down _ _ _ _ _ _ (step_stores _ _ _ _ S2) (step_nodup _ _ _ _ S2) Hl1 Hr1)
    as (S3 & L3).
  destruct (step_stores _ _ _ _ S2) as (_ & C2 & _). rewrite C2. cbn [left right].
  set (a3 := push_down a2 i) in *.
  pose proof (step_stores _ _ _ _ S3) as St3. pose proof (step_nodup _ _ _ _ S3) as Nd3.
  pose proof Nd3 as Nd. apply NoDup_node in Nd. destruct Nd as (_ & _ & Ndl & Ndr & _).
  rewrite <- L2, <- L3 in Al.
  destruct (IH a3 (push_tree lz l1) lo mid l2 n3 (stored_left _ _ _ _ _ _ St3) Ndl
              ltac:(rewrite push_tree_E; exact Hl1) Al ltac:(lia)) as (S4 & L4 & Hl2).
  rewrite idx_push in S4, L4.
  pose proof (step_in_left _ _ _ _ _ _ _ St3 Nd3 _ S4) as S4'.
  set (a4 := node_add fuel a3 (idx l1) lo mid ql qr d) in *.
  pose proof (step_stores _ _ _ _ S4') as St4. pose proof (step_nodup _ _ _ _ S4') as Nd4.
  rewrite <- L4 in Ar.
  destruct (IH a4 (push_tree lz r1) mid hi r2 n4 (stored_right _ _ _ _ _ _ St4) Ndr
              ltac:(rewrite push_tree_E; exact Hr1) Ar ltac:(lia)) as (S5 & L5 & Hr2).
  rewrite idx_push in S5, L5.
  pose proof (step_in_right _ _ _ _ _ _ _ St4 Nd4 _ S5) as S5'.
  set (a5 := node_add fuel a4 (idx r1) mid hi ql qr d) in *.
  pose proof (step_stores _ _ _ _ S5') as St5. pose proof (step_nodup _ _ _ _ S5') as Nd5.
  assert (forall t, stores a5 t -> t <> E -> max (node_at a5 (idx t)) = tmax t) as Mx.
  { intros [|k a b u v] St Hn; [congruence|]. destruct St as (_ & Ck & _). cbn [idx]. rewrite Ck. reflexivity. }
  assert (idx l1 = idx l2) as El by (rewrite (step_idx _ _ _ _ S4), idx_push; reflexivity).
  assert (idx r1 = idx r2) as Er by (rewrite (step_idx _ _ _ _ S5), idx_push; reflexivity).
  rewrite El, Er, (Mx l2), (Mx r2); [|apply St5|exact Hr2|apply St5|exact Hl2].
  split; [|split; [unfold len in *; rewrite length_node_upd; exact L5 | discriminate]].
  eapply step_trans; [exact S1| |exact S]. eapply step_trans; [exact S2| |apply S1].
  eapply step_trans; [exact S3| |apply S2]. eapply step_trans; [exact S4'| |apply S3].
  eapply step_trans; [exact S5'| |apply S4']. apply step_node; [exact St5 | exact Nd5 | reflexivity].
Qed.

Fixpoint tree_query (fuel : nat) (t : tree) (lo hi ql qr carry : Z) : Z :=
  match fuel with
  | O => kNoValue
  | S fuel =>
      if (qr <=? lo) || (hi <=? ql) then kNoValue
      else
        match t with
        | E => carry
        | T i mx lz l r =>
            if (ql <=? lo) && (hi <=? qr) then saturating_add carry mx
            else
              let mid := lo + Z.quot (hi - lo) 2 in
              let next_carry := saturating_add carry lz in
              Z.max (tree_query fuel l lo mid ql qr next_carry)
                    (tree_query fuel r mid hi ql qr next_carry)
        end
  end.

Lemma node_query_tree fuel arena t lo hi ql qr carry :
  stores arena t ->
  node_query fuel arena (idx t) lo hi ql qr carry = tree_query fuel t lo hi ql qr carry.
Proof.
  revert t lo hi carry. induction fuel as [|fuel IH]; intros t lo hi carry S; [reflexivity|].
  destruct t as [|i mx lz l r]; cbn [node_query tree_query idx]; [reflexivity|].
  destruct S as (B & C & Sl & Sr). destruct (Z.eqb_spec i 0); [lia|]. rewrite C.
  cbn [max lazy left right]. rewrite !IH by assumption. reflexivity.
Qed.

(** Early exit answers as the maximum does. *)
Lemma node_exceeds_tree fuel arena t lo hi ql qr carry limit :
  stores arena t -> kNoValue <= limit ->
  node_exceeds fuel arena (idx t) lo hi ql qr carry limit =
    (limit <? tree_query fuel t lo hi ql qr carry).
Proof.
  intros S0 L. revert t lo hi carry S0.
  assert ((limit <? kNoValue) = false) as No by (apply Z.ltb_ge; exact L).
  induction fuel as [|fuel IH]; intros t lo hi carry S; cbn [node_exceeds tree_query]; [auto|].
  case_if; [auto|]. destruct t as [|i mx lz l r]; cbn [idx]; [apply Z.gtb_ltb|].
  destruct S as (B & C & Sl & Sr). destruct (Z.eqb_spec i 0); [lia|]. rewrite C.
  cbn [max lazy left right]. case_if; [apply Z.gtb_ltb|]. rewrite !IH by assumption.
  cbv zeta. symmetry. apply eq_true_iff_eq. rewrite orb_true_iff, !Z.ltb_lt. lia.
Qed.

(** ** What a tree means *)

(** The bandwidth a subtree over [[lo, hi)] adds at instant [x], leaving out the
    pending adds of the nodes above it. *)
Fixpoint val (t : tree) (lo hi x : Z) : Z :=
  match t with
  | E => 0
  | T _ _ lz l r =>
      let mid := lo + Z.quot (hi - lo) 2 in
      lz + (if x <? mid then val l lo mid x else val r mid hi x)
  end.

(** Every node knows the maximum below it, and every subtree means an occupancy
    the index can represent: the value it had when it was last visited. *)
Fixpoint good (t : tree) (lo hi : Z) : Prop :=
  match t with
  | E => True
  | T _ mx lz l r =>
      let mid := lo + Z.quot (hi - lo) 2 in
      mx = lz + Z.max (tmax l) (tmax r) /\
      (forall x, lo <= x < hi -> 0 <= val t lo hi x <= kIndexSaturation) /\
      (hi - lo = 1 -> l = E /\ r = E) /\
      good l lo mid /\ good r mid hi
  end.

Lemma saturating_add_exact a b :
  - kIndexSaturation <= a + b <= kIndexSaturation -> saturating_add a b = a + b.
Proof.
  intros H. unfold saturating_add. rewrite !Z.gtb_ltb.
  destruct (Z.ltb_spec 0 b), (Z.ltb_spec (kIndexSaturation - b) a); simpl; try lia;
    destruct (Z.ltb_spec b 0), (Z.ltb_spec a (- kIndexSaturation - b)); simpl; lia.
Qed.

Lemma mid_bounds lo hi : 2 <= hi - lo -> lo < lo + Z.quot (hi - lo) 2 < hi.
Proof.
  intros H. rewrite Z.quot_div_nonneg by lia.
  assert (1 <= (hi - lo) / 2) by (apply Z.div_le_lower_bound; lia).
  assert ((hi - lo) / 2 < hi - lo) by (apply Z.div_lt; lia). lia.
Qed.

Lemma mid_halves lo hi n :
  2 <= hi - lo <= 2 ^ Z.of_nat (S n) ->
  let mid := lo + Z.quot (hi - lo) 2 in
  mid - lo <= 2 ^ Z.of_nat n /\ hi - mid <= 2 ^ Z.of_nat n.
Proof.
  intros H mid. subst mid. rewrite Nat2Z.inj_succ, Z.pow_succ_r in H by lia.
  rewrite Z.quot_div_nonneg by lia. pose proof (Z.div_mod (hi - lo) 2).
  pose proof (Z.mod_pos_bound (hi - lo) 2). lia.
Qed.

Lemma good_val t lo hi x :
  good t lo hi -> lo <= x < hi -> 0 <= val t lo hi x <= kIndexSaturation.
Proof. destruct t; [simpl; unfold kIndexSaturation; lia | intros (_ & G & _); auto]. Qed.

(** [m] is the maximum of [f] on [[lo, hi)]. *)
Definition is_max (f : Z -> Z) (lo hi m : Z) : Prop :=
  (exists x, lo <= x < hi /\ f x = m) /\ forall x, lo <= x < hi -> f x <= m.

Lemma is_max_split f lo mid hi a b :
  is_max f lo mid a -> is_max f mid hi b -> lo <= mid <= hi -> is_max f lo hi (Z.max a b).
Proof.
  intros [(x & Rx & Fx) A] [(y & Ry & Fy) B] M. split.
  - destruct (Z.max_spec a b) as [[L ->]|[L ->]]; [exists y | exists x]; split; auto; lia.
  - intros z Rz. destruct (Z.lt_ge_cases z mid); [specialize (A z) | specialize (B z)]; lia.
Qed.

Lemma is_max_ext f g lo hi m :
  (forall x, lo <= x < hi -> f x = g x) -> is_max f lo hi m -> is_max g lo hi m.
Proof.
  intros Eq [(x & Rx & Fx) A]. split; [exists x; rewrite <- Eq; auto|].
  intros y Ry. rewrite <- Eq by exact Ry. auto.
Qed.

Lemma is_max_shift f lo hi m c :
  is_max f lo hi m -> is_max (fun x => c + f x) lo hi (c + m).
Proof.
  intros [(x & Rx & Fx) A]. split; [exists x; split; [exact Rx | lia]|].
  intros y Ry. specialize (A y Ry). lia.
Qed.

(** The recorded maximum is the maximum. *)
Lemma good_max t lo hi : good t lo hi -> lo < hi -> is_max (val t lo hi) lo hi (tmax t).
Proof.
  revert lo hi. induction t as [|i mx lz l IHl r IHr]; intros lo hi G L.
  { split; [exists lo; simpl; split; [lia | reflexivity] | simpl; lia]. }
  destruct G as (Em & Gv & Leaf & Gl & Gr). cbn [tmax]. rewrite Em.
  set (mid := lo + Z.quot (hi - lo) 2) in *.
  destruct (Z.eq_dec (hi - lo) 1) as [H1|H1].
  - destruct (Leaf H1) as [-> ->]. split.
    + exists lo. split; [lia|]. simpl. case_if; lia.
    + intros x Rx. simpl. case_if; lia.
  - pose proof (mid_bounds lo hi ltac:(lia)) as M. fold mid in M.
    eapply is_max_ext; [|apply is_max_shift; eapply (is_max_split (fun x =>
      if x <? mid then val l lo mid x else val r mid hi x) lo mid hi); [..|lia]].
    + intros x Rx. reflexivity.
    + eapply is_max_ext; [|apply IHl; [exact Gl | lia]]. intros x Rx. cbn beta.
      destruct (Z.ltb_spec x mid); [reflexivity | lia].
    + eapply is_max_ext; [|apply IHr; [exact Gr | lia]]. intros x Rx. cbn beta.
      destruct (Z.ltb_spec x mid); [lia | reflexivity].
Qed.

Definition in_query (ql qr x : Z) : bool := (ql <=? x) && (x <? qr).

(** The change a range add makes at [x]. *)
Definition delta_at (ql qr d x : Z) : Z := if in_query ql qr x then d else 0.

Lemma shift_spec t lo hi d :
  t <> E -> good t lo hi -> lo < hi ->
  (forall x, lo <= x < hi -> 0 <= val t lo hi x + d <= kIndexSaturation) ->
  good (shift_tree d t) lo hi /\ tmax (shift_tree d t) = tmax t + d /\
  (forall x, val (shift_tree d t) lo hi x = val t lo hi x + d).
Proof.
  intros Ht G L B. pose proof (good_max t lo hi G L) as [(x0 & R0 & F0) _].
  destruct t as [|i mx lz l r]; [congruence|]. cbn [shift_tree tmax] in *.
  destruct G as (Em & Gv & Leaf & Gl & Gr). set (mid := lo + Z.quot (hi - lo) 2) in *.
  assert (saturating_add mx d = mx + d) as Sm.
  { apply saturating_add_exact. specialize (B x0 R0). lia. }
  assert (saturating_add lz d = lz + d) as Sl.
  { apply saturating_add_exact. specialize (B lo ltac:(lia)). cbn [val] in B. fold mid in B.
    assert (0 <= (if lo <? mid then val l lo mid lo else val r mid hi lo) <= kIndexSaturation) as C.
    { destruct (Z.ltb_spec lo mid); [apply good_val; [exact Gl | lia]|].
      apply good_val; [exact Gr | lia]. }
    lia. }
  rewrite Sm, Sl.
  assert (forall x, val (T i (mx + d) (lz + d) l r) lo hi x = val (T i mx lz l r) lo hi x + d) as V.
  { intros x. cbn [val]. lia. }
  split; [|split; [reflexivity | exact V]]. cbn [good]. fold mid. rewrite Em.
  split; [lia|]. split; [|auto]. intros x Rx. change (0 <= val (T i (mx + d) (lz + d) l r) lo hi x <= kIndexSaturation).
  rewrite V. auto.
Qed.

Lemma fresh_good next t lo hi :
  lo < hi -> good t lo hi ->
  let t' := fst (fresh_child next t) in
  t' <> E /\ good t' lo hi /\ (forall x, val t' lo hi x = val t lo hi x) /\ tmax t' = tmax t.
Proof.
  intros L G. destruct t as [|i mx lz l r]; cbn [fresh_child fst];
    [|split; [discriminate | auto]].
  split; [discriminate|]. assert (forall x, val (T next 0 0 E E) lo hi x = 0) as V.
  { intros x. simpl. case_if; reflexivity. }
  split; [|split; [exact V | reflexivity]]. cbn [good tmax val]. split; [reflexivity|].
  split; [|auto]. intros x _. case_if; unfold kIndexSaturation; lia.
Qed.

(** A child after the pending add of its parent is handed down. *)
Lemma child_ready next t lo hi carry :
  lo < hi -> good t lo hi ->
  (forall x, lo <= x < hi -> 0 <= val t lo hi x + carry <= kIndexSaturation) ->
  let t' := push_tree carry (fst (fresh_child next t)) in
  t' <> E /\ good t' lo hi /\ (forall x, val t' lo hi x = val t lo hi x + carry).
Proof.
  intros L G B t'. destruct (fresh_good next t lo hi L G) as (Ht & Gt & Vt & Mt).
  subst t'. unfold push_tree. destruct (Z.eqb_spec carry 0) as [->|].
  - split; [exact Ht|]. split; [exact Gt|]. intros x. rewrite Vt. lia.
  - destruct (shift_spec _ lo hi carry Ht Gt L) as (Gs & _ & Vs).
    { intros x R. rewrite Vt. auto. }
    split; [rewrite <- (push_tree_E carry) in Ht; unfold push_tree in Ht;
            destruct (Z.eqb_spec carry 0); [congruence | exact Ht]|].
    split; [exact Gs|]. intros x. rewrite Vs, Vt. lia.
Qed.

(** A range that misses the region, or covers it. *)
Lemma tree_add_done m t next lo hi ql qr d :
  t <> E -> good t lo hi -> lo < hi ->
  (forall x, lo <= x < hi -> 0 <= val t lo hi x + delta_at ql qr d x <= kIndexSaturation) ->
  (qr <= lo \/ hi <= ql) \/ (ql <= lo /\ hi <= qr) ->
  let t' := fst (tree_add (S m) t next lo hi ql qr d) in
  t' <> E /\ good t' lo hi /\
  (forall x, lo <= x < hi -> val t' lo hi x = val t lo hi x + delta_at ql qr d x).
Proof.
  intros Ht G L B C. unfold delta_at, in_query in *.
  destruct t as [|i mx lz l r]; [congruence|]. cbn [tree_add].
  destruct ((qr <=? lo) || (hi <=? ql)) eqn:Dis; cbn [fst].
  { split; [exact Ht | split; [exact G|]]. intros x R.
    apply orb_true_iff in Dis. rewrite !Z.leb_le in Dis.
    destruct (Z.leb_spec ql x), (Z.ltb_spec x qr); simpl; lia. }
  apply orb_false_iff in Dis. rewrite !Z.leb_gt in Dis.
  destruct (Z.leb_spec ql lo), (Z.leb_spec hi qr); try lia. cbn [andb fst].
  assert (forall x, lo <= x < hi -> (if (ql <=? x) && (x <? qr) then d else 0) = d) as Dl.
  { intros x R. destruct (Z.leb_spec ql x), (Z.ltb_spec x qr); simpl; lia. }
  destruct (shift_spec _ lo hi d Ht G L) as (Gs & _ & Vs).
  { intros x R. rewrite <- (Dl x R). auto. }
  split; [discriminate | split; [exact Gs|]]. intros x R. rewrite Vs, Dl; auto.
Qed.

(** The recursive case, given the two recursive calls. *)
Lemma tree_add_inner n t next lo hi ql qr d :
  (forall t next lo hi, t <> E -> good t lo hi -> lo < hi -> hi - lo <= 2 ^ Z.of_nat n ->
     (forall x, lo <= x < hi -> 0 <= val t lo hi x + delta_at ql qr d x <= kIndexSaturation) ->
     let t' := fst (tree_add (S n) t next lo hi ql qr d) in
     t' <> E /\ good t' lo hi /\
     (forall x, lo <= x < hi -> val t' lo hi x = val t lo hi x + delta_at ql qr d x)) ->
  t <> E -> good t lo hi -> hi - lo <= 2 ^ Z.of_nat (S n) ->
  (forall x, lo <= x < hi -> 0 <= val t lo hi x + delta_at ql qr d x <= kIndexSaturation) ->
  lo < qr -> ql < hi -> lo < ql < hi \/ lo < qr < hi ->
  let t' := fst (tree_add (S (S n)) t next lo hi ql qr d) in
  t' <> E /\ good t' lo hi /\
  (forall x, lo <= x < hi -> val t' lo hi x = val t lo hi x + delta_at ql qr d x).
Proof.
  intros IH Ht G W B Q1 Q2 Part. destruct t as [|i mx lz l r]; [congruence|].
  remember (S n) as m eqn:Em. cbn [tree_add].
  destruct (Z.leb_spec qr lo), (Z.leb_spec hi ql); try lia. cbn [orb].
  assert ((ql <=? lo) && (hi <=? qr) = false) as ->
    by (destruct (Z.leb_spec ql lo), (Z.leb_spec hi qr); simpl; lia).
  cbv zeta. destruct G as (Emx & Gv & Leaf & Gl & Gr).
  pose proof (mid_bounds lo hi ltac:(lia)) as M. pose proof (mid_halves lo hi n ltac:(subst m; lia)) as Hf.
  cbv zeta in Hf. set (mid := lo + Z.quot (hi - lo) 2) in *. destruct Hf as [Hl Hr].
  assert (forall x, lo <= x < mid -> val (T i mx lz l r) lo hi x = val l lo mid x + lz) as Vl.
  { intros x R. cbn [val]. fold mid. destruct (Z.ltb_spec x mid); lia. }
  assert (forall x, mid <= x < hi -> val (T i mx lz l r) lo hi x = val r mid hi x + lz) as Vr.
  { intros x R. cbn [val]. fold mid. destruct (Z.ltb_spec x mid); lia. }
  destruct (child_ready next l lo mid lz ltac:(lia) Gl) as (Hl1 & Gl1 & Vl1).
  { intros x R. rewrite <- Vl by exact R. apply Gv. lia. }
  destruct (fresh_child next l) as [l1 n1]. cbn [fst] in *.
  destruct (child_ready n1 r mid hi lz ltac:(lia) Gr) as (Hr1 & Gr1 & Vr1).
  { intros x R. rewrite <- Vr by exact R. apply Gv. lia. }
  destruct (fresh_child n1 r) as [r1 n2]. cbn [fst] in *.
  destruct (IH (push_tree lz l1) n2 lo mid Hl1 Gl1 ltac:(lia) Hl) as (Hl2 & Gl2 & Vl2).
  { intros x R. rewrite Vl1, <- Vl by exact R. apply B. lia. }
  destruct (tree_add m (push_tree lz l1) n2 lo mid ql qr d) as [l2 n3]. cbn [fst] in *.
  destruct (IH (push_tree lz r1) n3 mid hi Hr1 Gr1 ltac:(lia) Hr) as (Hr2 & Gr2 & Vr2).
  { intros x R. rewrite Vr1, <- Vr by exact R. apply B. lia. }
  destruct (tree_add m (push_tree lz r1) n3 mid hi ql qr d) as [r2 n4]. cbn [fst] in *.
  assert (forall x, lo <= x < hi ->
    val (T i (Z.max (tmax l2) (tmax r2)) 0 l2 r2) lo hi x =
    val (T i mx lz l r) lo hi x + delta_at ql qr d x) as V.
  { intros x R. cbn [val]. fold mid. destruct (Z.ltb_spec x mid).
    - rewrite Vl2, Vl1 by lia. lia.
    - rewrite Vr2, Vr1 by lia. lia. }
  split; [discriminate|]. split; [|exact V]. cbn [good]. fold mid. split; [lia|].
  split; [|split; [lia | auto]]. intros x R. specialize (V x R). cbn [val] in V. cbn [val].
  rewrite V. apply B. exact R.
Qed.

Lemma tree_add_spec n t next lo hi ql qr d :
  t <> E -> good t lo hi -> lo < hi -> hi - lo <= 2 ^ Z.of_nat n ->
  (forall x, lo <= x < hi -> 0 <= val t lo hi x + delta_at ql qr d x <= kIndexSaturation) ->
  let t' := fst (tree_add (S n) t next lo hi ql qr d) in
  t' <> E /\ good t' lo hi /\
  (forall x, lo <= x < hi -> val t' lo hi x = val t lo hi x + delta_at ql qr d x).
Proof.
  revert t next lo hi. induction n as [|n IH]; intros t next lo hi Ht G L W B.
  { apply tree_add_done; auto. change (2 ^ Z.of_nat 0) with 1 in W. lia. }
  destruct (Z.le_gt_cases qr lo); [apply tree_add_done; auto; lia|].
  destruct (Z.le_gt_cases hi ql); [apply tree_add_done; auto; lia|].
  destruct (Z_le_dec ql lo), (Z_le_dec hi qr); try (apply tree_add_done; auto; lia).
  all: apply tree_add_inner; auto; lia.
Qed.

(** ** Queries *)

(** What a query of [[ql, qr)] answers on a region: the maximum over the common
    instants, or [kNoValue] when there are none. *)
Definition query_answer (f : Z -> Z) (lo hi ql qr q : Z) : Prop :=
  (qr <= lo \/ hi <= ql -> q = kNoValue) /\
  (lo < qr -> ql < hi -> is_max f (Z.max lo ql) (Z.min hi qr) q).

Lemma tree_query_halves f g h lo mid hi ql qr a b :
  lo < mid < hi -> ql < qr ->
  (forall x, lo <= x < mid -> f x = h x) -> (forall x, mid <= x < hi -> g x = h x) ->
  (forall x, lo <= x < hi -> kNoValue <= h x) ->
  query_answer f lo mid ql qr a -> query_answer g mid hi ql qr b ->
  lo < qr -> ql < hi -> is_max h (Z.max lo ql) (Z.min hi qr) (Z.max a b).
Proof.
  intros M Q Ef Eg B [A1 A2] [B1 B2] Q1 Q2.
  destruct (Z.le_gt_cases mid ql) as [C1|C1].
  - rewrite (A1 (or_intror C1)). specialize (B2 ltac:(lia) ltac:(lia)).
    apply (is_max_ext _ h) in B2; [|intros x R; apply Eg; lia].
    replace (Z.max lo ql) with (Z.max mid ql) by lia. pose proof B2 as [(x & R & Fx) _].
    rewrite (Z.max_r kNoValue b); [exact B2|]. rewrite <- Fx. apply B. lia.
  - destruct (Z.le_gt_cases qr mid) as [C2|C2].
    + rewrite (B1 (or_introl C2)). specialize (A2 ltac:(lia) ltac:(lia)).
      apply (is_max_ext _ h) in A2; [|intros x R; apply Ef; lia].
      replace (Z.min hi qr) with (Z.min mid qr) by lia. pose proof A2 as [(x & R & Fx) _].
      rewrite (Z.max_l a kNoValue); [exact A2|]. rewrite <- Fx. apply B. lia.
    + specialize (A2 ltac:(lia) ltac:(lia)). specialize (B2 ltac:(lia) ltac:(lia)).
      apply (is_max_ext _ h) in A2; [|intros x R; apply Ef; lia].
      apply (is_max_ext _ h) in B2; [|intros x R; apply Eg; lia].
      replace (Z.min mid qr) with mid in A2 by lia. replace (Z.max mid ql) with mid in B2 by lia.
      eapply is_max_split; [exact A2 | exact B2 | lia].
Qed.

(** A covered region, or one with no node. *)
Lemma tree_query_done n t lo hi ql qr carry :
  good t lo hi -> lo < hi -> ql < qr ->
  (forall x, lo <= x < hi -> 0 <= carry + val t lo hi x <= kIndexSaturation) ->
  t = E \/ (qr <= lo \/ hi <= ql) \/ (ql <= lo /\ hi <= qr) ->
  query_answer (fun x => carry + val t lo hi x) lo hi ql qr (tree_query (S n) t lo hi ql qr carry).
Proof.
  intros G L Q B C. cbn [tree_query]. unfold query_answer.
  destruct (Z.leb_spec qr lo), (Z.leb_spec hi ql); cbn [orb]; try (split; [auto | lia]).
  split; [lia|]. intros _ _. destruct t as [|i mx lz l r].
  { split; [exists (Z.max lo ql); simpl; split; lia | intros x R; simpl; lia]. }
  destruct (Z.leb_spec ql lo), (Z.leb_spec hi qr); try (destruct C as [C|C]; [discriminate | lia]).
  cbn [andb]. pose proof (good_max _ lo hi G L) as M. cbn [tmax] in M.
  replace (Z.max lo ql) with lo by lia. replace (Z.min hi qr) with hi by lia.
  rewrite saturating_add_exact; [now apply is_max_shift|].
  destruct M as [(x & R & <-) _]. specialize (B x R). unfold kIndexSaturation in *. lia.
Qed.

Lemma tree_query_spec n t lo hi ql qr carry :
  good t lo hi -> lo < hi -> hi - lo <= 2 ^ Z.of_nat n -> ql < qr ->
  (forall x, lo <= x < hi -> 0 <= carry + val t lo hi x <= kIndexSaturation) ->
  query_answer (fun x => carry + val t lo hi x) lo hi ql qr (tree_query (S n) t lo hi ql qr carry).
Proof.
  revert t lo hi carry. induction n as [|n IH]; intros t lo hi carry G L W Q B.
  { apply tree_query_done; auto. change (2 ^ Z.of_nat 0) with 1 in W. lia. }
  destruct t as [|i mx lz l r]; [apply tree_query_done; auto|].
  destruct (Z.le_gt_cases qr lo); [apply tree_query_done; auto; lia|].
  destruct (Z.le_gt_cases hi ql); [apply tree_query_done; auto; lia|].
  destruct (Z_le_dec ql lo), (Z_le_dec hi qr); try (apply tree_query_done; auto; lia).
  all: remember (S n) as m eqn:Em; cbn [tree_query];
    destruct (Z.leb_spec qr lo), (Z.leb_spec hi ql); try lia;
    destruct (Z.leb_spec ql lo), (Z.leb_spec hi qr); try lia; cbn [orb andb]; cbv zeta.
  all: destruct G as (Emx & Gv & Leaf & Gl & Gr); pose proof (mid_bounds lo hi ltac:(lia)) as M;
    pose proof (mid_halves lo hi n ltac:(subst m; lia)) as Hf; cbv zeta in Hf;
    set (mid := lo + Z.quot (hi - lo) 2) in *; destruct Hf as [Hl Hr].
  all: assert (saturating_add carry lz = carry + lz) as ->
    by (apply saturating_add_exact; specialize (B lo ltac:(lia)); cbn [val] in B; fold mid in B;
        destruct (Z.ltb_spec lo mid); [|lia]; pose proof (good_val l lo mid lo Gl ltac:(lia)); lia).
  all: split; [lia|]; intros _ _.
  all: apply (tree_query_halves (fun x => (carry + lz) + val l lo mid x)
                (fun x => (carry + lz) + val r mid hi x) _ lo mid hi ql qr); auto; try lia.
  all: try (intros x R; cbn [val]; fold mid; destruct (Z.ltb_spec x mid); lia).
  all: try (intros x R; specialize (B x R); unfold kNoValue, i64_min; lia).
  all: apply IH; auto; try lia; intros x R; specialize (B x ltac:(lia)); cbn [val] in B;
    fold mid in B; destruct (Z.ltb_spec x mid); lia.
Qed.

(** ** Allocation per update *)
Lemma tree_add_none fuel t next lo hi ql qr d :
  (qr <= lo \/ hi <= ql) \/ (ql <= lo /\ hi <= qr) ->
  snd (tree_add fuel t next lo hi ql qr d) = next.
Proof.
  intros C. destruct fuel as [|fuel]; [reflexivity|]. destruct t as [|i mx lz l r]; [reflexivity|].
  cbn [tree_add]. destruct (Z.leb_spec qr lo), (Z.leb_spec hi ql); try reflexivity. cbn [orb].
  destruct (Z.leb_spec ql lo), (Z.leb_spec hi qr); try reflexivity; lia.
Qed.

Lemma fresh_child_room next t : snd (fresh_child next t) <= next + 1.
Proof. destruct t; simpl; lia. Qed.

(** The two allocations of one level, in front of the two recursive calls. *)
Lemma tree_add_level fuel t next lo hi ql qr d (al ar : Z) :
  let mid := lo + Z.quot (hi - lo) 2 in
  0 <= al -> 0 <= ar ->
  (forall t n, snd (tree_add fuel t n lo mid ql qr d) <= n + al) ->
  (forall t n, snd (tree_add fuel t n mid hi ql qr d) <= n + ar) ->
  snd (tree_add (S fuel) t next lo hi ql qr d) <= next + 2 + al + ar.
Proof.
  intros mid Pl Pr Hl Hr. destruct t as [|i mx lz l r]; [simpl; lia|]. cbn [tree_add].
  case_if; [simpl; lia|]. case_if; [simpl; lia|]. fold mid. cbv zeta.
  pose proof (fresh_child_room next l). destruct (fresh_child next l) as [l1 n1].
  pose proof (fresh_child_room n1 r). destruct (fresh_child n1 r) as [r1 n2].
  pose proof (Hl (push_tree lz l1) n2). destruct (tree_add fuel (push_tree lz l1) _ _ _ _ _ _) as [l2 n3].
  pose proof (Hr (push_tree lz r1) n3). destruct (tree_add fuel (push_tree lz r1) _ _ _ _ _ _) as [r2 n4].
  simpl in *. lia.
Qed.

Lemma mid_between lo hi : lo <= hi -> lo <= lo + Z.quot (hi - lo) 2 <= hi.
Proof.
  intros H. rewrite Z.quot_div_nonneg by lia. pose proof (Z.div_mod (hi - lo) 2).
  pose proof (Z.mod_pos_bound (hi - lo) 2). lia.
Qed.

Lemma tree_add_room_one fuel t next lo hi ql qr d :
  lo <= hi -> ql <= lo \/ hi <= qr ->
  snd (tree_add fuel t next lo hi ql qr d) <= next + 2 * Z.of_nat fuel.
Proof.
  revert t next lo hi. induction fuel as [|fuel IH]; intros t next lo hi L C; [simpl; lia|].
  pose proof (mid_between lo hi L) as M. set (mid := lo + Z.quot (hi - lo) 2) in M.
  assert (forall a b, (qr <= a \/ b <= ql) \/ (ql <= a /\ b <= qr) ->
            forall t n, snd (tree_add fuel t n a b ql qr d) <= n + 0) as None.
  { intros a b D t' n. rewrite tree_add_none by exact D. lia. }
  pose proof (tree_add_level fuel t next lo hi ql qr d (2 * Z.of_nat fuel) 0 ltac:(lia) ltac:(lia)
    (fun t n => IH t n lo mid ltac:(lia) ltac:(lia))) as InLeft.
  pose proof (fun al => tree_add_level fuel t next lo hi ql qr d 0 (2 * Z.of_nat fuel) ltac:(lia)
    ltac:(lia) al (fun t n => IH t n mid hi ltac:(lia) ltac:(lia))) as InRight.
  fold mid in InLeft, InRight.
  destruct C as [C|C].
  - destruct (Z.le_gt_cases qr mid).
    + specialize (InLeft (None mid hi ltac:(lia))). lia.
    + specialize (InRight (None lo mid ltac:(lia))). lia.
  - destruct (Z.le_gt_cases mid ql).
    + specialize (InRight (None lo mid ltac:(lia))). lia.
    + specialize (InLeft (None mid hi ltac:(lia))). lia.
Qed.

(** An update allocates at most four nodes a level. *)
Lemma tree_add_room fuel t next lo hi ql qr d :
  lo <= hi -> snd (tree_add fuel t next lo hi ql qr d) <= next + 4 * Z.of_nat fuel.
Proof.
  revert t next lo hi. induction fuel as [|fuel IH]; intros t next lo hi L; [simpl; lia|].
  pose proof (mid_between lo hi L) as M. set (mid := lo + Z.quot (hi - lo) 2) in M.
  assert (forall a b, (qr <= a \/ b <= ql) \/ (ql <= a /\ b <= qr) ->
            forall t n, snd (tree_add fuel t n a b ql qr d) <= n + 0) as None.
  { intros a b D t' n. rewrite tree_add_none by exact D. lia. }
  destruct (Z.le_gt_cases qr mid); [|destruct (Z.le_gt_cases mid ql)].
  - pose proof (tree_add_level fuel t next lo hi ql qr d (4 * Z.of_nat fuel) 0 ltac:(lia) ltac:(lia)
      (fun t n => IH t n lo mid ltac:(lia)) (None mid hi ltac:(lia))). lia.
  - pose proof (tree_add_level fuel t next lo hi ql qr d 0 (4 * Z.of_nat fuel) ltac:(lia) ltac:(lia)
      (None lo mid ltac:(lia)) (fun t n => IH t n mid hi ltac:(lia))). lia.
  - pose proof (tree_add_level fuel t next lo hi ql qr d (2 * Z.of_nat fuel) (2 * Z.of_nat fuel)
      ltac:(lia) ltac:(lia)
      (fun t n => tree_add_room_one fuel t n lo mid ql qr d ltac:(lia) ltac:(lia))
      (fun t n => tree_add_room_one fuel t n mid hi ql qr d ltac:(lia) ltac:(lia))). lia.
Qed.

(** ** The abstract contract: a multiset of held intervals *)
Abbreviation holding := (Interval * Bandwidth)%type.

(** The bandwidth held at instant [x]. *)
Fixpoint occupancy (held : list holding) (x : Z) : Z :=
  match held with
  | [] => 0
  | (i, a) :: held => delta_at (ns (start i)) (ns (end_ i)) (bps a) x + occupancy held x
  end.

Definition held_ok (held : list holding) : Prop :=
  forall i a, In (i, a) held -> empty i = false /\ 0 < bps a.

(** The index [x] stands for the intervals [held]. *)
Record represents (x : IntervalCapacityIndex) (held : list holding) : Prop := {
  rep_held : held_ok held;
  rep_live : live_intervals x = Z.of_nat (length held);
  rep_tree :
    (nodes x = [node0] /\ held = []) \/
    exists t, t <> E /\ idx t = 1 /\ stores (nodes x) t /\ NoDup (ids t) /\
              good t 0 kMaxTimestampNs /\
              forall p, 0 <= p < kMaxTimestampNs -> val t 0 kMaxTimestampNs p = occupancy held p
}.

(** The structure can take one more update: 32-bit node indices suffice. *)
Definition has_room (x : IntervalCapacityIndex) : Prop := len (nodes x) + 256 <= 2 ^ 32.

Lemma occupancy_perm a b x : a ≡ₚ b -> occupancy a x = occupancy b x.
Proof. induction 1 as [|[i w]|[i w] [j v]|]; simpl; lia. Qed.

Lemma occupancy_nonneg held x : held_ok held -> 0 <= occupancy held x.
Proof.
  induction held as [|[i a] held IH]; simpl; intros H; [lia|].
  assert (0 < bps a) by (eapply (H i a); left; reflexivity).
  assert (0 <= occupancy held x) by (apply IH; intros j b I; apply H; right; exact I).
  unfold delta_at. case_if; lia.
Qed.

Lemma held_ok_perm a b : a ≡ₚ b -> held_ok a -> held_ok b.
Proof. intros P H i w I. apply H. rewrite P. exact I. Qed.

Lemma timeline_width : kMaxTimestampNs - 0 <= 2 ^ Z.of_nat 62.
Proof. vm_compute. discriminate. Qed.

Lemma timeline_pos : 0 < kMaxTimestampNs.
Proof. vm_compute. reflexivity. Qed.

(** The update both [add] and [remove] make on the vector. *)
Lemma update_tree arena t ql qr d :
  t <> E -> idx t = 1 -> stores arena t -> NoDup (ids t) -> good t 0 kMaxTimestampNs ->
  len arena + 252 <= 2 ^ 32 ->
  (forall p, 0 <= p < kMaxTimestampNs ->
     0 <= val t 0 kMaxTimestampNs p + delta_at ql qr d p <= kIndexSaturation) ->
  exists t', t' <> E /\ idx t' = 1 /\
    stores (node_add tree_fuel arena 1 0 kMaxTimestampNs ql qr d) t' /\ NoDup (ids t') /\
    good t' 0 kMaxTimestampNs /\
    len (node_add tree_fuel arena 1 0 kMaxTimestampNs ql qr d) <= len arena + 252 /\
    forall p, 0 <= p < kMaxTimestampNs ->
      val t' 0 kMaxTimestampNs p = val t 0 kMaxTimestampNs p + delta_at ql qr d p.
Proof.
  intros Ht Ti S N G R B. pose proof timeline_pos as P. pose proof timeline_width as W.
  pose proof (tree_add_room tree_fuel t (len arena) 0 kMaxTimestampNs ql qr d ltac:(lia)) as Room.
  pose proof (tree_add_spec 62 t (len arena) 0 kMaxTimestampNs ql qr d Ht G P W B) as (Ht' & G' & V').
  change (Datatypes.S 62) with tree_fuel in *.
  destruct (tree_add tree_fuel t (len arena) 0 kMaxTimestampNs ql qr d) as [t' next] eqn:A.
  cbn [fst snd] in *. change (Z.of_nat tree_fuel) with 63 in Room.
  destruct (node_add_tree _ _ _ _ _ _ _ _ _ _ S N Ht A ltac:(lia)) as (St & Ln & _).
  rewrite Ti in St, Ln. exists t'. split; [exact Ht'|]. split; [rewrite (step_idx _ _ _ _ St); exact Ti|].
  split; [apply St|]. split; [apply St|]. split; [exact G'|]. split; [lia | exact V'].
Qed.

Definition root0 : tree := T 1 0 0 E E.

Lemma root0_facts :
  idx root0 = 1 /\ stores [node0; node0] root0 /\ NoDup (ids root0) /\
  good root0 0 kMaxTimestampNs /\ forall p, val root0 0 kMaxTimestampNs p = 0.
Proof.
  assert (forall p, val root0 0 kMaxTimestampNs p = 0) as V.
  { intros p. unfold root0. cbn [val]. case_if; reflexivity. }
  split; [reflexivity|]. split; [cbn; split; [lia | auto]|]. split; [apply NoDup_singleton|]. split; [|exact V].
  unfold root0 in *. cbn [good tmax]. split; [reflexivity|]. split; [|auto].
  intros x _. rewrite V. unfold kIndexSaturation. lia.
Qed.

(** A vector ready for an update, whatever the index holds. *)
Lemma represents_root x held :
  represents x held ->
  exists t, t <> E /\ idx t = 1 /\ stores (ensure_root (nodes x)) t /\ NoDup (ids t) /\
    good t 0 kMaxTimestampNs /\ len (ensure_root (nodes x)) <= Z.max (len (nodes x)) 2 /\
    forall p, 0 <= p < kMaxTimestampNs -> val t 0 kMaxTimestampNs p = occupancy held p.
Proof.
  intros [H L [[N ->]|(t & Ht & Ti & S & ND & G & V)]]; unfold ensure_root.
  - destruct root0_facts as (F1 & F2 & F3 & F4 & F5). exists root0. rewrite N.
    change (if Z.of_nat (length [node0]) <=? 1 then fst (make_node [node0]) else [node0])
      with [node0; node0].
    split; [discriminate|]. split; [exact F1|]. split; [exact F2|]. split; [exact F3|].
    split; [exact F4|]. split; [change (2 <= 2); lia|]. intros p _. apply F5.
  - exists t. destruct t as [|i mx lz l r]; [congruence|]. cbn [idx] in Ti. subst i.
    pose proof S as (B & _). destruct (Z.leb_spec (Z.of_nat (length (nodes x))) 1); [lia|].
    split; [exact Ht|]. split; [reflexivity|]. split; [exact S|]. split; [exact ND|].
    split; [exact G|]. split; [unfold len; lia | exact V].
Qed.

Lemma ici_new_represents : represents ici_new [].
Proof.
  destruct root0_facts as (F1 & F2 & F3 & F4 & F5). constructor; [intros ? ? []|reflexivity|].
  right. exists root0. split; [discriminate|]. repeat (split; [assumption|]). intros p _. apply F5.
Qed.

(** Adding an interval to the capacity index adds its bandwidth to exactly
    the instants it covers, as long as no instant holds more than 2^62: neither
    the lazy propagation nor the saturating arithmetic loses anything. *)
Lemma ici_add_represents x held iv a :
  represents x held -> has_room x ->
  empty iv = false -> 0 < bps a -> Z.of_nat (length held) + 1 < 2 ^ 64 ->
  (forall p, 0 <= p < kMaxTimestampNs -> occupancy ((iv, a) :: held) p <= kIndexSaturation) ->
  represents (ici_add x iv a) ((iv, a) :: held) /\
  len (nodes (ici_add x iv a)) <= Z.max (len (nodes x)) 2 + 252.
Proof.
  intros R Room Ne Pa Cnt B. pose proof R as [H L _].
  destruct (represents_root x held R) as (t & Ht & Ti & S & ND & G & O & V).
  unfold ici_add. rewrite Ne. destruct (Z.eqb_spec (bps a) 0); [lia|]. cbn [orb].
  destruct (update_tree _ t (ns (start iv)) (ns (end_ iv)) (bps a) Ht Ti S ND G)
    as (t' & Ht' & Ti' & S' & ND' & G' & O' & V').
  { unfold has_room in Room. lia. }
  { intros p Rp. rewrite V by exact Rp. specialize (B p Rp). simpl in B.
    pose proof (occupancy_nonneg held p H). unfold delta_at in *. case_if; lia. }
  split; [|cbn [nodes]; lia]. constructor.
  - intros j b [[= <- <-]|I]; [auto | exact (H _ _ I)].
  - cbn [live_intervals length]. rewrite L, to_u_id; [lia|]. unfold u_ok. bool_goal; lia.
  - right. exists t'. repeat (split; [assumption|]). intros p Rp.
    rewrite V', V by exact Rp. simpl. lia.
Qed.

(** Removing an interval that was added takes exactly its bandwidth out
    again; the emptied index is reset. *)
Lemma ici_remove_represents x held iv a rest :
  represents x held -> has_room x -> held ≡ₚ (iv, a) :: rest ->
  represents (ici_remove x iv a) rest /\
  len (nodes (ici_remove x iv a)) <= len (nodes x) + 252.
Proof.
  intros R Room P. pose proof R as [H L Tr]. pose proof (held_ok_perm _ _ P H) as Hp.
  destruct (Hp iv a (or_introl eq_refl)) as [Ne Pa].
  assert (held_ok rest) as Hr by (intros j b I; apply Hp; right; exact I).
  assert (live_intervals x = Z.of_nat (length rest) + 1) as Lr.
  { rewrite L, (Permutation_length P). cbn [length]. lia. }
  destruct Tr as [[_ ->]|(t & Ht & Ti & S & ND & G & V)].
  { apply Permutation_nil in P. discriminate. }
  assert (len (nodes x) > 1) as Big.
  { destruct t as [|i mx lz l r]; [congruence|]. cbn [idx] in Ti. subst i. destruct S as (B & _).
    unfold len. lia. }
  unfold ici_remove. rewrite Ne. destruct (Z.eqb_spec (bps a) 0); [lia|]. cbn [orb].
  unfold len in Big. destruct (Z.leb_spec (Z.of_nat (length (nodes x))) 1); [lia|].
  rewrite Z.gtb_ltb. destruct (Z.ltb_spec 0 (live_intervals x)); [|lia]. cbv zeta.
  assert (forall p, 0 <= p < kMaxTimestampNs -> val t 0 kMaxTimestampNs p =
            delta_at (ns (start iv)) (ns (end_ iv)) (bps a) p + occupancy rest p) as Vr.
  { intros p Rp. rewrite V by exact Rp. rewrite (occupancy_perm _ _ p P). reflexivity. }
  destruct (update_tree (nodes x) t (ns (start iv)) (ns (end_ iv)) (- bps a) Ht Ti S ND G)
    as (t' & Ht' & Ti' & S' & ND' & G' & O' & V').
  { unfold has_room in Room. lia. }
  { intros p Rp. pose proof (good_val t 0 kMaxTimestampNs p G Rp) as Gv. rewrite Vr in * by exact Rp.
    pose proof (occupancy_nonneg rest p Hr). unfold delta_at in *. case_if; lia. }
  split.
  2:{ cbn [nodes]. destruct (Z.eqb_spec (live_intervals x - 1) 0); [unfold len; simpl length; lia | exact O']. }
  constructor; [exact Hr | cbn [live_intervals]; lia|]. cbn [nodes].
  destruct (Z.eqb_spec (live_intervals x - 1) 0).
  { left. destruct rest; [auto | simpl in Lr; lia]. }
  right. exists t'. repeat (split; [assumption|]). intros p Rp. rewrite V', Vr by exact Rp.
  unfold delta_at. case_if; lia.
Qed.

Lemma ici_query_spec x held ql qr :
  represents x held -> ql < qr -> ql < kMaxTimestampNs -> 0 < qr ->
  is_max (occupancy held) (Z.max 0 ql) (Z.min kMaxTimestampNs qr) (ici_query x ql qr).
Proof.
  intros [H L Tr] Q Q1 Q2. pose proof timeline_pos as P. unfold ici_query.
  destruct Tr as [[-> ->]|(t & Ht & Ti & S & ND & G & V)].
  { simpl. split; [exists (Z.max 0 ql); split; [lia | reflexivity] | intros; reflexivity || lia]. }
  destruct (Z.leb_spec (Z.of_nat (length (nodes x))) 1).
  { destruct t as [|i mx lz l r]; [congruence|]. cbn [idx] in Ti. subst i. destruct S as (B & _). lia. }
  rewrite <- Ti, node_query_tree by exact S.
  destruct (tree_query_spec 62 t 0 kMaxTimestampNs ql qr 0 G P timeline_width Q) as [_ M].
  { intros p Rp. rewrite Z.add_0_l. apply good_val; assumption. }
  specialize (M Q2 Q1). change (Datatypes.S 62) with tree_fuel in M.
  set (v := tree_query tree_fuel t 0 kMaxTimestampNs ql qr 0) in *. cbv zeta.
  apply (is_max_ext _ (occupancy held)) in M; [|intros p Rp; rewrite Z.add_0_l; apply V; lia].
  destruct (Z.eqb_spec v kNoValue) as [Ev|]; [exfalso | exact M].
  destruct M as [(p & Rp & Fp) _]. pose proof (occupancy_nonneg held p H).
  rewrite Ev in Fp. unfold kNoValue, i64_min in Fp. lia.
Qed.

Lemma node_query_disjoint arena index lo hi ql qr carry :
  qr <= lo \/ hi <= ql -> node_query tree_fuel arena index lo hi ql qr carry = kNoValue.
Proof.
  intros C. change tree_fuel with (Datatypes.S 62). generalize 62%nat as n. intros n.
  cbn [node_query]. destruct (Z.leb_spec qr lo), (Z.leb_spec hi ql); try reflexivity. lia.
Qed.

(** The reported peak is the exact maximum occupancy over the part of the
    window that lies on the timeline, and zero when no part does. *)
Lemma ici_peak_spec x held w :
  represents x held -> empty w = false ->
  let lo := Z.max 0 (ns (start w)) in
  let hi := Z.min kMaxTimestampNs (ns (end_ w)) in
  (lo < hi -> is_max (occupancy held) lo hi (bps (ici_peak x w))) /\
  (hi <= lo -> bps (ici_peak x w) = 0).
Proof.
  intros R Ne lo hi. unfold ici_peak. rewrite Ne. cbn [bps]. rewrite empty_false in Ne.
  pose proof timeline_pos. split; intros C; [apply (ici_query_spec x held); auto; lia|].
  unfold ici_query. case_if; [reflexivity|]. rewrite node_query_disjoint by lia. reflexivity.
Qed.

(** The occupancy of one instant. *)
Lemma ici_at_spec x held t :
  represents x held -> 0 <= ns t < kMaxTimestampNs -> bps (ici_at x t) = occupancy held (ns t).
Proof.
  intros R B. unfold ici_at. rewrite Z.geb_leb.
  destruct (Z.ltb_spec (ns t) 0), (Z.leb_spec kMaxTimestampNs (ns t)); try lia. cbn [orb bps].
  destruct (ici_query_spec x held (ns t) (ns t + 1) R ltac:(lia) ltac:(lia) ltac:(lia))
    as [(p & Rp & <-) _].
  f_equal. lia.
Qed.

(** The early-exit test agrees with the peak: some instant of the window
    holds more than the limit exactly when it answers true. *)
Lemma ici_exceeds_spec x held w limit :
  represents x held -> empty w = false -> 0 <= bps limit ->
  (ici_exceeds x w limit = true <-> bps limit < bps (ici_peak x w)).
Proof.
  intros R Ne Pl. unfold ici_exceeds, ici_peak, ici_query. rewrite Ne. cbn [bps].
  pose proof R as [H L Tr]. destruct Tr as [[-> _]|(t & Ht & Ti & S & _)].
  { simpl. split; [discriminate | lia]. }
  destruct (Z.leb_spec (Z.of_nat (length (nodes x))) 1); [split; [discriminate | lia]|].
  rewrite <- Ti, node_exceeds_tree, <- (node_query_tree _ (nodes x)), Z.ltb_lt
    by (assumption || (unfold kNoValue, i64_min; lia)).
  cbv zeta. set (v := node_query _ _ _ _ _ _ _ _). destruct (Z.eqb_spec v kNoValue) as [->|]; [|reflexivity].
  unfold kNoValue, i64_min. lia.
Qed.

(** ** Legal histories *)

(** A history of [n] updates: intervals are added while no instant holds more
    than 2^62, and only intervals that are held are removed. *)
Inductive history : IntervalCapacityIndex -> list holding -> nat -> Prop :=
  | history_new : history ici_new [] 0
  | history_add x held n iv a :
      history x held n -> empty iv = false -> 0 < bps a ->
      (forall p, 0 <= p < kMaxTimestampNs -> occupancy ((iv, a) :: held) p <= kIndexSaturation) ->
      history (ici_add x iv a) ((iv, a) :: held) (Datatypes.S n)
  | history_remove x held n iv a rest :
      history x held n -> held ≡ₚ (iv, a) :: rest ->
      history (ici_remove x iv a) rest (Datatypes.S n).

Lemma history_represents x held n :
  history x held n -> Z.of_nat n <= 2 ^ 24 ->
  represents x held /\ len (nodes x) <= 2 + 252 * Z.of_nat n /\
  Z.of_nat (length held) <= Z.of_nat n.
Proof.
  intros Hy. induction Hy as [|x held n iv a Hy IH Ne Pa B|x held n iv a rest Hy IH P]; intros Bn.
  - split; [apply ici_new_represents | split; [vm_compute; discriminate | reflexivity]].
  - destruct IH as (R & L & C); [lia|].
    destruct (ici_add_represents x held iv a R) as [R' L']; auto; [unfold has_room; lia | lia|].
    split; [exact R'|]. cbn [length]. lia.
  - destruct IH as (R & L & C); [lia|].
    destruct (ici_remove_represents x held iv a rest R) as [R' L']; auto; [unfold has_room; lia|].
    split; [exact R'|]. apply Permutation_length in P. cbn [length] in P. lia.
Qed.

(** C34. After any legal history of up to 2^24 additions and removals, in any
    order, the segment tree answers exactly: the reported peak is the maximum
    bandwidth held at any instant of the window, the value at an instant is the
    bandwidth held there, and the early-exit test agrees with the peak.  Lazy
    propagation, on-demand allocation, saturating arithmetic and the reset of an
    emptied index never show. *)
Theorem interval_index_exact x held n w t limit :
  history x held n -> Z.of_nat n <= 2 ^ 24 ->
  empty w = false -> 0 <= ns (start w) -> ns (end_ w) <= kMaxTimestampNs ->
  0 <= ns t < kMaxTimestampNs -> 0 <= bps limit ->
  is_max (occupancy held) (ns (start w)) (ns (end_ w)) (bps (ici_peak x w)) /\
  bps (ici_at x t) = occupancy held (ns t) /\
  (ici_exceeds x w limit = true <-> bps limit < bps (ici_peak x w)).
Proof.
  intros Hy Bn Ne Ws We Bt Bl. destruct (history_represents x held n Hy Bn) as (R & _ & _).
  pose proof (ici_peak_spec x held w R Ne) as [Pk _]. cbv zeta in Pk.
  rewrite Z.max_r, Z.min_r in Pk by assumption. rewrite empty_false in Ne.
  split; [exact (Pk Ne)|]. split; [apply ici_at_spec; assumption|].
  apply (ici_exceeds_spec x held); auto. now apply empty_false.
Qed.

Lemma interval_index_exact_witness :
  let a := mkInterval (mkTs 10) (mkTs 20) in
  let b := mkInterval (mkTs 15) (mkTs 30) in
  let x := ici_remove (ici_add (ici_add ici_new a (mkBandwidth 5)) b (mkBandwidth 7)) a (mkBandwidth 5) in
  let w := mkInterval (mkTs 0) (mkTs 40) in
  is_max (occupancy [(b, mkBandwidth 7)]) 0 40 (bps (ici_peak x w)) /\
  bps (ici_at x (mkTs 16)) = occupancy [(b, mkBandwidth 7)] 16 /\
  (ici_exceeds x w (mkBandwidth 6) = true <-> 6 < bps (ici_peak x w)).
Proof.
  intros a b x w.
  apply (interval_index_exact x [(b, mkBandwidth 7)] 3 w (mkTs 16) (mkBandwidth 6));
    try (simpl; lia); try reflexivity; try (vm_compute; discriminate);
    [|split; [simpl; lia | vm_compute; reflexivity]].
  eapply (history_remove _ [(b, mkBandwidth 7); (a, mkBandwidth 5)]); [|apply perm_swap].
  apply history_add; [|reflexivity | simpl; lia|].
  - apply history_add; [apply history_new | reflexivity | simpl; lia|].
    intros p _. unfold occupancy, delta_at, in_query, kIndexSaturation. simpl.
    case_if; lia.
  - intros p _. unfold occupancy, delta_at, in_query, kIndexSaturation. simpl.
    repeat case_if; lia.
Defined.
