(* ===== verification/Index.v ===== *)
(** * The resource-keyed capacity index

    [CapacityIndex] of [include/brf/index.hpp] and [src/index.cpp]: per resource
    three interval structures (committed, holds, combined) and the entries by
    start instant, and one bookkeeping key per holder and resource. *)
From S2P Require Import Prelude Errors Containers Identity Hash Bandwidth Time Authority Policy Capacity Reservation Outcome SegTree.

Inductive HolderKind := kReservation | kHold.

#[export] Instance HolderKind_eq_dec : EqDecision HolderKind.
Proof. solve_decision. Defined.

Definition HolderKind_to_Z (k : HolderKind) : Z :=
  match k with kReservation => 0 | kHold => 1 end.

Lemma HolderKind_to_Z_inj a b : HolderKind_to_Z a = HolderKind_to_Z b -> a = b.
Proof. destruct a, b; simpl; congruence. Qed.

#[export] Instance OrdKey_HolderKind : OrdKey HolderKind :=
  OrdKey_inj HolderKind_to_Z HolderKind_to_Z_inj.

Record IndexEntry := mkIndexEntry {
  ie_kind : HolderKind;
  ie_id : Identity128;
  holder_generation : Z;
  ie_resource : ResourceName;
  ie_interval : Interval;
  ie_amount : Bandwidth;
  ie_guarantee : GuaranteeClass;
  ie_state : ReservationState }.

(** [EntryIdentity], ordered by kind, identity and resource. *)
Abbreviation EntryIdentity := (HolderKind * (Identity128 * ResourceName))%type.

Definition identity_of (e : IndexEntry) : EntryIdentity := (ie_kind e, (ie_id e, ie_resource e)).

Record ResourceState := mkResourceState {
  ix_committed : IntervalCapacityIndex;
  ix_holds : IntervalCapacityIndex;
  ix_combined : IntervalCapacityIndex;
  by_start : list (Timestamp * IndexEntry);
  ix_entry_count : Z }.

Definition new_state : ResourceState := mkResourceState ici_new ici_new ici_new [] 0.

(** [EntryKey] is the start instant. *)
Record CapacityIndex := mkCapacityIndex {
  resources_ : omap ResourceName ResourceState;
  entries_ : omap EntryIdentity Timestamp;
  entry_count_ : Z }.

Definition index_empty : CapacityIndex := mkCapacityIndex [] [] 0.

Definition state_for (x : CapacityIndex) (resource : ResourceName) : option ResourceState :=
  om_find (resources_ x) resource.

(** The entry joins the structures of its resource. *)
Definition state_insert (state : ResourceState) (entry : IndexEntry) : ResourceState :=
  mkResourceState
    (if decide (ie_kind entry = kReservation)
     then ici_add (ix_committed state) (ie_interval entry) (ie_amount entry)
     else ix_committed state)
    (if decide (ie_kind entry = kReservation) then ix_holds state
     else ici_add (ix_holds state) (ie_interval entry) (ie_amount entry))
    (ici_add (ix_combined state) (ie_interval entry) (ie_amount entry))
    (mm_emplace (by_start state) (start (ie_interval entry)) entry)
    (to_u 64 (ix_entry_count state + 1)).

Definition index_insert (x : CapacityIndex) (entry : IndexEntry) : Result CapacityIndex :=
  refuse_if empty (ie_interval entry) with kInvalidInterval in
  refuse_if bps (ie_amount entry) <=? 0 with kInvalidBandwidth in
  refuse_if name_empty (ie_resource entry) with kInvalidName in
  refuse_if om_mem (entries_ x) (identity_of entry) with kAlreadyExists in
  let state := default new_state (state_for x (ie_resource entry)) in
  Ok (mkCapacityIndex
        (om_set (resources_ x) (ie_resource entry) (state_insert state entry))
        (om_set (entries_ x) (identity_of entry) (start (ie_interval entry)))
        (to_u 64 (entry_count_ x + 1))).

(** The structures of a resource give the entry's bandwidth back; [rest] is what
    stays of [by_start], [count] the new entry count. *)
Definition state_remove (state : ResourceState) (kind : HolderKind) (entry : IndexEntry)
    (rest : list (Timestamp * IndexEntry)) (count : Z) : ResourceState :=
  mkResourceState
    (if decide (kind = kReservation)
     then ici_remove (ix_committed state) (ie_interval entry) (ie_amount entry)
     else ix_committed state)
    (if decide (kind = kReservation) then ix_holds state
     else ici_remove (ix_holds state) (ie_interval entry) (ie_amount entry))
    (ici_remove (ix_combined state) (ie_interval entry) (ie_amount entry))
    rest count.

(** [if (n > 0) --n]. *)
Definition pred_count (n : Z) : Z := if n >? 0 then n - 1 else n.

Definition same_holder (kind : HolderKind) (id : Identity128) (e : IndexEntry) : bool :=
  beq (ie_kind e) kind && beq (ie_id e) id.

Definition index_erase (x : CapacityIndex) (kind : HolderKind) (id : Identity128)
    (generation : Z) (resource : ResourceName) : Result CapacityIndex :=
  match om_find (entries_ x) (kind, (id, resource)) with
  | None => Err kNotFound
  | Some start =>
      match state_for x resource with
      | None => Err kInternal
      | Some state =>
          match mm_take (by_start state) start
                  (fun e => beq (ie_id e) id && (holder_generation e =? generation) &&
                            beq (ie_kind e) kind) with
          | None => Err kInternal
          | Some (entry, rest) =>
              let state := state_remove state kind entry rest (to_u 64 (ix_entry_count state - 1)) in
              Ok (mkCapacityIndex
                    (if ix_entry_count state =? 0 then om_erase (resources_ x) resource
                     else om_set (resources_ x) resource state)
                    (om_erase (entries_ x) (kind, (id, resource)))
                    (pred_count (entry_count_ x)))
          end
      end
  end.

(** First loop of [erase_all]: the bookkeeping keys of the holder, in map order.
    [touched] grows in that order; [removed] counts removed entries. *)
Fixpoint erase_keys (keys : list (EntryIdentity * Timestamp)) (kind : HolderKind) (id : Identity128)
    (resources : omap ResourceName ResourceState) (touched : list ResourceName) (removed : Z) :
    omap ResourceName ResourceState * list ResourceName * Z :=
  match keys with
  | [] => (resources, touched, removed)
  | ((k, (i, resource)), start) :: keys =>
      if negb (beq k kind) || negb (beq i id) then erase_keys keys kind id resources touched removed
      else
        match om_find resources resource with
        | None => erase_keys keys kind id resources touched removed
        | Some state =>
            let touched := touched ++ [resource] in
            match mm_take (by_start state) start (same_holder kind id) with
            | None => erase_keys keys kind id resources touched removed
            | Some (entry, rest) =>
                erase_keys keys kind id
                  (om_set resources resource
                     (state_remove state kind entry rest (pred_count (ix_entry_count state)))) touched
                  (removed + 1)
            end
        end
  end.

(** The sweep of one resource: every entry of the holder leaves. [kept] is what
    stays of [by_start], reversed. *)
Fixpoint sweep_state (walk kept : list (Timestamp * IndexEntry)) (kind : HolderKind)
    (id : Identity128) (state : ResourceState) (removed : Z) : ResourceState * Z :=
  match walk with
  | [] => (state, removed)
  | (t, e) :: walk =>
      if same_holder kind id e then
        sweep_state walk kept kind id
          (state_remove state kind e (rev kept ++ walk) (pred_count (ix_entry_count state)))
          (removed + 1)
      else sweep_state walk ((t, e) :: kept) kind id state removed
  end.

Fixpoint sweep (touched : list ResourceName) (kind : HolderKind) (id : Identity128)
    (resources : omap ResourceName ResourceState) (removed : Z) :
    omap ResourceName ResourceState * Z :=
  match touched with
  | [] => (resources, removed)
  | resource :: touched =>
      match om_find resources resource with
      | None => sweep touched kind id resources removed
      | Some state =>
          let '(state, removed) := sweep_state (by_start state) [] kind id state removed in
          sweep touched kind id (om_set resources resource state) removed
      end
  end.

(** The resources whose entries are gone are dropped. *)
Definition drop_empty (resources : omap ResourceName ResourceState) (resource : ResourceName) :
    omap ResourceName ResourceState :=
  match om_find resources resource with
  | Some state => if ix_entry_count state =? 0 then om_erase resources resource else resources
  | None => resources
  end.

Definition other_holder (kind : HolderKind) (id : Identity128) (p : EntryIdentity * Timestamp) : bool :=
  negb (beq p.1.1 kind) || negb (beq p.1.2.1 id).

(** [erase_all] answers a status and leaves the index changed either way. *)
Definition index_erase_all (x : CapacityIndex) (kind : HolderKind) (id : Identity128)
    (generation : Z) : Status * CapacityIndex :=
  let '(resources, touched, removed) := erase_keys (entries_ x) kind id (resources_ x) [] 0 in
  let entries := List.filter (other_holder kind id) (entries_ x) in
  let '(resources, removed) := sweep touched kind id resources removed in
  if removed =? 0 then (Err kNotFound, mkCapacityIndex resources entries (entry_count_ x))
  else
    let count := if removed >? entry_count_ x then 0 else entry_count_ x - removed in
    let touched := unique_by keqb (sort_keys touched) in
    (Ok tt, mkCapacityIndex (fold_left drop_empty touched resources) entries count).

Fixpoint insert_loop (x : CapacityIndex) (entries : list IndexEntry) : Status * CapacityIndex :=
  match entries with
  | [] => (Ok tt, x)
  | entry :: entries =>
      match index_insert x entry with
      | Ok x => insert_loop x entries
      | Err e => (Err e, x)
      end
  end.

Definition index_replace_all (x : CapacityIndex) (kind : HolderKind) (id : Identity128)
    (generation : Z) (entries : list IndexEntry) : Status * CapacityIndex :=
  match index_erase_all x kind id generation with
  | (Err e, x) => if beq e kNotFound then insert_loop x entries else (Err e, x)
  | (Ok _, x) => insert_loop x entries
  end.

Definition index_contains (x : CapacityIndex) (kind : HolderKind) (id : Identity128) : bool :=
  existsb (fun p => beq p.1.1 kind && beq p.1.2.1 id) (entries_ x).

(** One step of [find_all]: the entry a bookkeeping key stands for. *)
Definition find_entry (x : CapacityIndex) (kind : HolderKind) (id : Identity128)
    (p : EntryIdentity * Timestamp) : list IndexEntry :=
  if other_holder kind id p then []
  else
    match state_for x p.1.2.2 with
    | None => []
    | Some state =>
        match mm_take (by_start state) p.2 (same_holder kind id) with
        | Some (e, _) => [e]
        | None => []
        end
    end.

Definition index_find_all (x : CapacityIndex) (kind : HolderKind) (id : Identity128) : list IndexEntry :=
  sort (fun a b => kltb (ie_resource a) (ie_resource b))
    (flat_map (find_entry x kind id) (entries_ x)).

Definition peak_committed (x : CapacityIndex) (resource : ResourceName) (window : Interval) : Bandwidth :=
  match state_for x resource with
  | None => mkBandwidth 0
  | Some state => ici_peak (ix_committed state) window
  end.
Definition peak_holds (x : CapacityIndex) (resource : ResourceName) (window : Interval) : Bandwidth :=
  match state_for x resource with
  | None => mkBandwidth 0
  | Some state => ici_peak (ix_holds state) window
  end.
Definition peak_combined (x : CapacityIndex) (resource : ResourceName) (window : Interval) : Bandwidth :=
  match state_for x resource with
  | None => mkBandwidth 0
  | Some state => ici_peak (ix_combined state) window
  end.
Definition index_committed_at (x : CapacityIndex) (resource : ResourceName) (instant : Timestamp) : Bandwidth :=
  match state_for x resource with
  | None => mkBandwidth 0
  | Some state => ici_at (ix_committed state) instant
  end.

(** The scan of [overlapping]: output, number matched, and whether the scan
    bound stopped it. *)
Fixpoint overlap_scan (walk : list (Timestamp * IndexEntry)) (window : Interval)
    (output_limit scan_limit scanned matched : Z) (out : list IndexEntry) :
    list IndexEntry * Z * bool :=
  match walk with
  | [] => (out, matched, false)
  | (t, e) :: walk =>
      if negb (ts_lt t (end_ window)) then (out, matched, false)
      else if scanned >=? scan_limit then (out, matched, true)
      else if ts_le (end_ (ie_interval e)) (start window) then
        overlap_scan walk window output_limit scan_limit (scanned + 1) matched out
      else
        overlap_scan walk window output_limit scan_limit (scanned + 1) (matched + 1)
          (if Z.of_nat (length out) <? output_limit then out ++ [e] else out)
  end.

(** The order of the reported entries. *)
Definition overlap_lt (a b : IndexEntry) : bool :=
  kltb (start (ie_interval a), (end_ (ie_interval a), (ie_id a, ie_resource a)))
       (start (ie_interval b), (end_ (ie_interval b), (ie_id b, ie_resource b))).

(** [overlapping]: the entries, the total matched, and the truncation flag. *)
Definition index_overlapping (x : CapacityIndex) (resource : ResourceName) (window : Interval)
    (output_limit scan_limit : Z) : list IndexEntry * Z * bool :=
  match state_for x resource with
  | None => ([], 0, false)
  | Some state =>
      if empty window then ([], 0, false)
      else
        let '(out, matched, hit) :=
          overlap_scan (by_start state) window output_limit scan_limit 0 0 [] in
        (sort overlap_lt out, matched, hit || (matched >? Z.of_nat (length out)))
  end.

(** The boundaries [timeline] collects behind the window start, and whether
    they were cut. *)
Fixpoint boundary_scan (walk : list (Timestamp * IndexEntry)) (window : Interval) (max_points : Z)
    (boundaries : list Timestamp) : list Timestamp * bool :=
  match walk with
  | [] => (boundaries, false)
  | (t, e) :: walk =>
      if negb (ts_lt t (end_ window)) then (boundaries, false)
      else if ts_le (end_ (ie_interval e)) (start window) then
        boundary_scan walk window max_points boundaries
      else
        let s := start (ie_interval e) in
        let f := end_ (ie_interval e) in
        let boundaries := boundaries ++
          [ (if ts_lt s (start window) then start window else s);
            (if ts_lt (end_ window) f then end_ window else f) ] in
        if Z.of_nat (length boundaries) >? to_u 64 ((max_points + 2) * 2) then (boundaries, true)
        else boundary_scan walk window max_points boundaries
  end.

Definition index_timeline (x : CapacityIndex) (resource : ResourceName) (window : Interval)
    (max_points : Z) : list ChangePoint * bool :=
  match state_for x resource with
  | None => ([], false)
  | Some state =>
      if empty window then ([], false)
      else
        let '(boundaries, cut) := boundary_scan (by_start state) window max_points [start window] in
        let boundaries := unique_by keqb (sort_keys boundaries) in
        let bound := to_u 64 (max_points + 1) in
        let long := Z.of_nat (length boundaries) >? bound in
        let boundaries := if long then firstn (Z.to_nat bound) boundaries else boundaries in
        (flat_map (fun instant =>
           if ts_lt instant (start window) || negb (ts_lt instant (end_ window)) then []
           else [mkChangePoint instant (ici_at (ix_committed state) instant)
                   (ici_at (ix_holds state) instant)]) boundaries,
         cut || long)
  end.

Definition index_resource_names (x : CapacityIndex) : list ResourceName := om_keys (resources_ x).
Definition index_clear (_ : CapacityIndex) : CapacityIndex := index_empty.

(** ** The abstract contract: a set of entries

    [index_ok n x es]: after at most [n] structural updates the index [x]
    stands for the entries [es], at most one per holder and resource. *)
Definition entry_wf (e : IndexEntry) : Prop :=
  empty (ie_interval e) = false /\ 0 < bps (ie_amount e) /\ name_empty (ie_resource e) = false.

Definition on_resource (r : ResourceName) (e : IndexEntry) : bool := beq (ie_resource e) r.
Definition of_kind (k : HolderKind) (e : IndexEntry) : bool := beq (ie_kind e) k.

Definition entries_on (r : ResourceName) (es : list IndexEntry) : list IndexEntry :=
  List.filter (on_resource r) es.
Definition holdings (es : list IndexEntry) : list holding :=
  map (fun e => (ie_interval e, ie_amount e)) es.
Definition holdings_of (k : HolderKind) (es : list IndexEntry) : list holding :=
  holdings (List.filter (of_kind k) es).

Definition tracks (n : Z) (x : IntervalCapacityIndex) (held : list holding) : Prop :=
  represents x held /\ len (nodes x) <= 2 + 252 * n.

Record state_ok (n : Z) (st : ResourceState) (l : list IndexEntry) : Prop := {
  so_by_start : by_start st ≡ₚ map (fun e => (start (ie_interval e), e)) l;
  so_sorted : mm_sorted (by_start st);
  so_committed : tracks n (ix_committed st) (holdings_of kReservation l);
  so_holds : tracks n (ix_holds st) (holdings_of kHold l);
  so_combined : tracks n (ix_combined st) (holdings l);
  so_count : ix_entry_count st = Z.of_nat (length l)
}.

(** The resource map, with or without states that have become empty. *)
Definition resources_ok (n : Z) (rs : omap ResourceName ResourceState) (es : list IndexEntry) : Prop :=
  om_sorted rs /\
  forall r, match om_find rs r with
            | Some st => state_ok n st (entries_on r es)
            | None => entries_on r es = []
            end.

Record index_ok (n : Z) (x : CapacityIndex) (es : list IndexEntry) : Prop := {
  io_wf : forall e, In e es -> entry_wf e;
  io_identity : NoDup (map identity_of es);
  io_sorted : om_sorted (entries_ x);
  io_keys : forall k s, om_find (entries_ x) k = Some s <->
                        exists e, In e es /\ identity_of e = k /\ start (ie_interval e) = s;
  io_resources : resources_ok n (resources_ x) es;
  io_live : forall r st, om_find (resources_ x) r = Some st -> entries_on r es <> [];
  io_count : entry_count_ x = Z.of_nat (length es);
  io_budget : 0 <= n <= 2 ^ 24 /\ Z.of_nat (length es) <= n
}.

(** *** Interval structures *)
Lemma represents_perm x a b : a ≡ₚ b -> represents x a -> represents x b.
Proof.
  intros P [H L Tr]. constructor.
  - exact (held_ok_perm _ _ P H).
  - rewrite L, (Permutation_length P). reflexivity.
  - destruct Tr as [[N ->]|(t & A & B & C & D & F & V)].
    + left. apply Permutation_nil in P. auto.
    + right. exists t. repeat (split; [assumption|]). intros p R.
      rewrite V by exact R. now apply occupancy_perm.
Qed.

Lemma tracks_perm n x a b : a ≡ₚ b -> tracks n x a -> tracks n x b.
Proof. intros P [R L]. split; [exact (represents_perm _ _ _ P R) | exact L]. Qed.

Lemma tracks_mono n m x held : n <= m -> tracks n x held -> tracks m x held.
Proof. intros L [R B]. split; [exact R | lia]. Qed.

Lemma tracks_new n : 0 <= n -> tracks n ici_new [].
Proof. intros N. split; [apply ici_new_represents | change (2 <= 2 + 252 * n); lia]. Qed.

Lemma tracks_room n x held : 0 <= n < 2 ^ 24 -> tracks n x held -> has_room x.
Proof. intros B [_ L]. unfold has_room. lia. Qed.

Lemma tracks_add n x held iv a :
  0 <= n < 2 ^ 24 -> tracks n x held -> empty iv = false -> 0 < bps a ->
  Z.of_nat (length held) <= n ->
  (forall p, 0 <= p < kMaxTimestampNs -> occupancy ((iv, a) :: held) p <= kIndexSaturation) ->
  tracks (n + 1) (ici_add x iv a) ((iv, a) :: held).
Proof.
  intros B Tr Ne Pa C O. pose proof (tracks_room n x held B Tr) as Room. destruct Tr as [R L].
  destruct (ici_add_represents x held iv a R Room Ne Pa ltac:(lia) O) as [R' L'].
  split; [exact R' | lia].
Qed.

Lemma tracks_remove n x held iv a rest :
  0 <= n < 2 ^ 24 -> tracks n x held -> held ≡ₚ (iv, a) :: rest ->
  tracks (n + 1) (ici_remove x iv a) rest.
Proof.
  intros B Tr P. pose proof (tracks_room n x held B Tr) as Room. destruct Tr as [R L].
  destruct (ici_remove_represents x held iv a rest R Room P) as [R' L'].
  split; [exact R' | lia].
Qed.

(** *** Entry lists *)
Lemma filter_perm {A} (f : A -> bool) l l' : l ≡ₚ l' -> List.filter f l ≡ₚ List.filter f l'.
Proof.
  induction 1 as [|x l l' P IH|x y l|]; simpl; [reflexivity| | |etransitivity; eauto].
  - destruct (f x); [now constructor | exact IH].
  - destruct (f x), (f y); try reflexivity. apply perm_swap.
Qed.

Lemma entries_on_perm r es es' : es ≡ₚ es' -> entries_on r es ≡ₚ entries_on r es'.
Proof. apply filter_perm. Qed.

Lemma holdings_of_perm k l l' : l ≡ₚ l' -> holdings_of k l ≡ₚ holdings_of k l'.
Proof. intros P. unfold holdings_of, holdings. apply Permutation_map, filter_perm, P. Qed.

Lemma holdings_perm l l' : l ≡ₚ l' -> holdings l ≡ₚ holdings l'.
Proof. apply Permutation_map. Qed.

Lemma entries_on_cons r e es :
  entries_on r (e :: es) = if on_resource r e then e :: entries_on r es else entries_on r es.
Proof. reflexivity. Qed.

Lemma on_resource_self e : on_resource (ie_resource e) e = true.
Proof. apply beq_refl. Qed.

Lemma on_resource_other r e : ie_resource e <> r -> on_resource r e = false.
Proof. intros N. apply bool_decide_eq_false. exact N. Qed.

Lemma length_filter_le {A} (f : A -> bool) l : (length (List.filter f l) <= length l)%nat.
Proof. induction l as [|a l IH]; simpl; [lia|]. destruct (f a); simpl; lia. Qed.

Lemma state_ok_perm n st l l' : l ≡ₚ l' -> state_ok n st l -> state_ok n st l'.
Proof.
  intros P [A B C D F G]. constructor; auto.
  - rewrite A. now apply Permutation_map.
  - exact (tracks_perm _ _ _ _ (holdings_of_perm _ _ _ P) C).
  - exact (tracks_perm _ _ _ _ (holdings_of_perm _ _ _ P) D).
  - exact (tracks_perm _ _ _ _ (holdings_perm _ _ P) F).
  - rewrite G, (Permutation_length P). reflexivity.
Qed.

Lemma state_ok_mono n m st l : n <= m -> state_ok n st l -> state_ok m st l.
Proof. intros L [A B C D F G]. constructor; eauto using tracks_mono. Qed.

Lemma new_state_ok n : 0 <= n -> state_ok n new_state [].
Proof.
  intros N. constructor; try reflexivity; try (apply tracks_new; exact N). constructor.
Qed.

Lemma resources_ok_perm n rs es es' : es ≡ₚ es' -> resources_ok n rs es -> resources_ok n rs es'.
Proof.
  intros P [S R]. split; [exact S|]. intros r. specialize (R r).
  pose proof (entries_on_perm r _ _ P) as Pr.
  destruct (om_find rs r); [exact (state_ok_perm _ _ _ _ Pr R)|].
  rewrite R in Pr. now apply Permutation_nil.
Qed.

(** The part of a resource is no fuller than the whole. *)
Lemma occupancy_filter_le f es p :
  (forall e, In e es -> entry_wf e) ->
  0 <= occupancy (holdings (List.filter f es)) p <= occupancy (holdings es) p.
Proof.
  induction es as [|e es IH]; simpl; intros W; [lia|].
  assert (0 < bps (ie_amount e)) by (apply W; auto).
  specialize (IH ltac:(auto)). unfold delta_at.
  destruct (f e); simpl; unfold delta_at; repeat case_if; lia.
Qed.

(** *** One resource *)
Lemma holdings_of_cons k e l :
  holdings_of k (e :: l) =
  if decide (ie_kind e = k) then (ie_interval e, ie_amount e) :: holdings_of k l else holdings_of k l.
Proof.
  unfold holdings_of, of_kind, beq. cbn [List.filter].
  destruct (decide (ie_kind e = k)) as [D|D]; [rewrite bool_decide_true | rewrite bool_decide_false];
    auto.
Qed.

Lemma length_holdings l : length (holdings l) = length l.
Proof. apply length_map. Qed.

Lemma length_holdings_of k l : (length (holdings_of k l) <= length l)%nat.
Proof. unfold holdings_of, holdings. rewrite length_map. apply length_filter_le. Qed.

Lemma kind_not_reservation k : k <> kReservation -> k = kHold.
Proof. destruct k; congruence. Qed.

Lemma state_insert_ok n st l e :
  0 <= n < 2 ^ 24 -> state_ok n st l -> entry_wf e -> (forall e', In e' l -> entry_wf e') ->
  Z.of_nat (length l) <= n ->
  (forall p, 0 <= p < kMaxTimestampNs -> occupancy (holdings (e :: l)) p <= kIndexSaturation) ->
  state_ok (n + 1) (state_insert st e) (e :: l).
Proof.
  intros Bn [A B C D F G] W Wl Ll O. pose proof W as (Ne & Pa & _).
  assert (forall e', In e' (e :: l) -> entry_wf e') as Wel by (intros e' [<-|I]; auto).
  assert (forall k, tracks n (if decide (k = kReservation) then ix_committed st else ix_holds st)
                      (holdings_of k l) ->
            ie_kind e = k ->
            tracks (n + 1) (ici_add (if decide (k = kReservation) then ix_committed st else ix_holds st)
                              (ie_interval e) (ie_amount e))
              ((ie_interval e, ie_amount e) :: holdings_of k l)) as Add.
  { intros k Tk Ek. apply tracks_add; auto; [pose proof (length_holdings_of k l); lia|].
    intros p R. specialize (O p R). pose proof (occupancy_filter_le (of_kind k) (e :: l) p Wel) as Fl.
    fold (holdings_of k (e :: l)) in Fl. rewrite holdings_of_cons in Fl.
    destruct (decide (ie_kind e = k)); [lia | contradiction]. }
  constructor; cbn [state_insert by_start ix_committed ix_holds ix_combined ix_entry_count].
  - rewrite mm_emplace_perm, A. reflexivity.
  - now apply mm_emplace_sorted.
  - rewrite holdings_of_cons. destruct (decide (ie_kind e = kReservation)) as [K|K].
    + exact (Add kReservation C K).
    + eapply tracks_mono; [|exact C]. lia.
  - rewrite holdings_of_cons. destruct (decide (ie_kind e = kReservation)) as [K|K].
    + destruct (decide (ie_kind e = kHold)); [congruence|]. eapply tracks_mono; [|exact D]. lia.
    + apply kind_not_reservation in K. destruct (decide (ie_kind e = kHold)); [|contradiction].
      exact (Add kHold D K).
  - apply (tracks_add n (ix_combined st) (holdings l)); try assumption.
    rewrite length_holdings. exact Ll.
  - rewrite G, to_u_id; [cbn [length]; lia|]. unfold u_ok. bool_goal; lia.
Qed.

Lemma state_remove_ok n st l e rest rest_l :
  0 <= n < 2 ^ 24 -> state_ok n st l -> l ≡ₚ e :: rest_l ->
  by_start st ≡ₚ (start (ie_interval e), e) :: rest -> mm_sorted rest ->
  state_ok (n + 1) (state_remove st (ie_kind e) e rest (Z.of_nat (length rest_l))) rest_l.
Proof.
  intros Bn Sl P Pb Ms. apply (state_ok_perm _ _ _ _ P) in Sl. destruct Sl as [A B C D F G].
  rewrite holdings_of_cons in C, D.
  constructor; cbn [state_remove by_start ix_committed ix_holds ix_combined ix_entry_count].
  - rewrite Pb in A. cbn [map] in A. now apply Permutation_cons_inv in A.
  - exact Ms.
  - destruct (decide (ie_kind e = kReservation)) as [K|K].
    + eapply tracks_remove; [exact Bn | exact C | reflexivity].
    + eapply tracks_mono; [|exact C]. lia.
  - destruct (decide (ie_kind e = kReservation)) as [K|K].
    + destruct (decide (ie_kind e = kHold)); [congruence|]. eapply tracks_mono; [|exact D]. lia.
    + apply kind_not_reservation in K. destruct (decide (ie_kind e = kHold)); [|contradiction].
      eapply tracks_remove; [exact Bn | exact D | reflexivity].
  - eapply tracks_remove; [exact Bn | exact F | reflexivity].
  - reflexivity.
Qed.

(** *** Insertion *)
Lemma om_mem_keys n x es k :
  index_ok n x es -> om_mem (entries_ x) k = true <-> In k (map identity_of es).
Proof.
  intros O. unfold om_mem. rewrite in_map_iff. destruct (om_find (entries_ x) k) as [s|] eqn:F.
  - apply (io_keys _ _ _ O) in F. destruct F as (e & I & Ei & _). split; [eauto | reflexivity].
  - split; [discriminate|]. intros (e & Ei & I). exfalso.
    assert (om_find (entries_ x) k = Some (start (ie_interval e))) as F'
      by (apply (io_keys _ _ _ O); eauto).
    congruence.
Qed.

Lemma resources_ok_state n rs es r :
  0 <= n -> resources_ok n rs es -> state_ok n (default new_state (om_find rs r)) (entries_on r es).
Proof.
  intros N [_ R]. specialize (R r). destruct (om_find rs r) as [st|]; [exact R|].
  rewrite R. now apply new_state_ok.
Qed.

Lemma resources_ok_set n m rs es es' r st :
  n <= m -> resources_ok n rs es -> state_ok m st (entries_on r es') ->
  (forall r', r' <> r -> entries_on r' es' = entries_on r' es) ->
  resources_ok m (om_set rs r st) es'.
Proof.
  intros L [S R] St Oth. split; [auto with brf|]. intros r'. rewrite om_find_set.
  destruct (keqb r r') eqn:D.
  - apply keqb_eq in D. subst. exact St.
  - apply keqb_neq in D. specialize (R r'). rewrite Oth by congruence.
    destruct (om_find rs r'); [eapply state_ok_mono; eauto | exact R].
Qed.

(** Insertion on every branch. *)
Lemma index_insert_spec n x es e :
  index_ok n x es -> n < 2 ^ 24 ->
  (forall p, 0 <= p < kMaxTimestampNs ->
     occupancy (holdings (e :: entries_on (ie_resource e) es)) p <= kIndexSaturation) ->
  match index_insert x e with
  | Ok x' => entry_wf e /\ ~ In (identity_of e) (map identity_of es) /\ index_ok (n + 1) x' (e :: es)
  | Err c => (entry_wf e -> c = kAlreadyExists /\ In (identity_of e) (map identity_of es)) /\
             (~ entry_wf e -> c = kInvalidInterval \/ c = kInvalidBandwidth \/ c = kInvalidName)
  end.
Proof.
  intros O Bn Occ. unfold index_insert, refuse.
  destruct (empty (ie_interval e)) eqn:Ne; cbn [rbind];
    [split; [intros (C & _); congruence | auto]|].
  destruct (Z.leb_spec (bps (ie_amount e)) 0); cbn [rbind];
    [split; [intros (_ & C & _); lia | auto]|].
  destruct (name_empty (ie_resource e)) eqn:Nn; cbn [rbind];
    [split; [intros (_ & _ & C); congruence | auto]|].
  destruct (om_mem (entries_ x) (identity_of e)) eqn:M; cbn [rbind].
  { apply (om_mem_keys _ _ _ _ O) in M. split; [auto|]. intros C. exfalso. apply C. repeat split; auto. }
  assert (entry_wf e) as We by (repeat split; auto).
  assert (~ In (identity_of e) (map identity_of es)) as Fr.
  { rewrite <- (om_mem_keys _ _ _ _ O). congruence. }
  split; [exact We|]. split; [exact Fr|]. destruct O as [W Id So Ks Re Li Co [Bn0 Bl]].
  assert (state_ok (n + 1) (state_insert (default new_state (state_for x (ie_resource e))) e)
            (e :: entries_on (ie_resource e) es)) as St.
  { apply state_insert_ok; auto; [lia|apply resources_ok_state; auto; lia| |].
    - intros e' I. apply filter_In in I. apply W, I.
    - pose proof (length_filter_le (on_resource (ie_resource e)) es). unfold entries_on. lia. }
  constructor; cbn [resources_ entries_ entry_count_].
  - intros e' [<-|I]; auto.
  - cbn [map]. constructor; [now rewrite list_elem_of_In | exact Id].
  - auto with brf.
  - intros k s. rewrite om_find_set. destruct (keqb (identity_of e) k) eqn:D.
    + apply keqb_eq in D. subst k. split; [intros [= <-]; exists e; simpl; auto|].
      intros (e' & [<-|I] & Ei & <-); [reflexivity|]. exfalso. apply Fr. rewrite <- Ei.
      now apply in_map.
    + apply keqb_neq in D. rewrite Ks. split; intros (e' & I & Ei & Es).
      * exists e'. simpl. auto.
      * destruct I as [<-|I]; [congruence|]. exists e'. auto.
  - eapply resources_ok_set; [|exact Re| |]; [lia| |].
    + rewrite entries_on_cons, on_resource_self. exact St.
    + intros r' N. rewrite entries_on_cons, on_resource_other by congruence. reflexivity.
  - intros r st. rewrite om_find_set. destruct (keqb (ie_resource e) r) eqn:D.
    + apply keqb_eq in D. subst r. intros _. rewrite entries_on_cons, on_resource_self. discriminate.
    + intros F. apply keqb_neq in D. rewrite entries_on_cons, on_resource_other by congruence.
      exact (Li _ _ F).
  - rewrite Co, to_u_id; [cbn [length]; lia|]. unfold u_ok. bool_goal; lia.
  - cbn [length]. lia.
Qed.

(** *** Removal *)
Lemma NoDup_map_inj {A B} (f : A -> B) l a b :
  NoDup (map f l) -> In a l -> In b l -> f a = f b -> a = b.
Proof.
  induction l as [|c l IH]; intros N Ia Ib E; [contradiction|].
  cbn [map] in N. apply NoDup_cons in N. destruct N as [Nc Nl]. rewrite list_elem_of_In in Nc.
  destruct Ia as [->|Ia], Ib as [->|Ib]; auto; exfalso; apply Nc.
  - rewrite E. now apply in_map.
  - rewrite <- E. now apply in_map.
Qed.

Lemma In_split_perm {A} (a : A) l : In a l -> exists l', l ≡ₚ a :: l'.
Proof.
  intros I. apply in_split in I. destruct I as (u & v & ->). exists (u ++ v).
  symmetry. apply Permutation_middle.
Qed.

Lemma same_holder_true kind id e : same_holder kind id e = true <-> ie_kind e = kind /\ ie_id e = id.
Proof. unfold same_holder. rewrite andb_true_iff, !beq_eq. reflexivity. Qed.

Lemma identity_of_eq e kind id r :
  identity_of e = (kind, (id, r)) <-> same_holder kind id e = true /\ ie_resource e = r.
Proof. rewrite same_holder_true. unfold identity_of. split; [intros [= -> -> ->]; auto | intros [[-> ->] ->]; reflexivity]. Qed.

(** Taking one entry out of the structures of its resource. *)
Lemma resources_take n rs es e es' P :
  0 <= n < 2 ^ 24 -> resources_ok n rs es -> es ≡ₚ e :: es' -> P e = true ->
  (forall e', In e' es -> ie_resource e' = ie_resource e -> P e' = true -> e' = e) ->
  exists st rest, om_find rs (ie_resource e) = Some st /\
    mm_take (by_start st) (start (ie_interval e)) P = Some (e, rest) /\
    ix_entry_count st = Z.of_nat (length (entries_on (ie_resource e) es')) + 1 /\
    resources_ok (n + 1)
      (om_set rs (ie_resource e)
         (state_remove st (ie_kind e) e rest (Z.of_nat (length (entries_on (ie_resource e) es'))))) es'.
Proof.
  intros Bn R Pe Pt Un. pose proof R as [_ Rr]. specialize (Rr (ie_resource e)).
  pose proof (entries_on_perm (ie_resource e) _ _ Pe) as Pr.
  rewrite entries_on_cons, on_resource_self in Pr.
  destruct (om_find rs (ie_resource e)) as [st|].
  2:{ rewrite Rr in Pr. apply Permutation_nil in Pr. discriminate. }
  assert (In (start (ie_interval e), e) (by_start st)) as I.
  { rewrite (so_by_start _ _ _ Rr). apply in_map_iff. exists e. split; [reflexivity|].
    rewrite Pr. left. reflexivity. }
  destruct (mm_take_some _ _ _ _ I Pt) as (w & rest & T).
  destruct (mm_take_perm _ _ _ _ _ T) as [Pb Pw].
  assert (w = e) as ->.
  { assert (In (start (ie_interval e), w) (by_start st)) as Iw by (rewrite Pb; left; reflexivity).
    rewrite (so_by_start _ _ _ Rr), in_map_iff in Iw. destruct Iw as (w' & [= _ ->] & Iw).
    apply filter_In in Iw. destruct Iw as [Iw Ow]. apply beq_true in Ow. auto. }
  exists st, rest. split; [reflexivity|]. split; [exact T|].
  split; [rewrite (so_count _ _ _ Rr), (Permutation_length Pr); cbn [length]; lia|].
  eapply resources_ok_set; [|exact (resources_ok_perm _ _ _ _ Pe R)| |]; [lia| |].
  - eapply state_remove_ok; [exact Bn | exact Rr | exact Pr | exact Pb|].
    eapply mm_take_sorted; [apply (so_sorted _ _ _ Rr) | exact T].
  - intros r' N. rewrite entries_on_cons, on_resource_other by congruence. reflexivity.
Qed.

(** A resource with no entry left may be dropped. *)
Lemma resources_ok_drop n rs es r :
  resources_ok n rs es -> entries_on r es = [] -> resources_ok n (om_erase rs r) es.
Proof.
  intros [S R] N. split; [auto with brf|]. intros r'. rewrite om_find_erase.
  destruct (keqb r r') eqn:D; [apply keqb_eq in D; subst; exact N | apply R].
Qed.

Lemma index_ok_perm n x es es' : es ≡ₚ es' -> index_ok n x es -> index_ok n x es'.
Proof.
  intros P [W Id So Ks Re Li Co Bu]. constructor; auto.
  - intros e I. apply W. rewrite P. exact I.
  - rewrite <- P. exact Id.
  - intros k s. rewrite Ks. split; intros (e & I & H); exists e; [rewrite <- P | rewrite P]; auto.
  - exact (resources_ok_perm _ _ _ _ P Re).
  - intros r st F N. apply (Li r st F). pose proof (entries_on_perm r _ _ P) as Pr.
    rewrite N in Pr. apply Permutation_nil. now symmetry.
  - rewrite Co, (Permutation_length P). reflexivity.
  - rewrite <- (Permutation_length P). exact Bu.
Qed.

Lemma index_ok_mono n m x es : n <= m <= 2 ^ 24 -> index_ok n x es -> index_ok m x es.
Proof.
  intros L [W Id So Ks [Rs Re] Li Co Bu]. constructor; auto; [|lia].
  split; [exact Rs|]. intros r. specialize (Re r).
  destruct (om_find (resources_ x) r); [eapply state_ok_mono; [|exact Re]; lia | exact Re].
Qed.

Lemma resources_ok_erase_set n rs es r st :
  om_sorted rs -> resources_ok n (om_set rs r st) es -> entries_on r es = [] ->
  resources_ok n (om_erase rs r) es.
Proof.
  intros S [_ R] N. split; [auto with brf|]. intros r'. specialize (R r').
  rewrite om_find_erase. rewrite om_find_set in R. destruct (keqb r r') eqn:D; [|exact R].
  apply keqb_eq in D. subst. exact N.
Qed.

(** The bookkeeping after one entry has left. *)
Lemma index_ok_removed n x e es' rs :
  index_ok n x (e :: es') -> n < 2 ^ 24 -> resources_ok (n + 1) rs es' ->
  (forall r st, om_find rs r = Some st -> entries_on r es' <> []) ->
  index_ok (n + 1)
    (mkCapacityIndex rs (om_erase (entries_ x) (identity_of e)) (pred_count (entry_count_ x))) es'.
Proof.
  intros [W Id So Ks Re Li Co [Bn0 Bl]] Bn R Lv.
  cbn [map] in Id. apply NoDup_cons in Id. destruct Id as [Ni Id]. rewrite list_elem_of_In in Ni.
  constructor; cbn [resources_ entries_ entry_count_]; auto with brf.
  - intros e' I'. apply W. right. exact I'.
  - intros k0 s. rewrite om_find_erase. destruct (keqb (identity_of e) k0) eqn:D.
    + apply keqb_eq in D. subst k0. split; [discriminate|]. intros (e' & I' & Ei0 & _).
      exfalso. apply Ni. rewrite <- Ei0. now apply in_map.
    + apply keqb_neq in D. rewrite Ks. split; intros (e' & I' & Ei0 & Es0).
      * destruct I' as [<-|I']; [congruence|]. exists e'. auto.
      * exists e'. simpl. auto.
  - rewrite Co. unfold pred_count. cbn [length]. rewrite Z.gtb_ltb.
    destruct (Z.ltb_spec 0 (Z.of_nat (S (length es')))); lia.
  - cbn [length] in Bl. lia.
Qed.

(** [erase] of an entry the index has. *)
Lemma index_erase_found n x e es' kind id resource :
  index_ok n x (e :: es') -> n < 2 ^ 24 -> identity_of e = (kind, (id, resource)) ->
  exists x', index_erase x kind id (holder_generation e) resource = Ok x' /\ index_ok (n + 1) x' es'.
Proof.
  intros O Bn Ei. pose proof Ei as Ei'. apply identity_of_eq in Ei'. destruct Ei' as [Hh Er].
  unfold index_erase. assert (om_find (entries_ x) (kind, (id, resource)) = Some (start (ie_interval e))) as ->.
  { apply (io_keys _ _ _ O). exists e. simpl. auto. }
  set (P := fun e' => beq (ie_id e') id && (holder_generation e' =? holder_generation e) &&
                      beq (ie_kind e') kind).
  apply same_holder_true in Hh. destruct Hh as [Hk Hi].
  destruct (resources_take n (resources_ x) (e :: es') e es' P) as (st & rest & Fs & T & C & R');
    [destruct O; lia | apply O | reflexivity | | |].
  { unfold P. rewrite Hk, Hi, !beq_refl, Z.eqb_refl. reflexivity. }
  { intros e' I' Er' Pt. apply (NoDup_map_inj identity_of (e :: es')); auto; [apply O | left; reflexivity|].
    rewrite Ei. apply identity_of_eq. unfold P in Pt. rewrite !andb_true_iff, !beq_eq in Pt.
    rewrite same_holder_true. split; [tauto | congruence]. }
  unfold state_for. rewrite <- Er, Fs, T. cbv zeta. eexists. split; [reflexivity|].
  set (k := Z.of_nat (length (entries_on (ie_resource e) es'))) in *.
  assert (to_u 64 (ix_entry_count st - 1) = k) as ->.
  { rewrite C, to_u_id; [lia|]. unfold u_ok. destruct O as [_ _ _ _ _ _ _ [_ Bl]]. cbn [length] in Bl.
    pose proof (length_filter_le (on_resource (ie_resource e)) es'). unfold entries_on in k.
    bool_goal; subst k; lia. }
  rewrite Er, <- Ei, <- Hk. apply index_ok_removed; [exact O | exact Bn | |]; rewrite <- Er;
    cbn [state_remove ix_entry_count].
  - destruct (Z.eqb_spec k 0) as [K0|]; [|exact R'].
    eapply resources_ok_erase_set; [apply O | exact R'|]. unfold k in K0.
    destruct (entries_on _ _); [reflexivity | discriminate].
  - intros r st' F N. destruct (Z.eqb_spec k 0) as [K0|K0]; rewrite ?om_find_erase, ?om_find_set in F;
      destruct (keqb (ie_resource e) r) eqn:D; try discriminate.
    + apply keqb_neq in D. apply (io_live _ _ _ O r st' F). rewrite entries_on_cons, on_resource_other; auto.
    + apply keqb_eq in D. subst r. unfold k in K0. rewrite N in K0. apply K0. reflexivity.
    + apply keqb_neq in D. apply (io_live _ _ _ O r st' F). rewrite entries_on_cons, on_resource_other; auto.
Qed.

(** [erase] on every branch. *)
Lemma index_erase_spec n x es kind id generation resource :
  index_ok n x es -> n < 2 ^ 24 ->
  match index_erase x kind id generation resource with
  | Ok x' => exists e es', es ≡ₚ e :: es' /\ identity_of e = (kind, (id, resource)) /\
                           holder_generation e = generation /\ index_ok (n + 1) x' es'
  | Err c => (c = kNotFound /\ ~ In (kind, (id, resource)) (map identity_of es)) \/
             (c = kInternal /\ exists e, In e es /\ identity_of e = (kind, (id, resource)) /\
                                         holder_generation e <> generation)
  end.
Proof.
  intros O Bn. destruct (om_find (entries_ x) (kind, (id, resource))) as [s|] eqn:F.
  2:{ unfold index_erase. rewrite F. left. split; [reflexivity|].
      rewrite <- (om_mem_keys _ _ _ _ O). unfold om_mem. rewrite F. discriminate. }
  pose proof F as F0. apply (io_keys _ _ _ O) in F0. destruct F0 as (e & I & Ei & Es). subst s.
  destruct (In_split_perm e es I) as [es' Pe].
  destruct (Z.eq_dec (holder_generation e) generation) as [<-|G].
  - destruct (index_erase_found n x e es' kind id resource) as (x' & -> & O'); auto;
      [exact (index_ok_perm _ _ _ _ Pe O)|]. exists e, es'. auto.
  - unfold index_erase. rewrite F. unfold state_for.
    assert (forall c : ErrorCode, c = kInternal ->
      (c = kNotFound /\ ~ In (kind, (id, resource)) (map identity_of es)) \/
      (c = kInternal /\ exists e, In e es /\ identity_of e = (kind, (id, resource)) /\
                                  holder_generation e <> generation)) as K by eauto 10.
    destruct (om_find (resources_ x) resource) as [st|] eqn:Fr; [|auto].
    destruct (mm_take _ _ _) as [[w rest]|] eqn:T; [exfalso|auto].
    apply mm_take_perm in T. destruct T as [Pb Pw].
    rewrite !andb_true_iff, !beq_eq, Z.eqb_eq in Pw. destruct Pw as [[Hi Hg] Hk].
    pose proof (io_resources _ _ _ O) as [_ R]. specialize (R resource). rewrite Fr in R.
    assert (In (start (ie_interval e), w) (by_start st)) as Iw by (rewrite Pb; left; reflexivity).
    rewrite (so_by_start _ _ _ R), in_map_iff in Iw. destruct Iw as (w' & [= _ ->] & Iw).
    apply filter_In in Iw. destruct Iw as [Iw Ow]. apply beq_true in Ow.
    assert (w = e); [|congruence]. apply (NoDup_map_inj identity_of es); auto; [apply O|].
    rewrite Ei. apply identity_of_eq. rewrite same_holder_true. auto.
Qed.

(** *** [erase_all] *)
Definition matching_keys (kind : HolderKind) (id : Identity128)
    (keys : list (EntryIdentity * Timestamp)) : list EntryIdentity :=
  map fst (List.filter (fun p => negb (other_holder kind id p)) keys).

(** What the first loop leaves: the holder's entries are [gone], in the order of
    their keys. *)
Record erased (kind : HolderKind) (id : Identity128) (n : Z) (es : list IndexEntry)
    (rs : omap ResourceName ResourceState) (touched : list ResourceName) (removed : Z)
    (keys : list (EntryIdentity * Timestamp))
    (rs' : omap ResourceName ResourceState) (touched' : list ResourceName) (removed' : Z)
    (gone left_ : list IndexEntry) : Prop := {
  er_perm : es ≡ₚ gone ++ left_;
  er_keys : map identity_of gone = matching_keys kind id keys;
  er_touched : touched' = touched ++ map ie_resource gone;
  er_removed : removed' = removed + Z.of_nat (length gone);
  er_resources : resources_ok (n + Z.of_nat (length gone)) rs' left_;
  er_frame : forall r, ~ In r (map ie_resource gone) -> om_find rs' r = om_find rs r
}.

Lemma erase_keys_spec kind id keys n rs es touched removed :
  0 <= n -> n + Z.of_nat (length es) <= 2 ^ 24 ->
  resources_ok n rs es -> NoDup (map identity_of es) -> NoDup (map fst keys) ->
  (forall k s, In (k, s) keys -> other_holder kind id (k, s) = false ->
     exists e, In e es /\ identity_of e = k /\ start (ie_interval e) = s) ->
  let '(rs', touched', removed') := erase_keys keys kind id rs touched removed in
  exists gone left_, erased kind id n es rs touched removed keys rs' touched' removed' gone left_.
Proof.
  revert n rs es touched removed.
  induction keys as [|[[k [i r]] s] keys IH]; intros n rs es touched removed N0 B R Id Nk Ks;
    cbn [erase_keys].
  { exists [], es. constructor; cbn [length map app]; rewrite ?app_nil_r, ?Z.add_0_r; auto. }
  cbn [map fst] in Nk. apply NoDup_cons in Nk. destruct Nk as [Nk Nks]. rewrite list_elem_of_In in Nk.
  change (negb (beq k kind) || negb (beq i id)) with (other_holder kind id ((k, (i, r)), s)).
  destruct (other_holder kind id (k, (i, r), s)) eqn:Oh.
  - specialize (IH n rs es touched removed N0 B R Id Nks ltac:(intros; eapply Ks; [right|]; eauto)).
    destruct (erase_keys keys kind id rs touched removed) as [[rs' t'] m'].
    destruct IH as (gone & left_ & [A1 A2 A3 A4 A5 A6]). exists gone, left_. constructor; auto.
    unfold matching_keys. cbn [List.filter]. rewrite Oh. exact A2.
  - destruct (Ks _ _ (or_introl eq_refl) Oh) as (e & Ie & Ei & <-).
    apply identity_of_eq in Ei. destruct Ei as [Hh Er].
    assert (same_holder kind id e = true) as Hs.
    { apply same_holder_true in Hh. unfold other_holder in Oh. cbn [fst snd] in Oh.
      apply orb_false_iff in Oh. rewrite !negb_false_iff, !beq_eq in Oh.
      apply same_holder_true. destruct Hh, Oh. split; congruence. }
    assert (identity_of e = (k, (i, r))) as Ei by (apply identity_of_eq; auto).
    destruct (In_split_perm e es Ie) as [es1 Pe].
    pose proof (Permutation_length Pe) as Ln. cbn [length] in Ln.
    destruct (resources_take n rs es e es1 (same_holder kind id)) as (st & rest & Fs & T & C & R');
      auto; [lia | |].
    { intros e' I' Er' Ph. apply (NoDup_map_inj identity_of es); auto.
      apply same_holder_true in Ph. apply same_holder_true in Hs. unfold identity_of.
      destruct Ph, Hs. congruence. }
    rewrite Er in Fs. rewrite Fs, T. cbv zeta.
    assert (pred_count (ix_entry_count st) = Z.of_nat (length (entries_on (ie_resource e) es1))) as ->.
    { rewrite C. unfold pred_count. rewrite Z.gtb_ltb.
      destruct (Z.ltb_spec 0 (Z.of_nat (length (entries_on (ie_resource e) es1)) + 1)); lia. }
    apply same_holder_true in Hs. destruct Hs as [Hk Hi]. rewrite Hk, Er in R'.
    assert (NoDup (map identity_of (e :: es1))) as Id1 by (rewrite <- Pe; exact Id).
    cbn [map] in Id1. apply NoDup_cons in Id1. destruct Id1 as [Ni Id1]. rewrite list_elem_of_In in Ni.
    rewrite Er.
    set (rs1 := om_set rs r (state_remove st kind e rest _)) in *.
    assert (forall k' s', In (k', s') keys -> other_holder kind id (k', s') = false ->
              exists e', In e' es1 /\ identity_of e' = k' /\ start (ie_interval e') = s') as Ks1.
    { intros k' s' I' O'. destruct (Ks k' s' (or_intror I') O') as (e' & Ie' & Ei' & Es').
      rewrite Pe in Ie'. destruct Ie' as [<-|Ie']; [|eauto]. exfalso. apply Nk.
      rewrite <- Ei, Ei'. apply in_map_iff. exists (k', s'). auto. }
    specialize (IH (n + 1) rs1 es1 (touched ++ [r]) (removed + 1) ltac:(lia) ltac:(lia) R' Id1 Nks Ks1).
    destruct (erase_keys keys kind id rs1 (touched ++ [r]) (removed + 1)) as [[rs' t'] m'].
    destruct IH as (gone & left_ & [A1 A2 A3 A4 A5 A6]). exists (e :: gone), left_. constructor.
    + rewrite Pe, A1. reflexivity.
    + unfold matching_keys. cbn [List.filter]. rewrite Oh. cbn [negb map fst]. rewrite Ei. f_equal. exact A2.
    + rewrite A3, <- app_assoc. cbn [map app]. rewrite Er. reflexivity.
    + rewrite A4. cbn [length]. lia.
    + cbn [length]. replace (n + Z.of_nat (S (length gone))) with (n + 1 + Z.of_nat (length gone)) by lia.
      exact A5.
    + intros r' Nr. cbn [map In] in Nr. rewrite A6 by tauto. apply om_find_set_ne. rewrite <- Er. tauto.
Qed.

(** The sweep finds nothing to repair. *)
Lemma sweep_state_none walk kept kind id st removed :
  (forall p, In p walk -> same_holder kind id p.2 = false) ->
  sweep_state walk kept kind id st removed = (st, removed).
Proof.
  revert kept. induction walk as [|[t e] walk IH]; intros kept N; cbn [sweep_state]; [reflexivity|].
  pose proof (N (t, e) (or_introl eq_refl)) as Ne. cbn [snd] in Ne. rewrite Ne.
  apply IH. intros p I. apply N. right. exact I.
Qed.

Lemma sweep_none touched kind id n rs es removed :
  resources_ok n rs es -> (forall e, In e es -> same_holder kind id e = false) ->
  let '(rs', removed') := sweep touched kind id rs removed in
  removed' = removed /\ om_sorted rs' /\ forall r, om_find rs' r = om_find rs r.
Proof.
  intros R N. revert rs R. induction touched as [|r touched IH]; intros rs R; cbn [sweep].
  { split; [reflexivity | split; [apply R | reflexivity]]. }
  destruct (om_find rs r) as [st|] eqn:F; [|apply IH; exact R].
  pose proof R as [S Rr]. specialize (Rr r). rewrite F in Rr. rewrite sweep_state_none.
  - assert (forall r', om_find (om_set rs r st) r' = om_find rs r') as Same.
    { intros r'. rewrite om_find_set. destruct (keqb r r') eqn:D; [|reflexivity].
      apply keqb_eq in D. subst. auto. }
    specialize (IH (om_set rs r st)). destruct (sweep touched kind id _ removed) as [rs' m'].
    destruct IH as (E1 & E2 & E3).
    { split; [auto with brf|]. intros r'. rewrite Same. apply R. }
    split; [exact E1|]. split; [exact E2|]. intros r'. rewrite E3. apply Same.
  - intros p I. rewrite (so_by_start _ _ _ Rr), in_map_iff in I. destruct I as (e & <- & I).
    apply N. apply filter_In in I. apply I.
Qed.

Lemma resources_ok_ext n rs rs' es :
  om_sorted rs' -> (forall r, om_find rs' r = om_find rs r) ->
  resources_ok n rs es -> resources_ok n rs' es.
Proof. intros S E [_ R]. split; [exact S|]. intros r. rewrite E. apply R. Qed.

(** Dropping the resources that have become empty. *)
Lemma drop_empty_spec touched n rs es :
  resources_ok n rs es ->
  resources_ok n (fold_left drop_empty touched rs) es /\
  (forall r st, om_find (fold_left drop_empty touched rs) r = Some st ->
     om_find rs r = Some st /\ (In r touched -> entries_on r es <> [])).
Proof.
  revert rs. induction touched as [|t touched IH]; intros rs R; cbn [fold_left].
  { split; [exact R|]. intros r st F. split; [exact F | contradiction]. }
  assert (resources_ok n (drop_empty rs t) es /\
          forall r st, om_find (drop_empty rs t) r = Some st ->
            om_find rs r = Some st /\ (r = t -> entries_on r es <> [])) as [R1 D1].
  { unfold drop_empty. pose proof R as [S Rr]. pose proof (Rr t) as Rt.
    destruct (om_find rs t) as [st0|] eqn:F.
    - pose proof (so_count _ _ _ Rt) as C. destruct (Z.eqb_spec (ix_entry_count st0) 0) as [Z0|Z0].
      + assert (entries_on t es = []) as Em.
        { destruct (entries_on t es); [reflexivity | cbn [length] in C; lia]. }
        split; [now apply resources_ok_drop|]. intros r st Fr. rewrite om_find_erase in Fr.
        destruct (keqb t r) eqn:D; [discriminate|]. apply keqb_neq in D. split; [exact Fr | congruence].
      + split; [exact R|]. intros r st Fr. split; [exact Fr|]. intros -> Em. rewrite Em in C.
        apply Z0. exact C.
    - split; [exact R|]. intros r st Fr. split; [exact Fr | congruence]. }
  destruct (IH _ R1) as [R2 D2]. split; [exact R2|]. intros r st F. destruct (D2 r st F) as [F1 N1].
  destruct (D1 r st F1) as [F0 N0]. split; [exact F0|]. intros [<-|I]; auto.
Qed.

Lemma index_keys_entries n x es kind id k s :
  index_ok n x es -> In (k, s) (entries_ x) -> other_holder kind id (k, s) = false ->
  exists e, In e es /\ identity_of e = k /\ start (ie_interval e) = s.
Proof.
  intros O I _. apply (io_keys _ _ _ O). apply om_In_find; [apply O | exact I].
Qed.

(** The entries of other holders are exactly the ones left. *)
Lemma erased_left kind id n x es rs' touched' removed' gone left_ :
  index_ok n x es ->
  erased kind id n es (resources_ x) [] 0 (entries_ x) rs' touched' removed' gone left_ ->
  (forall e, In e gone -> same_holder kind id e = true) /\
  (forall e, In e left_ -> same_holder kind id e = false).
Proof.
  intros O [P K _ _ _ _]. split.
  - intros e I. assert (In (identity_of e) (matching_keys kind id (entries_ x))) as M
      by (rewrite <- K; now apply in_map).
    unfold matching_keys in M. apply in_map_iff in M. destruct M as ([[k [i r]] s] & E & M).
    apply filter_In in M. destruct M as [_ M]. unfold other_holder in M. cbn [fst snd] in *.
    rewrite negb_true_iff, orb_false_iff, !negb_false_iff, !beq_eq in M. destruct M as [-> ->].
    symmetry in E. apply identity_of_eq in E. apply E.
  - intros e I. apply not_true_iff_false. intros H. apply same_holder_true in H. destruct H as [Hk Hi].
    assert (In e es) as Ies by (rewrite P; apply in_app_iff; auto).
    assert (om_find (entries_ x) (identity_of e) = Some (start (ie_interval e))) as F
      by (apply (io_keys _ _ _ O); eauto).
    apply om_find_In in F.
    assert (In (identity_of e) (map identity_of gone)) as G.
    { rewrite K. unfold matching_keys. apply in_map_iff. eexists. split; [|apply filter_In; split; [exact F|]].
      - reflexivity.
      - unfold other_holder, identity_of. cbn [fst snd]. rewrite Hk, Hi, !beq_refl. reflexivity. }
    pose proof (io_identity _ _ _ O) as Nd. rewrite P, map_app in Nd. apply NoDup_app in Nd.
    destruct Nd as (_ & Dj & _). apply (Dj (identity_of e)); apply list_elem_of_In; [exact G | now apply in_map].
Qed.

Lemma erase_all_keys n x es kind id gone left_ :
  index_ok n x es -> es ≡ₚ gone ++ left_ ->
  (forall e, In e gone -> same_holder kind id e = true) ->
  (forall e, In e left_ -> same_holder kind id e = false) ->
  forall k s, om_find (List.filter (other_holder kind id) (entries_ x)) k = Some s <->
              exists e, In e left_ /\ identity_of e = k /\ start (ie_interval e) = s.
Proof.
  intros O P G L k s.
  set (f := fun k : EntryIdentity => negb (beq k.1 kind) || negb (beq k.2.1 id)).
  change (List.filter (other_holder kind id) (entries_ x))
    with (List.filter (fun p => f p.1) (entries_ x)).
  rewrite (om_find_filter f).
  assert (forall e, f (identity_of e) = negb (same_holder kind id e)) as Id.
  { intros e. unfold f, same_holder, identity_of. cbn [fst snd]. rewrite negb_andb. reflexivity. }
  split.
  - destruct (f k) eqn:C; [|discriminate]. intros F.
    apply (io_keys _ _ _ O) in F. destruct F as (e & I & <- & Es). exists e.
    rewrite Id, negb_true_iff in C. rewrite P, in_app_iff in I. destruct I as [I|I]; [|auto].
    rewrite (G _ I) in C. discriminate.
  - intros (e & I & <- & Es). rewrite Id, (L _ I). cbn [negb]. apply (io_keys _ _ _ O). exists e.
    rewrite P, in_app_iff. auto.
Qed.

(** [erase_all] on every branch: exactly the holder's entries leave. *)
Lemma index_erase_all_tight n x es kind id generation :
  index_ok n x es -> n + Z.of_nat (length es) <= 2 ^ 24 ->
  let left_ := List.filter (fun e => negb (same_holder kind id e)) es in
  let '(r, x') := index_erase_all x kind id generation in
  r = (if existsb (same_holder kind id) es then Ok tt else Err kNotFound) /\
  index_ok (n + (Z.of_nat (length es) - Z.of_nat (length left_))) x' left_.
Proof.
  intros O B left_. pose proof (io_budget _ _ _ O) as [[N0 _] _]. unfold index_erase_all.
  pose proof (erase_keys_spec kind id (entries_ x) n (resources_ x) es [] 0 N0 B (io_resources _ _ _ O)
    (io_identity _ _ _ O) (om_sorted_NoDup _ (io_sorted _ _ _ O))
    (fun k s => index_keys_entries n x es kind id k s O)) as Er.
  destruct (erase_keys (entries_ x) kind id (resources_ x) [] 0) as [[rs touched] removed].
  destruct Er as (gone & lf & Er). destruct (erased_left _ _ _ _ _ _ _ _ _ _ O Er) as [Hg Hl].
  destruct Er as [P K T Rm R Fr]. rewrite !Z.add_0_l in *. cbn [app] in T.
  pose proof (sweep_none touched kind id _ rs lf removed R Hl) as Sw.
  destruct (sweep touched kind id rs removed) as [rs2 removed2]. destruct Sw as (-> & S2 & E2).
  pose proof (resources_ok_ext _ _ _ _ S2 E2 R) as R2.
  pose proof (erase_all_keys n x es kind id gone lf O P Hg Hl) as Ks.
  assert (lf ≡ₚ left_) as Pl.
  { subst left_. rewrite (filter_perm _ _ _ P), List.filter_app.
    assert (forall b l, (forall e, In e l -> same_holder kind id e = b) ->
              List.filter (fun e => negb (same_holder kind id e)) l = if b then [] else l) as Fl.
    { intros b l. induction l as [|e l IH]; intros H; [destruct b; reflexivity|]. cbn [List.filter].
      rewrite (H e (or_introl eq_refl)), IH by (intros e' I'; apply H; right; exact I').
      destruct b; reflexivity. }
    rewrite (Fl true gone Hg), (Fl false lf Hl). reflexivity. }
  assert (existsb (same_holder kind id) es = negb (Z.of_nat (length gone) =? 0)) as Ex.
  { apply eq_true_iff_eq. rewrite existsb_exists, negb_true_iff, Z.eqb_neq. split.
    - intros (e & I & H). rewrite P, in_app_iff in I. destruct I as [I|I]; [destruct gone; [contradiction | cbn [length]; lia]|].
      rewrite (Hl _ I) in H. discriminate.
    - intros Nz. destruct gone as [|e gone]; [contradiction|]. exists e. split; [rewrite P; left; reflexivity|].
      apply Hg. left. reflexivity. }
  pose proof (Permutation_length P) as Ln. rewrite length_app in Ln.
  assert (forall rs3 c, resources_ok (n + Z.of_nat (length gone)) rs3 lf ->
            (forall r st, om_find rs3 r = Some st -> entries_on r lf <> []) -> c = Z.of_nat (length lf) ->
            index_ok (n + (Z.of_nat (length es) - Z.of_nat (length left_)))
              (mkCapacityIndex rs3 (List.filter (other_holder kind id) (entries_ x)) c) left_) as Fin.
  { intros rs3 c R3 L3 C3. apply (index_ok_perm _ _ _ _ Pl).
    pose proof (io_budget _ _ _ O) as [_ Bl].
    replace (Z.of_nat (length es) - Z.of_nat (length left_)) with (Z.of_nat (length gone))
      by (rewrite <- (Permutation_length Pl); lia).
    constructor; cbn [resources_ entries_ entry_count_]; auto; try lia.
    - intros e I. apply (io_wf _ _ _ O). rewrite P, in_app_iff. auto.
    - pose proof (io_identity _ _ _ O) as Nd. rewrite P, map_app in Nd. apply NoDup_app in Nd. apply Nd.
    - apply om_filter_sorted. apply O. }
  subst removed touched. rewrite Ex. destruct (Z.eqb_spec (Z.of_nat (length gone)) 0) as [Z0|Z0]; cbn [negb].
  - split; [reflexivity|]. destruct gone; [|discriminate]. apply Fin; [exact R2| |rewrite (io_count _ _ _ O); cbn [length] in *; lia].
    intros r st F. rewrite E2, Fr in F by (intros []). pose proof (io_live _ _ _ O r st F) as Lv.
    intros N. apply Lv. pose proof (entries_on_perm r _ _ P) as Pr. cbn [app] in Pr. rewrite N in Pr.
    apply Permutation_nil. now symmetry.
  - split; [reflexivity|].
    destruct (drop_empty_spec (unique_by keqb (sort_keys (map ie_resource gone))) _ _ _ R2) as [R3 D3].
    apply Fin; [exact R3| |].
    + intros r st F. destruct (D3 r st F) as [F2 N3]. rewrite E2 in F2.
      destruct (in_dec (decide_rel (=)) r (map ie_resource gone)) as [I|I].
      * apply N3. rewrite unique_by_In by (intros a b; apply keqb_eq).
        unfold sort_keys. rewrite sort_In. exact I.
      * rewrite Fr in F2 by exact I. intros N. apply (io_live _ _ _ O r st F2).
        pose proof (entries_on_perm r _ _ P) as Pr. unfold entries_on in Pr at 2. rewrite List.filter_app in Pr.
        fold (entries_on r lf) in Pr. rewrite N, app_nil_r in Pr.
        assert (List.filter (on_resource r) gone = []) as Gn.
        { clear - I. induction gone as [|e g IH]; [reflexivity|]. cbn [map In List.filter] in *.
          rewrite on_resource_other by tauto. apply IH. tauto. }
        rewrite Gn in Pr. apply Permutation_nil. now symmetry.
    + rewrite Z.gtb_ltb, (io_count _ _ _ O). destruct (Z.ltb_spec (Z.of_nat (length es)) (Z.of_nat (length gone))); lia.
Qed.

Lemma index_erase_all_spec n x es kind id generation :
  index_ok n x es -> n + Z.of_nat (length es) <= 2 ^ 24 ->
  let left_ := List.filter (fun e => negb (same_holder kind id e)) es in
  let '(r, x') := index_erase_all x kind id generation in
  r = (if existsb (same_holder kind id) es then Ok tt else Err kNotFound) /\
  index_ok (n + Z.of_nat (length es)) x' left_.
Proof.
  intros O B left_. pose proof (index_erase_all_tight n x es kind id generation O B) as S. cbv zeta in S.
  destruct (index_erase_all x kind id generation) as [r x']. destruct S as [E O']. split; [exact E|].
  pose proof (io_budget _ _ _ O'). eapply index_ok_mono; [|exact O']. subst left_. lia.
Qed.

(** ** Queries *)
Lemma index_peak_exact n x es r w held (get : ResourceState -> IntervalCapacityIndex)
    (part : list IndexEntry -> list holding) :
  index_ok n x es -> part [] = [] ->
  (forall st l, state_ok n st l -> tracks n (get st) (part l)) -> held = part (entries_on r es) ->
  empty w = false -> 0 <= ns (start w) -> ns (end_ w) <= kMaxTimestampNs ->
  is_max (occupancy held) (ns (start w)) (ns (end_ w))
    (bps (match state_for x r with
          | None => mkBandwidth 0
          | Some st => ici_peak (get st) w
          end)).
Proof.
  intros O Pn Get -> Ne Ws We. pose proof (io_resources _ _ _ O) as [_ R]. specialize (R r).
  unfold state_for. destruct (om_find (resources_ x) r) as [st|].
  - destruct (Get _ _ R) as [Rp _]. pose proof (ici_peak_spec _ _ w Rp Ne) as [Pk _].
    cbv zeta in Pk. rewrite Z.max_r, Z.min_r in Pk by assumption. apply empty_false in Ne. auto.
  - rewrite R, Pn. cbn [bps]. apply empty_false in Ne. split; [|simpl; lia].
    exists (ns (start w)). split; [lia | reflexivity].
Qed.

Lemma index_entries_perm n x es :
  index_ok n x es -> entries_ x ≡ₚ map (fun e => (identity_of e, start (ie_interval e))) es.
Proof.
  intros O. apply NoDup_Permutation.
  - apply (NoDup_fmap_1 fst). exact (om_sorted_NoDup _ (io_sorted _ _ _ O)).
  - apply (NoDup_fmap_1 fst). pose proof (io_identity _ _ _ O) as N.
    change (NoDup (map fst (map (fun e => (identity_of e, start (ie_interval e))) es))).
    rewrite map_map. exact N.
  - intros [k s]. rewrite !list_elem_of_In, in_map_iff. split.
    + intros I. apply (om_In_find _ _ _ (io_sorted _ _ _ O)) in I. apply (io_keys _ _ _ O) in I.
      destruct I as (e & I & <- & <-). exists e. auto.
    + intros (e & [= <- <-] & I). apply om_find_In. apply (io_keys _ _ _ O). eauto.
Qed.

Lemma find_entry_spec n x es kind id e :
  index_ok n x es -> In e es ->
  find_entry x kind id (identity_of e, start (ie_interval e)) =
    if same_holder kind id e then [e] else [].
Proof.
  intros O I. unfold find_entry.
  assert (other_holder kind id (identity_of e, start (ie_interval e)) = negb (same_holder kind id e)) as ->.
  { unfold other_holder, same_holder, identity_of. cbn [fst snd]. rewrite negb_andb. reflexivity. }
  destruct (same_holder kind id e) eqn:H; cbn [negb]; [|reflexivity].
  destruct (In_split_perm e es I) as [es' P]. unfold state_for. cbn [fst snd identity_of].
  pose proof (io_resources _ _ _ O) as [_ R]. specialize (R (ie_resource e)).
  pose proof (entries_on_perm (ie_resource e) _ _ P) as Pr. rewrite entries_on_cons, on_resource_self in Pr.
  destruct (om_find (resources_ x) (ie_resource e)) as [st|].
  2:{ rewrite R in Pr. apply Permutation_nil in Pr. discriminate. }
  assert (In (start (ie_interval e), e) (by_start st)) as Ib.
  { rewrite (so_by_start _ _ _ R). apply in_map_iff. exists e. split; [reflexivity|]. rewrite Pr. left. reflexivity. }
  destruct (mm_take_some _ _ _ _ Ib H) as (w & rest & T). rewrite T.
  destruct (mm_take_perm _ _ _ _ _ T) as [Pb Pw]. f_equal.
  assert (In (start (ie_interval e), w) (by_start st)) as Iw by (rewrite Pb; left; reflexivity).
  rewrite (so_by_start _ _ _ R), in_map_iff in Iw. destruct Iw as (w' & [= _ ->] & Iw).
  apply filter_In in Iw. destruct Iw as [Iw Ow]. apply beq_true in Ow.
  apply (NoDup_map_inj identity_of es); auto; [apply O|].
  apply same_holder_true in H, Pw. unfold identity_of. destruct H, Pw. congruence.
Qed.

Lemma index_find_all_perm n x es kind id :
  index_ok n x es -> index_find_all x kind id ≡ₚ List.filter (same_holder kind id) es.
Proof.
  intros O. unfold index_find_all. rewrite sort_perm.
  rewrite (Permutation_flat_map _ (index_entries_perm n x es O)).
  assert (forall l, (forall e, In e l -> In e es) ->
    flat_map (find_entry x kind id) (map (fun e => (identity_of e, start (ie_interval e))) l) =
    List.filter (same_holder kind id) l) as Eq.
  { induction l as [|e l IH]; intros S; [reflexivity|]. cbn [map flat_map List.filter].
    rewrite (find_entry_spec n x es) by (auto; apply S; left; reflexivity).
    rewrite IH by (intros e' I; apply S; right; exact I). destruct (same_holder kind id e); reflexivity. }
  rewrite Eq by auto. reflexivity.
Qed.

Lemma index_contains_spec n x es kind id :
  index_ok n x es -> index_contains x kind id = existsb (same_holder kind id) es.
Proof.
  intros O. apply eq_true_iff_eq. unfold index_contains. rewrite !existsb_exists. split.
  - intros ([k s] & I & H). rewrite (index_entries_perm n x es O), in_map_iff in I.
    destruct I as (e & [= <- <-] & I). exists e. auto.
  - intros (e & I & H). exists (identity_of e, start (ie_interval e)). split; [|exact H].
    rewrite (index_entries_perm n x es O). apply in_map_iff. eauto.
Qed.

(** Reservations and holds together are everything. *)
Lemma occupancy_kinds l p :
  occupancy (holdings l) p = occupancy (holdings_of kReservation l) p + occupancy (holdings_of kHold l) p.
Proof.
  induction l as [|e l IH]; [reflexivity|]. rewrite !holdings_of_cons. cbn [holdings map occupancy].
  fold (holdings l). rewrite IH. destruct (ie_kind e) eqn:K; simpl; lia.
Qed.

(** ** Histories of the index *)

(** The entries of one resource stay representable when [e] joins them. *)
Definition fits (es : list IndexEntry) (e : IndexEntry) : Prop :=
  forall p, 0 <= p < kMaxTimestampNs ->
    occupancy (holdings (e :: entries_on (ie_resource e) es)) p <= kIndexSaturation.

Inductive index_history : Z -> CapacityIndex -> list IndexEntry -> Prop :=
  | ih_empty : index_history 0 index_empty []
  | ih_insert n x es e x' :
      index_history n x es -> fits es e -> index_insert x e = Ok x' ->
      index_history (n + 1) x' (e :: es)
  | ih_erase n x es kind id generation resource x' e es' :
      index_history n x es -> index_erase x kind id generation resource = Ok x' ->
      es ≡ₚ e :: es' -> identity_of e = (kind, (id, resource)) ->
      index_history (n + 1) x' es'
  | ih_erase_all n x es kind id generation :
      index_history n x es ->
      index_history (n + Z.of_nat (length es)) (snd (index_erase_all x kind id generation))
        (List.filter (fun e => negb (same_holder kind id e)) es).

Lemma index_empty_ok : index_ok 0 index_empty [].
Proof.
  constructor; cbn [resources_ entries_ entry_count_ index_empty]; try reflexivity.
  - contradiction.
  - constructor.
  - constructor.
  - intros k s. split; [discriminate | intros (e & [] & _)].
  - split; [constructor | reflexivity].
  - discriminate.
  - simpl. lia.
Qed.

Lemma index_history_ok n x es : index_history n x es -> n <= 2 ^ 24 -> index_ok n x es.
Proof.
  intros H. induction H as [|n x es e x' H IH F I|n x es kind id g r x' e es' H IH I P Ei
                           |n x es kind id g H IH]; intros B.
  - apply index_empty_ok.
  - pose proof (index_insert_spec n x es e (IH ltac:(lia)) ltac:(lia) F) as S. rewrite I in S. apply S.
  - pose proof (index_erase_spec n x es kind id g r (IH ltac:(lia)) ltac:(lia)) as S. rewrite I in S.
    destruct S as (w & ws & Pw & Ew & _ & O). apply (index_ok_perm _ _ ws); [|exact O].
    assert (w = e) as ->.
    { apply (NoDup_map_inj identity_of es); [apply (IH ltac:(lia))|rewrite Pw|rewrite P|congruence]; left; reflexivity. }
    apply (Permutation_cons_inv (a := e)). rewrite <- Pw, P. reflexivity.
  - pose proof (index_erase_all_spec n x es kind id g (IH ltac:(lia)) B) as S. cbv zeta in S.
    destruct (index_erase_all x kind id g) as [r x']. apply S.
Qed.

(** C33. After any history of insertions, erasures and whole-holder erasures (up
    to 2^24 structural updates, and at no instant more than 2^62 bit/s on a
    resource) the index answers for exactly the entries that are in: the committed, held and combined peaks over a window are the true
    maxima of the bandwidth those entries hold on the resource, a holder's
    entries are found one per resource, and the count is right. *)
Theorem capacity_index_exact n x es r w kind id :
  index_history n x es -> n <= 2 ^ 24 ->
  empty w = false -> 0 <= ns (start w) -> ns (end_ w) <= kMaxTimestampNs ->
  let here := entries_on r es in
  is_max (occupancy (holdings_of kReservation here)) (ns (start w)) (ns (end_ w))
    (bps (peak_committed x r w)) /\
  is_max (occupancy (holdings_of kHold here)) (ns (start w)) (ns (end_ w)) (bps (peak_holds x r w)) /\
  is_max (occupancy (holdings here)) (ns (start w)) (ns (end_ w)) (bps (peak_combined x r w)) /\
  (forall p, occupancy (holdings here) p =
             occupancy (holdings_of kReservation here) p + occupancy (holdings_of kHold here) p) /\
  index_find_all x kind id ≡ₚ List.filter (same_holder kind id) es /\
  index_contains x kind id = existsb (same_holder kind id) es /\
  entry_count_ x = Z.of_nat (length es).
Proof.
  intros H B Ne Ws We here. pose proof (index_history_ok n x es H B) as O.
  split; [apply (index_peak_exact n x es r w _ ix_committed (holdings_of kReservation)); auto; apply so_committed|].
  split; [apply (index_peak_exact n x es r w _ ix_holds (holdings_of kHold)); auto; apply so_holds|].
  split; [apply (index_peak_exact n x es r w _ ix_combined holdings); auto; apply so_combined|].
  split; [intros p; apply occupancy_kinds|].
  split; [exact (index_find_all_perm n x es kind id O)|].
  split; [exact (index_contains_spec n x es kind id O) | apply O].
Qed.

Definition example_entry : IndexEntry :=
  mkIndexEntry kReservation (example_id x08) 1 (mkName (str "spine-1"))
    (mkInterval (mkTs 100) (mkTs 200)) (mkBandwidth 40) kProtected kCommitted.

Definition example_index : CapacityIndex :=
  match index_insert index_empty example_entry with Ok x => x | Err _ => index_empty end.

Lemma capacity_index_exact_witness :
  let w := mkInterval (mkTs 0) (mkTs 1000) in
  let here := entries_on (mkName (str "spine-1")) [example_entry] in
  is_max (occupancy (holdings_of kReservation here)) 0 1000
    (bps (peak_committed example_index (mkName (str "spine-1")) w)) /\
  is_max (occupancy (holdings_of kHold here)) 0 1000
    (bps (peak_holds example_index (mkName (str "spine-1")) w)) /\
  is_max (occupancy (holdings here)) 0 1000
    (bps (peak_combined example_index (mkName (str "spine-1")) w)) /\
  (forall p, occupancy (holdings here) p =
             occupancy (holdings_of kReservation here) p + occupancy (holdings_of kHold here) p) /\
  index_find_all example_index kReservation (example_id x08) ≡ₚ
    List.filter (same_holder kReservation (example_id x08)) [example_entry] /\
  index_contains example_index kReservation (example_id x08) =
    existsb (same_holder kReservation (example_id x08)) [example_entry] /\
  entry_count_ example_index = Z.of_nat (length [example_entry]).
Proof.
  intros w here.
  apply (capacity_index_exact 1 example_index [example_entry] (mkName (str "spine-1")) w
           kReservation (example_id x08)); try reflexivity; try (simpl; lia);
    try (vm_compute; discriminate).
  apply (ih_insert 0 index_empty [] example_entry example_index); [apply ih_empty | |].
  - intros p _. unfold occupancy, delta_at, kIndexSaturation. simpl. case_if; lia.
  - vm_compute. reflexivity.
Defined.

(** ** Overlap enumeration *)
Lemma overlaps_past w t l :
  ns (end_ w) <= ns t -> (forall p, In p l -> p.1 = start (ie_interval p.2) /\ kleb t p.1 = true) ->
  List.filter (fun e => overlaps (ie_interval e) w) (map snd l) = [].
Proof.
  intros Past. induction l as [|q l IHl]; intros F; [reflexivity|]. cbn [map List.filter].
  rewrite IHl by (intros p I; apply F; right; exact I).
  destruct (F q (or_introl eq_refl)) as [Eq Le].
  assert (overlaps (ie_interval q.2) w = false) as ->; [|reflexivity].
  unfold overlaps, ts_lt. apply andb_false_intro1. apply Z.ltb_ge. rewrite <- Eq.
  unfold kleb, kcmp in Le. cbn in Le. destruct (Z.compare_spec (ns t) (ns q.1)); [lia | lia | discriminate].
Qed.

(** The scan finds a prefix of the overlapping entries, all of them unless the
    scan bound stopped it, and keeps the first [output_limit]. *)
Lemma overlap_scan_spec walk w output_limit scan_limit scanned matched out :
  0 <= output_limit -> mm_sorted walk ->
  (forall p, In p walk -> p.1 = start (ie_interval p.2)) ->
  let '(out', matched', hit) := overlap_scan walk w output_limit scan_limit scanned matched out in
  exists found more,
    List.filter (fun e => overlaps (ie_interval e) w) (map snd walk) = found ++ more /\
    (hit = false -> more = []) /\
    matched' = matched + Z.of_nat (length found) /\
    out' = out ++ firstn (Z.to_nat (output_limit - Z.of_nat (length out))) found.
Proof.
  intros Pl. revert scanned matched out.
  induction walk as [|[t e] walk IH]; intros scanned matched out Sd St; cbn [overlap_scan].
  { exists [], []. rewrite firstn_nil, ?app_nil_r. cbn [length]. repeat split; auto; lia. }
  pose proof (St (t, e) (or_introl eq_refl)) as Et. cbn [fst snd] in Et.
  unfold mm_sorted in Sd. inversion Sd as [|? ? Sd' F]; subst. rewrite List.Forall_forall in F.
  assert (forall p, In p walk -> p.1 = start (ie_interval p.2)) as St' by (intros p I; apply St; right; exact I).
  destruct (negb (ts_lt (start (ie_interval e)) (end_ w))) eqn:Past.
  { exists [], []. rewrite firstn_nil, ?app_nil_r. cbn [length]. split; [|repeat split; auto; lia].
    apply negb_true_iff in Past. unfold ts_lt in Past. apply Z.ltb_ge in Past.
    apply (overlaps_past w (start (ie_interval e)) ((start (ie_interval e), e) :: walk) Past).
    intros p I. split; [now apply St|]. destruct I as [<-|I]; [|exact (F _ I)].
    unfold kleb. cbn [fst]. rewrite kcmp_refl. reflexivity. }
  destruct (scanned >=? scan_limit) eqn:Lim.
  { exists [], (List.filter (fun e => overlaps (ie_interval e) w)
                (map snd ((start (ie_interval e), e) :: walk))).
    rewrite firstn_nil, ?app_nil_r. cbn [length]. repeat split; try discriminate; lia. }
  apply negb_false_iff in Past. cbn [map snd List.filter].
  destruct (ts_le (end_ (ie_interval e)) (start w)) eqn:Before.
  - assert (overlaps (ie_interval e) w = false) as ->.
    { unfold overlaps. unfold ts_le in Before. apply Z.leb_le in Before. apply andb_false_intro2.
      unfold ts_lt. apply Z.ltb_ge. exact Before. }
    exact (IH (scanned + 1) matched out Sd' St').
  - assert (overlaps (ie_interval e) w = true) as ->.
    { unfold overlaps. rewrite Past. unfold ts_le in Before. apply Z.leb_gt in Before.
      unfold ts_lt. apply Z.ltb_lt. exact Before. }
    set (out1 := if Z.of_nat (length out) <? output_limit then out ++ [e] else out).
    specialize (IH (scanned + 1) (matched + 1) out1 Sd' St').
    destruct (overlap_scan walk w output_limit scan_limit (scanned + 1) (matched + 1) out1) as [[out' m'] hit].
    destruct IH as (found & more & A & B & C & D). exists (e :: found), more.
    split; [rewrite A; reflexivity|]. split; [exact B|]. split; [cbn [length]; lia|].
    rewrite D. unfold out1. destruct (Z.ltb_spec (Z.of_nat (length out)) output_limit).
    + replace (Z.to_nat (output_limit - Z.of_nat (length out))) with
        (Datatypes.S (Z.to_nat (output_limit - Z.of_nat (length (out ++ [e])))))
        by (rewrite length_app; simpl length; lia).
      rewrite firstn_cons, <- app_assoc. reflexivity.
    + replace (Z.to_nat (output_limit - Z.of_nat (length out))) with O by lia. reflexivity.
Qed.

(** The bounded overlap enumeration reports only entries of the resource that
    overlap the window, within the output bound; an answer that is not flagged
    as truncated is complete: it is exactly the set of overlapping entries, and
    the total is their number. *)
Theorem index_overlapping_spec n x es r w output_limit scan_limit :
  index_history n x es -> n <= 2 ^ 24 -> empty w = false -> 0 <= output_limit ->
  let '(out, total, truncated) := index_overlapping x r w output_limit scan_limit in
  let overlapping := List.filter (fun e => overlaps (ie_interval e) w) (entries_on r es) in
  (forall e, In e out -> In e overlapping) /\ total <= Z.of_nat (length overlapping) /\
  Z.of_nat (length out) <= output_limit /\
  (truncated = false -> out ≡ₚ overlapping /\ total = Z.of_nat (length overlapping)).
Proof.
  intros H B Ne Pl. pose proof (index_history_ok n x es H B) as Ok_.
  pose proof (io_resources _ _ _ Ok_) as [_ R]. specialize (R r).
  unfold index_overlapping, state_for. destruct (om_find (resources_ x) r) as [st|].
  2:{ rewrite R. cbn [List.filter length]. repeat split; auto; simpl; try lia; contradiction. }
  rewrite Ne.
  pose proof (overlap_scan_spec (by_start st) w output_limit scan_limit 0 0 [] Pl (so_sorted _ _ _ R)) as Sc.
  destruct (overlap_scan (by_start st) w output_limit scan_limit 0 0 []) as [[out m] hit].
  destruct Sc as (found & more & A & C & -> & ->).
  { intros p I. rewrite (so_by_start _ _ _ R), in_map_iff in I. destruct I as (e & <- & _). reflexivity. }
  cbn [length app Z.of_nat Nat.add] in *. rewrite Z.sub_0_r, Z.add_0_l.
  set (ovs := List.filter (fun e => overlaps (ie_interval e) w) (entries_on r es)).
  assert (found ++ more ≡ₚ ovs) as Pf.
  { rewrite <- A. apply filter_perm. rewrite (so_by_start _ _ _ R), map_map. cbn [snd].
    rewrite map_id. reflexivity. }
  pose proof (Permutation_length Pf) as Ln. rewrite length_app in Ln.
  rewrite (Permutation_length (sort_perm overlap_lt _)), length_firstn, Z.gtb_ltb.
  split; [|split; [lia | split; [lia|]]].
  - intros e I. rewrite sort_In in I. rewrite <- Pf, in_app_iff. left.
    rewrite <- (firstn_skipn (Z.to_nat output_limit) found), in_app_iff. auto.
  - intros T. apply orb_false_iff in T. destruct T as [-> T]. apply Z.ltb_ge in T.
    rewrite (C eq_refl), app_nil_r in Pf. rewrite (C eq_refl) in Ln. cbn [length] in Ln.
    rewrite sort_perm, firstn_all2 by lia. split; [exact Pf | lia].
Qed.

Lemma index_overlapping_spec_witness :
  let w := mkInterval (mkTs 0) (mkTs 150) in
  let r := mkName (str "spine-1") : ResourceName in
  let '(out, total, truncated) := index_overlapping example_index r w 8 100 in
  let overlapping := List.filter (fun e => overlaps (ie_interval e) w) (entries_on r [example_entry]) in
  (forall e, In e out -> In e overlapping) /\ total <= Z.of_nat (length overlapping) /\
  Z.of_nat (length out) <= 8 /\
  (truncated = false -> out ≡ₚ overlapping /\ total = Z.of_nat (length overlapping)).
Proof.
  intros w r.
  apply (index_overlapping_spec 1 example_index [example_entry] r w 8 100);
    try reflexivity; try (vm_compute; discriminate).
  apply (ih_insert 0 index_empty [] example_entry example_index); [apply ih_empty | |].
  - intros p _. unfold occupancy, delta_at, kIndexSaturation. simpl. case_if; lia.
  - vm_compute. reflexivity.
Defined.

Definition second_entry : IndexEntry :=
  mkIndexEntry kHold (example_id x09) 1 (mkName (str "spine-1"))
    (mkInterval (mkTs 120) (mkTs 220)) (mkBandwidth 10) kProtected kCommitted.

(** The header promises that [total] is the true number of overlaps even
    when the scan is bounded; with a scan bound of one entry, two overlapping
    entries are reported as a total of one (flagged as truncated). *)
Theorem index_overlapping_total_bounded :
  exists x, index_insert example_index second_entry = Ok x /\
    let r := mkName (str "spine-1") : ResourceName in
    let w := mkInterval (mkTs 0) (mkTs 300) in
    index_overlapping x r w 8 1 = ([example_entry], 1, true) /\
    index_overlapping x r w 8 2 = ([example_entry; second_entry], 2, false).
Proof. eexists. split; [vm_compute; reflexivity|]. split; vm_compute; reflexivity. Qed.
