(* ===== verification/IndexLog.v ===== *)
(** * The capacity index and the log of its insertions

    What the index stands for, whatever operations made it: the entries that
    were inserted, less those erased.  [logged] keeps the log of all insertions,
    and one bound on the log ([moderate]) is enough for the contract of [Index]. *)
From stdpp Require Import relations.
From S2P Require Import Prelude Errors Containers Identity Hash Bandwidth Time Authority Policy Capacity Reservation Outcome SegTree Index.

(** [logged log es x]: the index [x] was built by inserting the entries of [log]
    (latest first), with erasures between; [es] are the entries still in. *)
Inductive logged : list IndexEntry -> list IndexEntry -> CapacityIndex -> Prop :=
  | logged_empty : logged [] [] index_empty
  | logged_insert log es x e x' :
      logged log es x -> index_insert x e = Ok x' -> logged (e :: log) (e :: es) x'
  | logged_erase log es x k id g r x' :
      logged log es x -> index_erase x k id g r = Ok x' ->
      logged log (List.filter (fun e => negb (beq (identity_of e) (k, (id, r)))) es) x'
  | logged_erase_all log es x k id g :
      logged log es x ->
      logged log (List.filter (fun e => negb (same_holder k id e)) es) (index_erase_all x k id g).2.

Definition amount_of (es : list IndexEntry) : Z :=
  fold_right (fun e sum => bps (ie_amount e) + sum) 0 es.

(** At most 2^23 insertions, whose amounts add up to at most 2^62 bit/s: node
    indices and the saturating counters of the structures suffice. *)
Definition moderate (log : list IndexEntry) : Prop :=
  2 * Z.of_nat (length log) <= 2 ^ 24 /\ amount_of log <= kIndexSaturation.

Lemma insert_wf x e x' : index_insert x e = Ok x' -> entry_wf e.
Proof.
  unfold index_insert. intros H. apply rbind_refuse_Ok in H as [E H]. apply rbind_refuse_Ok in H as [A H].
  apply rbind_refuse_Ok in H as [N H]. apply Z.leb_gt in A. split; auto.
Qed.

Lemma logged_wf log es x : logged log es x -> forall e, In e log -> entry_wf e.
Proof.
  induction 1; [contradiction| |auto|auto]. intros e' [<-|I]; [eapply insert_wf; eassumption | auto].
Qed.

Lemma filter_submseteq {A} (f : A -> bool) l : List.filter f l ⊆+ l.
Proof.
  induction l as [|a l IH]; [constructor|]. cbn [List.filter]. destruct (f a); [now apply submseteq_skip | now apply submseteq_cons].
Qed.

Lemma logged_sub log es x : logged log es x -> es ⊆+ log.
Proof.
  induction 1; [reflexivity | now apply submseteq_skip | |]; (etransitivity; [apply filter_submseteq | assumption]).
Qed.

Lemma amount_cons e es : amount_of (e :: es) = bps (ie_amount e) + amount_of es.
Proof. reflexivity. Qed.

Lemma amount_app a b : amount_of (a ++ b) = amount_of a + amount_of b.
Proof. induction a as [|e a IH]; cbn [app]; [reflexivity | rewrite !amount_cons; lia]. Qed.

Lemma amount_nonneg es : (forall e, In e es -> entry_wf e) -> 0 <= amount_of es.
Proof.
  induction es as [|e es IH]; intros W; [easy|]. rewrite amount_cons.
  pose proof (W e (or_introl eq_refl)) as (_ & P & _). specialize (IH (fun e' I => W e' (or_intror I))). lia.
Qed.

Lemma amount_perm a b : a ≡ₚ b -> amount_of a = amount_of b.
Proof. induction 1; rewrite ?amount_cons; lia. Qed.

Lemma sub_amount a b : (forall e, In e b -> entry_wf e) -> a ⊆+ b -> amount_of a <= amount_of b.
Proof.
  intros W S. apply submseteq_Permutation in S as [k P]. rewrite (amount_perm _ _ P), amount_app.
  assert (0 <= amount_of k); [|lia]. apply amount_nonneg. intros e I. apply W. rewrite P. apply in_or_app. now right.
Qed.

(** No instant carries more than all entries together. *)
Lemma occupancy_amount es p : (forall e, In e es -> entry_wf e) -> occupancy (holdings es) p <= amount_of es.
Proof.
  induction es as [|e es IH]; intros W; [easy|]. rewrite amount_cons. cbn [holdings map occupancy]. fold (holdings es).
  pose proof (W e (or_introl eq_refl)) as (_ & P & _). specialize (IH (fun e' I => W e' (or_intror I))).
  unfold delta_at. case_if; lia.
Qed.

Lemma moderate_app more log :
  (forall e, In e more -> entry_wf e) -> moderate (more ++ log) -> moderate log.
Proof.
  intros W [L A]. rewrite length_app in L. rewrite amount_app in A. pose proof (amount_nonneg more W). split; lia.
Qed.

Lemma moderate_less a b : a ⊆+ b -> (forall e, In e b -> 0 <= bps (ie_amount e)) -> moderate b -> moderate a.
Proof.
  intros S W [L A]. pose proof (submseteq_length _ _ S). split; [lia|].
  apply submseteq_Permutation in S as [k P]. rewrite (amount_perm _ _ P), amount_app in A.
  assert (0 <= amount_of k); [|lia]. assert (forall e, In e k -> 0 <= bps (ie_amount e)) as Wk.
  { intros e I. apply W. rewrite P. apply in_or_app. now right. }
  clear - Wk. induction k as [|e k IH]; [easy|]. rewrite amount_cons. pose proof (Wk e (or_introl eq_refl)).
  specialize (IH (fun e' I => Wk e' (or_intror I))). lia.
Qed.

Lemma filter_identity_cons es e es' k :
  NoDup (map identity_of es) -> es ≡ₚ e :: es' -> identity_of e = k ->
  List.filter (fun e => negb (beq (identity_of e) k)) es ≡ₚ es'.
Proof.
  intros N P I. rewrite P in N. rewrite (filter_perm _ _ _ P). cbn [List.filter]. rewrite I, beq_refl. cbn [negb].
  cbn [map] in N. apply NoDup_cons in N as [N _]. rewrite I, list_elem_of_In in N.
  assert (forall l, ~ In k (map identity_of l) -> List.filter (fun e => negb (beq (identity_of e) k)) l = l) as F.
  { induction l as [|a l IH]; intros Nl; [reflexivity|]. cbn [map In List.filter] in *.
    destruct (beq (identity_of a) k) eqn:B; [apply beq_true in B; tauto|]. cbn [negb]. f_equal. tauto. }
  now rewrite F.
Qed.

(** The budget after a log: two updates per insertion, less what is still in. *)
Definition updates (log es : list IndexEntry) : Z := 2 * Z.of_nat (length log) - Z.of_nat (length es).

Lemma logged_ok log es x : logged log es x -> moderate log -> index_ok (updates log es) x es.
Proof.
  unfold updates. intros L. induction L as [|log es x e x' L IH I|log es x k id g r x' L IH I|log es x k id g L IH]; intros M.
  - apply index_empty_ok.
  - pose proof (insert_wf _ _ _ I) as We.
    assert (moderate log) as M' by (apply (moderate_app [e]); [intros e' [<-|[]]; exact We | exact M]).
    specialize (IH M'). pose proof (io_budget _ _ _ IH) as B. pose proof (logged_sub _ _ _ L) as Sub.
    pose proof (submseteq_length _ _ Sub). destruct M as [Mn Ma]. rewrite amount_cons in Ma. cbn [length] in *.
    assert (index_ok (2 * Z.of_nat (length log) - Z.of_nat (length es) + 1) x' (e :: es)) as O.
    { pose proof (index_insert_spec _ x es e IH ltac:(lia)) as S. rewrite I in S. apply S.
      intros p _. cbn [holdings map occupancy]. fold (holdings (entries_on (ie_resource e) es)).
      pose proof (occupancy_filter_le (on_resource (ie_resource e)) es p (io_wf _ _ _ IH)) as [_ U].
      pose proof (occupancy_amount es p (io_wf _ _ _ IH)).
      pose proof (sub_amount es log (logged_wf _ _ _ L) Sub). destruct We as (_ & Pe & _).
      unfold entries_on. unfold delta_at. case_if; lia. }
    eapply index_ok_mono; [|exact O]. lia.
  - specialize (IH M). pose proof (io_budget _ _ _ IH) as B. destruct M as [Mn _].
    destruct (decide (length es = 0%nat)) as [Z0|Z0].
    { destruct es; [|discriminate]. exfalso. unfold index_erase in I. destruct (om_find (entries_ x) _) as [s|] eqn:F; [|discriminate].
      apply (io_keys _ _ _ IH) in F as (e & [] & _). }
    pose proof (index_erase_spec _ x es k id g r IH ltac:(lia)) as S. rewrite I in S.
    destruct S as (e & es' & P & Ei & _ & O). pose proof (filter_identity_cons _ _ _ _ (io_identity _ _ _ IH) P Ei) as Pf.
    apply (index_ok_perm _ _ es'); [now symmetry|]. eapply index_ok_mono; [|exact O].
    rewrite (Permutation_length Pf), (Permutation_length P). cbn [length]. lia.
  - specialize (IH M). pose proof (io_budget _ _ _ IH) as B. destruct M as [Mn _].
    pose proof (index_erase_all_tight _ x es k id g IH ltac:(lia)) as S. cbv zeta in S.
    destruct (index_erase_all x k id g) as [r x']. destruct S as [_ O]. cbn [snd].
    eapply index_ok_mono; [|exact O]. pose proof (io_budget _ _ _ O). lia.
Qed.

(** ** What a few more entries add *)
Definition covers_at (p : Z) (e : IndexEntry) : bool :=
  in_query (ns (start (ie_interval e))) (ns (end_ (ie_interval e))) p.

Lemma occupancy_cons e es p :
  occupancy (holdings (e :: es)) p =
  (if covers_at p e then bps (ie_amount e) else 0) + occupancy (holdings es) p.
Proof. reflexivity. Qed.

Lemma occupancy_app a b p : occupancy (holdings (a ++ b)) p = occupancy (holdings a) p + occupancy (holdings b) p.
Proof. induction a as [|e a IH]; cbn [app]; [reflexivity | rewrite !occupancy_cons; lia]. Qed.

Lemma occupancy_holdings_perm a b p : a ≡ₚ b -> occupancy (holdings a) p = occupancy (holdings b) p.
Proof. intros P. apply occupancy_perm, holdings_perm, P. Qed.

Lemma occupancy_pos es p : (forall e, In e es -> entry_wf e) -> 0 <= occupancy (holdings es) p.
Proof. intros W. destruct (occupancy_filter_le (fun _ => true) es p W). lia. Qed.

Lemma occupancy_sub a b p :
  (forall e, In e b -> entry_wf e) -> a ⊆+ b -> occupancy (holdings a) p <= occupancy (holdings b) p.
Proof.
  intros W S. apply submseteq_Permutation in S as [k P]. rewrite (occupancy_holdings_perm _ _ p P), occupancy_app.
  assert (0 <= occupancy (holdings k) p); [|lia]. apply occupancy_pos. intros e I. apply W. rewrite P. apply in_or_app. now right.
Qed.

Lemma occupancy_none l p : (forall e, In e l -> covers_at p e = false) -> occupancy (holdings l) p = 0.
Proof.
  induction l as [|e l IH]; intros H; [reflexivity|]. rewrite occupancy_cons, (H e) by now left.
  rewrite IH; [reflexivity | intros e' I; apply H; now right].
Qed.

(** Entries of which one at most is there at an instant. *)
Lemma occupancy_lone l p a :
  0 <= a -> NoDup l ->
  (forall e e', In e l -> In e' l -> covers_at p e = true -> covers_at p e' = true -> e = e') ->
  (forall e, In e l -> covers_at p e = true -> bps (ie_amount e) <= a) -> occupancy (holdings l) p <= a.
Proof.
  intros A N U B. induction l as [|e l IH]; [exact A|]. apply NoDup_cons in N as [Ne N]. rewrite list_elem_of_In in Ne.
  rewrite occupancy_cons. destruct (covers_at p e) eqn:C.
  - assert (occupancy (holdings l) p = 0) as ->; [|pose proof (B e (or_introl eq_refl) C); lia].
    apply occupancy_none. intros e' I. destruct (covers_at p e') eqn:C'; [|reflexivity].
    exfalso. apply Ne. rewrite (U e e'); auto using in_eq, in_cons.
  - rewrite Z.add_0_l. apply IH; [exact N | intros x y Ix Iy; apply U; now right | intros x Ix; apply B; now right].
Qed.

Lemma split_or {A} (P Q : A -> Prop) l :
  (forall x, In x l -> P x \/ Q x) ->
  exists a b, l ≡ₚ a ++ b /\ (forall x, In x a -> P x) /\ (forall x, In x b -> Q x).
Proof.
  induction l as [|x l IH]; intros H; [exists [], []; split; [reflexivity | split; intros ? []]|].
  destruct IH as (a & b & E & Ha & Hb); [intros y I; apply H; now right|].
  destruct (H x (or_introl eq_refl)) as [Px|Qx].
  - exists (x :: a), b. split; [now rewrite E | split; [intros y [<-|I]; auto | exact Hb]].
  - exists a, (x :: b). split; [now rewrite E, Permutation_middle | split; [exact Ha | intros y [<-|I]; auto]].
Qed.

(** Entries that were in before, or are among [joined], which add at most [a]. *)
Lemma occupancy_joined es es' joined r p a :
  (forall e, In e es -> entry_wf e) -> NoDup (map identity_of es') ->
  (forall e, In e es' -> In e es \/ In e joined) -> 0 <= a ->
  (forall e e', In e joined -> In e' joined -> ie_resource e = r -> ie_resource e' = r ->
     covers_at p e = true -> covers_at p e' = true -> e = e') ->
  (forall e, In e joined -> ie_resource e = r -> bps (ie_amount e) <= a) ->
  occupancy (holdings (entries_on r es')) p <= occupancy (holdings (entries_on r es)) p + a.
Proof.
  intros W N H A U B. assert (NoDup (entries_on r es')) as Nr.
  { unfold entries_on. apply NoDup_ListNoDup, List.NoDup_filter, NoDup_ListNoDup. now apply (NoDup_fmap_1 identity_of). }
  destruct (split_or (fun e => In e (entries_on r es)) (fun e => In e joined /\ ie_resource e = r) (entries_on r es'))
    as (old & new & P & Ho & Hn).
  { unfold entries_on. intros e I. apply filter_In in I as [I R]. rewrite filter_In.
    pose proof R as R'. apply beq_true in R'. destruct (H e I); tauto. }
  rewrite P in Nr. apply NoDup_app in Nr as (No & _ & Nn).
  rewrite (occupancy_holdings_perm _ _ p P), occupancy_app.
  assert (occupancy (holdings old) p <= occupancy (holdings (entries_on r es)) p).
  { apply occupancy_sub; [intros e I; apply filter_In in I as [I _]; auto|]. apply NoDup_submseteq; [exact No|].
    intros e. rewrite !list_elem_of_In. apply Ho. }
  assert (occupancy (holdings new) p <= a); [|lia]. apply occupancy_lone; [exact A | exact Nn | |].
  - intros e e' I I'. destruct (Hn e I), (Hn e' I'). now apply U.
  - intros e I _. destruct (Hn e I). now apply B.
Qed.

(** ** What a change of the index absorbs

    From any log of the index before, the index after has a log with at most the
    entries [joined] more, and stands for nothing but what it stood for before
    and some of these. *)
Definition absorbs (joined : list IndexEntry) (x x' : CapacityIndex) : Prop :=
  forall log es, logged log es x ->
  exists more es', more ⊆+ joined /\ logged (more ++ log) es' x' /\
    forall e, In e es' -> In e es \/ In e more.

Lemma absorbs_refl x : absorbs [] x x.
Proof. intros log es L. exists [], es. split; [reflexivity | split; [exact L | auto]]. Qed.

Lemma absorbs_trans a b x y z : absorbs a x y -> absorbs b y z -> absorbs (a ++ b) x z.
Proof.
  intros A B log es L. destruct (A log es L) as (m1 & es1 & S1 & L1 & I1). destruct (B _ _ L1) as (m2 & es2 & S2 & L2 & I2).
  exists (m2 ++ m1), es2. split; [rewrite (Permutation_app_comm a b); now apply submseteq_app|].
  split; [now rewrite <- app_assoc|]. intros e I. rewrite in_app_iff. destruct (I2 e I) as [J|J]; [destruct (I1 e J)|]; auto.
Qed.

Lemma absorbs_mono a b x x' : a ⊆+ b -> absorbs a x x' -> absorbs b x x'.
Proof.
  intros S A log es L. destruct (A log es L) as (m & es' & S' & H). exists m, es'. split; [etransitivity; eassumption | exact H].
Qed.

Lemma absorbs_insert x e x' : index_insert x e = Ok x' -> absorbs [e] x x'.
Proof.
  intros E log es L. exists [e], (e :: es). split; [reflexivity|]. split; [eapply logged_insert; eassumption|].
  intros e' [<-|I]; [right; now left | now left].
Qed.

Lemma absorbs_erase x k id g r x' : index_erase x k id g r = Ok x' -> absorbs [] x x'.
Proof.
  intros E log es L. eexists [], _. split; [reflexivity|]. split; [eapply logged_erase; eassumption|].
  intros e I. apply filter_In in I as [I _]. now left.
Qed.

Lemma absorbs_erase_all x k id g : absorbs [] x (index_erase_all x k id g).2.
Proof.
  intros log es L. eexists [], _. split; [reflexivity|]. split; [eapply logged_erase_all; eassumption|].
  intros e I. apply filter_In in I as [I _]. now left.
Qed.

Lemma absorbs_insert_loop x es : absorbs es x (insert_loop x es).2.
Proof.
  revert x. induction es as [|e es IH]; intros x; cbn [insert_loop]; [apply absorbs_refl|].
  destruct (index_insert x e) as [x'|] eqn:E.
  - exact (absorbs_trans [e] es _ _ _ (absorbs_insert _ _ _ E) (IH x')).
  - eapply absorbs_mono; [apply submseteq_nil_l | apply absorbs_refl].
Qed.

Lemma absorbs_replace_all x k id g es : absorbs es x (index_replace_all x k id g es).2.
Proof.
  unfold index_replace_all. pose proof (absorbs_erase_all x k id g) as A.
  destruct (index_erase_all x k id g) as [[u|e] x']; cbn [snd] in A.
  - exact (absorbs_trans [] es _ _ _ A (absorbs_insert_loop x' es)).
  - destruct (beq e kNotFound); [exact (absorbs_trans [] es _ _ _ A (absorbs_insert_loop x' es))|].
    eapply absorbs_mono; [apply submseteq_nil_l | exact A].
Qed.
