(* ===== verification/Durable.v ===== *)
(** * Requests, holds and durable payloads

    The data of [include/brf/codec.hpp] and [include/brf/store.hpp]: what a
    request asserts, provisional holds, the payload of every kind of durable
    record and the snapshot state.  A [has_x] flag with its [x] member is an
    option, and [DurableRecord], of which "exactly one member is meaningful,
    selected by kind", is a sum with one case per kind. *)
From S2P Require Import Prelude Errors Containers Identity Hash Bandwidth Time Authority Policy Capacity Reservation Outcome.

Inductive RecordKind :=
  | kFabricBoot | kCapacitySnapshot | kPathSnapshot | kPolicyRecord | kReservationCommit
  | kReservationAmend | kReservationSeries | kReservationState | kReservationApplicability
  | kAttemptOutcome | kOvercommit | kRetire | kFence | kClaimantRegistration.

#[export] Instance RecordKind_eq_dec : EqDecision RecordKind.
Proof. solve_decision. Defined.

Definition RecordKind_to_Z (k : RecordKind) : Z :=
  match k with
  | kFabricBoot => 1 | kCapacitySnapshot => 2 | kPathSnapshot => 3 | kPolicyRecord => 4
  | kReservationCommit => 5 | kReservationAmend => 6 | kReservationSeries => 7
  | kReservationState => 8 | kReservationApplicability => 9 | kAttemptOutcome => 10
  | kOvercommit => 11 | kRetire => 12 | kFence => 13 | kClaimantRegistration => 14
  end.

(** The kinds in the order of their numbers, from 1. *)
Definition RecordKind_all : list RecordKind :=
  [ kFabricBoot; kCapacitySnapshot; kPathSnapshot; kPolicyRecord; kReservationCommit;
    kReservationAmend; kReservationSeries; kReservationState; kReservationApplicability;
    kAttemptOutcome; kOvercommit; kRetire; kFence; kClaimantRegistration ].

Definition parse_record_kind (v : Z) : Result RecordKind :=
  refuse_if (v <? 1) || (v >? 14) with kInvalidArgument in
  Ok (nth (Z.to_nat (v - 1)) RecordKind_all kFabricBoot).

Definition kDurableFormatVersion : Z := 1.

Record JournalRecord := mkJournalRecord {
  jr_kind : RecordKind;
  jr_sequence : DurableSequence;
  payload : bytes;
  file_offset : Z }.

Record RecoveryReport := mkRecoveryReport {
  snapshot_loaded : bool;
  torn_tail_truncated : bool;
  truncated_bytes : Z;
  rp_snapshot_sequence : Z;
  records_replayed : Z;
  records_skipped : Z;
  rp_last_sequence : Z;
  recovered_epoch : FabricEpoch;
  detail : bytes }.

(** ** Holds and requests *)
Record HoldRecord := mkHoldRecord {
  hr_id : Identity128;
  hr_generation : Counter HoldGenerationTag;
  hr_claimant : Identity128;
  hr_claimant_generation : ClaimantGeneration;
  hr_session : Identity128;
  hr_boot : Identity128;
  hr_epoch : FabricEpoch;
  hr_binding_kind : BindingKind;
  hr_resources : list ResourceName;
  hr_path : PathName;
  hr_path_generation : PathAuthorityGeneration;
  hr_interval : Interval;
  hr_amount : Bandwidth;
  hr_guarantee : GuaranteeClass;
  hr_created_at : Timestamp;
  expires_at : Timestamp;
  released : bool;
  released_at : Timestamp;
  release_reason : bytes }.

Record RequestContext := mkRequestContext {
  rq_actor : ActorName;
  rq_publisher : Identity128;
  rq_publisher_boot : Identity128;
  rq_session : Identity128;
  rq_attempt : Identity128;
  rq_claimant : Identity128;
  rq_claimant_generation : ClaimantGeneration;
  asserted_epoch : FabricEpoch;
  rq_reason : bytes }.

(** ** Durable payloads *)
Record AttemptMutation := mkAttemptMutation {
  at_attempt : Identity128;
  fingerprint : Identity128;
  at_outcome : AdmissionOutcome;
  at_reservation : Identity128;
  at_generation : ReservationGeneration;
  result_sequence : DurableSequence;
  at_claimant : Identity128;
  at_at : Timestamp }.

Record StateMutation := mkStateMutation {
  sm_id : Identity128;
  sm_generation : ReservationGeneration;
  from_state : ReservationState;
  to_state : ReservationState;
  sm_at : Timestamp;
  sm_reason : bytes;
  sm_provenance : Provenance;
  sm_recall_effective_at : Timestamp;
  sm_attempt : option AttemptMutation }.

Record ReservationMutation := mkReservationMutation {
  rm_record : ReservationRecord;
  rm_series : option ReservationSeries;
  rm_members : list ReservationRecord;
  rm_edge : option SupersessionEdge;
  supersede_record : bool;
  companions : list StateMutation;
  rm_attempt : option AttemptMutation }.

Record ApplicabilityMutation := mkApplicabilityMutation {
  apm_id : Identity128;
  apm_generation : ReservationGeneration;
  apm_applicability : Applicability;
  apm_reason : ApplicabilityReason;
  apm_at : Timestamp }.

Record EpochMutation := mkEpochMutation {
  em_epoch : FabricEpoch;
  em_coordinator_boot : Identity128;
  em_at : Timestamp }.

Record FenceMutation := mkFenceMutation {
  fm_claimant : Identity128;
  fm_claimant_generation : ClaimantGeneration;
  fm_boot : Identity128;
  fm_session : Identity128;
  fm_at : Timestamp;
  fm_reason : bytes;
  claimant_wide : bool }.

Record ClaimantMutation := mkClaimantMutation {
  cm_claimant : Identity128;
  cm_generation : ClaimantGeneration;
  cm_at : Timestamp }.

Record OvercommitMutation := mkOvercommitMutation {
  om_resource : ResourceName;
  om_generation : ResourceGeneration;
  om_committed_peak : Bandwidth;
  om_ceiling : Bandwidth;
  om_window : Interval;
  om_at : Timestamp;
  resolved : bool }.

Record RetireMutation := mkRetireMutation {
  rt_ids : list Identity128;
  rt_generations : list ReservationGeneration;
  rt_at : Timestamp }.

Record CapacityMutation := mkCapacityMutation {
  cpm_snapshot : CapacitySnapshot;
  withdrawals : list ResourceName }.

Inductive DurableRecord :=
  | DFabricBoot (epoch : EpochMutation)
  | DCapacitySnapshot (capacity : CapacityMutation)
  | DPathSnapshot (path : PathAuthoritySnapshot)
  | DPolicyRecord (policy : PolicyRecord)
  | DReservationCommit (reservation : ReservationMutation)
  | DReservationAmend (reservation : ReservationMutation)
  | DReservationSeries (reservation : ReservationMutation)
  | DReservationState (state : StateMutation)
  | DReservationApplicability (applicability : ApplicabilityMutation)
  | DAttemptOutcome (attempt : AttemptMutation)
  | DOvercommit (overcommit : OvercommitMutation)
  | DRetire (retire : RetireMutation)
  | DFence (fence : FenceMutation)
  | DClaimantRegistration (claimant : ClaimantMutation).

Definition record_kind (r : DurableRecord) : RecordKind :=
  match r with
  | DFabricBoot _ => kFabricBoot
  | DCapacitySnapshot _ => kCapacitySnapshot
  | DPathSnapshot _ => kPathSnapshot
  | DPolicyRecord _ => kPolicyRecord
  | DReservationCommit _ => kReservationCommit
  | DReservationAmend _ => kReservationAmend
  | DReservationSeries _ => kReservationSeries
  | DReservationState _ => kReservationState
  | DReservationApplicability _ => kReservationApplicability
  | DAttemptOutcome _ => kAttemptOutcome
  | DOvercommit _ => kOvercommit
  | DRetire _ => kRetire
  | DFence _ => kFence
  | DClaimantRegistration _ => kClaimantRegistration
  end.

(** ** Snapshot state *)
Record SnapshotCapacityEntry := mkSnapshotCapacityEntry {
  sce_capacity : ResourceCapacity;
  sce_snapshot : Identity128;
  sce_ingested_at : Timestamp;
  sce_withdrawn : bool;
  sce_withdrawn_at : Timestamp;
  sce_prior_generations : list ResourceGeneration }.

Record SnapshotPathEntry := mkSnapshotPathEntry {
  spe_path : PathAuthority;
  spe_snapshot : Identity128;
  spe_ingested_at : Timestamp;
  spe_retired : bool;
  spe_prior_generations : list PathAuthorityGeneration }.

Record SnapshotPolicyEntry := mkSnapshotPolicyEntry {
  spo_record : PolicyRecord;
  spo_ingested_at : Timestamp;
  spo_prior_generations : list PolicyGeneration }.

Record SnapshotState := mkSnapshotState {
  ss_epoch : FabricEpoch;
  ss_coordinator_boot : Identity128;
  ss_sequence : DurableSequence;
  ss_capacity : list SnapshotCapacityEntry;
  ss_paths : list SnapshotPathEntry;
  ss_policies : list SnapshotPolicyEntry;
  ss_reservations : list ReservationRecord;
  ss_series : list ReservationSeries;
  ss_edges : list SupersessionEdge;
  ss_attempts : list AttemptMutation;
  ss_fences : list FenceMutation;
  ss_claimants : list ClaimantMutation;
  ss_overcommits : list OvercommitMutation;
  ss_retired : list ReservationRecord }.
