(* ===== verification/CodecBase.v ===== *)
(** * Codecs of the element types

    The enumerations, primitives, names, counters, optional values and bounded
    sequences of [include/brf/codec.hpp] and [src/codec.cpp]; every pair is an
    instance of [Codec].  The record codecs of [Codec] and [CodecReports] are
    built from these. *)
From S2P Require Import Prelude Errors Containers Identity Hash Bandwidth Time Authority Wire Policy Capacity Reservation Outcome SegTree Index Durable.

(** ** Enumerations: one or two bytes, unknown numbers refused *)
Definition encode_BindingKind (v : BindingKind) : bytes := w_u8 (BindingKind_to_Z v).
Definition decode_BindingKind : rd BindingKind :=
  let! raw := r_u8 in
  refuse! raw >? 1 with kCorrupt in
  rret (if raw =? 0 then kResources else kPath).

Definition encode_GuaranteeClass (v : GuaranteeClass) : bytes := w_u8 (GuaranteeClass_to_Z v).
Definition decode_GuaranteeClass : rd GuaranteeClass :=
  let! raw := r_u8 in
  refuse! raw >? 3 with kCorrupt in
  rret (nth (Z.to_nat raw) [kScavenger; kPreemptible; kProtected; kGuaranteed] kScavenger).

Definition encode_ReservationState (v : ReservationState) : bytes := w_u8 (ReservationState_to_Z v).
Definition decode_ReservationState : rd ReservationState :=
  let! raw := r_u8 in
  refuse! raw >? 14 with kCorrupt in
  rret (nth (Z.to_nat raw) ReservationState_all kDeclared).

Definition encode_Applicability (v : Applicability) : bytes := w_u8 (Applicability_to_Z v).
Definition decode_Applicability : rd Applicability :=
  let! raw := r_u8 in
  refuse! raw >? 2 with kCorrupt in
  rret (nth (Z.to_nat raw) [ap_kCurrent; ap_kRevalidationRequired; ap_kStale] ap_kCurrent).

Definition encode_ApplicabilityReason (v : ApplicabilityReason) : bytes :=
  w_u8 (ApplicabilityReason_to_Z v).
Definition decode_ApplicabilityReason : rd ApplicabilityReason :=
  let! raw := r_u8 in
  refuse! raw >? 8 with kCorrupt in
  rret (nth (Z.to_nat raw)
    [ ar_kCurrent; ar_kResourceGenerationChanged; ar_kResourceWithdrawn;
      ar_kPathGenerationChanged; ar_kPathRetired; ar_kMaintenanceWindowAdded;
      ar_kPolicyMaterialChange; ar_kFailureDomainGenerationChanged;
      ar_kCapacityReducedBelowCommitments ] ar_kCurrent).

Definition encode_AdmissionOutcome (v : AdmissionOutcome) : bytes := w_u8 (AdmissionOutcome_to_Z v).
Definition decode_AdmissionOutcome : rd AdmissionOutcome :=
  let! raw := r_u8 in
  refuse! raw >? 15 with kCorrupt in
  rret (nth (Z.to_nat raw) (map snd kOutcomes) ao_kCommittable).

Definition encode_ErrorCode (v : ErrorCode) : bytes := w_u16 (ErrorCode_to_Z v).
Definition decode_ErrorCode : rd ErrorCode :=
  let! raw := r_u16 in
  refuse! raw >? ErrorCode_to_Z kInternal with kCorrupt in
  rret (nth (Z.to_nat raw) ErrorCode_all kOk).

Definition encode_RecordKind (v : RecordKind) : bytes := w_u16 (RecordKind_to_Z v).
Definition decode_RecordKind : rd RecordKind :=
  let! raw := r_u16 in
  refuse! (raw <? 1) || (raw >? 14) with kCorrupt in
  rret (nth (Z.to_nat (raw - 1)) RecordKind_all kFabricBoot).

Definition encode_HolderKind (v : HolderKind) : bytes := w_u8 (HolderKind_to_Z v).
Definition decode_HolderKind : rd HolderKind :=
  let! raw := r_u8 in
  refuse! raw >? 1 with kCorrupt in
  rret (if raw =? 0 then kReservation else kHold).

(** ** Primitives *)
Definition encode_Identity128 (v : Identity128) : bytes := w_fixed128 v.
Definition decode_Identity128 : rd Identity128 :=
  let! raw := r_fixed128 in rret raw.

Definition encode_Interval (v : Interval) : bytes := w_i64 (ns (start v)) ++ w_i64 (ns (end_ v)).
Definition decode_Interval : rd Interval :=
  let! start := r_i64 in
  let! end_ := r_i64 in
  rret (mkInterval (mkTs start) (mkTs end_)).

Definition encode_Bandwidth (v : Bandwidth) : bytes := w_i64 (bps v).
Definition decode_Bandwidth : rd Bandwidth :=
  let! raw := r_i64 in rret (mkBandwidth raw).

Definition encode_Duration (v : Duration) : bytes := w_i64 (dur_ns v).
Definition decode_Duration : rd Duration :=
  let! raw := r_i64 in rret (mkDur raw).

Definition encode_Timestamp (v : Timestamp) : bytes := w_i64 (ns v).
Definition decode_Timestamp : rd Timestamp :=
  let! raw := r_i64 in rret (mkTs raw).

Definition encode_Counter {t} (v : Counter t) : bytes := w_u64 (value v).
Definition decode_Counter {t} : rd (Counter t) :=
  let! raw := r_u64 in rret (mkCounter raw).

Definition encode_FixedName {cap} (v : FixedName cap) : bytes := w_text (name_view v).

(** The empty text is the absent name; any other must be a legal one. *)
Definition decode_FixedName {cap} : rd (FixedName cap) :=
  let! raw := r_text cap in
  if Z.of_nat (length raw) =? 0 then rret empty_name
  else fun s => let? parsed := name_from_string raw in Ok (parsed, s).

(** [has_x] followed by [x] when it is set. *)
Definition encode_optional {A} (enc : A -> bytes) (v : option A) : bytes :=
  w_boolean (match v with Some _ => true | None => false end) ++
  match v with Some x => enc x | None => [] end.
Definition decode_optional {A} (dec : rd A) : rd (option A) :=
  let! present := r_boolean in
  if present then let! x := dec in rret (Some x) else rret None.

(** ** Sequences *)
Definition encode_list {A} (enc : A -> bytes) (items : list A) : bytes :=
  w_count (Z.of_nat (length items)) ++ flat_map enc items.

Fixpoint decode_items {A} (dec : rd A) (n : nat) : rd (list A) :=
  match n with
  | O => rret []
  | S n => let! item := dec in let! items := decode_items dec n in rret (item :: items)
  end.

(** The bound is enforced before anything is read. *)
Definition decode_list {A} (dec : rd A) : rd (list A) :=
  let! count := r_u32 in
  refuse! count >? kMaxCollectionItems with kResourceExhausted in
  decode_items dec (Z.to_nat count).

(** ** What the decoders accept *)
Definition optional_ok {A} (ok : A -> bool) (v : option A) : bool :=
  match v with Some x => ok x | None => true end.

Definition list_ok {A} (ok : A -> bool) (items : list A) : bool :=
  (Z.of_nat (length items) <=? kMaxCollectionItems) && forallb ok items.

(** ** The codec laws *)

(** An enumeration is a codec when its numbers are the accepted ones. *)
Lemma Codec_enum {A} w r ok (C : Codec w r ok) (to_Z : A -> Z) (bad : Z -> bool) (of_Z : Z -> A) :
  (forall v, ok (to_Z v) = true /\ bad (to_Z v) = false /\ of_Z (to_Z v) = v) ->
  (forall z, ok z = true -> bad z = false -> to_Z (of_Z z) = z) ->
  Codec (fun v => w (to_Z v))
        (let! raw := r in refuse! bad raw with kCorrupt in rret (of_Z raw)) always.
Proof.
  intros F B. constructor.
  - intros v rest _. destruct (F v) as (O & N & E). rewrite rd_bind_enc by exact O.
    rewrite rd_refuse_pass by (rewrite N; reflexivity). rewrite E. reflexivity.
  - intros bs v rest H. rd_inv H. rd_inv H. rd_inv H. apply negb_true_iff in H1.
    rewrite (B v0) by assumption. auto.
Qed.

Lemma u_ok_upto n hi (f : Z -> bool) :
  all_below f hi 0 = true ->
  forall z, u_ok n z = true -> (z >? Zpos hi - 1) = false -> f z = true.
Proof.
  intros A z U B. unfold u_ok in U. bool_prop.
  apply (all_below_spec _ _ _ _ A). lia.
Qed.

Ltac solve_enum hi C :=
  refine (Codec_enum _ _ _ C _ _ _ _ _);
  [ intros []; vm_compute; auto
  | intros z U B; apply Z.eqb_eq;
    match goal with
    | |- (?l =? _) = true =>
        let f := eval pattern z in l in
        match f with ?g _ => apply (u_ok_upto _ hi (fun z => g z =? z) eq_refl _ U B) end
    end ].

#[export] Instance Codec_BindingKind : Codec encode_BindingKind decode_BindingKind always.
Proof. solve_enum 2%positive Codec_u8. Qed.
#[export] Instance Codec_GuaranteeClass : Codec encode_GuaranteeClass decode_GuaranteeClass always.
Proof. solve_enum 4%positive Codec_u8. Qed.
#[export] Instance Codec_ReservationState :
  Codec encode_ReservationState decode_ReservationState always.
Proof. solve_enum 15%positive Codec_u8. Qed.
#[export] Instance Codec_Applicability : Codec encode_Applicability decode_Applicability always.
Proof. solve_enum 3%positive Codec_u8. Qed.
#[export] Instance Codec_ApplicabilityReason :
  Codec encode_ApplicabilityReason decode_ApplicabilityReason always.
Proof. solve_enum 9%positive Codec_u8. Qed.
#[export] Instance Codec_AdmissionOutcome :
  Codec encode_AdmissionOutcome decode_AdmissionOutcome always.
Proof. solve_enum 16%positive Codec_u8. Qed.
#[export] Instance Codec_ErrorCode : Codec encode_ErrorCode decode_ErrorCode always.
Proof. solve_enum 28%positive Codec_u16. Qed.
#[export] Instance Codec_HolderKind : Codec encode_HolderKind decode_HolderKind always.
Proof. solve_enum 2%positive Codec_u8. Qed.

#[export] Instance Codec_RecordKind : Codec encode_RecordKind decode_RecordKind always.
Proof.
  refine (Codec_enum _ _ _ Codec_u16 _ _ _ _ _).
  - intros []; vm_compute; auto.
  - intros z _ B. apply Z.eqb_eq. bool_prop.
    apply (all_below_spec
      (fun z => RecordKind_to_Z (nth (Z.to_nat (z - 1)) RecordKind_all kFabricBoot) =? z) 14 1);
      [reflexivity | lia].
Qed.

#[export] Instance Codec_Identity128 : Codec encode_Identity128 decode_Identity128 id_ok.
Proof. solve_codec encode_Identity128 decode_Identity128 id_ok. Qed.
#[export] Instance Codec_Bandwidth : Codec encode_Bandwidth decode_Bandwidth bandwidth_ok.
Proof. solve_codec encode_Bandwidth decode_Bandwidth bandwidth_ok. Qed.
#[export] Instance Codec_Duration : Codec encode_Duration decode_Duration dur_ok.
Proof. solve_codec encode_Duration decode_Duration dur_ok. Qed.
#[export] Instance Codec_Timestamp : Codec encode_Timestamp decode_Timestamp ts_ok.
Proof. solve_codec encode_Timestamp decode_Timestamp ts_ok. Qed.
#[export] Instance Codec_Counter t : Codec (@encode_Counter t) decode_Counter counter_ok.
Proof. solve_codec @encode_Counter @decode_Counter @counter_ok. Qed.

#[export] Instance Codec_Interval : Codec encode_Interval decode_Interval interval_ok.
Proof.
  constructor.
  - intros [[a] [b]] rest W. unfold interval_ok, ts_ok in W. split_andb.
    unfold encode_Interval, decode_Interval. cbn [ns start end_] in *.
    rewrite <- app_assoc. repeat rd_step. reflexivity.
  - intros bs v rest H. unfold decode_Interval in H. repeat rd_inv H.
    unfold encode_Interval, interval_ok, ts_ok. rewrite <- app_assoc. split; [reflexivity|].
    apply andb_true_iff. auto.
Qed.

Lemma name_from_string_id {cap} text (n : FixedName cap) :
  name_from_string text = Ok n -> n = mkName text /\ Z.of_nat (length text) <= cap /\ text <> [].
Proof.
  unfold name_from_string. intros H. inv_result. bool_prop.
  repeat split; [assumption|]. intros ->. contradiction.
Qed.

#[export] Instance Codec_FixedName cap (B : TCEq ((0 <=? cap) && (cap <? 2 ^ 32)) true) :
  Codec (@encode_FixedName cap) decode_FixedName name_ok.
Proof.
  assert (0 <= cap /\ TCEq (cap <? 2 ^ 32) true) as [P Q].
  { apply TCEq_eq in B. split_andb. split; [now apply Z.leb_le | now apply TCEq_eq]. }
  clear B. constructor.
  - intros [t] rest W. unfold encode_FixedName, decode_FixedName. cbn [name_view].
    unfold name_ok, name_empty in W. cbn [name_view] in W.
    destruct (Z.of_nat (length t) =? 0) eqn:N.
    + rewrite rd_bind_enc by (unfold text_ok; bool_prop; bool_goal; lia).
      rewrite N. destruct t; [reflexivity | discriminate].
    + cbn [orb] in W. destruct (name_from_string t) as [n|] eqn:F; [|discriminate].
      destruct (name_from_string_id _ _ F) as (-> & L & _).
      rewrite rd_bind_enc by (unfold text_ok; bool_goal; lia).
      rewrite N, F. reflexivity.
  - intros bs v rest H. unfold decode_FixedName in H. rd_inv H.
    unfold encode_FixedName, name_ok, name_empty. destruct (Z.of_nat (length v0) =? 0) eqn:N.
    + injection H as <- <-. destruct v0; [auto | discriminate].
    + destruct (name_from_string v0) as [n|] eqn:F; [|discriminate]. injection H as <- <-.
      destruct (name_from_string_id _ _ F) as (-> & _). cbn [name_view]. rewrite N, F. auto.
Qed.

#[export] Instance Codec_optional {A} enc dec ok (C : @Codec A enc dec ok) :
  Codec (encode_optional enc) (decode_optional dec) (optional_ok ok).
Proof.
  constructor.
  - intros v rest W. unfold encode_optional, decode_optional. rewrite <- app_assoc. rd_step.
    destruct v as [x|]; [|reflexivity]. rewrite rd_bind_enc by exact W. reflexivity.
  - intros bs v rest H. unfold decode_optional in H. rd_inv H.
    unfold encode_optional. destruct v0; repeat rd_inv H; rewrite <- ?app_assoc; auto.
Qed.

Lemma decode_items_enc {A} enc dec ok (C : @Codec A enc dec ok) items rest :
  forallb ok items = true ->
  decode_items dec (length items) (flat_map enc items ++ rest) = Ok (items, rest).
Proof.
  induction items as [|x items IH]; intros W; [reflexivity|].
  cbn [forallb] in W. split_andb. cbn [flat_map length decode_items]. rewrite <- app_assoc.
  rd_step. unfold rd_bind. rewrite IH by assumption. reflexivity.
Qed.

Lemma decode_items_inv {A} enc dec ok (C : @Codec A enc dec ok) n bs items rest :
  decode_items dec n bs = Ok (items, rest) ->
  bs = flat_map enc items ++ rest /\ forallb ok items = true /\ length items = n.
Proof.
  revert bs items rest. induction n as [|n IH]; intros bs items rest H; cbn [decode_items] in H.
  - injection H as <- <-. auto.
  - rd_inv H. unfold rd_bind in H. destruct (decode_items dec n s) as [[xs s']|] eqn:E; [|discriminate].
    injection H as <- <-. destruct (IH _ _ _ E) as (-> & F & L).
    cbn [flat_map forallb length]. rewrite <- app_assoc, F, L, H0. auto.
Qed.

#[export] Instance Codec_list {A} enc dec ok (C : @Codec A enc dec ok) :
  Codec (encode_list enc) (decode_list dec) (list_ok ok).
Proof.
  constructor.
  - intros items rest W. unfold list_ok, kMaxCollectionItems in W. split_andb. bool_prop.
    change (Z.shiftl 1 16) with 65536 in *. unfold encode_list, decode_list, w_count.
    assert (u_ok 32 (Z.of_nat (length items)) = true) as U by (unfold u_ok; bool_goal; lia).
    rewrite to_u_id, <- app_assoc by exact U. rd_step.
    rewrite rd_refuse_pass.
    + rewrite Nat2Z.id. eapply decode_items_enc; eassumption.
    + rewrite Z.gtb_ltb. change kMaxCollectionItems with 65536. bool_goal. lia.
  - intros bs items rest H. unfold decode_list in H. rd_inv H. rd_inv H.
    apply decode_items_inv with (enc := enc) (ok := ok) in H; [|exact C].
    destruct H as (-> & F & L). unfold encode_list, w_count, list_ok.
    unfold u_ok in H0. bool_prop. rewrite L, Z2Nat.id by assumption.
    rewrite to_u_id by (unfold u_ok; bool_goal; lia). rewrite <- app_assoc, F.
    split; [reflexivity|]. bool_goal; [lia | reflexivity].
Qed.
