(* ===== verification/Codec.v ===== *)
(** * Codecs of the domain and durable records

    The record codecs of [src/codec.cpp] in the order of the file, and the
    envelope of a durable record ([encode_record], [decode_record]).  [wf_X] is
    what [decode_X] accepts: every field representable and inside the bound its
    decoder enforces. *)
From S2P Require Import Prelude Errors Containers Identity Hash Bandwidth Time Authority Wire Policy Capacity Reservation Outcome SegTree Index Durable CodecBase.

(** *** [ResourceRef] *)
Definition encode_ResourceRef (v : ResourceRef) : bytes :=
  encode_FixedName (resource v) ++ encode_Counter (res_generation v).

Definition decode_ResourceRef : rd ResourceRef :=
  let! resource := decode_FixedName in
  let! res_generation := decode_Counter in
  rret (mkResourceRef resource res_generation).

Definition wf_ResourceRef (v : ResourceRef) : bool :=
  name_ok (resource v) && counter_ok (res_generation v).

(** *** [FailureDomainRef] *)
Definition encode_FailureDomainRef (v : FailureDomainRef) : bytes :=
  encode_FixedName (domain v) ++ encode_Counter (fd_generation v).

Definition decode_FailureDomainRef : rd FailureDomainRef :=
  let! domain := decode_FixedName in
  let! fd_generation := decode_Counter in
  rret (mkFailureDomainRef domain fd_generation).

Definition wf_FailureDomainRef (v : FailureDomainRef) : bool :=
  name_ok (domain v) && counter_ok (fd_generation v).

(** *** [AuthorityVector] *)
Definition encode_AuthorityVector (v : AuthorityVector) : bytes :=
  encode_Counter (av_fabric_epoch v) ++ encode_Counter (reservation_generation v) ++
  w_fixed128 (av_claimant v) ++ encode_Counter (av_claimant_generation v) ++
  w_fixed128 (capacity_snapshot v) ++ encode_Counter (capacity_generation v) ++
  encode_FixedName (av_policy v) ++ encode_Counter (policy_generation v) ++
  encode_Counter (path_generation v) ++ encode_list encode_ResourceRef (av_resources v) ++
  encode_list encode_FailureDomainRef (av_failure_domains v).

Definition decode_AuthorityVector : rd AuthorityVector :=
  let! av_fabric_epoch := decode_Counter in
  let! reservation_generation := decode_Counter in
  let! av_claimant := r_fixed128 in
  let! av_claimant_generation := decode_Counter in
  let! capacity_snapshot := r_fixed128 in
  let! capacity_generation := decode_Counter in
  let! av_policy := decode_FixedName in
  let! policy_generation := decode_Counter in
  let! path_generation := decode_Counter in
  let! av_resources := decode_list decode_ResourceRef in
  let! av_failure_domains := decode_list decode_FailureDomainRef in
  rret (mkAuthorityVector av_fabric_epoch reservation_generation av_claimant
    av_claimant_generation capacity_snapshot capacity_generation av_policy policy_generation
    path_generation av_resources av_failure_domains).

Definition wf_AuthorityVector (v : AuthorityVector) : bool :=
  counter_ok (av_fabric_epoch v) && counter_ok (reservation_generation v) &&
  id_ok (av_claimant v) && counter_ok (av_claimant_generation v) &&
  id_ok (capacity_snapshot v) && counter_ok (capacity_generation v) && name_ok (av_policy v) &&
  counter_ok (policy_generation v) && counter_ok (path_generation v) &&
  list_ok wf_ResourceRef (av_resources v) && list_ok wf_FailureDomainRef (av_failure_domains v).

(** *** [Provenance] *)
Definition encode_Provenance (v : Provenance) : bytes :=
  encode_FixedName (actor v) ++ w_fixed128 (publisher v) ++ w_fixed128 (publisher_boot v) ++
  w_fixed128 (session v) ++ w_fixed128 (attempt v) ++ encode_Counter (p_fabric_epoch v) ++
  w_fixed128 (coordinator_boot v) ++ encode_Timestamp (recorded_at v) ++
  encode_Counter (sequence v) ++ w_text (reason v).

Definition decode_Provenance : rd Provenance :=
  let! actor := decode_FixedName in
  let! publisher := r_fixed128 in
  let! publisher_boot := r_fixed128 in
  let! session := r_fixed128 in
  let! attempt := r_fixed128 in
  let! p_fabric_epoch := decode_Counter in
  let! coordinator_boot := r_fixed128 in
  let! recorded_at := decode_Timestamp in
  let! sequence := decode_Counter in
  let! reason := r_text kMaxProvenanceReasonBytes in
  rret (mkProvenance actor publisher publisher_boot session attempt p_fabric_epoch
    coordinator_boot recorded_at sequence reason).

Definition wf_Provenance (v : Provenance) : bool :=
  name_ok (actor v) && id_ok (publisher v) && id_ok (publisher_boot v) && id_ok (session v) &&
  id_ok (attempt v) && counter_ok (p_fabric_epoch v) && id_ok (coordinator_boot v) &&
  ts_ok (recorded_at v) && counter_ok (sequence v) &&
  text_ok kMaxProvenanceReasonBytes (reason v).

(** *** [MaintenanceWindow] *)
Definition encode_MaintenanceWindow (v : MaintenanceWindow) : bytes :=
  encode_Interval (mw_interval v) ++ w_text (mw_reason v).

Definition decode_MaintenanceWindow : rd MaintenanceWindow :=
  let! mw_interval := decode_Interval in
  let! mw_reason := r_text 256 in
  rret (mkMaintenanceWindow mw_interval mw_reason).

Definition wf_MaintenanceWindow (v : MaintenanceWindow) : bool :=
  interval_ok (mw_interval v) && text_ok 256 (mw_reason v).

(** *** [ResourceCapacity] *)
Definition encode_ResourceCapacity (v : ResourceCapacity) : bytes :=
  encode_FixedName (rc_resource v) ++ encode_Counter (rc_generation v) ++
  encode_Bandwidth (reservable_capacity v) ++ encode_Bandwidth (protected_headroom v) ++
  encode_FixedName (failure_domain v) ++ encode_Counter (failure_domain_generation v) ++
  encode_list encode_MaintenanceWindow (maintenance v).

Definition decode_ResourceCapacity : rd ResourceCapacity :=
  let! rc_resource := decode_FixedName in
  let! rc_generation := decode_Counter in
  let! reservable_capacity := decode_Bandwidth in
  let! protected_headroom := decode_Bandwidth in
  let! failure_domain := decode_FixedName in
  let! failure_domain_generation := decode_Counter in
  let! maintenance := decode_list decode_MaintenanceWindow in
  rret (mkResourceCapacity rc_resource rc_generation reservable_capacity protected_headroom
    failure_domain failure_domain_generation maintenance).

Definition wf_ResourceCapacity (v : ResourceCapacity) : bool :=
  name_ok (rc_resource v) && counter_ok (rc_generation v) &&
  bandwidth_ok (reservable_capacity v) && bandwidth_ok (protected_headroom v) &&
  name_ok (failure_domain v) && counter_ok (failure_domain_generation v) &&
  list_ok wf_MaintenanceWindow (maintenance v).

(** *** [CapacitySnapshot] *)
Definition encode_CapacitySnapshot (v : CapacitySnapshot) : bytes :=
  w_fixed128 (cs_id v) ++ encode_Counter (cs_generation v) ++
  encode_Counter (cs_fabric_epoch v) ++ encode_Timestamp (cs_ingested_at v) ++
  w_boolean (cs_complete v) ++ encode_list encode_ResourceCapacity (cs_resources v).

Definition decode_CapacitySnapshot : rd CapacitySnapshot :=
  let! cs_id := r_fixed128 in
  let! cs_generation := decode_Counter in
  let! cs_fabric_epoch := decode_Counter in
  let! cs_ingested_at := decode_Timestamp in
  let! cs_complete := r_boolean in
  let! cs_resources := decode_list decode_ResourceCapacity in
  rret (mkCapacitySnapshot cs_id cs_generation cs_fabric_epoch cs_ingested_at cs_complete
    cs_resources).

Definition wf_CapacitySnapshot (v : CapacitySnapshot) : bool :=
  id_ok (cs_id v) && counter_ok (cs_generation v) && counter_ok (cs_fabric_epoch v) &&
  ts_ok (cs_ingested_at v) && list_ok wf_ResourceCapacity (cs_resources v).

(** *** [PathAuthority] *)
Definition encode_PathAuthority (v : PathAuthority) : bytes :=
  encode_FixedName (pa_path v) ++ encode_Counter (pa_generation v) ++
  encode_list encode_FixedName (pa_components v) ++ encode_Timestamp (pa_issued_at v) ++
  w_boolean (pa_retired v).

Definition decode_PathAuthority : rd PathAuthority :=
  let! pa_path := decode_FixedName in
  let! pa_generation := decode_Counter in
  let! pa_components := decode_list decode_FixedName in
  let! pa_issued_at := decode_Timestamp in
  let! pa_retired := r_boolean in
  rret (mkPathAuthority pa_path pa_generation pa_components pa_issued_at pa_retired).

Definition wf_PathAuthority (v : PathAuthority) : bool :=
  name_ok (pa_path v) && counter_ok (pa_generation v) && list_ok name_ok (pa_components v) &&
  ts_ok (pa_issued_at v).

(** *** [PathAuthoritySnapshot] *)
Definition encode_PathAuthoritySnapshot (v : PathAuthoritySnapshot) : bytes :=
  w_fixed128 (ps_id v) ++ encode_Counter (ps_generation v) ++
  encode_Counter (ps_fabric_epoch v) ++ encode_Timestamp (ps_ingested_at v) ++
  w_boolean (ps_complete v) ++ encode_list encode_PathAuthority (ps_paths v).

Definition decode_PathAuthoritySnapshot : rd PathAuthoritySnapshot :=
  let! ps_id := r_fixed128 in
  let! ps_generation := decode_Counter in
  let! ps_fabric_epoch := decode_Counter in
  let! ps_ingested_at := decode_Timestamp in
  let! ps_complete := r_boolean in
  let! ps_paths := decode_list decode_PathAuthority in
  rret (mkPathAuthoritySnapshot ps_id ps_generation ps_fabric_epoch ps_ingested_at ps_complete
    ps_paths).

Definition wf_PathAuthoritySnapshot (v : PathAuthoritySnapshot) : bool :=
  id_ok (ps_id v) && counter_ok (ps_generation v) && counter_ok (ps_fabric_epoch v) &&
  ts_ok (ps_ingested_at v) && list_ok wf_PathAuthority (ps_paths v).

(** *** [PolicyRecord] *)
Definition encode_PolicyRecord (v : PolicyRecord) : bytes :=
  encode_FixedName (pr_name v) ++ encode_Counter (pr_generation v) ++
  encode_Timestamp (pr_ingested_at v) ++ w_boolean (allow_recall_guaranteed v) ++
  w_boolean (allow_recall_protected v) ++ w_boolean (allow_preemption_on_commit v) ++
  w_u32 (max_preemption_victims v) ++ encode_Duration (default_recall_grace v) ++
  w_boolean (allow_overcommit v) ++ encode_Bandwidth (overcommit_allowance v) ++
  encode_Bandwidth (minimum_reservation_amount v) ++ w_boolean (allow_past_start v) ++
  encode_Duration (max_future_horizon v) ++ encode_Bandwidth (max_extra_headroom v) ++
  w_boolean (auto_revalidate_on_generation_change v) ++ encode_Bandwidth (policy_headroom v) ++
  w_u32 (max_conflict_set v) ++ w_u32 (max_explanation_bytes v) ++
  w_u32 (max_series_members v) ++ encode_Duration (max_hold_ttl v) ++
  w_u32 (max_holds_per_session v) ++ encode_Bandwidth (max_hold_bandwidth v).

Definition decode_PolicyRecord : rd PolicyRecord :=
  let! pr_name := decode_FixedName in
  let! pr_generation := decode_Counter in
  let! pr_ingested_at := decode_Timestamp in
  let! allow_recall_guaranteed := r_boolean in
  let! allow_recall_protected := r_boolean in
  let! allow_preemption_on_commit := r_boolean in
  let! max_preemption_victims := r_u32 in
  refuse! max_preemption_victims >? 1024 with kCorrupt in
  let! default_recall_grace := decode_Duration in
  let! allow_overcommit := r_boolean in
  let! overcommit_allowance := decode_Bandwidth in
  let! minimum_reservation_amount := decode_Bandwidth in
  let! allow_past_start := r_boolean in
  let! max_future_horizon := decode_Duration in
  let! max_extra_headroom := decode_Bandwidth in
  let! auto_revalidate_on_generation_change := r_boolean in
  let! policy_headroom := decode_Bandwidth in
  let! max_conflict_set := r_u32 in
  refuse! (max_conflict_set =? 0) || (max_conflict_set >? 4096) with kCorrupt in
  let! max_explanation_bytes := r_u32 in
  refuse! (max_explanation_bytes <? 128) || (max_explanation_bytes >? 65536) with kCorrupt in
  let! max_series_members := r_u32 in
  refuse! (max_series_members =? 0) || (max_series_members >? 4096) with kCorrupt in
  let! max_hold_ttl := decode_Duration in
  let! max_holds_per_session := r_u32 in
  refuse! max_holds_per_session >? 4096 with kCorrupt in
  let! max_hold_bandwidth := decode_Bandwidth in
  rret (mkPolicyRecord pr_name pr_generation pr_ingested_at allow_recall_guaranteed
    allow_recall_protected allow_preemption_on_commit max_preemption_victims default_recall_grace
    allow_overcommit overcommit_allowance minimum_reservation_amount allow_past_start
    max_future_horizon max_extra_headroom auto_revalidate_on_generation_change policy_headroom
    max_conflict_set max_explanation_bytes max_series_members max_hold_ttl max_holds_per_session
    max_hold_bandwidth).

Definition wf_PolicyRecord (v : PolicyRecord) : bool :=
  name_ok (pr_name v) && counter_ok (pr_generation v) && ts_ok (pr_ingested_at v) &&
  u_ok 32 (max_preemption_victims v) && negb ((max_preemption_victims v) >? 1024) &&
  dur_ok (default_recall_grace v) && bandwidth_ok (overcommit_allowance v) &&
  bandwidth_ok (minimum_reservation_amount v) && dur_ok (max_future_horizon v) &&
  bandwidth_ok (max_extra_headroom v) && bandwidth_ok (policy_headroom v) &&
  u_ok 32 (max_conflict_set v) &&
  negb (((max_conflict_set v) =? 0) || ((max_conflict_set v) >? 4096)) &&
  u_ok 32 (max_explanation_bytes v) &&
  negb (((max_explanation_bytes v) <? 128) || ((max_explanation_bytes v) >? 65536)) &&
  u_ok 32 (max_series_members v) &&
  negb (((max_series_members v) =? 0) || ((max_series_members v) >? 4096)) &&
  dur_ok (max_hold_ttl v) && u_ok 32 (max_holds_per_session v) &&
  negb ((max_holds_per_session v) >? 4096) && bandwidth_ok (max_hold_bandwidth v).

(** *** [RecurrenceSpec] *)
Definition encode_RecurrenceSpec (v : RecurrenceSpec) : bytes :=
  w_boolean (enabled v) ++ encode_Duration (period v) ++ w_u32 (count v).

Definition decode_RecurrenceSpec : rd RecurrenceSpec :=
  let! enabled := r_boolean in
  let! period := decode_Duration in
  let! count := r_u32 in
  refuse! count >? 4096 with kCorrupt in
  rret (mkRecurrenceSpec enabled period count).

Definition wf_RecurrenceSpec (v : RecurrenceSpec) : bool :=
  dur_ok (period v) && u_ok 32 (count v) && negb ((count v) >? 4096).

(** *** [ReservationTerms] *)
Definition encode_ReservationTerms (v : ReservationTerms) : bytes :=
  w_fixed128 (claimant v) ++ encode_Counter (claimant_generation v) ++
  encode_BindingKind (binding_kind v) ++ encode_list encode_FixedName (resources v) ++
  encode_FixedName (path v) ++ encode_Counter (required_path_generation v) ++
  encode_Interval (interval v) ++ encode_Bandwidth (amount v) ++
  encode_optional encode_Bandwidth (minimum_amount v) ++
  encode_optional encode_Bandwidth (maximum_amount v) ++ encode_GuaranteeClass (guarantee v) ++
  w_u32 (priority v) ++ w_boolean (preemptible v) ++ w_boolean (recall_permitted v) ++
  encode_Duration (grace v) ++ encode_Bandwidth (headroom_requirement v) ++
  encode_FixedName (policy v) ++ encode_list w_text (policy_labels v) ++
  encode_RecurrenceSpec (recurrence v).

Definition decode_ReservationTerms : rd ReservationTerms :=
  let! claimant := r_fixed128 in
  let! claimant_generation := decode_Counter in
  let! binding_kind := decode_BindingKind in
  let! resources := decode_list decode_FixedName in
  let! path := decode_FixedName in
  let! required_path_generation := decode_Counter in
  let! interval := decode_Interval in
  let! amount := decode_Bandwidth in
  let! minimum_amount := decode_optional decode_Bandwidth in
  let! maximum_amount := decode_optional decode_Bandwidth in
  let! guarantee := decode_GuaranteeClass in
  let! priority := r_u32 in
  refuse! priority >? kMaxPriority with kCorrupt in
  let! preemptible := r_boolean in
  let! recall_permitted := r_boolean in
  let! grace := decode_Duration in
  let! headroom_requirement := decode_Bandwidth in
  let! policy := decode_FixedName in
  let! policy_labels := decode_list (r_text kMaxTextBytes) in
  refuse! Z.of_nat (length policy_labels) >? kMaxPolicyLabels with kResourceExhausted in
  refuse! existsb (fun label => Z.of_nat (length label) >? kMaxLabelBytes) policy_labels with kCorrupt in
  let! recurrence := decode_RecurrenceSpec in
  rret (mkReservationTerms claimant claimant_generation binding_kind resources path
    required_path_generation interval amount minimum_amount maximum_amount guarantee priority
    preemptible recall_permitted grace headroom_requirement policy policy_labels recurrence).

Definition wf_ReservationTerms (v : ReservationTerms) : bool :=
  id_ok (claimant v) && counter_ok (claimant_generation v) && list_ok name_ok (resources v) &&
  name_ok (path v) && counter_ok (required_path_generation v) && interval_ok (interval v) &&
  bandwidth_ok (amount v) && optional_ok bandwidth_ok (minimum_amount v) &&
  optional_ok bandwidth_ok (maximum_amount v) && u_ok 32 (priority v) &&
  negb ((priority v) >? kMaxPriority) && dur_ok (grace v) &&
  bandwidth_ok (headroom_requirement v) && name_ok (policy v) &&
  list_ok (text_ok kMaxTextBytes) (policy_labels v) &&
  negb (Z.of_nat (length (policy_labels v)) >? kMaxPolicyLabels) &&
  negb (existsb (fun label => Z.of_nat (length label) >? kMaxLabelBytes) (policy_labels v)) &&
  wf_RecurrenceSpec (recurrence v).

(** *** [ReservationRecord] *)
Definition encode_ReservationRecord (v : ReservationRecord) : bytes :=
  w_fixed128 (rr_id v) ++ encode_Counter (rr_generation v) ++ w_boolean (series_member v) ++
  w_fixed128 (rr_series v) ++ encode_Counter (series_index v) ++
  encode_ReservationTerms (terms v) ++ encode_AuthorityVector (authority v) ++
  encode_ReservationState (rr_state v) ++ encode_Applicability (rr_applicability v) ++
  encode_ApplicabilityReason (rr_applicability_reason v) ++ encode_Timestamp (declared_at v) ++
  encode_Timestamp (committed_at v) ++ encode_Timestamp (activated_at v) ++
  encode_Timestamp (rr_state_changed_at v) ++ encode_Timestamp (rr_recall_effective_at v) ++
  encode_Duration (recall_grace v) ++ encode_Timestamp (terminated_at v) ++
  w_fixed128 (rr_predecessor v) ++ encode_Counter (rr_predecessor_generation v) ++
  w_text (state_reason v) ++ encode_Provenance (rr_last_provenance v) ++
  encode_Counter (rr_sequence v).

Definition decode_ReservationRecord : rd ReservationRecord :=
  let! rr_id := r_fixed128 in
  let! rr_generation := decode_Counter in
  let! series_member := r_boolean in
  let! rr_series := r_fixed128 in
  let! series_index := decode_Counter in
  let! terms := decode_ReservationTerms in
  let! authority := decode_AuthorityVector in
  let! rr_state := decode_ReservationState in
  let! rr_applicability := decode_Applicability in
  let! rr_applicability_reason := decode_ApplicabilityReason in
  let! declared_at := decode_Timestamp in
  let! committed_at := decode_Timestamp in
  let! activated_at := decode_Timestamp in
  let! rr_state_changed_at := decode_Timestamp in
  let! rr_recall_effective_at := decode_Timestamp in
  let! recall_grace := decode_Duration in
  let! terminated_at := decode_Timestamp in
  let! rr_predecessor := r_fixed128 in
  let! rr_predecessor_generation := decode_Counter in
  let! state_reason := r_text kMaxProvenanceReasonBytes in
  let! rr_last_provenance := decode_Provenance in
  let! rr_sequence := decode_Counter in
  rret (mkReservationRecord rr_id rr_generation series_member rr_series series_index terms
    authority rr_state rr_applicability rr_applicability_reason declared_at committed_at
    activated_at rr_state_changed_at rr_recall_effective_at recall_grace terminated_at
    rr_predecessor rr_predecessor_generation state_reason rr_last_provenance rr_sequence).

Definition wf_ReservationRecord (v : ReservationRecord) : bool :=
  id_ok (rr_id v) && counter_ok (rr_generation v) && id_ok (rr_series v) &&
  counter_ok (series_index v) && wf_ReservationTerms (terms v) &&
  wf_AuthorityVector (authority v) && ts_ok (declared_at v) && ts_ok (committed_at v) &&
  ts_ok (activated_at v) && ts_ok (rr_state_changed_at v) && ts_ok (rr_recall_effective_at v) &&
  dur_ok (recall_grace v) && ts_ok (terminated_at v) && id_ok (rr_predecessor v) &&
  counter_ok (rr_predecessor_generation v) &&
  text_ok kMaxProvenanceReasonBytes (state_reason v) && wf_Provenance (rr_last_provenance v) &&
  counter_ok (rr_sequence v).

(** *** [SupersessionEdge] *)
Definition encode_SupersessionEdge (v : SupersessionEdge) : bytes :=
  w_fixed128 (se_predecessor v) ++ encode_Counter (se_predecessor_generation v) ++
  w_fixed128 (successor v) ++ encode_Counter (successor_generation v) ++
  encode_Timestamp (se_recorded_at v) ++ encode_Counter (se_sequence v) ++ w_text (se_reason v).

Definition decode_SupersessionEdge : rd SupersessionEdge :=
  let! se_predecessor := r_fixed128 in
  let! se_predecessor_generation := decode_Counter in
  let! successor := r_fixed128 in
  let! successor_generation := decode_Counter in
  let! se_recorded_at := decode_Timestamp in
  let! se_sequence := decode_Counter in
  let! se_reason := r_text kMaxProvenanceReasonBytes in
  rret (mkSupersessionEdge se_predecessor se_predecessor_generation successor
    successor_generation se_recorded_at se_sequence se_reason).

Definition wf_SupersessionEdge (v : SupersessionEdge) : bool :=
  id_ok (se_predecessor v) && counter_ok (se_predecessor_generation v) && id_ok (successor v) &&
  counter_ok (successor_generation v) && ts_ok (se_recorded_at v) &&
  counter_ok (se_sequence v) && text_ok kMaxProvenanceReasonBytes (se_reason v).

(** *** [ReservationSeries] *)
Definition encode_ReservationSeries (v : ReservationSeries) : bytes :=
  w_fixed128 (rs_id v) ++ encode_Counter (rs_generation v) ++ w_fixed128 (rs_claimant v) ++
  encode_Counter (rs_claimant_generation v) ++ encode_RecurrenceSpec (rs_spec v) ++
  encode_Interval (first_interval v) ++ encode_Bandwidth (rs_amount v) ++
  encode_ReservationState (rs_state v) ++ encode_Timestamp (rs_created_at v) ++
  encode_Timestamp (rs_state_changed_at v) ++ w_fixed128 (predecessor_series_generation v) ++
  encode_Counter (rs_predecessor_generation v) ++ encode_list encode_Identity128 (members v) ++
  encode_Provenance (rs_last_provenance v) ++ encode_Counter (rs_sequence v).

Definition decode_ReservationSeries : rd ReservationSeries :=
  let! rs_id := r_fixed128 in
  let! rs_generation := decode_Counter in
  let! rs_claimant := r_fixed128 in
  let! rs_claimant_generation := decode_Counter in
  let! rs_spec := decode_RecurrenceSpec in
  let! first_interval := decode_Interval in
  let! rs_amount := decode_Bandwidth in
  let! rs_state := decode_ReservationState in
  let! rs_created_at := decode_Timestamp in
  let! rs_state_changed_at := decode_Timestamp in
  let! predecessor_series_generation := r_fixed128 in
  let! rs_predecessor_generation := decode_Counter in
  let! members := decode_list decode_Identity128 in
  let! rs_last_provenance := decode_Provenance in
  let! rs_sequence := decode_Counter in
  rret (mkReservationSeries rs_id rs_generation rs_claimant rs_claimant_generation rs_spec
    first_interval rs_amount rs_state rs_created_at rs_state_changed_at
    predecessor_series_generation rs_predecessor_generation members rs_last_provenance
    rs_sequence).

Definition wf_ReservationSeries (v : ReservationSeries) : bool :=
  id_ok (rs_id v) && counter_ok (rs_generation v) && id_ok (rs_claimant v) &&
  counter_ok (rs_claimant_generation v) && wf_RecurrenceSpec (rs_spec v) &&
  interval_ok (first_interval v) && bandwidth_ok (rs_amount v) && ts_ok (rs_created_at v) &&
  ts_ok (rs_state_changed_at v) && id_ok (predecessor_series_generation v) &&
  counter_ok (rs_predecessor_generation v) && list_ok id_ok (members v) &&
  wf_Provenance (rs_last_provenance v) && counter_ok (rs_sequence v).

(** *** [HoldRecord] *)
Definition encode_HoldRecord (v : HoldRecord) : bytes :=
  w_fixed128 (hr_id v) ++ encode_Counter (hr_generation v) ++ w_fixed128 (hr_claimant v) ++
  encode_Counter (hr_claimant_generation v) ++ w_fixed128 (hr_session v) ++
  w_fixed128 (hr_boot v) ++ encode_Counter (hr_epoch v) ++
  encode_BindingKind (hr_binding_kind v) ++ encode_list encode_FixedName (hr_resources v) ++
  encode_FixedName (hr_path v) ++ encode_Counter (hr_path_generation v) ++
  encode_Interval (hr_interval v) ++ encode_Bandwidth (hr_amount v) ++
  encode_GuaranteeClass (hr_guarantee v) ++ encode_Timestamp (hr_created_at v) ++
  encode_Timestamp (expires_at v) ++ w_boolean (released v) ++
  encode_Timestamp (released_at v) ++ w_text (release_reason v).

Definition decode_HoldRecord : rd HoldRecord :=
  let! hr_id := r_fixed128 in
  let! hr_generation := decode_Counter in
  let! hr_claimant := r_fixed128 in
  let! hr_claimant_generation := decode_Counter in
  let! hr_session := r_fixed128 in
  let! hr_boot := r_fixed128 in
  let! hr_epoch := decode_Counter in
  let! hr_binding_kind := decode_BindingKind in
  let! hr_resources := decode_list decode_FixedName in
  let! hr_path := decode_FixedName in
  let! hr_path_generation := decode_Counter in
  let! hr_interval := decode_Interval in
  let! hr_amount := decode_Bandwidth in
  let! hr_guarantee := decode_GuaranteeClass in
  let! hr_created_at := decode_Timestamp in
  let! expires_at := decode_Timestamp in
  let! released := r_boolean in
  let! released_at := decode_Timestamp in
  let! release_reason := r_text kMaxProvenanceReasonBytes in
  rret (mkHoldRecord hr_id hr_generation hr_claimant hr_claimant_generation hr_session hr_boot
    hr_epoch hr_binding_kind hr_resources hr_path hr_path_generation hr_interval hr_amount
    hr_guarantee hr_created_at expires_at released released_at release_reason).

Definition wf_HoldRecord (v : HoldRecord) : bool :=
  id_ok (hr_id v) && counter_ok (hr_generation v) && id_ok (hr_claimant v) &&
  counter_ok (hr_claimant_generation v) && id_ok (hr_session v) && id_ok (hr_boot v) &&
  counter_ok (hr_epoch v) && list_ok name_ok (hr_resources v) && name_ok (hr_path v) &&
  counter_ok (hr_path_generation v) && interval_ok (hr_interval v) &&
  bandwidth_ok (hr_amount v) && ts_ok (hr_created_at v) && ts_ok (expires_at v) &&
  ts_ok (released_at v) && text_ok kMaxProvenanceReasonBytes (release_reason v).

(** *** [RequestContext] *)
Definition encode_RequestContext (v : RequestContext) : bytes :=
  encode_FixedName (rq_actor v) ++ w_fixed128 (rq_publisher v) ++
  w_fixed128 (rq_publisher_boot v) ++ w_fixed128 (rq_session v) ++ w_fixed128 (rq_attempt v) ++
  w_fixed128 (rq_claimant v) ++ encode_Counter (rq_claimant_generation v) ++
  encode_Counter (asserted_epoch v) ++ w_text (rq_reason v).

Definition decode_RequestContext : rd RequestContext :=
  let! rq_actor := decode_FixedName in
  let! rq_publisher := r_fixed128 in
  let! rq_publisher_boot := r_fixed128 in
  let! rq_session := r_fixed128 in
  let! rq_attempt := r_fixed128 in
  let! rq_claimant := r_fixed128 in
  let! rq_claimant_generation := decode_Counter in
  let! asserted_epoch := decode_Counter in
  let! rq_reason := r_text kMaxProvenanceReasonBytes in
  rret (mkRequestContext rq_actor rq_publisher rq_publisher_boot rq_session rq_attempt
    rq_claimant rq_claimant_generation asserted_epoch rq_reason).

Definition wf_RequestContext (v : RequestContext) : bool :=
  name_ok (rq_actor v) && id_ok (rq_publisher v) && id_ok (rq_publisher_boot v) &&
  id_ok (rq_session v) && id_ok (rq_attempt v) && id_ok (rq_claimant v) &&
  counter_ok (rq_claimant_generation v) && counter_ok (asserted_epoch v) &&
  text_ok kMaxProvenanceReasonBytes (rq_reason v).

(** *** [AttemptMutation] *)
Definition encode_AttemptMutation (v : AttemptMutation) : bytes :=
  w_fixed128 (at_attempt v) ++ w_fixed128 (fingerprint v) ++
  encode_AdmissionOutcome (at_outcome v) ++ w_fixed128 (at_reservation v) ++
  encode_Counter (at_generation v) ++ encode_Counter (result_sequence v) ++
  w_fixed128 (at_claimant v) ++ encode_Timestamp (at_at v).

Definition decode_AttemptMutation : rd AttemptMutation :=
  let! at_attempt := r_fixed128 in
  let! fingerprint := r_fixed128 in
  let! at_outcome := decode_AdmissionOutcome in
  let! at_reservation := r_fixed128 in
  let! at_generation := decode_Counter in
  let! result_sequence := decode_Counter in
  let! at_claimant := r_fixed128 in
  let! at_at := decode_Timestamp in
  rret (mkAttemptMutation at_attempt fingerprint at_outcome at_reservation at_generation
    result_sequence at_claimant at_at).

Definition wf_AttemptMutation (v : AttemptMutation) : bool :=
  id_ok (at_attempt v) && id_ok (fingerprint v) && id_ok (at_reservation v) &&
  counter_ok (at_generation v) && counter_ok (result_sequence v) && id_ok (at_claimant v) &&
  ts_ok (at_at v).

(** *** [StateMutation] *)
Definition encode_StateMutation (v : StateMutation) : bytes :=
  w_fixed128 (sm_id v) ++ encode_Counter (sm_generation v) ++
  encode_ReservationState (from_state v) ++ encode_ReservationState (to_state v) ++
  encode_Timestamp (sm_at v) ++ w_text (sm_reason v) ++ encode_Provenance (sm_provenance v) ++
  encode_Timestamp (sm_recall_effective_at v) ++
  encode_optional encode_AttemptMutation (sm_attempt v).

Definition decode_StateMutation : rd StateMutation :=
  let! sm_id := r_fixed128 in
  let! sm_generation := decode_Counter in
  let! from_state := decode_ReservationState in
  let! to_state := decode_ReservationState in
  let! sm_at := decode_Timestamp in
  let! sm_reason := r_text kMaxProvenanceReasonBytes in
  let! sm_provenance := decode_Provenance in
  let! sm_recall_effective_at := decode_Timestamp in
  let! sm_attempt := decode_optional decode_AttemptMutation in
  rret (mkStateMutation sm_id sm_generation from_state to_state sm_at sm_reason sm_provenance
    sm_recall_effective_at sm_attempt).

Definition wf_StateMutation (v : StateMutation) : bool :=
  id_ok (sm_id v) && counter_ok (sm_generation v) && ts_ok (sm_at v) &&
  text_ok kMaxProvenanceReasonBytes (sm_reason v) && wf_Provenance (sm_provenance v) &&
  ts_ok (sm_recall_effective_at v) && optional_ok wf_AttemptMutation (sm_attempt v).

(** *** [ReservationMutation] *)
Definition encode_ReservationMutation (v : ReservationMutation) : bytes :=
  encode_ReservationRecord (rm_record v) ++
  encode_optional encode_ReservationSeries (rm_series v) ++
  encode_list encode_ReservationRecord (rm_members v) ++
  encode_optional encode_SupersessionEdge (rm_edge v) ++ w_boolean (supersede_record v) ++
  encode_list encode_StateMutation (companions v) ++
  encode_optional encode_AttemptMutation (rm_attempt v).

Definition decode_ReservationMutation : rd ReservationMutation :=
  let! rm_record := decode_ReservationRecord in
  let! rm_series := decode_optional decode_ReservationSeries in
  let! rm_members := decode_list decode_ReservationRecord in
  let! rm_edge := decode_optional decode_SupersessionEdge in
  let! supersede_record := r_boolean in
  let! companions := decode_list decode_StateMutation in
  let! rm_attempt := decode_optional decode_AttemptMutation in
  rret (mkReservationMutation rm_record rm_series rm_members rm_edge supersede_record
    companions rm_attempt).

Definition wf_ReservationMutation (v : ReservationMutation) : bool :=
  wf_ReservationRecord (rm_record v) && optional_ok wf_ReservationSeries (rm_series v) &&
  list_ok wf_ReservationRecord (rm_members v) && optional_ok wf_SupersessionEdge (rm_edge v) &&
  list_ok wf_StateMutation (companions v) && optional_ok wf_AttemptMutation (rm_attempt v).

(** *** [ApplicabilityMutation] *)
Definition encode_ApplicabilityMutation (v : ApplicabilityMutation) : bytes :=
  w_fixed128 (apm_id v) ++ encode_Counter (apm_generation v) ++
  encode_Applicability (apm_applicability v) ++ encode_ApplicabilityReason (apm_reason v) ++
  encode_Timestamp (apm_at v).

Definition decode_ApplicabilityMutation : rd ApplicabilityMutation :=
  let! apm_id := r_fixed128 in
  let! apm_generation := decode_Counter in
  let! apm_applicability := decode_Applicability in
  let! apm_reason := decode_ApplicabilityReason in
  let! apm_at := decode_Timestamp in
  rret (mkApplicabilityMutation apm_id apm_generation apm_applicability apm_reason apm_at).

Definition wf_ApplicabilityMutation (v : ApplicabilityMutation) : bool :=
  id_ok (apm_id v) && counter_ok (apm_generation v) && ts_ok (apm_at v).

(** *** [EpochMutation] *)
Definition encode_EpochMutation (v : EpochMutation) : bytes :=
  encode_Counter (em_epoch v) ++ w_fixed128 (em_coordinator_boot v) ++ encode_Timestamp (em_at v).

Definition decode_EpochMutation : rd EpochMutation :=
  let! em_epoch := decode_Counter in
  let! em_coordinator_boot := r_fixed128 in
  let! em_at := decode_Timestamp in
  rret (mkEpochMutation em_epoch em_coordinator_boot em_at).

Definition wf_EpochMutation (v : EpochMutation) : bool :=
  counter_ok (em_epoch v) && id_ok (em_coordinator_boot v) && ts_ok (em_at v).

(** *** [FenceMutation] *)
Definition encode_FenceMutation (v : FenceMutation) : bytes :=
  w_fixed128 (fm_claimant v) ++ encode_Counter (fm_claimant_generation v) ++
  w_fixed128 (fm_boot v) ++ w_fixed128 (fm_session v) ++ encode_Timestamp (fm_at v) ++
  w_text (fm_reason v) ++ w_boolean (claimant_wide v).

Definition decode_FenceMutation : rd FenceMutation :=
  let! fm_claimant := r_fixed128 in
  let! fm_claimant_generation := decode_Counter in
  let! fm_boot := r_fixed128 in
  let! fm_session := r_fixed128 in
  let! fm_at := decode_Timestamp in
  let! fm_reason := r_text kMaxProvenanceReasonBytes in
  let! claimant_wide := r_boolean in
  rret (mkFenceMutation fm_claimant fm_claimant_generation fm_boot fm_session fm_at fm_reason
    claimant_wide).

Definition wf_FenceMutation (v : FenceMutation) : bool :=
  id_ok (fm_claimant v) && counter_ok (fm_claimant_generation v) && id_ok (fm_boot v) &&
  id_ok (fm_session v) && ts_ok (fm_at v) && text_ok kMaxProvenanceReasonBytes (fm_reason v).

(** *** [ClaimantMutation] *)
Definition encode_ClaimantMutation (v : ClaimantMutation) : bytes :=
  w_fixed128 (cm_claimant v) ++ encode_Counter (cm_generation v) ++ encode_Timestamp (cm_at v).

Definition decode_ClaimantMutation : rd ClaimantMutation :=
  let! cm_claimant := r_fixed128 in
  let! cm_generation := decode_Counter in
  let! cm_at := decode_Timestamp in
  rret (mkClaimantMutation cm_claimant cm_generation cm_at).

Definition wf_ClaimantMutation (v : ClaimantMutation) : bool :=
  id_ok (cm_claimant v) && counter_ok (cm_generation v) && ts_ok (cm_at v).

(** *** [OvercommitMutation] *)
Definition encode_OvercommitMutation (v : OvercommitMutation) : bytes :=
  encode_FixedName (om_resource v) ++ encode_Counter (om_generation v) ++
  encode_Bandwidth (om_committed_peak v) ++ encode_Bandwidth (om_ceiling v) ++
  encode_Interval (om_window v) ++ encode_Timestamp (om_at v) ++ w_boolean (resolved v).

Definition decode_OvercommitMutation : rd OvercommitMutation :=
  let! om_resource := decode_FixedName in
  let! om_generation := decode_Counter in
  let! om_committed_peak := decode_Bandwidth in
  let! om_ceiling := decode_Bandwidth in
  let! om_window := decode_Interval in
  let! om_at := decode_Timestamp in
  let! resolved := r_boolean in
  rret (mkOvercommitMutation om_resource om_generation om_committed_peak om_ceiling om_window
    om_at resolved).

Definition wf_OvercommitMutation (v : OvercommitMutation) : bool :=
  name_ok (om_resource v) && counter_ok (om_generation v) &&
  bandwidth_ok (om_committed_peak v) && bandwidth_ok (om_ceiling v) &&
  interval_ok (om_window v) && ts_ok (om_at v).

(** *** [RetireMutation] *)
Definition encode_RetireMutation (v : RetireMutation) : bytes :=
  encode_list encode_Identity128 (rt_ids v) ++ encode_list encode_Counter (rt_generations v) ++
  encode_Timestamp (rt_at v).

Definition decode_RetireMutation : rd RetireMutation :=
  let! rt_ids := decode_list decode_Identity128 in
  let! rt_generations := decode_list decode_Counter in
  refuse! negb (Z.of_nat (length rt_ids) =? Z.of_nat (length rt_generations)) with kCorrupt in
  let! rt_at := decode_Timestamp in
  rret (mkRetireMutation rt_ids rt_generations rt_at).

Definition wf_RetireMutation (v : RetireMutation) : bool :=
  list_ok id_ok (rt_ids v) && list_ok counter_ok (rt_generations v) &&
  negb (negb (Z.of_nat (length (rt_ids v)) =? Z.of_nat (length (rt_generations v)))) &&
  ts_ok (rt_at v).

(** *** [CapacityMutation] *)
Definition encode_CapacityMutation (v : CapacityMutation) : bytes :=
  encode_CapacitySnapshot (cpm_snapshot v) ++ encode_list encode_FixedName (withdrawals v).

Definition decode_CapacityMutation : rd CapacityMutation :=
  let! cpm_snapshot := decode_CapacitySnapshot in
  let! withdrawals := decode_list decode_FixedName in
  rret (mkCapacityMutation cpm_snapshot withdrawals).

Definition wf_CapacityMutation (v : CapacityMutation) : bool :=
  wf_CapacitySnapshot (cpm_snapshot v) && list_ok name_ok (withdrawals v).

(** *** [DurableRecord] *)
Definition encode_DurableRecord (v : DurableRecord) : bytes :=
  encode_RecordKind (record_kind v) ++
  match v with
  | DFabricBoot epoch => encode_EpochMutation epoch
  | DCapacitySnapshot capacity => encode_CapacityMutation capacity
  | DPathSnapshot path => encode_PathAuthoritySnapshot path
  | DPolicyRecord policy => encode_PolicyRecord policy
  | DReservationCommit reservation => encode_ReservationMutation reservation
  | DReservationAmend reservation => encode_ReservationMutation reservation
  | DReservationSeries reservation => encode_ReservationMutation reservation
  | DReservationState state => encode_StateMutation state
  | DReservationApplicability applicability => encode_ApplicabilityMutation applicability
  | DAttemptOutcome attempt => encode_AttemptMutation attempt
  | DOvercommit overcommit => encode_OvercommitMutation overcommit
  | DRetire retire => encode_RetireMutation retire
  | DFence fence => encode_FenceMutation fence
  | DClaimantRegistration claimant => encode_ClaimantMutation claimant
  end.

(** Reads a payload of type [A] into its case of the record. *)
Definition decode_case {A} (case : A -> DurableRecord) (dec : rd A) : rd DurableRecord :=
  let! v := dec in rret (case v).

Definition decode_DurableRecord : rd DurableRecord :=
  let! kind := decode_RecordKind in
  match kind with
  | kFabricBoot => decode_case DFabricBoot decode_EpochMutation
  | kCapacitySnapshot => decode_case DCapacitySnapshot decode_CapacityMutation
  | kPathSnapshot => decode_case DPathSnapshot decode_PathAuthoritySnapshot
  | kPolicyRecord => decode_case DPolicyRecord decode_PolicyRecord
  | kReservationCommit => decode_case DReservationCommit decode_ReservationMutation
  | kReservationAmend => decode_case DReservationAmend decode_ReservationMutation
  | kReservationSeries => decode_case DReservationSeries decode_ReservationMutation
  | kReservationState => decode_case DReservationState decode_StateMutation
  | kReservationApplicability => decode_case DReservationApplicability decode_ApplicabilityMutation
  | kAttemptOutcome => decode_case DAttemptOutcome decode_AttemptMutation
  | kOvercommit => decode_case DOvercommit decode_OvercommitMutation
  | kRetire => decode_case DRetire decode_RetireMutation
  | kFence => decode_case DFence decode_FenceMutation
  | kClaimantRegistration => decode_case DClaimantRegistration decode_ClaimantMutation
  end.

Definition wf_DurableRecord (v : DurableRecord) : bool :=
  match v with
  | DFabricBoot epoch => wf_EpochMutation epoch
  | DCapacitySnapshot capacity => wf_CapacityMutation capacity
  | DPathSnapshot path => wf_PathAuthoritySnapshot path
  | DPolicyRecord policy => wf_PolicyRecord policy
  | DReservationCommit r | DReservationAmend r | DReservationSeries r => wf_ReservationMutation r
  | DReservationState state => wf_StateMutation state
  | DReservationApplicability applicability => wf_ApplicabilityMutation applicability
  | DAttemptOutcome attempt => wf_AttemptMutation attempt
  | DOvercommit overcommit => wf_OvercommitMutation overcommit
  | DRetire retire => wf_RetireMutation retire
  | DFence fence => wf_FenceMutation fence
  | DClaimantRegistration claimant => wf_ClaimantMutation claimant
  end.

(** *** [SnapshotCapacityEntry] *)
Definition encode_SnapshotCapacityEntry (v : SnapshotCapacityEntry) : bytes :=
  encode_ResourceCapacity (sce_capacity v) ++ w_fixed128 (sce_snapshot v) ++
  encode_Timestamp (sce_ingested_at v) ++ w_boolean (sce_withdrawn v) ++
  encode_Timestamp (sce_withdrawn_at v) ++ encode_list encode_Counter (sce_prior_generations v).

Definition decode_SnapshotCapacityEntry : rd SnapshotCapacityEntry :=
  let! sce_capacity := decode_ResourceCapacity in
  let! sce_snapshot := r_fixed128 in
  let! sce_ingested_at := decode_Timestamp in
  let! sce_withdrawn := r_boolean in
  let! sce_withdrawn_at := decode_Timestamp in
  let! sce_prior_generations := decode_list decode_Counter in
  rret (mkSnapshotCapacityEntry sce_capacity sce_snapshot sce_ingested_at sce_withdrawn
    sce_withdrawn_at sce_prior_generations).

Definition wf_SnapshotCapacityEntry (v : SnapshotCapacityEntry) : bool :=
  wf_ResourceCapacity (sce_capacity v) && id_ok (sce_snapshot v) && ts_ok (sce_ingested_at v) &&
  ts_ok (sce_withdrawn_at v) && list_ok counter_ok (sce_prior_generations v).

(** *** [SnapshotPathEntry] *)
Definition encode_SnapshotPathEntry (v : SnapshotPathEntry) : bytes :=
  encode_PathAuthority (spe_path v) ++ w_fixed128 (spe_snapshot v) ++
  encode_Timestamp (spe_ingested_at v) ++ w_boolean (spe_retired v) ++
  encode_list encode_Counter (spe_prior_generations v).

Definition decode_SnapshotPathEntry : rd SnapshotPathEntry :=
  let! spe_path := decode_PathAuthority in
  let! spe_snapshot := r_fixed128 in
  let! spe_ingested_at := decode_Timestamp in
  let! spe_retired := r_boolean in
  let! spe_prior_generations := decode_list decode_Counter in
  rret (mkSnapshotPathEntry spe_path spe_snapshot spe_ingested_at spe_retired
    spe_prior_generations).

Definition wf_SnapshotPathEntry (v : SnapshotPathEntry) : bool :=
  wf_PathAuthority (spe_path v) && id_ok (spe_snapshot v) && ts_ok (spe_ingested_at v) &&
  list_ok counter_ok (spe_prior_generations v).

(** *** [SnapshotPolicyEntry] *)
Definition encode_SnapshotPolicyEntry (v : SnapshotPolicyEntry) : bytes :=
  encode_PolicyRecord (spo_record v) ++ encode_Timestamp (spo_ingested_at v) ++
  encode_list encode_Counter (spo_prior_generations v).

Definition decode_SnapshotPolicyEntry : rd SnapshotPolicyEntry :=
  let! spo_record := decode_PolicyRecord in
  let! spo_ingested_at := decode_Timestamp in
  let! spo_prior_generations := decode_list decode_Counter in
  rret (mkSnapshotPolicyEntry spo_record spo_ingested_at spo_prior_generations).

Definition wf_SnapshotPolicyEntry (v : SnapshotPolicyEntry) : bool :=
  wf_PolicyRecord (spo_record v) && ts_ok (spo_ingested_at v) &&
  list_ok counter_ok (spo_prior_generations v).

(** *** [SnapshotState] *)
Definition encode_SnapshotState (v : SnapshotState) : bytes :=
  encode_Counter (ss_epoch v) ++ w_fixed128 (ss_coordinator_boot v) ++
  encode_Counter (ss_sequence v) ++ encode_list encode_SnapshotCapacityEntry (ss_capacity v) ++
  encode_list encode_SnapshotPathEntry (ss_paths v) ++
  encode_list encode_SnapshotPolicyEntry (ss_policies v) ++
  encode_list encode_ReservationRecord (ss_reservations v) ++
  encode_list encode_ReservationSeries (ss_series v) ++
  encode_list encode_SupersessionEdge (ss_edges v) ++
  encode_list encode_AttemptMutation (ss_attempts v) ++
  encode_list encode_FenceMutation (ss_fences v) ++
  encode_list encode_ClaimantMutation (ss_claimants v) ++
  encode_list encode_OvercommitMutation (ss_overcommits v) ++
  encode_list encode_ReservationRecord (ss_retired v).

Definition decode_SnapshotState : rd SnapshotState :=
  let! ss_epoch := decode_Counter in
  let! ss_coordinator_boot := r_fixed128 in
  let! ss_sequence := decode_Counter in
  let! ss_capacity := decode_list decode_SnapshotCapacityEntry in
  let! ss_paths := decode_list decode_SnapshotPathEntry in
  let! ss_policies := decode_list decode_SnapshotPolicyEntry in
  let! ss_reservations := decode_list decode_ReservationRecord in
  let! ss_series := decode_list decode_ReservationSeries in
  let! ss_edges := decode_list decode_SupersessionEdge in
  let! ss_attempts := decode_list decode_AttemptMutation in
  let! ss_fences := decode_list decode_FenceMutation in
  let! ss_claimants := decode_list decode_ClaimantMutation in
  let! ss_overcommits := decode_list decode_OvercommitMutation in
  let! ss_retired := decode_list decode_ReservationRecord in
  rret (mkSnapshotState ss_epoch ss_coordinator_boot ss_sequence ss_capacity ss_paths
    ss_policies ss_reservations ss_series ss_edges ss_attempts ss_fences ss_claimants
    ss_overcommits ss_retired).

Definition wf_SnapshotState (v : SnapshotState) : bool :=
  counter_ok (ss_epoch v) && id_ok (ss_coordinator_boot v) && counter_ok (ss_sequence v) &&
  list_ok wf_SnapshotCapacityEntry (ss_capacity v) &&
  list_ok wf_SnapshotPathEntry (ss_paths v) && list_ok wf_SnapshotPolicyEntry (ss_policies v) &&
  list_ok wf_ReservationRecord (ss_reservations v) &&
  list_ok wf_ReservationSeries (ss_series v) && list_ok wf_SupersessionEdge (ss_edges v) &&
  list_ok wf_AttemptMutation (ss_attempts v) && list_ok wf_FenceMutation (ss_fences v) &&
  list_ok wf_ClaimantMutation (ss_claimants v) &&
  list_ok wf_OvercommitMutation (ss_overcommits v) && list_ok wf_ReservationRecord (ss_retired v).

(** ** The envelope of a durable record *)
Definition encode_record (record : DurableRecord) : bytes :=
  w_u16 kDurableFormatVersion ++ encode_DurableRecord record.

Definition decode_record (payload : bytes) (kind : RecordKind) : Result DurableRecord :=
  let? (version, s) := r_u16 payload in
  refuse_if negb (version =? kDurableFormatVersion) with kUnsupported in
  let? (record, s) := decode_DurableRecord s in
  refuse_if negb (beq (record_kind record) kind) with kCorrupt in
  refuse_if negb (r_exhausted s) with kCorrupt in
  Ok record.

(** ** The codec laws *)
#[export] Instance Codec_ResourceRef : Codec encode_ResourceRef decode_ResourceRef wf_ResourceRef.
Proof. solve_codec encode_ResourceRef decode_ResourceRef wf_ResourceRef. Qed.

#[export] Instance Codec_FailureDomainRef : Codec encode_FailureDomainRef decode_FailureDomainRef wf_FailureDomainRef.
Proof. solve_codec encode_FailureDomainRef decode_FailureDomainRef wf_FailureDomainRef. Qed.

#[export] Instance Codec_AuthorityVector : Codec encode_AuthorityVector decode_AuthorityVector wf_AuthorityVector.
Proof. solve_codec encode_AuthorityVector decode_AuthorityVector wf_AuthorityVector. Qed.

#[export] Instance Codec_Provenance : Codec encode_Provenance decode_Provenance wf_Provenance.
Proof. solve_codec encode_Provenance decode_Provenance wf_Provenance. Qed.

#[export] Instance Codec_MaintenanceWindow : Codec encode_MaintenanceWindow decode_MaintenanceWindow wf_MaintenanceWindow.
Proof. solve_codec encode_MaintenanceWindow decode_MaintenanceWindow wf_MaintenanceWindow. Qed.

#[export] Instance Codec_ResourceCapacity : Codec encode_ResourceCapacity decode_ResourceCapacity wf_ResourceCapacity.
Proof. solve_codec encode_ResourceCapacity decode_ResourceCapacity wf_ResourceCapacity. Qed.

#[export] Instance Codec_CapacitySnapshot : Codec encode_CapacitySnapshot decode_CapacitySnapshot wf_CapacitySnapshot.
Proof. solve_codec encode_CapacitySnapshot decode_CapacitySnapshot wf_CapacitySnapshot. Qed.

#[export] Instance Codec_PathAuthority : Codec encode_PathAuthority decode_PathAuthority wf_PathAuthority.
Proof. solve_codec encode_PathAuthority decode_PathAuthority wf_PathAuthority. Qed.

#[export] Instance Codec_PathAuthoritySnapshot : Codec encode_PathAuthoritySnapshot decode_PathAuthoritySnapshot wf_PathAuthoritySnapshot.
Proof. solve_codec encode_PathAuthoritySnapshot decode_PathAuthoritySnapshot wf_PathAuthoritySnapshot. Qed.

#[export] Instance Codec_PolicyRecord : Codec encode_PolicyRecord decode_PolicyRecord wf_PolicyRecord.
Proof. solve_codec encode_PolicyRecord decode_PolicyRecord wf_PolicyRecord. Qed.

#[export] Instance Codec_RecurrenceSpec : Codec encode_RecurrenceSpec decode_RecurrenceSpec wf_RecurrenceSpec.
Proof. solve_codec encode_RecurrenceSpec decode_RecurrenceSpec wf_RecurrenceSpec. Qed.

#[export] Instance Codec_ReservationTerms : Codec encode_ReservationTerms decode_ReservationTerms wf_ReservationTerms.
Proof. solve_codec encode_ReservationTerms decode_ReservationTerms wf_ReservationTerms. Qed.

#[export] Instance Codec_ReservationRecord : Codec encode_ReservationRecord decode_ReservationRecord wf_ReservationRecord.
Proof. solve_codec encode_ReservationRecord decode_ReservationRecord wf_ReservationRecord. Qed.

#[export] Instance Codec_SupersessionEdge : Codec encode_SupersessionEdge decode_SupersessionEdge wf_SupersessionEdge.
Proof. solve_codec encode_SupersessionEdge decode_SupersessionEdge wf_SupersessionEdge. Qed.

#[export] Instance Codec_ReservationSeries : Codec encode_ReservationSeries decode_ReservationSeries wf_ReservationSeries.
Proof. solve_codec encode_ReservationSeries decode_ReservationSeries wf_ReservationSeries. Qed.

#[export] Instance Codec_HoldRecord : Codec encode_HoldRecord decode_HoldRecord wf_HoldRecord.
Proof. solve_codec encode_HoldRecord decode_HoldRecord wf_HoldRecord. Qed.

#[export] Instance Codec_RequestContext : Codec encode_RequestContext decode_RequestContext wf_RequestContext.
Proof. solve_codec encode_RequestContext decode_RequestContext wf_RequestContext. Qed.

#[export] Instance Codec_AttemptMutation : Codec encode_AttemptMutation decode_AttemptMutation wf_AttemptMutation.
Proof. solve_codec encode_AttemptMutation decode_AttemptMutation wf_AttemptMutation. Qed.

#[export] Instance Codec_StateMutation : Codec encode_StateMutation decode_StateMutation wf_StateMutation.
Proof. solve_codec encode_StateMutation decode_StateMutation wf_StateMutation. Qed.

#[export] Instance Codec_ReservationMutation : Codec encode_ReservationMutation decode_ReservationMutation wf_ReservationMutation.
Proof. solve_codec encode_ReservationMutation decode_ReservationMutation wf_ReservationMutation. Qed.

#[export] Instance Codec_ApplicabilityMutation : Codec encode_ApplicabilityMutation decode_ApplicabilityMutation wf_ApplicabilityMutation.
Proof. solve_codec encode_ApplicabilityMutation decode_ApplicabilityMutation wf_ApplicabilityMutation. Qed.

#[export] Instance Codec_EpochMutation : Codec encode_EpochMutation decode_EpochMutation wf_EpochMutation.
Proof. solve_codec encode_EpochMutation decode_EpochMutation wf_EpochMutation. Qed.

#[export] Instance Codec_FenceMutation : Codec encode_FenceMutation decode_FenceMutation wf_FenceMutation.
Proof. solve_codec encode_FenceMutation decode_FenceMutation wf_FenceMutation. Qed.

#[export] Instance Codec_ClaimantMutation : Codec encode_ClaimantMutation decode_ClaimantMutation wf_ClaimantMutation.
Proof. solve_codec encode_ClaimantMutation decode_ClaimantMutation wf_ClaimantMutation. Qed.

#[export] Instance Codec_OvercommitMutation : Codec encode_OvercommitMutation decode_OvercommitMutation wf_OvercommitMutation.
Proof. solve_codec encode_OvercommitMutation decode_OvercommitMutation wf_OvercommitMutation. Qed.

#[export] Instance Codec_RetireMutation : Codec encode_RetireMutation decode_RetireMutation wf_RetireMutation.
Proof. solve_codec encode_RetireMutation decode_RetireMutation wf_RetireMutation. Qed.

#[export] Instance Codec_CapacityMutation : Codec encode_CapacityMutation decode_CapacityMutation wf_CapacityMutation.
Proof. solve_codec encode_CapacityMutation decode_CapacityMutation wf_CapacityMutation. Qed.

Lemma decode_case_enc {A} (case : A -> DurableRecord) enc dec ok (C : @Codec A enc dec ok) v rest :
  ok v = true -> decode_case case dec (enc v ++ rest) = Ok (case v, rest).
Proof. intros W. unfold decode_case. rd_step. reflexivity. Qed.

Lemma decode_case_inv {A} (case : A -> DurableRecord) enc dec ok (C : @Codec A enc dec ok) bs r rest :
  decode_case case dec bs = Ok (r, rest) ->
  exists v, r = case v /\ bs = enc v ++ rest /\ ok v = true.
Proof. unfold decode_case. intros H. repeat rd_inv H. eauto. Qed.

#[export] Instance Codec_DurableRecord :
  Codec encode_DurableRecord decode_DurableRecord wf_DurableRecord.
Proof.
  constructor.
  - intros v rest W. unfold encode_DurableRecord, decode_DurableRecord. rewrite <- app_assoc. rd_step.
    destruct v; cbn [record_kind wf_DurableRecord] in *;
      (eapply decode_case_enc; [typeclasses eauto | exact W]).
  - intros bs v rest H. unfold decode_DurableRecord in H. rd_inv H. unfold encode_DurableRecord.
    destruct v0; (eapply decode_case_inv in H; [|typeclasses eauto]; destruct H as (p & -> & -> & W));
      cbn [record_kind wf_DurableRecord]; rewrite <- app_assoc; auto.
Qed.

#[export] Instance Codec_SnapshotCapacityEntry : Codec encode_SnapshotCapacityEntry decode_SnapshotCapacityEntry wf_SnapshotCapacityEntry.
Proof. solve_codec encode_SnapshotCapacityEntry decode_SnapshotCapacityEntry wf_SnapshotCapacityEntry. Qed.

#[export] Instance Codec_SnapshotPathEntry : Codec encode_SnapshotPathEntry decode_SnapshotPathEntry wf_SnapshotPathEntry.
Proof. solve_codec encode_SnapshotPathEntry decode_SnapshotPathEntry wf_SnapshotPathEntry. Qed.

#[export] Instance Codec_SnapshotPolicyEntry : Codec encode_SnapshotPolicyEntry decode_SnapshotPolicyEntry wf_SnapshotPolicyEntry.
Proof. solve_codec encode_SnapshotPolicyEntry decode_SnapshotPolicyEntry wf_SnapshotPolicyEntry. Qed.

#[export] Instance Codec_SnapshotState : Codec encode_SnapshotState decode_SnapshotState wf_SnapshotState.
Proof. solve_codec encode_SnapshotState decode_SnapshotState wf_SnapshotState. Qed.

(** ** What the envelope guarantees *)

Lemma decode_record_enc r : wf_DurableRecord r = true -> decode_record (encode_record r) (record_kind r) = Ok r.
Proof.
  intros W. unfold decode_record, encode_record.
  rewrite codec_roundtrip by reflexivity. cbn [rbind].
  change (negb (kDurableFormatVersion =? kDurableFormatVersion)) with false. cbn [refuse rbind].
  rewrite <- (app_nil_r (encode_DurableRecord r)), codec_roundtrip by exact W.
  cbn [rbind]. rewrite beq_refl. reflexivity.
Qed.

Lemma decode_record_inv payload kind r :
  decode_record payload kind = Ok r ->
  payload = encode_record r /\ record_kind r = kind /\ wf_DurableRecord r = true.
Proof.
  unfold decode_record. intros H. apply rbind_Ok in H. destruct H as ([version s] & Ev & H).
  apply rbind_refuse_Ok in H. destruct H as [V H].
  apply rbind_Ok in H. destruct H as ([record s'] & Er & H).
  apply rbind_refuse_Ok in H. destruct H as [K H].
  apply rbind_refuse_Ok in H. destruct H as [X H]. injection H as ->.
  apply (codec_canonical (Codec := Codec_u16)) in Ev. destruct Ev as [-> _].
  apply (codec_canonical (Codec := Codec_DurableRecord)) in Er. destruct Er as [-> W].
  apply negb_false_iff in V, K, X. apply Z.eqb_eq in V. apply beq_true in K.
  destruct s'; [|discriminate]. rewrite app_nil_r, V. auto.
Qed.

(** Encodings are prefix-free: what follows a value never changes it. *)
Lemma enc_prefix_free {A} enc dec ok (C : @Codec A enc dec ok) a b s t :
  ok a = true -> ok b = true -> enc a ++ s = enc b ++ t -> a = b /\ s = t.
Proof.
  intros Wa Wb E. pose proof (codec_roundtrip a s Wa) as Ra. rewrite E, codec_roundtrip in Ra by exact Wb.
  split; congruence.
Qed.

(** C37. A durable payload is accepted for a kind exactly when it is, byte for
    byte, the encoding of a record of that kind whose fields are inside their
    bounds: what is written reads back as it was, a record of another kind, an
    unknown version, a trailing byte or an alternative spelling is refused. *)
Theorem durable_record_iff payload kind r :
  decode_record payload kind = Ok r <->
  payload = encode_record r /\ record_kind r = kind /\ wf_DurableRecord r = true.
Proof.
  split; [apply decode_record_inv|]. intros (-> & <- & W). now apply decode_record_enc.
Qed.

(** A durable record cut short anywhere is refused, whatever the kind asked
    for: no strict prefix of an encoded record decodes. *)
Theorem durable_record_prefix_refused r kind n :
  wf_DurableRecord r = true -> (n < length (encode_record r))%nat ->
  has_value (decode_record (firstn n (encode_record r)) kind) = false.
Proof.
  intros W L. destruct (decode_record _ kind) as [r'|] eqn:E; [|reflexivity].
  destruct (decode_record_inv _ _ _ E) as (P & _ & W').
  exfalso. unfold encode_record in P at 2.
  assert (encode_DurableRecord r' ++ skipn n (encode_record r) = encode_DurableRecord r ++ []) as Q.
  { apply (app_inv_head (w_u16 kDurableFormatVersion)). rewrite app_nil_r, app_assoc, <- P.
    apply firstn_skipn. }
  apply (enc_prefix_free _ _ _ Codec_DurableRecord) in Q; try assumption. destruct Q as [_ Q].
  apply (f_equal (@length _)) in Q. rewrite length_skipn in Q. cbn [length] in Q. lia.
Qed.

Definition example_hold_attempt : AttemptMutation :=
  mkAttemptMutation (example_id x01) (example_id x02) ao_kCommittable (example_id x03)
    (mkCounter 1) (mkCounter 7) (example_id x04) (mkTs 5).

Lemma durable_record_prefix_refused_witness :
  has_value (decode_record (encode_record (DAttemptOutcome example_hold_attempt)) kAttemptOutcome) = true /\
  has_value (decode_record (firstn 20 (encode_record (DAttemptOutcome example_hold_attempt)))
               kAttemptOutcome) = false.
Proof.
  split; [vm_compute; reflexivity|].
  apply durable_record_prefix_refused; [vm_compute; reflexivity | apply Nat.ltb_lt; vm_compute; reflexivity].
Defined.

(** The snapshot payload has one spelling too: a payload decodes to a state
    and leaves [rest] exactly when it is the state's encoding followed by
    [rest], with every sequence and text inside its bound. *)
Theorem snapshot_state_iff bs s rest :
  decode_SnapshotState bs = Ok (s, rest) <->
  bs = encode_SnapshotState s ++ rest /\ wf_SnapshotState s = true.
Proof.
  split; [apply codec_canonical|]. intros [-> W]. now apply codec_roundtrip.
Qed.

Definition long_reason_capacity : ResourceCapacity :=
  mkResourceCapacity (mkName (str "spine-1")) (mkCounter 1) (mkBandwidth 100) (mkBandwidth 10)
    empty_name (mkCounter 0)
    [mkMaintenanceWindow (mkInterval (mkTs 1) (mkTs 2)) (repeat x61 257)].

Definition long_reason_record : DurableRecord :=
  DCapacitySnapshot (mkCapacityMutation
    (mkCapacitySnapshot (example_id x01) (mkCounter 1) (mkCounter 0) (mkTs 3) false
       [long_reason_capacity]) []).

(** The ledger accepts a capacity statement whose maintenance reason is
    longer than the 256 bytes the decoder allows, so the record the ingestion
    makes durable is one that recovery refuses to decode. *)
Theorem maintenance_reason_not_bounded :
  validate_capacity long_reason_capacity = Ok tt /\
  decode_record (encode_record long_reason_record) kCapacitySnapshot = Err kResourceExhausted.
Proof. split; vm_compute; reflexivity. Qed.
