(* ===== verification/CodecReports.v ===== *)
(** * Codecs of reports and results

    The last record codecs of [src/codec.cpp]: what the coordinator answers. *)
From S2P Require Import Prelude Errors Containers Identity Hash Bandwidth Time Authority Wire Policy Capacity Reservation Outcome SegTree Index Durable CodecBase Codec.

(** *** [CapabilityDelta] *)
Definition encode_CapabilityDelta (v : CapabilityDelta) : bytes :=
  encode_FixedName (cd_resource v) ++ encode_Counter (cd_generation v) ++
  encode_Bandwidth (cd_reservable_capacity v) ++ encode_Bandwidth (cd_protected_headroom v) ++
  encode_Bandwidth (cd_committable_ceiling v) ++ encode_Bandwidth (committed_peak_before v) ++
  encode_Bandwidth (committed_peak_after v) ++ encode_Bandwidth (cd_holds_peak v) ++
  encode_Bandwidth (remaining_after v) ++ encode_Interval (cd_window v) ++
  w_boolean (cd_maintenance_covers v) ++ w_boolean (cd_overcommit_emergency v).

Definition decode_CapabilityDelta : rd CapabilityDelta :=
  let! cd_resource := decode_FixedName in
  let! cd_generation := decode_Counter in
  let! cd_reservable_capacity := decode_Bandwidth in
  let! cd_protected_headroom := decode_Bandwidth in
  let! cd_committable_ceiling := decode_Bandwidth in
  let! committed_peak_before := decode_Bandwidth in
  let! committed_peak_after := decode_Bandwidth in
  let! cd_holds_peak := decode_Bandwidth in
  let! remaining_after := decode_Bandwidth in
  let! cd_window := decode_Interval in
  let! cd_maintenance_covers := r_boolean in
  let! cd_overcommit_emergency := r_boolean in
  rret (mkCapabilityDelta cd_resource cd_generation cd_reservable_capacity
    cd_protected_headroom cd_committable_ceiling committed_peak_before committed_peak_after
    cd_holds_peak remaining_after cd_window cd_maintenance_covers cd_overcommit_emergency).

Definition wf_CapabilityDelta (v : CapabilityDelta) : bool :=
  name_ok (cd_resource v) && counter_ok (cd_generation v) &&
  bandwidth_ok (cd_reservable_capacity v) && bandwidth_ok (cd_protected_headroom v) &&
  bandwidth_ok (cd_committable_ceiling v) && bandwidth_ok (committed_peak_before v) &&
  bandwidth_ok (committed_peak_after v) && bandwidth_ok (cd_holds_peak v) &&
  bandwidth_ok (remaining_after v) && interval_ok (cd_window v).

(** *** [ConflictEntry] *)
Definition encode_ConflictEntry (v : ConflictEntry) : bytes :=
  w_fixed128 (cf_id v) ++ encode_Counter (cf_generation v) ++ encode_FixedName (cf_resource v) ++
  encode_Interval (cf_interval v) ++ encode_Bandwidth (cf_amount v) ++
  encode_GuaranteeClass (cf_guarantee v) ++ encode_ReservationState (cf_state v) ++
  w_boolean (is_hold v).

Definition decode_ConflictEntry : rd ConflictEntry :=
  let! cf_id := r_fixed128 in
  let! cf_generation := decode_Counter in
  let! cf_resource := decode_FixedName in
  let! cf_interval := decode_Interval in
  let! cf_amount := decode_Bandwidth in
  let! cf_guarantee := decode_GuaranteeClass in
  let! cf_state := decode_ReservationState in
  let! is_hold := r_boolean in
  rret (mkConflictEntry cf_id cf_generation cf_resource cf_interval cf_amount cf_guarantee
    cf_state is_hold).

Definition wf_ConflictEntry (v : ConflictEntry) : bool :=
  id_ok (cf_id v) && counter_ok (cf_generation v) && name_ok (cf_resource v) &&
  interval_ok (cf_interval v) && bandwidth_ok (cf_amount v).

(** *** [ConflictSet] *)
Definition encode_ConflictSet (v : ConflictSet) : bytes :=
  encode_list encode_ConflictEntry (cf_entries v) ++ w_u64 (total_considered v) ++
  w_u64 (scan_limit_hit v) ++ w_boolean (cf_truncated v).

Definition decode_ConflictSet : rd ConflictSet :=
  let! cf_entries := decode_list decode_ConflictEntry in
  let! total_considered := r_u64 in
  let! scan_limit_hit := r_u64 in
  let! cf_truncated := r_boolean in
  rret (mkConflictSet cf_entries total_considered scan_limit_hit cf_truncated).

Definition wf_ConflictSet (v : ConflictSet) : bool :=
  list_ok wf_ConflictEntry (cf_entries v) && u_ok 64 (total_considered v) &&
  u_ok 64 (scan_limit_hit v).

(** *** [AdmissionReport] *)
Definition encode_AdmissionReport (v : AdmissionReport) : bytes :=
  encode_AdmissionOutcome (ar_outcome v) ++ w_text (explanation v) ++
  encode_list encode_CapabilityDelta (ar_resources v) ++ encode_ConflictSet (conflicts v) ++
  encode_list encode_Identity128 (preemption_plan v) ++
  encode_list encode_Counter (preemption_plan_generations v) ++
  w_boolean (preemption_planned v) ++ encode_ApplicabilityReason (ar_applicability_reason v).

Definition decode_AdmissionReport : rd AdmissionReport :=
  let! ar_outcome := decode_AdmissionOutcome in
  let! explanation := r_text kMaxTextBytes in
  let! ar_resources := decode_list decode_CapabilityDelta in
  let! conflicts := decode_ConflictSet in
  let! preemption_plan := decode_list decode_Identity128 in
  let! preemption_plan_generations := decode_list decode_Counter in
  refuse! negb (Z.of_nat (length preemption_plan) =? Z.of_nat (length preemption_plan_generations)) with kCorrupt in
  let! preemption_planned := r_boolean in
  let! ar_applicability_reason := decode_ApplicabilityReason in
  rret (mkAdmissionReport ar_outcome explanation ar_resources conflicts preemption_plan
    preemption_plan_generations preemption_planned ar_applicability_reason).

Definition wf_AdmissionReport (v : AdmissionReport) : bool :=
  text_ok kMaxTextBytes (explanation v) && list_ok wf_CapabilityDelta (ar_resources v) &&
  wf_ConflictSet (conflicts v) && list_ok id_ok (preemption_plan v) &&
  list_ok counter_ok (preemption_plan_generations v) &&
  negb (negb (Z.of_nat (length (preemption_plan v)) =? Z.of_nat (length (preemption_plan_generations v)))).

(** *** [CommitResult] *)
Definition encode_CommitResult (v : CommitResult) : bytes :=
  encode_ReservationRecord (cr_record v) ++
  encode_optional encode_ReservationSeries (cr_series v) ++
  encode_list encode_ReservationRecord (cr_members v) ++ encode_AdmissionReport (cr_report v) ++
  w_boolean (cr_replayed v) ++ w_fixed128 (cr_attempt v) ++ encode_Counter (cr_sequence v).

Definition decode_CommitResult : rd CommitResult :=
  let! cr_record := decode_ReservationRecord in
  let! cr_series := decode_optional decode_ReservationSeries in
  let! cr_members := decode_list decode_ReservationRecord in
  let! cr_report := decode_AdmissionReport in
  let! cr_replayed := r_boolean in
  let! cr_attempt := r_fixed128 in
  let! cr_sequence := decode_Counter in
  rret (mkCommitResult cr_record cr_series cr_members cr_report cr_replayed cr_attempt
    cr_sequence).

Definition wf_CommitResult (v : CommitResult) : bool :=
  wf_ReservationRecord (cr_record v) && optional_ok wf_ReservationSeries (cr_series v) &&
  list_ok wf_ReservationRecord (cr_members v) && wf_AdmissionReport (cr_report v) &&
  id_ok (cr_attempt v) && counter_ok (cr_sequence v).

(** *** [AmendmentResult] *)
Definition encode_AmendmentResult (v : AmendmentResult) : bytes :=
  encode_ReservationRecord (am_predecessor v) ++ encode_ReservationRecord (am_successor v) ++
  encode_optional encode_ReservationSeries (am_series v) ++
  encode_list encode_ReservationRecord (am_members v) ++ encode_AdmissionReport (am_report v) ++
  w_boolean (am_replayed v).

Definition decode_AmendmentResult : rd AmendmentResult :=
  let! am_predecessor := decode_ReservationRecord in
  let! am_successor := decode_ReservationRecord in
  let! am_series := decode_optional decode_ReservationSeries in
  let! am_members := decode_list decode_ReservationRecord in
  let! am_report := decode_AdmissionReport in
  let! am_replayed := r_boolean in
  rret (mkAmendmentResult am_predecessor am_successor am_series am_members am_report
    am_replayed).

Definition wf_AmendmentResult (v : AmendmentResult) : bool :=
  wf_ReservationRecord (am_predecessor v) && wf_ReservationRecord (am_successor v) &&
  optional_ok wf_ReservationSeries (am_series v) &&
  list_ok wf_ReservationRecord (am_members v) && wf_AdmissionReport (am_report v).

(** *** [LifecycleResult] *)
Definition encode_LifecycleResult (v : LifecycleResult) : bytes :=
  encode_ReservationRecord (lr_record v) ++ w_boolean (lr_replayed v) ++ w_u64 (transitions v).

Definition decode_LifecycleResult : rd LifecycleResult :=
  let! lr_record := decode_ReservationRecord in
  let! lr_replayed := r_boolean in
  let! transitions := r_u64 in
  rret (mkLifecycleResult lr_record lr_replayed transitions).

Definition wf_LifecycleResult (v : LifecycleResult) : bool :=
  wf_ReservationRecord (lr_record v) && u_ok 64 (transitions v).

(** *** [AttemptReconciliation] *)
Definition encode_AttemptReconciliation (v : AttemptReconciliation) : bytes :=
  w_fixed128 (ac_attempt v) ++ w_boolean (known v) ++ encode_AdmissionOutcome (ac_outcome v) ++
  w_fixed128 (ac_reservation v) ++ encode_Counter (ac_generation v) ++
  encode_Counter (ac_sequence v) ++ w_boolean (committed v) ++ w_text (note v).

Definition decode_AttemptReconciliation : rd AttemptReconciliation :=
  let! ac_attempt := r_fixed128 in
  let! known := r_boolean in
  let! ac_outcome := decode_AdmissionOutcome in
  let! ac_reservation := r_fixed128 in
  let! ac_generation := decode_Counter in
  let! ac_sequence := decode_Counter in
  let! committed := r_boolean in
  let! note := r_text kMaxProvenanceReasonBytes in
  rret (mkAttemptReconciliation ac_attempt known ac_outcome ac_reservation ac_generation
    ac_sequence committed note).

Definition wf_AttemptReconciliation (v : AttemptReconciliation) : bool :=
  id_ok (ac_attempt v) && id_ok (ac_reservation v) && counter_ok (ac_generation v) &&
  counter_ok (ac_sequence v) && text_ok kMaxProvenanceReasonBytes (note v).

(** *** [RemainingCapacity] *)
Definition encode_RemainingCapacity (v : RemainingCapacity) : bytes :=
  encode_FixedName (rm_resource v) ++ encode_Counter (rm_generation v) ++
  encode_Interval (rm_window v) ++ encode_Bandwidth (rm_committable_ceiling v) ++
  encode_Bandwidth (rm_committed_peak v) ++ encode_Bandwidth (rm_holds_peak v) ++
  encode_Bandwidth (remaining v) ++ w_boolean (rm_maintenance_covers v) ++
  w_boolean (rm_overcommit_emergency v).

Definition decode_RemainingCapacity : rd RemainingCapacity :=
  let! rm_resource := decode_FixedName in
  let! rm_generation := decode_Counter in
  let! rm_window := decode_Interval in
  let! rm_committable_ceiling := decode_Bandwidth in
  let! rm_committed_peak := decode_Bandwidth in
  let! rm_holds_peak := decode_Bandwidth in
  let! remaining := decode_Bandwidth in
  let! rm_maintenance_covers := r_boolean in
  let! rm_overcommit_emergency := r_boolean in
  rret (mkRemainingCapacity rm_resource rm_generation rm_window rm_committable_ceiling
    rm_committed_peak rm_holds_peak remaining rm_maintenance_covers rm_overcommit_emergency).

Definition wf_RemainingCapacity (v : RemainingCapacity) : bool :=
  name_ok (rm_resource v) && counter_ok (rm_generation v) && interval_ok (rm_window v) &&
  bandwidth_ok (rm_committable_ceiling v) && bandwidth_ok (rm_committed_peak v) &&
  bandwidth_ok (rm_holds_peak v) && bandwidth_ok (remaining v).

(** *** [ChangePoint] *)
Definition encode_ChangePoint (v : ChangePoint) : bytes :=
  encode_Timestamp (cp_at v) ++ encode_Bandwidth (cp_committed v) ++
  encode_Bandwidth (cp_holds v).

Definition decode_ChangePoint : rd ChangePoint :=
  let! cp_at := decode_Timestamp in
  let! cp_committed := decode_Bandwidth in
  let! cp_holds := decode_Bandwidth in
  rret (mkChangePoint cp_at cp_committed cp_holds).

Definition wf_ChangePoint (v : ChangePoint) : bool :=
  ts_ok (cp_at v) && bandwidth_ok (cp_committed v) && bandwidth_ok (cp_holds v).

(** *** [CapacityTimeline] *)
Definition encode_CapacityTimeline (v : CapacityTimeline) : bytes :=
  encode_FixedName (ct_resource v) ++ encode_Interval (ct_window v) ++
  encode_list encode_ChangePoint (points v) ++ w_boolean (ct_truncated v).

Definition decode_CapacityTimeline : rd CapacityTimeline :=
  let! ct_resource := decode_FixedName in
  let! ct_window := decode_Interval in
  let! points := decode_list decode_ChangePoint in
  let! ct_truncated := r_boolean in
  rret (mkCapacityTimeline ct_resource ct_window points ct_truncated).

Definition wf_CapacityTimeline (v : CapacityTimeline) : bool :=
  name_ok (ct_resource v) && interval_ok (ct_window v) && list_ok wf_ChangePoint (points v).

(** *** [LineageView] *)
Definition encode_LineageView (v : LineageView) : bytes :=
  w_fixed128 (lv_id v) ++ encode_Counter (lv_generation v) ++
  encode_list encode_SupersessionEdge (ancestry v) ++
  encode_list encode_SupersessionEdge (descendants v) ++ w_boolean (lv_truncated v).

Definition decode_LineageView : rd LineageView :=
  let! lv_id := r_fixed128 in
  let! lv_generation := decode_Counter in
  let! ancestry := decode_list decode_SupersessionEdge in
  let! descendants := decode_list decode_SupersessionEdge in
  let! lv_truncated := r_boolean in
  rret (mkLineageView lv_id lv_generation ancestry descendants lv_truncated).

Definition wf_LineageView (v : LineageView) : bool :=
  id_ok (lv_id v) && counter_ok (lv_generation v) && list_ok wf_SupersessionEdge (ancestry v) &&
  list_ok wf_SupersessionEdge (descendants v).

(** *** [OvercommitEntry] *)
Definition encode_OvercommitEntry (v : OvercommitEntry) : bytes :=
  encode_FixedName (oe_resource v) ++ encode_Counter (oe_generation v) ++
  encode_Bandwidth (oe_committed_peak v) ++ encode_Bandwidth (oe_committable_ceiling v) ++
  encode_Interval (oe_window v) ++ encode_Timestamp (detected_at v).

Definition decode_OvercommitEntry : rd OvercommitEntry :=
  let! oe_resource := decode_FixedName in
  let! oe_generation := decode_Counter in
  let! oe_committed_peak := decode_Bandwidth in
  let! oe_committable_ceiling := decode_Bandwidth in
  let! oe_window := decode_Interval in
  let! detected_at := decode_Timestamp in
  rret (mkOvercommitEntry oe_resource oe_generation oe_committed_peak oe_committable_ceiling
    oe_window detected_at).

Definition wf_OvercommitEntry (v : OvercommitEntry) : bool :=
  name_ok (oe_resource v) && counter_ok (oe_generation v) &&
  bandwidth_ok (oe_committed_peak v) && bandwidth_ok (oe_committable_ceiling v) &&
  interval_ok (oe_window v) && ts_ok (detected_at v).

(** *** [OvercommitReport] *)
Definition encode_OvercommitReport (v : OvercommitReport) : bytes :=
  encode_list encode_OvercommitEntry (oe_entries v) ++ w_boolean (emergency_active v).

Definition decode_OvercommitReport : rd OvercommitReport :=
  let! oe_entries := decode_list decode_OvercommitEntry in
  let! emergency_active := r_boolean in
  rret (mkOvercommitReport oe_entries emergency_active).

Definition wf_OvercommitReport (v : OvercommitReport) : bool :=
  list_ok wf_OvercommitEntry (oe_entries v).

(** *** [CoordinatorStats] *)
Definition encode_CoordinatorStats (v : CoordinatorStats) : bytes :=
  w_u64 (commits v) ++ w_u64 (commit_rejections v) ++ w_u64 (replayed_attempts v) ++
  w_u64 (amendments v) ++ w_u64 (releases v) ++ w_u64 (expiries v) ++ w_u64 (recalls v) ++
  w_u64 (revocations v) ++ w_u64 (revalidations v) ++ w_u64 (fenced_holds v) ++
  w_u64 (capacity_ingestions v) ++ w_u64 (generation_advances v) ++ w_u64 (durable_records v) ++
  w_u64 (overcommit_events v) ++ w_u64 (tracked_reservations v) ++ w_u64 (tracked_series v) ++
  w_u64 (live_holds v) ++ w_u64 (index_entries v) ++ encode_Counter (st_epoch v) ++
  w_fixed128 (st_coordinator_boot v) ++ w_u64 (st_journal_bytes v) ++
  w_u64 (st_snapshot_sequence v).

Definition decode_CoordinatorStats : rd CoordinatorStats :=
  let! commits := r_u64 in
  let! commit_rejections := r_u64 in
  let! replayed_attempts := r_u64 in
  let! amendments := r_u64 in
  let! releases := r_u64 in
  let! expiries := r_u64 in
  let! recalls := r_u64 in
  let! revocations := r_u64 in
  let! revalidations := r_u64 in
  let! fenced_holds := r_u64 in
  let! capacity_ingestions := r_u64 in
  let! generation_advances := r_u64 in
  let! durable_records := r_u64 in
  let! overcommit_events := r_u64 in
  let! tracked_reservations := r_u64 in
  let! tracked_series := r_u64 in
  let! live_holds := r_u64 in
  let! index_entries := r_u64 in
  let! st_epoch := decode_Counter in
  let! st_coordinator_boot := r_fixed128 in
  let! st_journal_bytes := r_u64 in
  let! st_snapshot_sequence := r_u64 in
  rret (mkCoordinatorStats commits commit_rejections replayed_attempts amendments releases
    expiries recalls revocations revalidations fenced_holds capacity_ingestions
    generation_advances durable_records overcommit_events tracked_reservations tracked_series
    live_holds index_entries st_epoch st_coordinator_boot st_journal_bytes st_snapshot_sequence).

Definition wf_CoordinatorStats (v : CoordinatorStats) : bool :=
  u_ok 64 (commits v) && u_ok 64 (commit_rejections v) && u_ok 64 (replayed_attempts v) &&
  u_ok 64 (amendments v) && u_ok 64 (releases v) && u_ok 64 (expiries v) &&
  u_ok 64 (recalls v) && u_ok 64 (revocations v) && u_ok 64 (revalidations v) &&
  u_ok 64 (fenced_holds v) && u_ok 64 (capacity_ingestions v) &&
  u_ok 64 (generation_advances v) && u_ok 64 (durable_records v) &&
  u_ok 64 (overcommit_events v) && u_ok 64 (tracked_reservations v) &&
  u_ok 64 (tracked_series v) && u_ok 64 (live_holds v) && u_ok 64 (index_entries v) &&
  counter_ok (st_epoch v) && id_ok (st_coordinator_boot v) && u_ok 64 (st_journal_bytes v) &&
  u_ok 64 (st_snapshot_sequence v).

(** *** [IndexEntry] *)
Definition encode_IndexEntry (v : IndexEntry) : bytes :=
  encode_HolderKind (ie_kind v) ++ w_fixed128 (ie_id v) ++ w_u64 (holder_generation v) ++
  encode_FixedName (ie_resource v) ++ encode_Interval (ie_interval v) ++
  encode_Bandwidth (ie_amount v) ++ encode_GuaranteeClass (ie_guarantee v) ++
  encode_ReservationState (ie_state v).

Definition decode_IndexEntry : rd IndexEntry :=
  let! ie_kind := decode_HolderKind in
  let! ie_id := r_fixed128 in
  let! holder_generation := r_u64 in
  let! ie_resource := decode_FixedName in
  let! ie_interval := decode_Interval in
  let! ie_amount := decode_Bandwidth in
  let! ie_guarantee := decode_GuaranteeClass in
  let! ie_state := decode_ReservationState in
  rret (mkIndexEntry ie_kind ie_id holder_generation ie_resource ie_interval ie_amount
    ie_guarantee ie_state).

Definition wf_IndexEntry (v : IndexEntry) : bool :=
  id_ok (ie_id v) && u_ok 64 (holder_generation v) && name_ok (ie_resource v) &&
  interval_ok (ie_interval v) && bandwidth_ok (ie_amount v).

(** *** [RecoveryReport] *)
Definition encode_RecoveryReport (v : RecoveryReport) : bytes :=
  w_boolean (snapshot_loaded v) ++ w_boolean (torn_tail_truncated v) ++
  w_u64 (truncated_bytes v) ++ w_u64 (rp_snapshot_sequence v) ++ w_u64 (records_replayed v) ++
  w_u64 (records_skipped v) ++ w_u64 (rp_last_sequence v) ++
  encode_Counter (recovered_epoch v) ++ w_text (detail v).

Definition decode_RecoveryReport : rd RecoveryReport :=
  let! snapshot_loaded := r_boolean in
  let! torn_tail_truncated := r_boolean in
  let! truncated_bytes := r_u64 in
  let! rp_snapshot_sequence := r_u64 in
  let! records_replayed := r_u64 in
  let! records_skipped := r_u64 in
  let! rp_last_sequence := r_u64 in
  let! recovered_epoch := decode_Counter in
  let! detail := r_text 256 in
  rret (mkRecoveryReport snapshot_loaded torn_tail_truncated truncated_bytes
    rp_snapshot_sequence records_replayed records_skipped rp_last_sequence recovered_epoch detail).

Definition wf_RecoveryReport (v : RecoveryReport) : bool :=
  u_ok 64 (truncated_bytes v) && u_ok 64 (rp_snapshot_sequence v) &&
  u_ok 64 (records_replayed v) && u_ok 64 (records_skipped v) && u_ok 64 (rp_last_sequence v) &&
  counter_ok (recovered_epoch v) && text_ok 256 (detail v).

(** ** The codec laws *)
#[export] Instance Codec_CapabilityDelta : Codec encode_CapabilityDelta decode_CapabilityDelta wf_CapabilityDelta.
Proof. solve_codec encode_CapabilityDelta decode_CapabilityDelta wf_CapabilityDelta. Qed.

#[export] Instance Codec_ConflictEntry : Codec encode_ConflictEntry decode_ConflictEntry wf_ConflictEntry.
Proof. solve_codec encode_ConflictEntry decode_ConflictEntry wf_ConflictEntry. Qed.

#[export] Instance Codec_ConflictSet : Codec encode_ConflictSet decode_ConflictSet wf_ConflictSet.
Proof. solve_codec encode_ConflictSet decode_ConflictSet wf_ConflictSet. Qed.

#[export] Instance Codec_AdmissionReport : Codec encode_AdmissionReport decode_AdmissionReport wf_AdmissionReport.
Proof. solve_codec encode_AdmissionReport decode_AdmissionReport wf_AdmissionReport. Qed.

#[export] Instance Codec_CommitResult : Codec encode_CommitResult decode_CommitResult wf_CommitResult.
Proof. solve_codec encode_CommitResult decode_CommitResult wf_CommitResult. Qed.

#[export] Instance Codec_AmendmentResult : Codec encode_AmendmentResult decode_AmendmentResult wf_AmendmentResult.
Proof. solve_codec encode_AmendmentResult decode_AmendmentResult wf_AmendmentResult. Qed.

#[export] Instance Codec_LifecycleResult : Codec encode_LifecycleResult decode_LifecycleResult wf_LifecycleResult.
Proof. solve_codec encode_LifecycleResult decode_LifecycleResult wf_LifecycleResult. Qed.

#[export] Instance Codec_AttemptReconciliation : Codec encode_AttemptReconciliation decode_AttemptReconciliation wf_AttemptReconciliation.
Proof. solve_codec encode_AttemptReconciliation decode_AttemptReconciliation wf_AttemptReconciliation. Qed.

#[export] Instance Codec_RemainingCapacity : Codec encode_RemainingCapacity decode_RemainingCapacity wf_RemainingCapacity.
Proof. solve_codec encode_RemainingCapacity decode_RemainingCapacity wf_RemainingCapacity. Qed.

#[export] Instance Codec_ChangePoint : Codec encode_ChangePoint decode_ChangePoint wf_ChangePoint.
Proof. solve_codec encode_ChangePoint decode_ChangePoint wf_ChangePoint. Qed.

#[export] Instance Codec_CapacityTimeline : Codec encode_CapacityTimeline decode_CapacityTimeline wf_CapacityTimeline.
Proof. solve_codec encode_CapacityTimeline decode_CapacityTimeline wf_CapacityTimeline. Qed.

#[export] Instance Codec_LineageView : Codec encode_LineageView decode_LineageView wf_LineageView.
Proof. solve_codec encode_LineageView decode_LineageView wf_LineageView. Qed.

#[export] Instance Codec_OvercommitEntry : Codec encode_OvercommitEntry decode_OvercommitEntry wf_OvercommitEntry.
Proof. solve_codec encode_OvercommitEntry decode_OvercommitEntry wf_OvercommitEntry. Qed.

#[export] Instance Codec_OvercommitReport : Codec encode_OvercommitReport decode_OvercommitReport wf_OvercommitReport.
Proof. solve_codec encode_OvercommitReport decode_OvercommitReport wf_OvercommitReport. Qed.

#[export] Instance Codec_CoordinatorStats : Codec encode_CoordinatorStats decode_CoordinatorStats wf_CoordinatorStats.
Proof. solve_codec encode_CoordinatorStats decode_CoordinatorStats wf_CoordinatorStats. Qed.

#[export] Instance Codec_IndexEntry : Codec encode_IndexEntry decode_IndexEntry wf_IndexEntry.
Proof. solve_codec encode_IndexEntry decode_IndexEntry wf_IndexEntry. Qed.

#[export] Instance Codec_RecoveryReport : Codec encode_RecoveryReport decode_RecoveryReport wf_RecoveryReport.
Proof. solve_codec encode_RecoveryReport decode_RecoveryReport wf_RecoveryReport. Qed.
