(* ===== verification/Protocol.v ===== *)
(** * The control protocol

    [include/brf/protocol.hpp] and [src/protocol.cpp]: the frame, its checks, and
    the codec of every request and response; with the two functions of
    [src/transport.cpp] that put frames on a byte stream and take them off. *)
From S2P Require Import Prelude Errors Containers Identity Hash Bandwidth Time Authority Wire Policy Capacity Reservation Outcome SegTree Index Durable CodecBase Codec CodecReports.

Definition kMaxFrameBytes : Z := 1024 * 1024.
Definition kFrameMagic : Z := 0x46524231.
Definition kFrameHeaderBytes : Z := 16.
Definition kWireProtocolVersion : Z := 1.

(** ** Message types

    The enumeration has a fixed underlying type, so a value of it need not be
    one of the named ones: [mt_unnamed]. *)
Inductive MessageType :=
  | mt_kHello | mt_kHelloAck
  | mt_kIngestCapacity | mt_kIngestPathAuthority | mt_kIngestPolicy | mt_kRegisterClaimant | mt_kFence
  | mt_kValidate | mt_kCommit | mt_kAmend | mt_kRelease | mt_kRecall | mt_kRevoke | mt_kRevalidate
  | mt_kReconcileAttempt | mt_kReconcileLifecycle
  | mt_kGetReservation | mt_kQueryClaimant | mt_kQueryResource | mt_kQueryCommitted | mt_kQueryRemaining
  | mt_kExplainConflicts | mt_kTimeline | mt_kLineage | mt_kOvercommitReport | mt_kStats
  | mt_kDurableReplay
  | mt_kHoldAcquire | mt_kHoldRelease | mt_kHoldQuery | mt_kSessionRelease
  | mt_kShutdown | mt_kOk | mt_kError
  | mt_unnamed (raw : Z).

(** The named values with their numbers and spellings. *)
Definition kMessageTypes : list (MessageType * Z * bytes) :=
  [ (mt_kHello, 1, str "HELLO"); (mt_kHelloAck, 2, str "HELLO_ACK");
    (mt_kIngestCapacity, 10, str "INGEST_CAPACITY");
    (mt_kIngestPathAuthority, 11, str "INGEST_PATH_AUTHORITY");
    (mt_kIngestPolicy, 12, str "INGEST_POLICY"); (mt_kRegisterClaimant, 13, str "REGISTER_CLAIMANT");
    (mt_kFence, 14, str "FENCE");
    (mt_kValidate, 20, str "VALIDATE"); (mt_kCommit, 21, str "COMMIT"); (mt_kAmend, 22, str "AMEND");
    (mt_kRelease, 23, str "RELEASE"); (mt_kRecall, 24, str "RECALL"); (mt_kRevoke, 25, str "REVOKE");
    (mt_kRevalidate, 26, str "REVALIDATE"); (mt_kReconcileAttempt, 27, str "RECONCILE_ATTEMPT");
    (mt_kReconcileLifecycle, 28, str "RECONCILE_LIFECYCLE");
    (mt_kGetReservation, 30, str "GET_RESERVATION"); (mt_kQueryClaimant, 31, str "QUERY_CLAIMANT");
    (mt_kQueryResource, 32, str "QUERY_RESOURCE"); (mt_kQueryCommitted, 33, str "QUERY_COMMITTED");
    (mt_kQueryRemaining, 34, str "QUERY_REMAINING");
    (mt_kExplainConflicts, 35, str "EXPLAIN_CONFLICTS"); (mt_kTimeline, 36, str "TIMELINE");
    (mt_kLineage, 37, str "LINEAGE"); (mt_kOvercommitReport, 38, str "OVERCOMMIT_REPORT");
    (mt_kStats, 39, str "STATS"); (mt_kDurableReplay, 40, str "DURABLE_REPLAY");
    (mt_kHoldAcquire, 50, str "HOLD_ACQUIRE"); (mt_kHoldRelease, 51, str "HOLD_RELEASE");
    (mt_kHoldQuery, 52, str "HOLD_QUERY"); (mt_kSessionRelease, 53, str "SESSION_RELEASE");
    (mt_kShutdown, 60, str "SHUTDOWN"); (mt_kOk, 100, str "OK"); (mt_kError, 101, str "ERROR") ].

#[export] Instance MessageType_eq_dec : EqDecision MessageType.
Proof. solve_decision. Defined.

Definition MessageType_to_Z (t : MessageType) : Z :=
  match t with
  | mt_unnamed raw => raw
  | _ => match find (fun p => beq p.1.1 t) kMessageTypes with Some p => p.1.2 | None => 0 end
  end.

(** [static_cast<MessageType>]. *)
Definition MessageType_of_Z (raw : Z) : MessageType :=
  match find (fun p => p.1.2 =? raw) kMessageTypes with Some p => p.1.1 | None => mt_unnamed raw end.

Definition MessageType_to_string (t : MessageType) : bytes :=
  match find (fun p => beq p.1.1 t) kMessageTypes with Some p => p.2 | None => str "UNKNOWN" end.

(** ** Frames *)
Record Frame := mkFrame { fr_type : MessageType; fr_payload : bytes }.

Definition encode_frame (t : MessageType) (payload : bytes) : bytes :=
  w_u32 kFrameMagic ++ w_u32 (to_u 32 (kFrameHeaderBytes + Z.of_nat (length payload))) ++
  w_u32 (crc32c payload) ++ w_u16 (MessageType_to_Z t) ++ w_u16 kWireProtocolVersion ++ w_raw payload.

(** The five fields of a header: magic, length, checksum, type and version. *)
Definition decode_header : rd (Z * Z * Z * Z * Z) :=
  let! magic := r_u32 in
  let! length := r_u32 in
  let! checksum := r_u32 in
  let! type := r_u16 in
  let! version := r_u16 in
  rret (magic, length, checksum, type, version).

Definition decode_frame (frame : bytes) : Result Frame :=
  refuse_if Z.of_nat (length frame) <? kFrameHeaderBytes with kCorrupt in
  let? (fields, payload) := decode_header frame in
  let '(magic, declared, checksum, type, version) := fields in
  refuse_if negb (magic =? kFrameMagic) with kCorrupt in
  refuse_if negb (declared =? Z.of_nat (length frame)) with kCorrupt in
  refuse_if negb (version =? kWireProtocolVersion) with kUnsupported in
  refuse_if negb (crc32c payload =? checksum) with kCorrupt in
  refuse_if (type <? 1) || (type >? MessageType_to_Z mt_kError) with kUnsupported in
  Ok (mkFrame (MessageType_of_Z type) payload).

(** ** Frames on a stream

    [TcpSocket::write_frame]: what goes on the wire.  [TcpSocket::read_frame] on
    the bytes the peer has sent; a stream that ends early is a peer that closed
    the connection. *)
Definition write_frame (t : MessageType) (payload : bytes) : Result bytes :=
  refuse_if Z.of_nat (length payload) >? kMaxFrameBytes with kResourceExhausted in
  Ok (encode_frame t payload).

Definition receive_exact (n : Z) (stream : bytes) : Result (bytes * bytes) :=
  if Z.of_nat (length stream) <? n then Err kCancelled
  else Ok (firstn (Z.to_nat n) stream, skipn (Z.to_nat n) stream).

Definition read_frame (max_frame_bytes : Z) (stream : bytes) : Result (Frame * bytes) :=
  let? (header, stream) := receive_exact kFrameHeaderBytes stream in
  let? (fields, _) := decode_header header in
  let '(magic, declared, checksum, type, version) := fields in
  refuse_if negb (magic =? kFrameMagic) with kCorrupt in
  refuse_if (declared <? kFrameHeaderBytes) || (declared >? max_frame_bytes) with kResourceExhausted in
  refuse_if negb (version =? kWireProtocolVersion) with kUnsupported in
  let? (payload, stream) := receive_exact (declared - kFrameHeaderBytes) stream in
  refuse_if negb (crc32c payload =? checksum) with kCorrupt in
  Ok (mkFrame (MessageType_of_Z type) payload, stream).

(** ** Payloads *)
Record HelloRequest := mkHelloRequest {
  hl_protocol_version : Z;
  client : Identity128;
  client_name : bytes }.

Record HelloResponse := mkHelloResponse {
  ha_protocol_version : Z;
  ha_epoch : FabricEpoch;
  ha_coordinator_boot : Identity128;
  ha_store : Identity128;
  max_frame_bytes : Z;
  durable_writable : bool }.

Record CapacityIngestRequest := mkCapacityIngestRequest {
  cir_context : RequestContext;
  cir_snapshot : CapacitySnapshot;
  cir_withdrawals : list ResourceName }.

Record PathIngestRequest := mkPathIngestRequest {
  pir_context : RequestContext;
  pir_snapshot : PathAuthoritySnapshot }.

Record PolicyIngestRequest := mkPolicyIngestRequest {
  por_context : RequestContext;
  por_record : PolicyRecord }.

Record ClaimantRegistrationRequest := mkClaimantRegistrationRequest {
  crr_context : RequestContext;
  crr_claimant : Identity128;
  crr_generation : ClaimantGeneration }.

Record FenceRequest := mkFenceRequest {
  fr_context : RequestContext;
  fr_claimant : Identity128;
  fr_claimant_generation : ClaimantGeneration;
  fr_boot : Identity128;
  fr_session : Identity128;
  fr_claimant_wide : bool }.

Record ReservationCreateRequest := mkReservationCreateRequest {
  rcr_context : RequestContext;
  rcr_terms : ReservationTerms;
  rcr_requested_id : Identity128;
  rcr_dry_run : bool;
  consume_holds : list Identity128 }.

Record AmendmentRequest := mkAmendmentRequest {
  amr_context : RequestContext;
  amr_target : Identity128;
  amr_target_generation : ReservationGeneration;
  amr_terms : ReservationTerms;
  amr_dry_run : bool }.

Record ReservationRefRequest := mkReservationRefRequest {
  rrr_context : RequestContext;
  rrr_id : Identity128;
  rrr_generation : ReservationGeneration }.

Record RecallRequest := mkRecallRequest {
  rlr_context : RequestContext;
  rlr_id : Identity128;
  rlr_generation : ReservationGeneration;
  rlr_effective_at : Timestamp;
  rlr_grace : Duration;
  rlr_force : bool }.

Record RevalidateRequest := mkRevalidateRequest {
  rvr_context : RequestContext;
  rvr_id : Identity128;
  rvr_generation : ReservationGeneration;
  rvr_mark_stale : bool }.

Record AttemptRequest := mkAttemptRequest {
  atr_context : RequestContext;
  atr_attempt : Identity128 }.

Record LifecycleReconcileRequest := mkLifecycleReconcileRequest {
  lrr_context : RequestContext;
  fence_dead_holds : bool }.

Record QueryRequest := mkQueryRequest {
  qr_context : RequestContext;
  qr_resource : ResourceName;
  qr_window : Interval;
  qr_amount : Bandwidth;
  qr_include_terminal : bool }.

Record ClaimantQueryRequest := mkClaimantQueryRequest {
  cqr_context : RequestContext;
  cqr_claimant : Identity128;
  cqr_include_terminal : bool }.

Record LineageRequest := mkLineageRequest {
  lnr_context : RequestContext;
  lnr_id : Identity128;
  lnr_generation : ReservationGeneration }.

Record HoldAcquireRequest := mkHoldAcquireRequest {
  har_context : RequestContext;
  har_terms : ReservationTerms;
  har_expires_at : Timestamp }.

Record HoldReleaseRequest := mkHoldReleaseRequest {
  hrr_context : RequestContext;
  hrr_id : Identity128;
  hrr_generation : Counter HoldGenerationTag }.

Record StatusResponse := mkStatusResponse {
  sr_outcome : AdmissionOutcome;
  sr_message : bytes;
  sr_reservation : Identity128;
  sr_generation : ReservationGeneration;
  sr_sequence : DurableSequence }.

Record CommitResponse := mkCommitResponse {
  cmr_outcome : AdmissionOutcome;
  cmr_message : bytes;
  cmr_result : CommitResult }.

Record AmendmentResponse := mkAmendmentResponse {
  ams_outcome : AdmissionOutcome;
  ams_message : bytes;
  ams_result : AmendmentResult }.

Record LifecycleResponse := mkLifecycleResponse {
  lcr_outcome : AdmissionOutcome;
  lcr_message : bytes;
  lcr_result : LifecycleResult }.

Record ReservationResponse := mkReservationResponse {
  rsr_outcome : AdmissionOutcome;
  rsr_message : bytes;
  rsr_found : bool;
  rsr_record : ReservationRecord }.

Record ReservationListResponse := mkReservationListResponse {
  rls_outcome : AdmissionOutcome;
  rls_message : bytes;
  rls_records : list ReservationRecord;
  rls_truncated : bool }.

Record RemainingResponse := mkRemainingResponse {
  rmr_outcome : AdmissionOutcome;
  rmr_message : bytes;
  rmr_resources : list RemainingCapacity }.

Record ReportResponse := mkReportResponse {
  rpr_outcome : AdmissionOutcome;
  rpr_report : AdmissionReport }.

Record TimelineResponse := mkTimelineResponse {
  tlr_outcome : AdmissionOutcome;
  tlr_timeline : CapacityTimeline }.

Record LineageResponse := mkLineageResponse {
  lgr_outcome : AdmissionOutcome;
  lgr_lineage : LineageView }.

Record ReconciliationResponse := mkReconciliationResponse {
  rnr_outcome : AdmissionOutcome;
  rnr_reconciliation : AttemptReconciliation }.

Record OvercommitResponse := mkOvercommitResponse {
  ocr_outcome : AdmissionOutcome;
  ocr_report : OvercommitReport }.

Record StatsResponse := mkStatsResponse {
  ssr_outcome : AdmissionOutcome;
  ssr_stats : CoordinatorStats;
  ssr_recovery : RecoveryReport }.

Record HoldResponse := mkHoldResponse {
  hor_outcome : AdmissionOutcome;
  hor_message : bytes;
  hor_hold : HoldRecord }.

Record ErrorResponse := mkErrorResponse {
  err_code : ErrorCode;
  err_outcome : AdmissionOutcome;
  err_message : bytes }.

(** ** Payload codecs *)

(** The holds named for consumption: at most 64. *)
Definition decode_hold_ids : rd (list Identity128) :=
  let! count := r_u32 in
  refuse! count >? 64 with kResourceExhausted in
  decode_items r_fixed128 (Z.to_nat count).

Definition hold_ids_ok (ids : list Identity128) : bool :=
  (Z.of_nat (length ids) <=? 64) && forallb id_ok ids.

(** *** [HelloRequest] *)
Definition encode_HelloRequest (v : HelloRequest) : bytes :=
  w_u16 (hl_protocol_version v) ++ w_fixed128 (client v) ++ w_text (client_name v).

Definition decode_HelloRequest : rd HelloRequest :=
  let! hl_protocol_version := r_u16 in
  let! client := r_fixed128 in
  let! client_name := r_text 128 in
  rret (mkHelloRequest hl_protocol_version client client_name).

Definition wf_HelloRequest (v : HelloRequest) : bool :=
  u_ok 16 (hl_protocol_version v) && id_ok (client v) && text_ok 128 (client_name v).

(** *** [HelloResponse] *)
Definition encode_HelloResponse (v : HelloResponse) : bytes :=
  w_u16 (ha_protocol_version v) ++ encode_Counter (ha_epoch v) ++
  w_fixed128 (ha_coordinator_boot v) ++ w_fixed128 (ha_store v) ++ w_u32 (max_frame_bytes v) ++
  w_boolean (durable_writable v).

Definition decode_HelloResponse : rd HelloResponse :=
  let! ha_protocol_version := r_u16 in
  let! ha_epoch := decode_Counter in
  let! ha_coordinator_boot := r_fixed128 in
  let! ha_store := r_fixed128 in
  let! max_frame_bytes := r_u32 in
  let! durable_writable := r_boolean in
  rret (mkHelloResponse ha_protocol_version ha_epoch ha_coordinator_boot ha_store
    max_frame_bytes durable_writable).

Definition wf_HelloResponse (v : HelloResponse) : bool :=
  u_ok 16 (ha_protocol_version v) && counter_ok (ha_epoch v) && id_ok (ha_coordinator_boot v) &&
  id_ok (ha_store v) && u_ok 32 (max_frame_bytes v).

(** *** [CapacityIngestRequest] *)
Definition encode_CapacityIngestRequest (v : CapacityIngestRequest) : bytes :=
  encode_RequestContext (cir_context v) ++ encode_CapacitySnapshot (cir_snapshot v) ++
  encode_list encode_FixedName (cir_withdrawals v).

Definition decode_CapacityIngestRequest : rd CapacityIngestRequest :=
  let! cir_context := decode_RequestContext in
  let! cir_snapshot := decode_CapacitySnapshot in
  let! cir_withdrawals := decode_list decode_FixedName in
  rret (mkCapacityIngestRequest cir_context cir_snapshot cir_withdrawals).

Definition wf_CapacityIngestRequest (v : CapacityIngestRequest) : bool :=
  wf_RequestContext (cir_context v) && wf_CapacitySnapshot (cir_snapshot v) &&
  list_ok name_ok (cir_withdrawals v).

(** *** [PathIngestRequest] *)
Definition encode_PathIngestRequest (v : PathIngestRequest) : bytes :=
  encode_RequestContext (pir_context v) ++ encode_PathAuthoritySnapshot (pir_snapshot v).

Definition decode_PathIngestRequest : rd PathIngestRequest :=
  let! pir_context := decode_RequestContext in
  let! pir_snapshot := decode_PathAuthoritySnapshot in
  rret (mkPathIngestRequest pir_context pir_snapshot).

Definition wf_PathIngestRequest (v : PathIngestRequest) : bool :=
  wf_RequestContext (pir_context v) && wf_PathAuthoritySnapshot (pir_snapshot v).

(** *** [PolicyIngestRequest] *)
Definition encode_PolicyIngestRequest (v : PolicyIngestRequest) : bytes :=
  encode_RequestContext (por_context v) ++ encode_PolicyRecord (por_record v).

Definition decode_PolicyIngestRequest : rd PolicyIngestRequest :=
  let! por_context := decode_RequestContext in
  let! por_record := decode_PolicyRecord in
  rret (mkPolicyIngestRequest por_context por_record).

Definition wf_PolicyIngestRequest (v : PolicyIngestRequest) : bool :=
  wf_RequestContext (por_context v) && wf_PolicyRecord (por_record v).

(** *** [ClaimantRegistrationRequest] *)
Definition encode_ClaimantRegistrationRequest (v : ClaimantRegistrationRequest) : bytes :=
  encode_RequestContext (crr_context v) ++ w_fixed128 (crr_claimant v) ++
  encode_Counter (crr_generation v).

Definition decode_ClaimantRegistrationRequest : rd ClaimantRegistrationRequest :=
  let! crr_context := decode_RequestContext in
  let! crr_claimant := r_fixed128 in
  let! crr_generation := decode_Counter in
  rret (mkClaimantRegistrationRequest crr_context crr_claimant crr_generation).

Definition wf_ClaimantRegistrationRequest (v : ClaimantRegistrationRequest) : bool :=
  wf_RequestContext (crr_context v) && id_ok (crr_claimant v) && counter_ok (crr_generation v).

(** *** [FenceRequest] *)
Definition encode_FenceRequest (v : FenceRequest) : bytes :=
  encode_RequestContext (fr_context v) ++ w_fixed128 (fr_claimant v) ++
  encode_Counter (fr_claimant_generation v) ++ w_fixed128 (fr_boot v) ++
  w_fixed128 (fr_session v) ++ w_boolean (fr_claimant_wide v).

Definition decode_FenceRequest : rd FenceRequest :=
  let! fr_context := decode_RequestContext in
  let! fr_claimant := r_fixed128 in
  let! fr_claimant_generation := decode_Counter in
  let! fr_boot := r_fixed128 in
  let! fr_session := r_fixed128 in
  let! fr_claimant_wide := r_boolean in
  rret (mkFenceRequest fr_context fr_claimant fr_claimant_generation fr_boot fr_session
    fr_claimant_wide).

Definition wf_FenceRequest (v : FenceRequest) : bool :=
  wf_RequestContext (fr_context v) && id_ok (fr_claimant v) &&
  counter_ok (fr_claimant_generation v) && id_ok (fr_boot v) && id_ok (fr_session v).

(** *** [ReservationCreateRequest] *)
Definition encode_ReservationCreateRequest (v : ReservationCreateRequest) : bytes :=
  encode_RequestContext (rcr_context v) ++ encode_ReservationTerms (rcr_terms v) ++
  w_fixed128 (rcr_requested_id v) ++ w_boolean (rcr_dry_run v) ++
  encode_list w_fixed128 (consume_holds v).

Definition decode_ReservationCreateRequest : rd ReservationCreateRequest :=
  let! rcr_context := decode_RequestContext in
  let! rcr_terms := decode_ReservationTerms in
  let! rcr_requested_id := r_fixed128 in
  let! rcr_dry_run := r_boolean in
  let! consume_holds := decode_hold_ids in
  rret (mkReservationCreateRequest rcr_context rcr_terms rcr_requested_id rcr_dry_run
    consume_holds).

Definition wf_ReservationCreateRequest (v : ReservationCreateRequest) : bool :=
  wf_RequestContext (rcr_context v) && wf_ReservationTerms (rcr_terms v) &&
  id_ok (rcr_requested_id v) && hold_ids_ok (consume_holds v).

(** *** [AmendmentRequest] *)
Definition encode_AmendmentRequest (v : AmendmentRequest) : bytes :=
  encode_RequestContext (amr_context v) ++ w_fixed128 (amr_target v) ++
  encode_Counter (amr_target_generation v) ++ encode_ReservationTerms (amr_terms v) ++
  w_boolean (amr_dry_run v).

Definition decode_AmendmentRequest : rd AmendmentRequest :=
  let! amr_context := decode_RequestContext in
  let! amr_target := r_fixed128 in
  let! amr_target_generation := decode_Counter in
  let! amr_terms := decode_ReservationTerms in
  let! amr_dry_run := r_boolean in
  rret (mkAmendmentRequest amr_context amr_target amr_target_generation amr_terms amr_dry_run).

Definition wf_AmendmentRequest (v : AmendmentRequest) : bool :=
  wf_RequestContext (amr_context v) && id_ok (amr_target v) &&
  counter_ok (amr_target_generation v) && wf_ReservationTerms (amr_terms v).

(** *** [ReservationRefRequest] *)
Definition encode_ReservationRefRequest (v : ReservationRefRequest) : bytes :=
  encode_RequestContext (rrr_context v) ++ w_fixed128 (rrr_id v) ++
  encode_Counter (rrr_generation v).

Definition decode_ReservationRefRequest : rd ReservationRefRequest :=
  let! rrr_context := decode_RequestContext in
  let! rrr_id := r_fixed128 in
  let! rrr_generation := decode_Counter in
  rret (mkReservationRefRequest rrr_context rrr_id rrr_generation).

Definition wf_ReservationRefRequest (v : ReservationRefRequest) : bool :=
  wf_RequestContext (rrr_context v) && id_ok (rrr_id v) && counter_ok (rrr_generation v).

(** *** [RecallRequest] *)
Definition encode_RecallRequest (v : RecallRequest) : bytes :=
  encode_RequestContext (rlr_context v) ++ w_fixed128 (rlr_id v) ++
  encode_Counter (rlr_generation v) ++ encode_Timestamp (rlr_effective_at v) ++
  encode_Duration (rlr_grace v) ++ w_boolean (rlr_force v).

Definition decode_RecallRequest : rd RecallRequest :=
  let! rlr_context := decode_RequestContext in
  let! rlr_id := r_fixed128 in
  let! rlr_generation := decode_Counter in
  let! rlr_effective_at := decode_Timestamp in
  let! rlr_grace := decode_Duration in
  let! rlr_force := r_boolean in
  rret (mkRecallRequest rlr_context rlr_id rlr_generation rlr_effective_at rlr_grace rlr_force).

Definition wf_RecallRequest (v : RecallRequest) : bool :=
  wf_RequestContext (rlr_context v) && id_ok (rlr_id v) && counter_ok (rlr_generation v) &&
  ts_ok (rlr_effective_at v) && dur_ok (rlr_grace v).

(** *** [RevalidateRequest] *)
Definition encode_RevalidateRequest (v : RevalidateRequest) : bytes :=
  encode_RequestContext (rvr_context v) ++ w_fixed128 (rvr_id v) ++
  encode_Counter (rvr_generation v) ++ w_boolean (rvr_mark_stale v).

Definition decode_RevalidateRequest : rd RevalidateRequest :=
  let! rvr_context := decode_RequestContext in
  let! rvr_id := r_fixed128 in
  let! rvr_generation := decode_Counter in
  let! rvr_mark_stale := r_boolean in
  rret (mkRevalidateRequest rvr_context rvr_id rvr_generation rvr_mark_stale).

Definition wf_RevalidateRequest (v : RevalidateRequest) : bool :=
  wf_RequestContext (rvr_context v) && id_ok (rvr_id v) && counter_ok (rvr_generation v).

(** *** [AttemptRequest] *)
Definition encode_AttemptRequest (v : AttemptRequest) : bytes :=
  encode_RequestContext (atr_context v) ++ w_fixed128 (atr_attempt v).

Definition decode_AttemptRequest : rd AttemptRequest :=
  let! atr_context := decode_RequestContext in
  let! atr_attempt := r_fixed128 in
  rret (mkAttemptRequest atr_context atr_attempt).

Definition wf_AttemptRequest (v : AttemptRequest) : bool :=
  wf_RequestContext (atr_context v) && id_ok (atr_attempt v).

(** *** [LifecycleReconcileRequest] *)
Definition encode_LifecycleReconcileRequest (v : LifecycleReconcileRequest) : bytes :=
  encode_RequestContext (lrr_context v) ++ w_boolean (fence_dead_holds v).

Definition decode_LifecycleReconcileRequest : rd LifecycleReconcileRequest :=
  let! lrr_context := decode_RequestContext in
  let! fence_dead_holds := r_boolean in
  rret (mkLifecycleReconcileRequest lrr_context fence_dead_holds).

Definition wf_LifecycleReconcileRequest (v : LifecycleReconcileRequest) : bool :=
  wf_RequestContext (lrr_context v).

(** *** [QueryRequest] *)
Definition encode_QueryRequest (v : QueryRequest) : bytes :=
  encode_RequestContext (qr_context v) ++ encode_FixedName (qr_resource v) ++
  encode_Interval (qr_window v) ++ encode_Bandwidth (qr_amount v) ++
  w_boolean (qr_include_terminal v).

Definition decode_QueryRequest : rd QueryRequest :=
  let! qr_context := decode_RequestContext in
  let! qr_resource := decode_FixedName in
  let! qr_window := decode_Interval in
  let! qr_amount := decode_Bandwidth in
  let! qr_include_terminal := r_boolean in
  rret (mkQueryRequest qr_context qr_resource qr_window qr_amount qr_include_terminal).

Definition wf_QueryRequest (v : QueryRequest) : bool :=
  wf_RequestContext (qr_context v) && name_ok (qr_resource v) && interval_ok (qr_window v) &&
  bandwidth_ok (qr_amount v).

(** *** [ClaimantQueryRequest] *)
Definition encode_ClaimantQueryRequest (v : ClaimantQueryRequest) : bytes :=
  encode_RequestContext (cqr_context v) ++ w_fixed128 (cqr_claimant v) ++
  w_boolean (cqr_include_terminal v).

Definition decode_ClaimantQueryRequest : rd ClaimantQueryRequest :=
  let! cqr_context := decode_RequestContext in
  let! cqr_claimant := r_fixed128 in
  let! cqr_include_terminal := r_boolean in
  rret (mkClaimantQueryRequest cqr_context cqr_claimant cqr_include_terminal).

Definition wf_ClaimantQueryRequest (v : ClaimantQueryRequest) : bool :=
  wf_RequestContext (cqr_context v) && id_ok (cqr_claimant v).

(** *** [LineageRequest] *)
Definition encode_LineageRequest (v : LineageRequest) : bytes :=
  encode_RequestContext (lnr_context v) ++ w_fixed128 (lnr_id v) ++
  encode_Counter (lnr_generation v).

Definition decode_LineageRequest : rd LineageRequest :=
  let! lnr_context := decode_RequestContext in
  let! lnr_id := r_fixed128 in
  let! lnr_generation := decode_Counter in
  rret (mkLineageRequest lnr_context lnr_id lnr_generation).

Definition wf_LineageRequest (v : LineageRequest) : bool :=
  wf_RequestContext (lnr_context v) && id_ok (lnr_id v) && counter_ok (lnr_generation v).

(** *** [HoldAcquireRequest] *)
Definition encode_HoldAcquireRequest (v : HoldAcquireRequest) : bytes :=
  encode_RequestContext (har_context v) ++ encode_ReservationTerms (har_terms v) ++
  encode_Timestamp (har_expires_at v).

Definition decode_HoldAcquireRequest : rd HoldAcquireRequest :=
  let! har_context := decode_RequestContext in
  let! har_terms := decode_ReservationTerms in
  let! har_expires_at := decode_Timestamp in
  rret (mkHoldAcquireRequest har_context har_terms har_expires_at).

Definition wf_HoldAcquireRequest (v : HoldAcquireRequest) : bool :=
  wf_RequestContext (har_context v) && wf_ReservationTerms (har_terms v) &&
  ts_ok (har_expires_at v).

(** *** [HoldReleaseRequest] *)
Definition encode_HoldReleaseRequest (v : HoldReleaseRequest) : bytes :=
  encode_RequestContext (hrr_context v) ++ w_fixed128 (hrr_id v) ++
  encode_Counter (hrr_generation v).

Definition decode_HoldReleaseRequest : rd HoldReleaseRequest :=
  let! hrr_context := decode_RequestContext in
  let! hrr_id := r_fixed128 in
  let! hrr_generation := decode_Counter in
  rret (mkHoldReleaseRequest hrr_context hrr_id hrr_generation).

Definition wf_HoldReleaseRequest (v : HoldReleaseRequest) : bool :=
  wf_RequestContext (hrr_context v) && id_ok (hrr_id v) && counter_ok (hrr_generation v).

(** *** [StatusResponse] *)
Definition encode_StatusResponse (v : StatusResponse) : bytes :=
  encode_AdmissionOutcome (sr_outcome v) ++ w_text (sr_message v) ++
  w_fixed128 (sr_reservation v) ++ encode_Counter (sr_generation v) ++
  encode_Counter (sr_sequence v).

Definition decode_StatusResponse : rd StatusResponse :=
  let! sr_outcome := decode_AdmissionOutcome in
  let! sr_message := r_text kMaxTextBytes in
  let! sr_reservation := r_fixed128 in
  let! sr_generation := decode_Counter in
  let! sr_sequence := decode_Counter in
  rret (mkStatusResponse sr_outcome sr_message sr_reservation sr_generation sr_sequence).

Definition wf_StatusResponse (v : StatusResponse) : bool :=
  text_ok kMaxTextBytes (sr_message v) && id_ok (sr_reservation v) &&
  counter_ok (sr_generation v) && counter_ok (sr_sequence v).

(** *** [CommitResponse] *)
Definition encode_CommitResponse (v : CommitResponse) : bytes :=
  encode_AdmissionOutcome (cmr_outcome v) ++ w_text (cmr_message v) ++
  encode_CommitResult (cmr_result v).

Definition decode_CommitResponse : rd CommitResponse :=
  let! cmr_outcome := decode_AdmissionOutcome in
  let! cmr_message := r_text kMaxTextBytes in
  let! cmr_result := decode_CommitResult in
  rret (mkCommitResponse cmr_outcome cmr_message cmr_result).

Definition wf_CommitResponse (v : CommitResponse) : bool :=
  text_ok kMaxTextBytes (cmr_message v) && wf_CommitResult (cmr_result v).

(** *** [AmendmentResponse] *)
Definition encode_AmendmentResponse (v : AmendmentResponse) : bytes :=
  encode_AdmissionOutcome (ams_outcome v) ++ w_text (ams_message v) ++
  encode_AmendmentResult (ams_result v).

Definition decode_AmendmentResponse : rd AmendmentResponse :=
  let! ams_outcome := decode_AdmissionOutcome in
  let! ams_message := r_text kMaxTextBytes in
  let! ams_result := decode_AmendmentResult in
  rret (mkAmendmentResponse ams_outcome ams_message ams_result).

Definition wf_AmendmentResponse (v : AmendmentResponse) : bool :=
  text_ok kMaxTextBytes (ams_message v) && wf_AmendmentResult (ams_result v).

(** *** [LifecycleResponse] *)
Definition encode_LifecycleResponse (v : LifecycleResponse) : bytes :=
  encode_AdmissionOutcome (lcr_outcome v) ++ w_text (lcr_message v) ++
  encode_LifecycleResult (lcr_result v).

Definition decode_LifecycleResponse : rd LifecycleResponse :=
  let! lcr_outcome := decode_AdmissionOutcome in
  let! lcr_message := r_text kMaxTextBytes in
  let! lcr_result := decode_LifecycleResult in
  rret (mkLifecycleResponse lcr_outcome lcr_message lcr_result).

Definition wf_LifecycleResponse (v : LifecycleResponse) : bool :=
  text_ok kMaxTextBytes (lcr_message v) && wf_LifecycleResult (lcr_result v).

(** *** [ReservationResponse] *)
Definition encode_ReservationResponse (v : ReservationResponse) : bytes :=
  encode_AdmissionOutcome (rsr_outcome v) ++ w_text (rsr_message v) ++ w_boolean (rsr_found v) ++
  encode_ReservationRecord (rsr_record v).

Definition decode_ReservationResponse : rd ReservationResponse :=
  let! rsr_outcome := decode_AdmissionOutcome in
  let! rsr_message := r_text kMaxTextBytes in
  let! rsr_found := r_boolean in
  let! rsr_record := decode_ReservationRecord in
  rret (mkReservationResponse rsr_outcome rsr_message rsr_found rsr_record).

Definition wf_ReservationResponse (v : ReservationResponse) : bool :=
  text_ok kMaxTextBytes (rsr_message v) && wf_ReservationRecord (rsr_record v).

(** *** [ReservationListResponse] *)
Definition encode_ReservationListResponse (v : ReservationListResponse) : bytes :=
  encode_AdmissionOutcome (rls_outcome v) ++ w_text (rls_message v) ++
  encode_list encode_ReservationRecord (rls_records v) ++ w_boolean (rls_truncated v).

Definition decode_ReservationListResponse : rd ReservationListResponse :=
  let! rls_outcome := decode_AdmissionOutcome in
  let! rls_message := r_text kMaxTextBytes in
  let! rls_records := decode_list decode_ReservationRecord in
  let! rls_truncated := r_boolean in
  rret (mkReservationListResponse rls_outcome rls_message rls_records rls_truncated).

Definition wf_ReservationListResponse (v : ReservationListResponse) : bool :=
  text_ok kMaxTextBytes (rls_message v) && list_ok wf_ReservationRecord (rls_records v).

(** *** [RemainingResponse] *)
Definition encode_RemainingResponse (v : RemainingResponse) : bytes :=
  encode_AdmissionOutcome (rmr_outcome v) ++ w_text (rmr_message v) ++
  encode_list encode_RemainingCapacity (rmr_resources v).

Definition decode_RemainingResponse : rd RemainingResponse :=
  let! rmr_outcome := decode_AdmissionOutcome in
  let! rmr_message := r_text kMaxTextBytes in
  let! rmr_resources := decode_list decode_RemainingCapacity in
  rret (mkRemainingResponse rmr_outcome rmr_message rmr_resources).

Definition wf_RemainingResponse (v : RemainingResponse) : bool :=
  text_ok kMaxTextBytes (rmr_message v) && list_ok wf_RemainingCapacity (rmr_resources v).

(** *** [ReportResponse] *)
Definition encode_ReportResponse (v : ReportResponse) : bytes :=
  encode_AdmissionOutcome (rpr_outcome v) ++ encode_AdmissionReport (rpr_report v).

Definition decode_ReportResponse : rd ReportResponse :=
  let! rpr_outcome := decode_AdmissionOutcome in
  let! rpr_report := decode_AdmissionReport in
  rret (mkReportResponse rpr_outcome rpr_report).

Definition wf_ReportResponse (v : ReportResponse) : bool :=
  wf_AdmissionReport (rpr_report v).

(** *** [TimelineResponse] *)
Definition encode_TimelineResponse (v : TimelineResponse) : bytes :=
  encode_AdmissionOutcome (tlr_outcome v) ++ encode_CapacityTimeline (tlr_timeline v).

Definition decode_TimelineResponse : rd TimelineResponse :=
  let! tlr_outcome := decode_AdmissionOutcome in
  let! tlr_timeline := decode_CapacityTimeline in
  rret (mkTimelineResponse tlr_outcome tlr_timeline).

Definition wf_TimelineResponse (v : TimelineResponse) : bool :=
  wf_CapacityTimeline (tlr_timeline v).

(** *** [LineageResponse] *)
Definition encode_LineageResponse (v : LineageResponse) : bytes :=
  encode_AdmissionOutcome (lgr_outcome v) ++ encode_LineageView (lgr_lineage v).

Definition decode_LineageResponse : rd LineageResponse :=
  let! lgr_outcome := decode_AdmissionOutcome in
  let! lgr_lineage := decode_LineageView in
  rret (mkLineageResponse lgr_outcome lgr_lineage).

Definition wf_LineageResponse (v : LineageResponse) : bool :=
  wf_LineageView (lgr_lineage v).

(** *** [ReconciliationResponse] *)
Definition encode_ReconciliationResponse (v : ReconciliationResponse) : bytes :=
  encode_AdmissionOutcome (rnr_outcome v) ++ encode_AttemptReconciliation (rnr_reconciliation v).

Definition decode_ReconciliationResponse : rd ReconciliationResponse :=
  let! rnr_outcome := decode_AdmissionOutcome in
  let! rnr_reconciliation := decode_AttemptReconciliation in
  rret (mkReconciliationResponse rnr_outcome rnr_reconciliation).

Definition wf_ReconciliationResponse (v : ReconciliationResponse) : bool :=
  wf_AttemptReconciliation (rnr_reconciliation v).

(** *** [OvercommitResponse] *)
Definition encode_OvercommitResponse (v : OvercommitResponse) : bytes :=
  encode_AdmissionOutcome (ocr_outcome v) ++ encode_OvercommitReport (ocr_report v).

Definition decode_OvercommitResponse : rd OvercommitResponse :=
  let! ocr_outcome := decode_AdmissionOutcome in
  let! ocr_report := decode_OvercommitReport in
  rret (mkOvercommitResponse ocr_outcome ocr_report).

Definition wf_OvercommitResponse (v : OvercommitResponse) : bool :=
  wf_OvercommitReport (ocr_report v).

(** *** [StatsResponse] *)
Definition encode_StatsResponse (v : StatsResponse) : bytes :=
  encode_AdmissionOutcome (ssr_outcome v) ++ encode_CoordinatorStats (ssr_stats v) ++
  encode_RecoveryReport (ssr_recovery v).

Definition decode_StatsResponse : rd StatsResponse :=
  let! ssr_outcome := decode_AdmissionOutcome in
  let! ssr_stats := decode_CoordinatorStats in
  let! ssr_recovery := decode_RecoveryReport in
  rret (mkStatsResponse ssr_outcome ssr_stats ssr_recovery).

Definition wf_StatsResponse (v : StatsResponse) : bool :=
  wf_CoordinatorStats (ssr_stats v) && wf_RecoveryReport (ssr_recovery v).

(** *** [HoldResponse] *)
Definition encode_HoldResponse (v : HoldResponse) : bytes :=
  encode_AdmissionOutcome (hor_outcome v) ++ w_text (hor_message v) ++
  encode_HoldRecord (hor_hold v).

Definition decode_HoldResponse : rd HoldResponse :=
  let! hor_outcome := decode_AdmissionOutcome in
  let! hor_message := r_text kMaxTextBytes in
  let! hor_hold := decode_HoldRecord in
  rret (mkHoldResponse hor_outcome hor_message hor_hold).

Definition wf_HoldResponse (v : HoldResponse) : bool :=
  text_ok kMaxTextBytes (hor_message v) && wf_HoldRecord (hor_hold v).

(** *** [ErrorResponse] *)
Definition encode_ErrorResponse (v : ErrorResponse) : bytes :=
  encode_ErrorCode (err_code v) ++ encode_AdmissionOutcome (err_outcome v) ++
  w_text (err_message v).

Definition decode_ErrorResponse : rd ErrorResponse :=
  let! err_code := decode_ErrorCode in
  let! err_outcome := decode_AdmissionOutcome in
  let! err_message := r_text kMaxTextBytes in
  rret (mkErrorResponse err_code err_outcome err_message).

Definition wf_ErrorResponse (v : ErrorResponse) : bool :=
  text_ok kMaxTextBytes (err_message v).

(** ** The codec laws *)
#[export] Instance Codec_hold_ids : Codec (encode_list w_fixed128) decode_hold_ids hold_ids_ok.
Proof.
  constructor.
  - intros ids rest W. unfold hold_ids_ok in W. split_andb. bool_prop.
    unfold encode_list, decode_hold_ids, w_count.
    assert (u_ok 32 (Z.of_nat (length ids)) = true) as U by (unfold u_ok; bool_goal; lia).
    rewrite to_u_id, <- app_assoc by exact U. rd_step.
    rewrite rd_refuse_pass by (rewrite Z.gtb_ltb; bool_goal; lia).
    rewrite Nat2Z.id. eapply decode_items_enc; [apply Codec_fixed128 | eassumption].
  - intros bs ids rest H. unfold decode_hold_ids in H. rd_inv H. rd_inv H.
    apply decode_items_inv with (enc := w_fixed128) (ok := id_ok) in H; [|exact _].
    destruct H as (-> & F & L). unfold encode_list, w_count, hold_ids_ok.
    unfold u_ok in H0. bool_prop. rewrite L, Z2Nat.id by assumption.
    rewrite to_u_id by (unfold u_ok; bool_goal; lia). rewrite <- app_assoc, F.
    split; [reflexivity|]. bool_goal; [lia | reflexivity].
Qed.

#[export] Instance Codec_HelloRequest : Codec encode_HelloRequest decode_HelloRequest wf_HelloRequest.
Proof. solve_codec encode_HelloRequest decode_HelloRequest wf_HelloRequest. Qed.

#[export] Instance Codec_HelloResponse : Codec encode_HelloResponse decode_HelloResponse wf_HelloResponse.
Proof. solve_codec encode_HelloResponse decode_HelloResponse wf_HelloResponse. Qed.

#[export] Instance Codec_CapacityIngestRequest : Codec encode_CapacityIngestRequest decode_CapacityIngestRequest wf_CapacityIngestRequest.
Proof. solve_codec encode_CapacityIngestRequest decode_CapacityIngestRequest wf_CapacityIngestRequest. Qed.

#[export] Instance Codec_PathIngestRequest : Codec encode_PathIngestRequest decode_PathIngestRequest wf_PathIngestRequest.
Proof. solve_codec encode_PathIngestRequest decode_PathIngestRequest wf_PathIngestRequest. Qed.

#[export] Instance Codec_PolicyIngestRequest : Codec encode_PolicyIngestRequest decode_PolicyIngestRequest wf_PolicyIngestRequest.
Proof. solve_codec encode_PolicyIngestRequest decode_PolicyIngestRequest wf_PolicyIngestRequest. Qed.

#[export] Instance Codec_ClaimantRegistrationRequest : Codec encode_ClaimantRegistrationRequest decode_ClaimantRegistrationRequest wf_ClaimantRegistrationRequest.
Proof. solve_codec encode_ClaimantRegistrationRequest decode_ClaimantRegistrationRequest wf_ClaimantRegistrationRequest. Qed.

#[export] Instance Codec_FenceRequest : Codec encode_FenceRequest decode_FenceRequest wf_FenceRequest.
Proof. solve_codec encode_FenceRequest decode_FenceRequest wf_FenceRequest. Qed.

#[export] Instance Codec_ReservationCreateRequest : Codec encode_ReservationCreateRequest decode_ReservationCreateRequest wf_ReservationCreateRequest.
Proof. solve_codec encode_ReservationCreateRequest decode_ReservationCreateRequest wf_ReservationCreateRequest. Qed.

#[export] Instance Codec_AmendmentRequest : Codec encode_AmendmentRequest decode_AmendmentRequest wf_AmendmentRequest.
Proof. solve_codec encode_AmendmentRequest decode_AmendmentRequest wf_AmendmentRequest. Qed.

#[export] Instance Codec_ReservationRefRequest : Codec encode_ReservationRefRequest decode_ReservationRefRequest wf_ReservationRefRequest.
Proof. solve_codec encode_ReservationRefRequest decode_ReservationRefRequest wf_ReservationRefRequest. Qed.

#[export] Instance Codec_RecallRequest : Codec encode_RecallRequest decode_RecallRequest wf_RecallRequest.
Proof. solve_codec encode_RecallRequest decode_RecallRequest wf_RecallRequest. Qed.

#[export] Instance Codec_RevalidateRequest : Codec encode_RevalidateRequest decode_RevalidateRequest wf_RevalidateRequest.
Proof. solve_codec encode_RevalidateRequest decode_RevalidateRequest wf_RevalidateRequest. Qed.

#[export] Instance Codec_AttemptRequest : Codec encode_AttemptRequest decode_AttemptRequest wf_AttemptRequest.
Proof. solve_codec encode_AttemptRequest decode_AttemptRequest wf_AttemptRequest. Qed.

#[export] Instance Codec_LifecycleReconcileRequest : Codec encode_LifecycleReconcileRequest decode_LifecycleReconcileRequest wf_LifecycleReconcileRequest.
Proof. solve_codec encode_LifecycleReconcileRequest decode_LifecycleReconcileRequest wf_LifecycleReconcileRequest. Qed.

#[export] Instance Codec_QueryRequest : Codec encode_QueryRequest decode_QueryRequest wf_QueryRequest.
Proof. solve_codec encode_QueryRequest decode_QueryRequest wf_QueryRequest. Qed.

#[export] Instance Codec_ClaimantQueryRequest : Codec encode_ClaimantQueryRequest decode_ClaimantQueryRequest wf_ClaimantQueryRequest.
Proof. solve_codec encode_ClaimantQueryRequest decode_ClaimantQueryRequest wf_ClaimantQueryRequest. Qed.

#[export] Instance Codec_LineageRequest : Codec encode_LineageRequest decode_LineageRequest wf_LineageRequest.
Proof. solve_codec encode_LineageRequest decode_LineageRequest wf_LineageRequest. Qed.

#[export] Instance Codec_HoldAcquireRequest : Codec encode_HoldAcquireRequest decode_HoldAcquireRequest wf_HoldAcquireRequest.
Proof. solve_codec encode_HoldAcquireRequest decode_HoldAcquireRequest wf_HoldAcquireRequest. Qed.

#[export] Instance Codec_HoldReleaseRequest : Codec encode_HoldReleaseRequest decode_HoldReleaseRequest wf_HoldReleaseRequest.
Proof. solve_codec encode_HoldReleaseRequest decode_HoldReleaseRequest wf_HoldReleaseRequest. Qed.

#[export] Instance Codec_StatusResponse : Codec encode_StatusResponse decode_StatusResponse wf_StatusResponse.
Proof. solve_codec encode_StatusResponse decode_StatusResponse wf_StatusResponse. Qed.

#[export] Instance Codec_CommitResponse : Codec encode_CommitResponse decode_CommitResponse wf_CommitResponse.
Proof. solve_codec encode_CommitResponse decode_CommitResponse wf_CommitResponse. Qed.

#[export] Instance Codec_AmendmentResponse : Codec encode_AmendmentResponse decode_AmendmentResponse wf_AmendmentResponse.
Proof. solve_codec encode_AmendmentResponse decode_AmendmentResponse wf_AmendmentResponse. Qed.

#[export] Instance Codec_LifecycleResponse : Codec encode_LifecycleResponse decode_LifecycleResponse wf_LifecycleResponse.
Proof. solve_codec encode_LifecycleResponse decode_LifecycleResponse wf_LifecycleResponse. Qed.

#[export] Instance Codec_ReservationResponse : Codec encode_ReservationResponse decode_ReservationResponse wf_ReservationResponse.
Proof. solve_codec encode_ReservationResponse decode_ReservationResponse wf_ReservationResponse. Qed.

#[export] Instance Codec_ReservationListResponse : Codec encode_ReservationListResponse decode_ReservationListResponse wf_ReservationListResponse.
Proof. solve_codec encode_ReservationListResponse decode_ReservationListResponse wf_ReservationListResponse. Qed.

#[export] Instance Codec_RemainingResponse : Codec encode_RemainingResponse decode_RemainingResponse wf_RemainingResponse.
Proof. solve_codec encode_RemainingResponse decode_RemainingResponse wf_RemainingResponse. Qed.

#[export] Instance Codec_ReportResponse : Codec encode_ReportResponse decode_ReportResponse wf_ReportResponse.
Proof. solve_codec encode_ReportResponse decode_ReportResponse wf_ReportResponse. Qed.

#[export] Instance Codec_TimelineResponse : Codec encode_TimelineResponse decode_TimelineResponse wf_TimelineResponse.
Proof. solve_codec encode_TimelineResponse decode_TimelineResponse wf_TimelineResponse. Qed.

#[export] Instance Codec_LineageResponse : Codec encode_LineageResponse decode_LineageResponse wf_LineageResponse.
Proof. solve_codec encode_LineageResponse decode_LineageResponse wf_LineageResponse. Qed.

#[export] Instance Codec_ReconciliationResponse : Codec encode_ReconciliationResponse decode_ReconciliationResponse wf_ReconciliationResponse.
Proof. solve_codec encode_ReconciliationResponse decode_ReconciliationResponse wf_ReconciliationResponse. Qed.

#[export] Instance Codec_OvercommitResponse : Codec encode_OvercommitResponse decode_OvercommitResponse wf_OvercommitResponse.
Proof. solve_codec encode_OvercommitResponse decode_OvercommitResponse wf_OvercommitResponse. Qed.

#[export] Instance Codec_StatsResponse : Codec encode_StatsResponse decode_StatsResponse wf_StatsResponse.
Proof. solve_codec encode_StatsResponse decode_StatsResponse wf_StatsResponse. Qed.

#[export] Instance Codec_HoldResponse : Codec encode_HoldResponse decode_HoldResponse wf_HoldResponse.
Proof. solve_codec encode_HoldResponse decode_HoldResponse wf_HoldResponse. Qed.

#[export] Instance Codec_ErrorResponse : Codec encode_ErrorResponse decode_ErrorResponse wf_ErrorResponse.
Proof. solve_codec encode_ErrorResponse decode_ErrorResponse wf_ErrorResponse. Qed.

(** ** Frames, exactly *)
Lemma MessageType_of_to t : MessageType_of_Z (MessageType_to_Z t) = t \/ exists raw, t = mt_unnamed raw.
Proof. destruct t; auto; right; eexists; reflexivity. Qed.

Lemma MessageType_to_of z : MessageType_to_Z (MessageType_of_Z z) = z.
Proof.
  unfold MessageType_of_Z. destruct (find _ _) as [p|] eqn:F; [|reflexivity].
  apply find_some in F as [I E]. apply Z.eqb_eq in E. rewrite <- E. clear E. revert p I.
  apply List.Forall_forall. repeat constructor.
Qed.

(** The value has a number of its own: it is a named one, or none has it. *)
Definition message_type_ok (t : MessageType) : bool := beq (MessageType_of_Z (MessageType_to_Z t)) t.

Definition encode_header (h : Z * Z * Z * Z * Z) : bytes :=
  let '(magic, declared, checksum, type, version) := h in
  w_u32 magic ++ w_u32 declared ++ w_u32 checksum ++ w_u16 type ++ w_u16 version.

Definition header_ok (h : Z * Z * Z * Z * Z) : bool :=
  let '(magic, declared, checksum, type, version) := h in
  u_ok 32 magic && u_ok 32 declared && u_ok 32 checksum && u_ok 16 type && u_ok 16 version.

#[export] Instance Codec_header : Codec encode_header decode_header header_ok.
Proof.
  constructor.
  - intros [[[[m l] c] t] v] rest W. unfold header_ok in W. split_andb. unfold encode_header, decode_header.
    rewrite <- ?app_assoc. repeat rd_step. reflexivity.
  - intros bs v rest H. unfold decode_header in H. repeat rd_inv H. unfold encode_header, header_ok.
    split; [rewrite <- ?app_assoc; reflexivity|].
    repeat lazymatch goal with |- _ && _ = true => apply andb_true_iff; split end; assumption.
Qed.

Lemma length_header h : length (encode_header h) = 16%nat.
Proof. now destruct h as [[[[m l] c] t] v]. Qed.

Definition frame_header (t : MessageType) (payload : bytes) : Z * Z * Z * Z * Z :=
  (kFrameMagic, to_u 32 (kFrameHeaderBytes + Z.of_nat (length payload)), crc32c payload,
   MessageType_to_Z t, kWireProtocolVersion).

Lemma encode_frame_header t payload : encode_frame t payload = encode_header (frame_header t payload) ++ payload.
Proof. unfold encode_frame, encode_header, frame_header, w_raw. rewrite <- ?app_assoc. reflexivity. Qed.

Lemma crc32c_width bs : u_ok 32 (crc32c bs) = true.
Proof. pose proof (crc32c_u32 bs) as C. unfold u_ok. bool_goal; lia. Qed.

Lemma frame_header_ok t payload :
  u_ok 16 (MessageType_to_Z t) = true -> header_ok (frame_header t payload) = true.
Proof.
  intros T. unfold frame_header, header_ok. rewrite T, crc32c_width.
  assert (u_ok 32 (to_u 32 (kFrameHeaderBytes + Z.of_nat (length payload))) = true) as ->; [|reflexivity].
  pose proof (to_u_range 32 (kFrameHeaderBytes + Z.of_nat (length payload))). unfold u_ok. bool_goal; lia.
Qed.

(** The length field holds the whole length. *)
Definition frame_fits (payload : bytes) : bool :=
  u_ok 32 (kFrameHeaderBytes + Z.of_nat (length payload)).

Lemma decode_encoded_frame t payload :
  message_type_ok t = true -> frame_fits payload = true -> 1 <= MessageType_to_Z t <= 101 ->
  decode_frame (encode_header (frame_header t payload) ++ payload) = Ok (mkFrame t payload).
Proof.
  intros T L R. apply beq_true in T. unfold decode_frame.
  assert (u_ok 16 (MessageType_to_Z t) = true) as U by (unfold u_ok; bool_goal; lia).
  rewrite length_app, length_header, codec_roundtrip by (now apply frame_header_ok). unfold frame_header.
  cbn [rbind]. rewrite to_u_id by exact L. rewrite !Z.eqb_refl.
  assert (Z.of_nat (16 + length payload) = kFrameHeaderBytes + Z.of_nat (length payload)) as -> by (unfold kFrameHeaderBytes; lia).
  rewrite !Z.eqb_refl. cbn [negb refuse rbind].
  destruct (Z.ltb_spec (kFrameHeaderBytes + Z.of_nat (length payload)) kFrameHeaderBytes); [lia|].
  change (MessageType_to_Z mt_kError) with 101. cbn [refuse rbind].
  destruct (Z.ltb_spec (MessageType_to_Z t) 1); [lia|]. rewrite Z.gtb_ltb.
  destruct (Z.ltb_spec 101 (MessageType_to_Z t)); [lia|]. cbn. now rewrite T.
Qed.

(** A frame is decoded exactly when it is the encoding of what is returned:
    the magic, the declared length, the version and the checksum are those the
    encoder writes for the payload, the message type lies between 1 and 101, and
    the length field did not wrap.  So decoding an encoded frame gives it back,
    and no other bytes are accepted. *)
Theorem decode_frame_iff bs t payload :
  decode_frame bs = Ok (mkFrame t payload) <->
  bs = encode_frame t payload /\ message_type_ok t = true /\ frame_fits payload = true /\
  1 <= MessageType_to_Z t <= 101.
Proof.
  rewrite encode_frame_header. split.
  - unfold decode_frame. intros H. apply rbind_refuse_Ok in H as [G0 H].
    apply rbind_Ok in H as ([[[[[m l] c] ty] v] p] & D & H). apply codec_canonical in D as [-> W].
    unfold header_ok in W. split_andb. apply rbind_refuse_Ok in H as [G1 H]. apply rbind_refuse_Ok in H as [G2 H].
    apply rbind_refuse_Ok in H as [G3 H]. apply rbind_refuse_Ok in H as [G4 H]. apply rbind_refuse_Ok in H as [G5 H].
    injection H as <- <-. rewrite length_app, length_header in *. bool_prop.
    unfold frame_header, message_type_ok, frame_fits, kFrameHeaderBytes in *. rewrite !MessageType_to_of.
    assert (Z.of_nat (16 + length p) = 16 + Z.of_nat (length p)) as E by lia. rewrite E in *. subst.
    rewrite to_u_id by assumption. repeat split; try reflexivity; try lia; [apply beq_refl | assumption |].
    change (MessageType_to_Z mt_kError) with 101 in *. lia.
  - intros (-> & T & L & R). now apply decode_encoded_frame.
Qed.

Lemma receive_exact_Ok n s a b :
  0 <= n -> receive_exact n s = Ok (a, b) <-> s = a ++ b /\ Z.of_nat (length a) = n.
Proof.
  intros N. unfold receive_exact. destruct (Z.ltb_spec (Z.of_nat (length s)) n) as [L|L]; split.
  - discriminate.
  - intros [-> E]. rewrite length_app in L. lia.
  - intros [= <- <-]. split; [symmetry; apply firstn_skipn|]. rewrite length_firstn. lia.
  - intros [-> E]. rewrite <- E, Nat2Z.id, firstn_app, Nat.sub_diag, firstn_all, firstn_0, app_nil_r.
    rewrite skipn_app, Nat.sub_diag, skipn_all, skipn_0. reflexivity.
Qed.

Lemma read_encoded_frame bound t payload rest :
  message_type_ok t = true -> frame_fits payload = true -> u_ok 16 (MessageType_to_Z t) = true ->
  kFrameHeaderBytes + Z.of_nat (length payload) <= bound ->
  read_frame bound (encode_header (frame_header t payload) ++ payload ++ rest) = Ok (mkFrame t payload, rest).
Proof.
  intros T L U B. apply beq_true in T. unfold read_frame.
  assert (receive_exact kFrameHeaderBytes (encode_header (frame_header t payload) ++ payload ++ rest) =
          Ok (encode_header (frame_header t payload), payload ++ rest)) as ->.
  { apply receive_exact_Ok; [easy|]. split; [reflexivity | now rewrite length_header]. }
  cbn [rbind]. rewrite <- (app_nil_r (encode_header (frame_header t payload))).
  rewrite codec_roundtrip by (now apply frame_header_ok). unfold frame_header. cbn [rbind].
  rewrite to_u_id by exact L. rewrite !Z.eqb_refl. cbn [negb refuse rbind].
  destruct (Z.ltb_spec (kFrameHeaderBytes + Z.of_nat (length payload)) kFrameHeaderBytes); [lia|].
  rewrite Z.gtb_ltb. destruct (Z.ltb_spec bound (kFrameHeaderBytes + Z.of_nat (length payload))); [lia|].
  cbn [orb refuse rbind].
  assert (receive_exact (kFrameHeaderBytes + Z.of_nat (length payload) - kFrameHeaderBytes) (payload ++ rest) =
          Ok (payload, rest)) as -> by (apply receive_exact_Ok; [lia | split; [reflexivity | lia]]).
  cbn [rbind]. rewrite Z.eqb_refl. cbn. now rewrite T.
Qed.

Lemma stream_frame_inv bound stream t payload rest :
  read_frame bound stream = Ok (mkFrame t payload, rest) ->
  stream = encode_frame t payload ++ rest /\ message_type_ok t = true /\ frame_fits payload = true /\
  u_ok 16 (MessageType_to_Z t) = true /\ kFrameHeaderBytes + Z.of_nat (length payload) <= bound.
Proof.
  rewrite encode_frame_header, <- app_assoc. unfold read_frame. intros H. apply rbind_Ok in H as ([header s] & D & H).
  apply receive_exact_Ok in D as [-> L]; [|easy]. apply rbind_Ok in H as ([[[[[m l] c] ty] v] p] & D & H).
  apply codec_canonical in D as [-> W]. rewrite length_app, length_header in L.
  assert (p = []) as -> by (destruct p; [reflexivity | cbn in L; unfold kFrameHeaderBytes in L; lia]).
  unfold header_ok in W. split_andb. apply rbind_refuse_Ok in H as [G1 H]. apply rbind_refuse_Ok in H as [G2 H].
  apply rbind_refuse_Ok in H as [G3 H]. apply rbind_Ok in H as ([payload' s'] & D & H).
  apply rbind_refuse_Ok in H as [G4 H]. injection H as <- <- <-. bool_prop.
  apply receive_exact_Ok in D as [-> L']; [|lia]. rewrite app_nil_r.
  unfold frame_header, message_type_ok, frame_fits. rewrite !MessageType_to_of, L'.
  replace (kFrameHeaderBytes + (l - kFrameHeaderBytes)) with l by lia. rewrite to_u_id by assumption.
  subst. repeat split; try reflexivity; try assumption; try lia. apply beq_refl.
Qed.

Lemma read_frame_shorter bound stream f rest :
  read_frame bound stream = Ok (f, rest) -> (length rest < length stream)%nat.
Proof.
  destruct f as [t payload]. intros (-> & _)%stream_frame_inv.
  rewrite encode_frame_header, !length_app, length_header. lia.
Qed.

(** C35. The stream reader is exact: what it takes off the stream is one encoded
    frame, of any message type the 16-bit field can hold, whole and not longer
    than its bound, and it leaves precisely the bytes behind it; so frames
    written one after the other are read one by one, whatever their payloads
    contain, and bytes that are no frame are never taken for one. *)
Theorem read_frame_iff bound stream t payload rest :
  read_frame bound stream = Ok (mkFrame t payload, rest) <->
  stream = encode_frame t payload ++ rest /\ message_type_ok t = true /\ frame_fits payload = true /\
  u_ok 16 (MessageType_to_Z t) = true /\ kFrameHeaderBytes + Z.of_nat (length payload) <= bound.
Proof.
  split; [apply stream_frame_inv|]. intros (-> & T & L & U & B).
  rewrite encode_frame_header, <- app_assoc. now apply read_encoded_frame.
Qed.

(** The writer and the reader disagree on the largest frame: a payload whose
    last sixteen bytes exceed what the header leaves of the bound is written
    without an error, and every reader with the same bound refuses the frame, so
    an answer of that size ends the session. *)
Theorem largest_frames_unreadable t payload rest :
  kMaxFrameBytes - kFrameHeaderBytes < Z.of_nat (length payload) <= kMaxFrameBytes ->
  u_ok 16 (MessageType_to_Z t) = true ->
  exists bytes, write_frame t payload = Ok bytes /\
    read_frame kMaxFrameBytes (bytes ++ rest) = Err kResourceExhausted.
Proof.
  intros L U. exists (encode_frame t payload). unfold write_frame.
  rewrite Z.gtb_ltb. destruct (Z.ltb_spec kMaxFrameBytes (Z.of_nat (length payload))); [lia|].
  split; [reflexivity|]. rewrite encode_frame_header, <- app_assoc. unfold read_frame.
  assert (receive_exact kFrameHeaderBytes (encode_header (frame_header t payload) ++ payload ++ rest) =
          Ok (encode_header (frame_header t payload), payload ++ rest)) as ->.
  { apply receive_exact_Ok; [easy|]. split; [reflexivity | now rewrite length_header]. }
  cbn [rbind]. rewrite <- (app_nil_r (encode_header (frame_header t payload))).
  rewrite codec_roundtrip by (now apply frame_header_ok). unfold frame_header. cbn [rbind].
  unfold kMaxFrameBytes, kFrameHeaderBytes in *.
  rewrite to_u_id by (unfold u_ok; bool_goal; lia). rewrite Z.eqb_refl. cbn [negb refuse rbind].
  rewrite Z.gtb_ltb. destruct (Z.ltb_spec (1024 * 1024) (16 + Z.of_nat (length payload))); [|lia].
  rewrite orb_true_r. reflexivity.
Qed.

Lemma largest_frames_unreadable_witness :
  let payload := repeat x00 (Z.to_nat kMaxFrameBytes) in
  exists bytes, write_frame mt_kOk payload = Ok bytes /\
    read_frame kMaxFrameBytes (bytes ++ []) = Err kResourceExhausted.
Proof.
  intros payload. apply (largest_frames_unreadable mt_kOk payload []); [|reflexivity].
  subst payload. rewrite repeat_length, Z2Nat.id by easy. easy.
Defined.

(** A message type without a name is not refused: the decoder of frames
    accepts every number from 1 to 101, and the reader of streams any 16-bit
    number, as a value of the enumeration that prints as UNKNOWN. *)
Theorem unnamed_types_accepted payload :
  frame_fits payload = true ->
  decode_frame (encode_frame (mt_unnamed 3) payload) = Ok (mkFrame (mt_unnamed 3) payload) /\
  read_frame (kFrameHeaderBytes + Z.of_nat (length payload)) (encode_frame (mt_unnamed 65535) payload) =
    Ok (mkFrame (mt_unnamed 65535) payload, []) /\
  MessageType_to_string (mt_unnamed 3) = str "UNKNOWN".
Proof.
  intros F. split; [|split; [|reflexivity]].
  - rewrite encode_frame_header. now apply decode_encoded_frame.
  - pose proof (read_encoded_frame _ (mt_unnamed 65535) payload [] eq_refl F eq_refl (Z.le_refl _)) as R.
    rewrite app_nil_r in R. now rewrite encode_frame_header.
Qed.

Lemma unnamed_types_accepted_witness :
  decode_frame (encode_frame (mt_unnamed 3) (str "x")) = Ok (mkFrame (mt_unnamed 3) (str "x")).
Proof. apply (unnamed_types_accepted (str "x")). reflexivity. Defined.

(** C36. Every request and response of the protocol has an exact codec: decoding
    what was encoded gives the message back and leaves what follows it, and a
    decoder accepts nothing but encodings of well-formed messages (names legal or
    empty, texts and lists within their bounds, at most 64 holds to consume,
    enumerations and flags in range). *)
Theorem protocol_codecs :
  Codec encode_HelloRequest decode_HelloRequest wf_HelloRequest /\
  Codec encode_HelloResponse decode_HelloResponse wf_HelloResponse /\
  Codec encode_CapacityIngestRequest decode_CapacityIngestRequest wf_CapacityIngestRequest /\
  Codec encode_PathIngestRequest decode_PathIngestRequest wf_PathIngestRequest /\
  Codec encode_PolicyIngestRequest decode_PolicyIngestRequest wf_PolicyIngestRequest /\
  Codec encode_ClaimantRegistrationRequest decode_ClaimantRegistrationRequest wf_ClaimantRegistrationRequest /\
  Codec encode_FenceRequest decode_FenceRequest wf_FenceRequest /\
  Codec encode_ReservationCreateRequest decode_ReservationCreateRequest wf_ReservationCreateRequest /\
  Codec encode_AmendmentRequest decode_AmendmentRequest wf_AmendmentRequest /\
  Codec encode_ReservationRefRequest decode_ReservationRefRequest wf_ReservationRefRequest /\
  Codec encode_RecallRequest decode_RecallRequest wf_RecallRequest /\
  Codec encode_RevalidateRequest decode_RevalidateRequest wf_RevalidateRequest /\
  Codec encode_AttemptRequest decode_AttemptRequest wf_AttemptRequest /\
  Codec encode_LifecycleReconcileRequest decode_LifecycleReconcileRequest wf_LifecycleReconcileRequest /\
  Codec encode_QueryRequest decode_QueryRequest wf_QueryRequest /\
  Codec encode_ClaimantQueryRequest decode_ClaimantQueryRequest wf_ClaimantQueryRequest /\
  Codec encode_LineageRequest decode_LineageRequest wf_LineageRequest /\
  Codec encode_HoldAcquireRequest decode_HoldAcquireRequest wf_HoldAcquireRequest /\
  Codec encode_HoldReleaseRequest decode_HoldReleaseRequest wf_HoldReleaseRequest /\
  Codec encode_StatusResponse decode_StatusResponse wf_StatusResponse /\
  Codec encode_CommitResponse decode_CommitResponse wf_CommitResponse /\
  Codec encode_AmendmentResponse decode_AmendmentResponse wf_AmendmentResponse /\
  Codec encode_LifecycleResponse decode_LifecycleResponse wf_LifecycleResponse /\
  Codec encode_ReservationResponse decode_ReservationResponse wf_ReservationResponse /\
  Codec encode_ReservationListResponse decode_ReservationListResponse wf_ReservationListResponse /\
  Codec encode_RemainingResponse decode_RemainingResponse wf_RemainingResponse /\
  Codec encode_ReportResponse decode_ReportResponse wf_ReportResponse /\
  Codec encode_TimelineResponse decode_TimelineResponse wf_TimelineResponse /\
  Codec encode_LineageResponse decode_LineageResponse wf_LineageResponse /\
  Codec encode_ReconciliationResponse decode_ReconciliationResponse wf_ReconciliationResponse /\
  Codec encode_OvercommitResponse decode_OvercommitResponse wf_OvercommitResponse /\
  Codec encode_StatsResponse decode_StatsResponse wf_StatsResponse /\
  Codec encode_HoldResponse decode_HoldResponse wf_HoldResponse /\
  Codec encode_ErrorResponse decode_ErrorResponse wf_ErrorResponse.
Proof. repeat match goal with |- _ /\ _ => split end; exact _. Qed.
