(* ===== verification/Store.v ===== *)
(** * The durable journal and snapshot store

    [include/brf/store.hpp] and [src/store.cpp].  The files of the store
    directory are a [Disk]; the journal stream and its file are one byte
    sequence, so a crash leaves a prefix of it.  Every call of the C library
    that can fail is a field of an [Io] argument, and what the call had written
    by then stays written.  [read_journal] and [read_snapshot] are
    [read_journal_file] and [read_snapshot_file] on the contents of the file. *)
From S2P Require Import Prelude Errors Containers Identity Hash Bandwidth Time Authority Wire Policy Capacity Reservation Outcome SegTree Index Durable.

Definition kJournalMagic : bytes := str "BRFJ".
Definition kSnapshotMagic : bytes := str "BRFS".
Definition kSnapshotSeal : bytes := str "SEAL".
Definition kJournalHeaderBytes : Z := 22.
Definition kSnapshotHeaderBytes : Z := 32.
Definition kSnapshotFooterBytes : Z := 8.

Abbreviation size b := (Z.of_nat (length b)).

(** ** Little-endian fields *)

(** [put_u16], [put_u32], [put_u64]: the loop over the bytes, low first. *)
Definition put_le (n : nat) (v : Z) : bytes :=
  map (fun i => z2b (Z.land (Z.shiftr v (8 * Z.of_nat i)) 0xFF)) (seq 0 n).
Definition put_u16 : Z -> bytes := put_le 2.
Definition put_u32 : Z -> bytes := put_le 4.
Definition put_u64 : Z -> bytes := put_le 8.

(** [get_u16], [get_u32], [get_u64] at the start of [data]. *)
Definition get_le (n : nat) (data : bytes) : Z :=
  fold_left (fun value i => Z.lor value (Z.shiftl (b2z (nth i data x00)) (8 * Z.of_nat i)))
    (seq 0 n) 0.
Definition get_u16 : bytes -> Z := get_le 2.
Definition get_u32 : bytes -> Z := get_le 4.
Definition get_u64 : bytes -> Z := get_le 8.

(** ** Files *)
Record Disk := mkDisk {
  dk_store_id : option bytes;
  dk_snapshot : option bytes;
  dk_snapshot_tmp : option bytes;
  dk_journal : option bytes }.

Definition empty_disk : Disk := mkDisk None None None None.

Definition read_all (file : option bytes) (max_bytes : Z) : Result bytes :=
  match file with
  | None => Err kNotFound
  | Some buffer =>
      refuse_if size buffer >? max_bytes with kResourceExhausted in
      Ok buffer
  end.

(** What a [fopen(path, "wb")], [fwrite], [fsync] sequence leaves. *)
Inductive WriteIo := write_ok | write_create | write_short (n : nat) | write_sync.

(** [write_all]: the new contents of the file, and the status. *)
Definition write_all (old : option bytes) (data : bytes) (io : WriteIo) : option bytes * Status :=
  match io with
  | write_ok => (Some data, Ok tt)
  | write_create => (old, Err kIo)
  | write_short n => (Some (firstn n data), Err kIo)
  | write_sync => (Some data, Err kIo)
  end.

(** ** Journal records *)
Definition journal_header (seq : Z) (kind : Z) (payload : bytes) : bytes :=
  kJournalMagic ++ put_u32 (to_u 32 (kJournalHeaderBytes + size payload)) ++ put_u64 seq ++
  put_u16 kind ++ put_u32 (crc32c payload).

(** ** Recovery of the journal *)
Definition empty_report : RecoveryReport := mkRecoveryReport false false 0 0 0 0 0 (mkCounter 0) [].

(** What one turn of the loop of [read_journal_file] finds at [rest]: a torn
    tail, or a record and its length. *)
Inductive FrameStep :=
  | Torn (why : bytes)
  | Frame (record : JournalRecord) (length : Z).

Definition read_frame (max_payload : Z) (last : option Z) (offset : Z) (rest : bytes) : Result FrameStep :=
  let remaining := size rest in
  if remaining <? kJournalHeaderBytes then
    Ok (Torn (str "journal ends with a partial record header"))
  else
    refuse_if negb (beq (firstn 4 rest) kJournalMagic) with kCorrupt in
    let length := get_u32 (skipn 4 rest) in
    let sequence := get_u64 (skipn 8 rest) in
    let kind_value := get_u16 (skipn 16 rest) in
    let payload_crc := get_u32 (skipn 18 rest) in
    refuse_if length <? kJournalHeaderBytes with kCorrupt in
    let payload_size := length - kJournalHeaderBytes in
    refuse_if payload_size >? max_payload with kResourceExhausted in
    if remaining <? length then
      Ok (Torn (str "journal ends with a truncated record body"))
    else
      let payload := firstn (Z.to_nat payload_size) (skipn 22 rest) in
      refuse_if negb (crc32c payload =? payload_crc) with kCorrupt in
      refuse_if (match last with Some l => sequence <=? l | None => false end) with kCorrupt in
      match parse_record_kind kind_value with
      | Err _ => Err kCorrupt
      | Ok kind => Ok (Frame (mkJournalRecord kind (mkCounter sequence) payload offset) length)
      end.

(** The [while (offset < file.size())] loop; every turn consumes at least a
    header, so [length rest + 1] turns are enough. *)
Fixpoint journal_loop (fuel : nat) (max_payload : Z) (last : option Z) (offset : Z) (rest : bytes)
    (records : list JournalRecord) : option (Result (list JournalRecord * RecoveryReport)) :=
  match fuel with
  | O => None
  | S fuel =>
      let report torn why :=
        mkRecoveryReport false torn (if torn : bool then size rest else 0) 0
          (Z.of_nat (length records)) 0
          (match last with Some l => l | None => 0 end) (mkCounter 0) why in
      if size rest =? 0 then Some (Ok (records, report false []))
      else
        match read_frame max_payload last offset rest with
        | Err e => Some (Err e)
        | Ok (Torn why) => Some (Ok (records, report true why))
        | Ok (Frame record length) =>
            journal_loop fuel max_payload (Some (value (jr_sequence record))) (offset + length)
              (skipn (Z.to_nat length) rest) (records ++ [record])
        end
  end.

Definition kMaxJournalFile : Z := 1024 * 1024 * 1024.
Definition kMaxSnapshotFile : Z := 256 * 1024 * 1024.

Definition read_journal (journal : option bytes) (max_payload : Z) :
    Result (list JournalRecord * RecoveryReport) :=
  let? file := read_all journal kMaxJournalFile in
  match journal_loop (S (length file)) max_payload None 0 file [] with
  | Some r => r
  | None => Err kInternal
  end.

(** ** The sealed snapshot *)
Definition snapshot_file (sequence : Z) (payload : bytes) : bytes :=
  let head :=
    kSnapshotMagic ++ put_u16 kDurableFormatVersion ++ put_u16 0 ++ put_u64 sequence ++
    put_u64 (size payload) ++ put_u32 (crc32c payload) in
  let sealed := head ++ put_u32 (crc32c head) ++ payload ++ kSnapshotSeal in
  sealed ++ put_u32 (crc32c sealed).

(** The payload and the snapshot sequence. *)
Definition read_snapshot (snapshot : option bytes) : Result (bytes * Z) :=
  let? file := read_all snapshot kMaxSnapshotFile in
  refuse_if size file <? kSnapshotHeaderBytes + kSnapshotFooterBytes with kCorrupt in
  refuse_if negb (beq (firstn 4 file) kSnapshotMagic) with kCorrupt in
  let version := get_u16 (skipn 4 file) in
  refuse_if negb (version =? kDurableFormatVersion) with kUnsupported in
  let sequence := get_u64 (skipn 8 file) in
  let payload_length := get_u64 (skipn 16 file) in
  let payload_crc := get_u32 (skipn 24 file) in
  let header_crc := get_u32 (skipn 28 file) in
  refuse_if negb (header_crc =? crc32c (firstn 28 file)) with kCorrupt in
  refuse_if payload_length >? size file - kSnapshotHeaderBytes - kSnapshotFooterBytes with kCorrupt in
  let expected_size := kSnapshotHeaderBytes + payload_length + kSnapshotFooterBytes in
  refuse_if negb (size file =? expected_size) with kCorrupt in
  let payload := firstn (Z.to_nat payload_length) (skipn 32 file) in
  refuse_if negb (crc32c payload =? payload_crc) with kCorrupt in
  let footer := skipn (Z.to_nat payload_length) (skipn 32 file) in
  refuse_if negb (beq (firstn 4 footer) kSnapshotSeal) with kCorrupt in
  let seal_crc := get_u32 (skipn 4 footer) in
  refuse_if negb (seal_crc =? crc32c (firstn (length file - 4) file)) with kCorrupt in
  Ok (payload, sequence).

(** ** The store object *)
Record Options := mkOptions {
  max_record_payload : Z;
  max_snapshot_payload : Z;
  compact_threshold_bytes : Z;
  sync_on_append : bool }.

Definition default_options : Options :=
  mkOptions (4 * 1024 * 1024) (256 * 1024 * 1024) (8 * 1024 * 1024) true.

(** [journal_open] is [impl_->journal != nullptr]. *)
Record Store := mkStore {
  options_ : Options;
  journal_open : bool;
  records_ : list JournalRecord;
  last_sequence_ : DurableSequence;
  snapshot_sequence_ : DurableSequence;
  journal_bytes_ : Z;
  snapshot_payload_ : bytes;
  report_ : RecoveryReport }.

Definition should_compact (st : Store) : bool :=
  journal_bytes_ st >=? compact_threshold_bytes (options_ st).

(** The journal stream takes more bytes. *)
Definition journal_write (d : Disk) (data : bytes) : Disk :=
  mkDisk (dk_store_id d) (dk_snapshot d) (dk_snapshot_tmp d)
    (Some (match dk_journal d with Some j => j ++ data | None => data end)).

(** How the calls of [append] end: all succeed, the header or the payload is
    written short, or the flush to stable storage reports a failure. *)
Inductive AppendIo := append_ok | append_header (n : nat) | append_payload (n : nat) | append_flush.

Definition append (st : Store) (d : Disk) (io : AppendIo) (kind : RecordKind) (payload : bytes) :
    Result DurableSequence * Store * Disk :=
  if negb (journal_open st) then (Err kIo, st, d)
  else if size payload >? max_record_payload (options_ st) then (Err kResourceExhausted, st, d)
  else
    let next := to_u 64 (value (last_sequence_ st) + 1) in
    let header := journal_header next (RecordKind_to_Z kind) payload in
    match io with
    | append_header n => (Err kIo, st, journal_write d (firstn n header))
    | append_payload n => (Err kIo, st, journal_write d (header ++ firstn n payload))
    | append_flush => (Err kIo, st, journal_write d (header ++ payload))
    | append_ok =>
        let journal_bytes := to_u 64 (journal_bytes_ st + (size header + size payload)) in
        let record :=
          mkJournalRecord kind (mkCounter next) payload
            (to_u 64 (journal_bytes - (size header + size payload))) in
        (Ok (mkCounter next),
         mkStore (options_ st) true (records_ st ++ [record]) (mkCounter next)
           (snapshot_sequence_ st) journal_bytes (snapshot_payload_ st) (report_ st),
         journal_write d (header ++ payload))
    end.

Inductive SnapshotIo := snap_ok | snap_write (io : WriteIo) | snap_rename.

Definition write_snapshot (st : Store) (d : Disk) (io : SnapshotIo) (payload : bytes) :
    Result DurableSequence * Store * Disk :=
  if size payload >? max_snapshot_payload (options_ st) then (Err kResourceExhausted, st, d)
  else
    let file := snapshot_file (value (last_sequence_ st)) payload in
    let '(temporary, written) :=
      write_all (dk_snapshot_tmp d) file (match io with snap_write w => w | _ => write_ok end) in
    let d := mkDisk (dk_store_id d) (dk_snapshot d) temporary (dk_journal d) in
    match written, io with
    | Err e, _ => (Err e, st, d)
    | Ok _, snap_rename => (Err kIo, st, d)
    | Ok _, _ =>
        (Ok (last_sequence_ st),
         mkStore (options_ st) (journal_open st) (records_ st) (last_sequence_ st)
           (last_sequence_ st) (journal_bytes_ st) payload (report_ st),
         mkDisk (dk_store_id d) temporary None (dk_journal d))
    end.

(** The result of [remove] is not looked at. *)
Inductive RotateIo := rotate_ok | rotate_sync | rotate_remove | rotate_open.

Definition rotate_journal (st : Store) (d : Disk) (io : RotateIo) : Status * Store * Disk :=
  match journal_open st, io with
  | true, rotate_sync => (Err kIo, st, d)
  | _, _ =>
      let kept := match io with rotate_remove => dk_journal d | _ => None end in
      let journal j := mkDisk (dk_store_id d) (dk_snapshot d) (dk_snapshot_tmp d) j in
      match io with
      | rotate_open =>
          (Err kIo,
           mkStore (options_ st) false (records_ st) (last_sequence_ st) (snapshot_sequence_ st)
             (journal_bytes_ st) (snapshot_payload_ st) (report_ st),
           journal kept)
      | _ =>
          (Ok tt,
           mkStore (options_ st) true [] (last_sequence_ st) (snapshot_sequence_ st) 0
             (snapshot_payload_ st) (report_ st),
           journal (Some (match kept with Some j => j | None => [] end)))
      end
  end.

(** ** Opening a directory *)
Record OpenIo := mkOpenIo {
  directories_created : bool;
  store_id_write : WriteIo;
  journal_resized : bool;
  journal_opened : bool }.

Definition open_io_ok : OpenIo := mkOpenIo true write_ok true true.

Definition strip_newlines (text : bytes) : bytes :=
  let fix strip t :=
    match t with
    | b :: t' => if byte_eqb b x0a || byte_eqb b x0d then strip t' else t
    | [] => []
    end in
  rev (strip (rev text)).

(** The identity file: created once from [fresh] (clock and path material),
    never regenerated. *)
Definition check_store_id (d : Disk) (io : OpenIo) (fresh : bytes) : Status * Disk :=
  match dk_store_id d with
  | None =>
      let '(file, written) :=
        write_all None (to_hex (fingerprint128 fresh) ++ [x0a]) (store_id_write io) in
      (written, mkDisk file (dk_snapshot d) (dk_snapshot_tmp d) (dk_journal d))
  | Some text =>
      (let? existing := read_all (Some text) 128 in
       match from_hex (strip_newlines existing) with
       | Ok _ => Ok tt
       | Err _ => Err kCorrupt
       end, d)
  end.

(** [read_snapshot_file] and [read_journal_file] with a missing file allowed. *)
Definition load_snapshot (d : Disk) : Result (bytes * Z * bool) :=
  match read_snapshot (dk_snapshot d) with
  | Ok (payload, sequence) => Ok (payload, sequence, true)
  | Err e => if bool_decide (e = kNotFound) then Ok ([], 0, false) else Err e
  end.

Definition load_journal (d : Disk) (o : Options) : Result (list JournalRecord * RecoveryReport) :=
  match read_journal (dk_journal d) (max_record_payload o) with
  | Ok r => Ok r
  | Err e => if bool_decide (e = kNotFound) then Ok ([], empty_report) else Err e
  end.

(** The offset a torn tail is cut at: the end of the last complete record. *)
Definition truncate_at (records : list JournalRecord) : Z :=
  match last records with
  | None => 0
  | Some r => file_offset r + kJournalHeaderBytes + size (payload r)
  end.

Definition last_sequence_of (floor : Z) (records : list JournalRecord) : Z :=
  fold_left (fun _ r => value (jr_sequence r)) records floor.

(** The part of [Store::open] after both files are read. *)
Definition finish_open (o : Options) (snapshot : bytes) (floor : Z) (loaded : bool)
    (all : list JournalRecord) (jr : RecoveryReport) (journal : option bytes) : Store :=
  let effective := List.filter (fun r => negb (value (jr_sequence r) <=? floor)) all in
  let skipped := List.filter (fun r => value (jr_sequence r) <=? floor) all in
  let last_seq := last_sequence_of floor effective in
  mkStore o true effective (mkCounter last_seq) (mkCounter floor)
    (match journal with Some j => size j | None => 0 end) snapshot
    (mkRecoveryReport loaded (torn_tail_truncated jr) (truncated_bytes jr) floor
       (Z.of_nat (length effective)) (Z.of_nat (length skipped)) last_seq (mkCounter 0) (detail jr)).

Definition open (d : Disk) (o : Options) (io : OpenIo) (fresh : bytes) : Result Store * Disk :=
  if negb (directories_created io) then (Err kIo, d)
  else
    let '(checked, d) := check_store_id d io fresh in
    match checked with
    | Err e => (Err e, d)
    | Ok _ =>
        match load_snapshot d with
        | Err e => (Err e, d)
        | Ok (snapshot, floor, loaded) =>
            match load_journal d o with
            | Err e => (Err e, d)
            | Ok (all, jr) =>
                if torn_tail_truncated jr && negb (journal_resized io) then (Err kIo, d)
                else
                  let journal :=
                    if torn_tail_truncated jr then
                      option_map (firstn (Z.to_nat (truncate_at all))) (dk_journal d)
                    else dk_journal d in
                  let truncated := mkDisk (dk_store_id d) (dk_snapshot d) (dk_snapshot_tmp d) journal in
                  if negb (journal_opened io) then (Err kIo, truncated)
                  else
                    (Ok (finish_open o snapshot floor loaded all jr journal),
                     mkDisk (dk_store_id d) (dk_snapshot d) (dk_snapshot_tmp d)
                       (Some (match journal with Some j => j | None => [] end)))
            end
        end
    end.

(** ** Little-endian lemmas *)
Lemma length_put_le n v : length (put_le n v) = n.
Proof. unfold put_le. rewrite length_map, length_seq. reflexivity. Qed.

Lemma put_le_snoc n v :
  put_le (S n) v = put_le n v ++ [z2b (Z.land (Z.shiftr v (8 * Z.of_nat n)) 0xFF)].
Proof. unfold put_le. rewrite seq_S, map_app. reflexivity. Qed.

Lemma get_le_snoc n data :
  get_le (S n) data = Z.lor (get_le n data) (Z.shiftl (b2z (nth n data x00)) (8 * Z.of_nat n)).
Proof. unfold get_le. rewrite seq_S, fold_left_app. reflexivity. Qed.

Lemma pow2_8S n : 2 ^ (8 * Z.of_nat (S n)) = 2 ^ (8 * Z.of_nat n) * 256.
Proof. rewrite Nat2Z.inj_succ, <- Z.add_1_r, Z.mul_add_distr_l, Z.pow_add_r by lia. reflexivity. Qed.

Lemma get_le_sum n data :
  0 <= get_le n data < 2 ^ (8 * Z.of_nat n) /\
  get_le (S n) data = get_le n data + b2z (nth n data x00) * 2 ^ (8 * Z.of_nat n).
Proof.
  assert (forall m, 0 <= get_le m data < 2 ^ (8 * Z.of_nat m)) as B.
  { induction m as [|m IH]; [cbn; lia|].
    rewrite get_le_snoc, lor_shiftl, pow2_8S by (try apply IH; pose proof (b2z_range (nth m data x00)); lia).
    pose proof (b2z_range (nth m data x00)). nia. }
  split; [apply B|]. rewrite get_le_snoc. apply lor_shiftl; [lia | apply B |].
  pose proof (b2z_range (nth n data x00)). lia.
Qed.

Lemma fold_left_ext_in {A B} (f g : A -> B -> A) l :
  (forall a b, In b l -> f a b = g a b) -> forall a, fold_left f l a = fold_left g l a.
Proof.
  induction l as [|b l IH]; intros H a; [reflexivity|]. simpl.
  rewrite H by (left; reflexivity). apply IH. intros. apply H. right. assumption.
Qed.

Lemma get_le_app n data rest : length data = n -> get_le n (data ++ rest) = get_le n data.
Proof.
  intros L. unfold get_le. apply fold_left_ext_in. intros a i I. apply in_seq in I.
  rewrite app_nth1 by lia. reflexivity.
Qed.

(** Reading back a field gives its value at the width of the field. *)
Lemma get_put_le n v rest : 0 <= v -> get_le n (put_le n v ++ rest) = v mod 2 ^ (8 * Z.of_nat n).
Proof.
  intros P. rewrite get_le_app by apply length_put_le.
  revert P. induction n as [|n IH]; intros P; [change (2 ^ _) with 1; rewrite Z.mod_1_r; reflexivity|].
  destruct (get_le_sum n (put_le (S n) v)) as [_ ->].
  rewrite put_le_snoc, get_le_app, IH by (rewrite ?length_put_le; auto).
  rewrite app_nth2, length_put_le, Nat.sub_diag by (rewrite length_put_le; lia). cbn [nth].
  rewrite b2z_z2b, Z.shiftr_div_pow2 by lia. change 0xFF with (Z.ones 8).
  rewrite Z.land_ones, Z.mod_mod by lia. rewrite pow2_8S.
  rewrite Z.rem_mul_r by lia. change (2 ^ 8) with 256. ring.
Qed.

Lemma get_le_inj n a b : length a = n -> length b = n -> get_le n a = get_le n b -> a = b.
Proof.
  revert a b. induction n as [|n IH]; intros a b La Lb E.
  - destruct a, b; simpl in *; congruence || lia.
  - destruct (get_le_sum n a) as [Ba Ea]. destruct (get_le_sum n b) as [Bb Eb].
    rewrite Ea, Eb in E.
    destruct (exists_last (l := a)) as (a' & x & ->); [intros ->; simpl in La; lia|].
    destruct (exists_last (l := b)) as (b' & y & ->); [intros ->; simpl in Lb; lia|].
    rewrite length_app in La, Lb. simpl in La, Lb.
    assert (length a' = n /\ length b' = n) as [Ka Kb] by lia.
    rewrite !get_le_app in * by assumption.
    rewrite !app_nth2, Ka, Kb, Nat.sub_diag in E by lia. cbn [nth] in E.
    pose proof (b2z_range x). pose proof (b2z_range y).
    assert (b2z x = b2z y) as Exy by nia. apply b2z_inj in Exy. subst y.
    f_equal. apply IH; try assumption. nia.
Qed.

Lemma put_get_le n data : (n <= length data)%nat -> put_le n (get_le n data) = firstn n data.
Proof.
  intros L. rewrite <- (firstn_skipn n data) at 1.
  assert (length (firstn n data) = n) as F by (rewrite length_firstn; lia).
  rewrite get_le_app by exact F. apply (get_le_inj n); [apply length_put_le | exact F |].
  rewrite <- (app_nil_r (put_le n _)), get_put_le by apply get_le_sum.
  apply Z.mod_small. apply get_le_sum.
Qed.

Lemma get_le_u_ok n data : u_ok (8 * Z.of_nat n) (get_le n data) = true.
Proof. destruct (get_le_sum n data) as [B _]. unfold u_ok. bool_goal; lia. Qed.

(** ** The journal file *)

(** The bytes of a record, [append]'s header and payload. *)
Definition journal_frame (r : JournalRecord) : bytes :=
  journal_header (value (jr_sequence r)) (RecordKind_to_Z (jr_kind r)) (payload r) ++ payload r.

(** The frame of [r] with its payload replaced. *)
Definition damaged_frame (r : JournalRecord) (p : bytes) : bytes :=
  journal_header (value (jr_sequence r)) (RecordKind_to_Z (jr_kind r)) (payload r) ++ p.

Definition journal_file (rs : list JournalRecord) : bytes := flat_map journal_frame rs.

Definition frame_size (r : JournalRecord) : Z := kJournalHeaderBytes + size (payload r).

(** A record that can follow the sequence [last] at [offset]. *)
Definition record_ok (max_payload : Z) (last : option Z) (offset : Z) (r : JournalRecord) : bool :=
  counter_ok (jr_sequence r) &&
  negb (match last with Some l => value (jr_sequence r) <=? l | None => false end) &&
  (size (payload r) <=? max_payload) && (file_offset r =? offset).

(** Records in the order of the file: increasing 64-bit sequences above [last],
    bounded payloads, each at its offset. *)
Fixpoint journal_ok (max_payload : Z) (last : option Z) (offset : Z) (rs : list JournalRecord) : bool :=
  match rs with
  | [] => true
  | r :: rs =>
      record_ok max_payload last offset r &&
      journal_ok max_payload (Some (value (jr_sequence r))) (offset + frame_size r) rs
  end.

(** What is taken for a torn tail: shorter than a header, or a header whose
    declared length is bounded and longer than what is left. *)
Definition torn_tail (max_payload : Z) (tail : bytes) : bool :=
  (0 <? size tail) &&
  ((size tail <? kJournalHeaderBytes) ||
   (beq (firstn 4 tail) kJournalMagic && (size tail <? get_u32 (skipn 4 tail)) &&
    (get_u32 (skipn 4 tail) - kJournalHeaderBytes <=? max_payload))).

Definition torn_why (tail : bytes) : bytes :=
  if size tail <? kJournalHeaderBytes then str "journal ends with a partial record header"
  else str "journal ends with a truncated record body".

Definition last_of (last : option Z) (rs : list JournalRecord) : option Z :=
  fold_left (fun _ r => Some (value (jr_sequence r))) rs last.

(** The report of a scan that found [n] records and the tail [tail]. *)
Definition scan_report (n : Z) (last : option Z) (tail : bytes) : RecoveryReport :=
  mkRecoveryReport false (negb (size tail =? 0)) (size tail) 0 n 0
    (match last with Some l => l | None => 0 end) (mkCounter 0)
    (if size tail =? 0 then [] else torn_why tail).

Lemma length_journal_header seq kind p : length (journal_header seq kind p) = 22%nat.
Proof.
  unfold journal_header, put_u32, put_u64, put_u16.
  rewrite !length_app, !length_put_le. reflexivity.
Qed.

Lemma size_journal_frame r : size (journal_frame r) = frame_size r.
Proof.
  unfold journal_frame, frame_size, kJournalHeaderBytes.
  rewrite length_app, length_journal_header. lia.
Qed.

(** Reading the fields of a header. *)
Lemma skipn_app_at {A} n (a b : list A) : length a = n -> skipn n (a ++ b) = b.
Proof. intros <-. rewrite skipn_app, skipn_all, Nat.sub_diag. reflexivity. Qed.

Lemma firstn_app_at {A} n (a b : list A) : length a = n -> firstn n (a ++ b) = a.
Proof. intros <-. rewrite firstn_app, Nat.sub_diag, firstn_all, firstn_O, app_nil_r. reflexivity. Qed.

Lemma skipn_skipn_add {A} n m (l : list A) : skipn (n + m) l = skipn m (skipn n l).
Proof. rewrite skipn_skipn. f_equal. lia. Qed.

(** A string of at least 22 bytes is its header fields and a body. *)
Lemma header_split (bs : bytes) :
  (22 <= length bs)%nat ->
  bs = firstn 4 bs ++ put_u32 (get_u32 (skipn 4 bs)) ++ put_u64 (get_u64 (skipn 8 bs)) ++
       put_u16 (get_u16 (skipn 16 bs)) ++ put_u32 (get_u32 (skipn 18 bs)) ++ skipn 22 bs.
Proof.
  intros L. unfold put_u32, put_u64, put_u16, get_u32, get_u64, get_u16.
  rewrite !put_get_le by (rewrite length_skipn; lia).
  rewrite <- (firstn_skipn 4 bs) at 1. f_equal.
  replace 22%nat with (18 + 4)%nat by reflexivity. rewrite (skipn_skipn_add 18 4).
  rewrite (firstn_skipn 4 (skipn 18 bs)).
  replace (skipn 18 bs) with (skipn 2 (skipn 16 bs)) by (rewrite <- skipn_skipn_add; reflexivity).
  rewrite (firstn_skipn 2 (skipn 16 bs)).
  replace (skipn 16 bs) with (skipn 8 (skipn 8 bs)) by (rewrite <- skipn_skipn_add; reflexivity).
  rewrite (firstn_skipn 8 (skipn 8 bs)).
  replace (skipn 8 bs) with (skipn 4 (skipn 4 bs)) by (rewrite <- skipn_skipn_add; reflexivity).
  rewrite (firstn_skipn 4 (skipn 4 bs)). reflexivity.
Qed.

Section header_fields.
Context (magic body : bytes) (len seq kind crc : Z).
Context (M : length magic = 4%nat).
Context (Len : u_ok 32 len = true) (Seq : u_ok 64 seq = true) (Kind : u_ok 16 kind = true)
    (Crc : u_ok 32 crc = true).

Let bs := magic ++ put_u32 len ++ put_u64 seq ++ put_u16 kind ++ put_u32 crc ++ body.

Lemma field_id n v rest : u_ok (8 * Z.of_nat n) v = true -> get_le n (put_le n v ++ rest) = v.
  Proof.
    intros U. unfold u_ok in U. bool_prop. rewrite get_put_le by assumption. now apply Z.mod_small.
  Qed.

Lemma header_fields :
    firstn 4 bs = magic /\ get_u32 (skipn 4 bs) = len /\ get_u64 (skipn 8 bs) = seq /\
    get_u16 (skipn 16 bs) = kind /\ get_u32 (skipn 18 bs) = crc /\ skipn 22 bs = body.
  Proof.
    unfold get_u32, get_u64, get_u16.
    assert (skipn 4 bs = put_u32 len ++ put_u64 seq ++ put_u16 kind ++ put_u32 crc ++ body) as S4
      by (apply skipn_app_at, M).
    assert (skipn 8 bs = put_u64 seq ++ put_u16 kind ++ put_u32 crc ++ body) as S8.
    { change 8%nat with (4 + 4)%nat. rewrite skipn_skipn_add, S4. apply skipn_app_at, length_put_le. }
    assert (skipn 16 bs = put_u16 kind ++ put_u32 crc ++ body) as S16.
    { change 16%nat with (8 + 8)%nat. rewrite skipn_skipn_add, S8. apply skipn_app_at, length_put_le. }
    assert (skipn 18 bs = put_u32 crc ++ body) as S18.
    { change 18%nat with (16 + 2)%nat. rewrite skipn_skipn_add, S16. apply skipn_app_at, length_put_le. }
    assert (skipn 22 bs = body) as S22.
    { change 22%nat with (18 + 4)%nat. rewrite skipn_skipn_add, S18. apply skipn_app_at, length_put_le. }
    rewrite S4, S8, S16, S18, S22. repeat split; try (apply field_id; assumption).
    apply firstn_app_at, M.
  Qed.
End header_fields.

Lemma parse_record_kind_to_Z k : parse_record_kind (RecordKind_to_Z k) = Ok k.
Proof. destruct k; reflexivity. Qed.

Lemma parse_record_kind_inv v k : parse_record_kind v = Ok k -> v = RecordKind_to_Z k.
Proof.
  unfold parse_record_kind. intros H. inv_result. bool_prop. symmetry. apply Z.eqb_eq.
  apply (all_below_spec
    (fun z => RecordKind_to_Z (nth (Z.to_nat (z - 1)) RecordKind_all kFabricBoot) =? z) 14 1);
    [reflexivity | lia].
Qed.

Lemma RecordKind_u16 k : u_ok 16 (RecordKind_to_Z k) = true.
Proof. destruct k; reflexivity. Qed.

Lemma crc32c_u_ok data : u_ok 32 (crc32c data) = true.
Proof. pose proof (crc32c_u32 data). unfold u_ok. bool_goal; lia. Qed.

(** The largest payload whose record length fits its 32-bit field. *)
Definition payload_bound_ok (max_payload : Z) : bool := max_payload <=? 2 ^ 32 - 23.

Section frames.
Context (max_payload : Z) (MP : payload_bound_ok max_payload = true).

  (** A complete frame whose payload may have been replaced: what the checks of
      the payload and of the sequence decide. *)
Lemma read_frame_header last offset r p rest :
    counter_ok (jr_sequence r) = true -> size (payload r) <= max_payload ->
    size p = size (payload r) ->
    read_frame max_payload last offset (damaged_frame r p ++ rest) =
    rbind (refuse (negb (crc32c p =? crc32c (payload r))) kCorrupt) (fun _ =>
    rbind (refuse (match last with Some l => value (jr_sequence r) <=? l | None => false end) kCorrupt)
      (fun _ => Ok (Frame (mkJournalRecord (jr_kind r) (jr_sequence r) p offset) (frame_size r)))).
  Proof.
    intros U B Sp. unfold payload_bound_ok in MP. bool_prop.
    assert (u_ok 32 (22 + size (payload r)) = true) as UL by (unfold u_ok; bool_goal; lia).
    pose proof (header_fields kJournalMagic (p ++ rest) (22 + size (payload r))
                  (value (jr_sequence r)) (RecordKind_to_Z (jr_kind r)) (crc32c (payload r)) eq_refl UL U
                  (RecordKind_u16 _) (crc32c_u_ok _)) as F.
    cbv zeta in F. set (bs := damaged_frame r p ++ rest) in *.
    assert (size bs = 22 + size (payload r) + size rest) as Sz.
    { subst bs. unfold damaged_frame. rewrite length_app, (length_app (journal_header _ _ _)).
      rewrite length_journal_header. lia. }
    assert (bs = kJournalMagic ++ put_u32 (22 + size (payload r)) ++ put_u64 (value (jr_sequence r)) ++
              put_u16 (RecordKind_to_Z (jr_kind r)) ++ put_u32 (crc32c (payload r)) ++ p ++ rest) as D.
    { subst bs. unfold damaged_frame, journal_header, kJournalHeaderBytes.
      rewrite (to_u_id 32) by exact UL. rewrite <- !app_assoc. reflexivity. }
    rewrite <- D in F. destruct F as (F0 & F1 & F2 & F3 & F4 & F5).
    unfold read_frame, kJournalHeaderBytes. rewrite F0, F1, F2, F3, F4, F5, Sz, beq_refl.
    replace (22 + size (payload r) + size rest <? 22) with false by (symmetry; apply Z.ltb_ge; lia).
    replace (22 + size (payload r) <? 22) with false by (symmetry; apply Z.ltb_ge; lia).
    replace (22 + size (payload r) - 22) with (size p) by lia.
    rewrite Z.gtb_ltb. replace (max_payload <? size p) with false by (symmetry; apply Z.ltb_ge; lia).
    replace (22 + size (payload r) + size rest <? 22 + size (payload r)) with false
      by (symmetry; apply Z.ltb_ge; lia).
    cbn [negb]. cbn [refuse]. cbn [rbind].
    rewrite Nat2Z.id, firstn_app_at, parse_record_kind_to_Z by reflexivity.
    destruct (jr_sequence r). reflexivity.
  Qed.

Lemma read_frame_frame last offset r rest :
    record_ok max_payload last offset r = true ->
    read_frame max_payload last offset (journal_frame r ++ rest) = Ok (Frame r (frame_size r)).
  Proof.
    unfold record_ok. intros W. split_andb. bool_prop.
    change (journal_frame r) with (damaged_frame r (payload r)).
    rewrite read_frame_header, Z.eqb_refl by (assumption || reflexivity).
    match goal with Q : match last with _ => _ end = false |- _ => rewrite Q end.
    destruct r as [k q p o]; cbn in *. subst o. reflexivity.
  Qed.

  (** A frame whose sequence does not increase. *)
Lemma read_frame_repeated l offset r rest :
    size (payload r) <= max_payload -> counter_ok (jr_sequence r) = true ->
    value (jr_sequence r) <= l ->
    read_frame max_payload (Some l) offset (journal_frame r ++ rest) = Err kCorrupt.
  Proof.
    intros B U L. change (journal_frame r) with (damaged_frame r (payload r)).
    rewrite read_frame_header, Z.eqb_refl by (assumption || reflexivity).
    apply Z.leb_le in L. rewrite L. reflexivity.
  Qed.

  (** A frame with one damaged payload byte. *)
Lemma read_frame_damaged last offset r a x y b rest :
    size (payload r) <= max_payload -> counter_ok (jr_sequence r) = true ->
    payload r = a ++ x :: b -> x <> y ->
    read_frame max_payload last offset (damaged_frame r (a ++ y :: b) ++ rest) = Err kCorrupt.
  Proof.
    intros B U E N. rewrite read_frame_header; try assumption.
    - destruct (crc32c (a ++ y :: b) =? crc32c (payload r)) eqn:C; [|reflexivity].
      apply Z.eqb_eq in C. rewrite E in C. apply crc32c_one_byte in C. congruence.
    - rewrite E, !length_app. reflexivity.
  Qed.

Lemma read_frame_inv last offset bs r len :
    read_frame max_payload last offset bs = Ok (Frame r len) ->
    exists rest, bs = journal_frame r ++ rest /\ record_ok max_payload last offset r = true /\ len = frame_size r.
  Proof.
    unfold read_frame. destruct (size bs <? kJournalHeaderBytes) eqn:Sh; [discriminate|].
    intros H. apply rbind_refuse_Ok in H. destruct H as [M H].
    apply rbind_refuse_Ok in H. destruct H as [L H].
    apply rbind_refuse_Ok in H. destruct H as [B H].
    destruct (size bs <? get_u32 (skipn 4 bs)) eqn:R; [discriminate|].
    apply rbind_refuse_Ok in H. destruct H as [C H].
    apply rbind_refuse_Ok in H. destruct H as [Q H].
    destruct (parse_record_kind (get_u16 (skipn 16 bs))) as [k|] eqn:K; [|discriminate].
    injection H as <- <-. apply parse_record_kind_inv in K.
    apply negb_false_iff in M, C. apply beq_true in M. apply Z.eqb_eq in C.
    unfold kJournalHeaderBytes in *. bool_prop.
    set (len := get_u32 (skipn 4 bs)) in *. set (body := skipn 22 bs) in *.
    set (p := firstn (Z.to_nat (len - 22)) body) in *.
    assert (size p = len - 22) as Lp.
    { subst p body. rewrite length_firstn, length_skipn. lia. }
    exists (skipn (Z.to_nat (len - 22)) body). repeat split.
    - rewrite (header_split bs) at 1 by lia. fold len body.
      unfold journal_frame, journal_header. cbn [jr_sequence jr_kind payload value].
      rewrite <- K, M, <- C, Lp, <- !app_assoc. unfold kJournalHeaderBytes.
      replace (22 + (len - 22)) with len by lia. rewrite to_u_id.
      + do 5 f_equal. symmetry. apply firstn_skipn.
      + exact (get_le_u_ok 4 (skipn 4 bs)).
    - unfold record_ok. cbn [jr_sequence payload file_offset value]. rewrite Lp, Q.
      rewrite Z.eqb_refl, andb_true_r. apply andb_true_iff. split; [|bool_goal; lia].
      rewrite andb_true_r. exact (get_le_u_ok 8 (skipn 8 bs)).
    - unfold frame_size, kJournalHeaderBytes. cbn [payload]. lia.
  Qed.

Lemma read_frame_torn last offset bs :
    torn_tail max_payload bs = true -> read_frame max_payload last offset bs = Ok (Torn (torn_why bs)).
  Proof.
    unfold torn_tail, read_frame, torn_why. intros T. apply andb_true_iff in T. destruct T as [_ T].
    destruct (size bs <? kJournalHeaderBytes) eqn:Sh; [reflexivity|]. cbn [orb] in T. split_andb.
    rewrite H, H1. bool_prop. unfold kJournalHeaderBytes in *. cbn [negb refuse rbind].
    replace (get_u32 (skipn 4 bs) <? 22) with false by (symmetry; apply Z.ltb_ge; lia).
    cbn [refuse rbind]. rewrite Z.gtb_ltb.
    replace (max_payload <? get_u32 (skipn 4 bs) - 22) with false by (symmetry; apply Z.ltb_ge; lia).
    cbn [refuse rbind]. replace (size bs <? get_u32 (skipn 4 bs)) with true
      by (symmetry; apply Z.ltb_lt; lia). reflexivity.
  Qed.

Lemma read_frame_torn_inv last offset bs why :
    bs <> [] -> read_frame max_payload last offset bs = Ok (Torn why) ->
    torn_tail max_payload bs = true /\ why = torn_why bs.
  Proof.
    unfold torn_tail, read_frame, torn_why. intros N.
    assert ((0 <? size bs) = true) as P by (destruct bs; [contradiction | reflexivity]). rewrite P.
    destruct (size bs <? kJournalHeaderBytes) eqn:Sh; [intros [= <-]; auto|].
    intros H. apply rbind_refuse_Ok in H. destruct H as [M H].
    apply rbind_refuse_Ok in H. destruct H as [L H].
    apply rbind_refuse_Ok in H. destruct H as [B H].
    destruct (size bs <? get_u32 (skipn 4 bs)) eqn:R.
    - injection H as <-. apply negb_false_iff in M. rewrite M. rewrite Z.gtb_ltb in B.
      apply Z.ltb_ge in B. apply Z.leb_le in B. rewrite B. auto.
    - apply rbind_refuse_Ok in H. destruct H as [C H].
      apply rbind_refuse_Ok in H. destruct H as [Q H].
      destruct (parse_record_kind _); discriminate.
  Qed.

Lemma frame_size_pos r : 22 <= frame_size r.
  Proof. unfold frame_size, kJournalHeaderBytes. lia. Qed.

Lemma skipn_frame r rest : skipn (Z.to_nat (frame_size r)) (journal_frame r ++ rest) = rest.
  Proof. apply skipn_app_at. rewrite <- size_journal_frame, Nat2Z.id. reflexivity. Qed.

Definition tail_ok (tail : bytes) : Prop := tail = [] \/ torn_tail max_payload tail = true.

Lemma size_zero (b : bytes) : (size b =? 0) = true <-> b = [].
  Proof. destruct b; split; intros; try reflexivity; discriminate. Qed.

  (** The loop goes through well-formed records whatever follows them. *)
Lemma journal_loop_skip rs rest : forall fuel last offset acc,
    journal_ok max_payload last offset rs = true ->
    (length (journal_file rs ++ rest) < fuel)%nat ->
    exists fuel' offset',
      (length rest < fuel')%nat /\
      journal_loop fuel max_payload last offset (journal_file rs ++ rest) acc =
      journal_loop fuel' max_payload (last_of last rs) offset' rest (acc ++ rs).
  Proof.
    induction rs as [|r rs IH]; intros fuel last offset acc J F.
    - rewrite app_nil_r. exists fuel, offset. auto.
    - destruct fuel as [|fuel]; [lia|].
      cbn [journal_ok] in J. apply andb_true_iff in J. destruct J as [R J].
      cbn [journal_file flat_map] in *. rewrite <- app_assoc in *. cbn [journal_loop].
      pose proof (size_journal_frame r) as Sz. pose proof (frame_size_pos r).
      rewrite length_app in F.
      destruct (size (journal_frame r ++ flat_map journal_frame rs ++ rest) =? 0) eqn:Z0.
      { rewrite length_app in Z0. bool_prop. lia. }
      rewrite read_frame_frame, skipn_frame by assumption.
      change (flat_map journal_frame rs) with (journal_file rs) in *.
      destruct (IH fuel (Some (value (jr_sequence r))) (offset + frame_size r) (acc ++ [r]) J)
        as (f' & o' & Lf & ->); [lia|].
      exists f', o'. rewrite <- app_assoc. auto.
  Qed.

  (** It reads back what is in the file, and reports the tail. *)
Lemma journal_loop_file rs tail fuel last offset acc :
    tail_ok tail -> journal_ok max_payload last offset rs = true ->
    (length (journal_file rs ++ tail) < fuel)%nat ->
    journal_loop fuel max_payload last offset (journal_file rs ++ tail) acc =
    Some (Ok (acc ++ rs, scan_report (Z.of_nat (length (acc ++ rs))) (last_of last rs) tail)).
  Proof.
    intros T J F. destruct (journal_loop_skip rs tail fuel last offset acc J F) as (f & o & L & ->).
    destruct f as [|f]; [lia|]. cbn [journal_loop]. unfold tail_ok in T.
    destruct T as [-> | T]; [reflexivity|]. unfold scan_report. destruct (size tail =? 0) eqn:Z0.
    - apply size_zero in Z0. subst tail. discriminate T.
    - rewrite read_frame_torn by assumption. reflexivity.
  Qed.

  (** A defect in the first frame after well-formed records refuses the file. *)
Lemma read_journal_defect rs rest e :
    journal_ok max_payload None 0 rs = true -> rest <> [] ->
    (forall offset, read_frame max_payload (last_of None rs) offset rest = Err e) ->
    size (journal_file rs ++ rest) <= kMaxJournalFile ->
    read_journal (Some (journal_file rs ++ rest)) max_payload = Err e.
  Proof.
    intros J N D B. unfold read_journal, read_all. rewrite Z.gtb_ltb.
    replace (kMaxJournalFile <? _) with false by (symmetry; apply Z.ltb_ge; lia).
    cbn [refuse rbind].
    destruct (journal_loop_skip rs rest (Datatypes.S (length (journal_file rs ++ rest))) None 0 [] J)
      as (f & o & L & ->); [lia|].
    destruct f as [|f]; [lia|]. cbn [journal_loop]. destruct (size rest =? 0) eqn:Z0.
    - apply size_zero in Z0. contradiction.
    - rewrite D. reflexivity.
  Qed.

Lemma journal_loop_inv fuel last offset rest acc out rep :
    journal_loop fuel max_payload last offset rest acc = Some (Ok (out, rep)) ->
    exists rs tail,
      rest = journal_file rs ++ tail /\ out = acc ++ rs /\ tail_ok tail /\
      journal_ok max_payload last offset rs = true /\
      rep = scan_report (Z.of_nat (length out)) (last_of last rs) tail.
  Proof.
    revert last offset rest acc. induction fuel as [|fuel IH]; intros last offset rest acc; [discriminate|].
    cbn [journal_loop]. destruct (size rest =? 0) eqn:Z0.
    - intros [= <- <-]. apply size_zero in Z0. subst rest. exists [], [].
      rewrite !app_nil_r. repeat split. now left.
    - destruct (read_frame max_payload last offset rest) as [[why|r len]|] eqn:F; [| |discriminate].
      + intros [= <- <-]. apply read_frame_torn_inv in F; [|intros ->; discriminate].
        destruct F as [T ->]. exists [], rest. rewrite !app_nil_r. unfold scan_report. rewrite Z0.
        repeat split. now right.
      + intros H. apply read_frame_inv in F. destruct F as (rest' & -> & R & ->).
        rewrite skipn_frame in H. apply IH in H. destruct H as (rs & tail & -> & -> & T & J & ->).
        exists (r :: rs), tail. cbn [journal_file flat_map journal_ok]. rewrite R, J, <- !app_assoc.
        repeat split. exact T.
  Qed.

  (** Every turn consumes at least a header, so the fuel is enough. *)
Lemma journal_loop_fuel fuel last offset rest acc :
    (length rest < fuel)%nat -> journal_loop fuel max_payload last offset rest acc <> None.
  Proof.
    revert last offset rest acc. induction fuel as [|fuel IH]; intros last offset rest acc L; [lia|].
    cbn [journal_loop]. destruct (size rest =? 0); [discriminate|].
    destruct (read_frame max_payload last offset rest) as [[why|r len]|] eqn:F; try discriminate.
    apply read_frame_inv in F. destruct F as (rest' & -> & R & ->). rewrite skipn_frame.
    apply IH. rewrite length_app in L. pose proof (size_journal_frame r). pose proof (frame_size_pos r). lia.
  Qed.

Lemma read_journal_file_ok rs tail :
    journal_ok max_payload None 0 rs = true -> tail_ok tail ->
    size (journal_file rs ++ tail) <= kMaxJournalFile ->
    read_journal (Some (journal_file rs ++ tail)) max_payload =
    Ok (rs, scan_report (Z.of_nat (length rs)) (last_of None rs) tail).
  Proof.
    intros J T B. unfold read_journal, read_all. rewrite Z.gtb_ltb.
    replace (kMaxJournalFile <? _) with false by (symmetry; apply Z.ltb_ge; lia).
    cbn [refuse rbind]. rewrite journal_loop_file by (auto; lia). reflexivity.
  Qed.

Lemma read_journal_inv file rs rep :
    read_journal (Some file) max_payload = Ok (rs, rep) ->
    size file <= kMaxJournalFile /\
    exists tail, file = journal_file rs ++ tail /\ tail_ok tail /\
      journal_ok max_payload None 0 rs = true /\
      rep = scan_report (Z.of_nat (length rs)) (last_of None rs) tail.
  Proof.
    unfold read_journal, read_all. intros H. apply rbind_Ok in H. destruct H as (f & R & H).
    apply rbind_refuse_Ok in R. destruct R as [B R]. injection R as ->.
    rewrite Z.gtb_ltb in B. apply Z.ltb_ge in B. split; [exact B|].
    destruct (journal_loop _ _ _ _ _ _) as [r|] eqn:L; [|discriminate]. subst r.
    apply journal_loop_inv in L. destruct L as (rs' & tail & -> & -> & T & J & ->).
    exists tail. auto.
  Qed.
End frames.

(** ** Crashes and damage *)

(** The records whose bytes are complete in the first [n]. *)
Fixpoint complete (n : Z) (rs : list JournalRecord) : list JournalRecord :=
  match rs with
  | [] => []
  | r :: rs => if frame_size r <=? n then r :: complete (n - frame_size r) rs else []
  end.

(** A frame cut short is a torn tail. *)
Lemma frame_prefix_torn max_payload r n :
  payload_bound_ok max_payload = true -> size (payload r) <= max_payload ->
  counter_ok (jr_sequence r) = true -> (0 < n)%nat -> Z.of_nat n < frame_size r ->
  torn_tail max_payload (firstn n (journal_frame r)) = true.
Proof.
  intros MP B U P L. pose proof (size_journal_frame r) as Sz.
  unfold torn_tail. assert (size (firstn n (journal_frame r)) = Z.of_nat n) as Sn
    by (rewrite length_firstn; lia).
  rewrite Sn. replace (0 <? Z.of_nat n) with true by (symmetry; apply Z.ltb_lt; lia). cbn [andb].
  destruct (Z.of_nat n <? kJournalHeaderBytes) eqn:Sh; [reflexivity|]. cbn [orb].
  unfold payload_bound_ok, frame_size, kJournalHeaderBytes in *. bool_prop.
  unfold journal_frame. rewrite firstn_app, length_journal_header.
  rewrite (firstn_all2 (journal_header _ _ _)) by (rewrite length_journal_header; lia).
  set (body := firstn (n - 22) (payload r)). unfold journal_header, kJournalHeaderBytes.
  assert (u_ok 32 (22 + size (payload r)) = true) as UL by (unfold u_ok; bool_goal; lia).
  rewrite (to_u_id 32) by exact UL.
  pose proof (header_fields kJournalMagic body (22 + size (payload r)) (value (jr_sequence r))
                (RecordKind_to_Z (jr_kind r)) (crc32c (payload r)) eq_refl UL U (RecordKind_u16 _)
                (crc32c_u_ok _)) as F.
  rewrite <- !app_assoc. cbv zeta in F. destruct F as (-> & -> & _). rewrite beq_refl.
  bool_goal; [reflexivity | lia | lia].
Qed.

Lemma complete_split max_payload rs : payload_bound_ok max_payload = true ->
  forall last offset n, journal_ok max_payload last offset rs = true ->
  exists tail,
    firstn n (journal_file rs) = journal_file (complete (Z.of_nat n) rs) ++ tail /\
    tail_ok max_payload tail /\
    journal_ok max_payload last offset (complete (Z.of_nat n) rs) = true.
Proof.
  intros MP. induction rs as [|r rs IH]; intros last offset n J.
  - exists []. rewrite firstn_nil. repeat split. now left.
  - cbn [journal_ok] in J. apply andb_true_iff in J. destruct J as [R J].
    cbn [journal_file flat_map complete]. change (flat_map journal_frame rs) with (journal_file rs).
    pose proof (size_journal_frame r) as Sz. rewrite firstn_app.
    destruct (frame_size r <=? Z.of_nat n) eqn:C; bool_prop.
    + rewrite firstn_all2 by lia.
      destruct (IH (Some (value (jr_sequence r))) (offset + frame_size r) (n - length (journal_frame r))%nat J)
        as (tail & E & T & K).
      replace (Z.of_nat (n - length (journal_frame r))) with (Z.of_nat n - frame_size r) in * by lia.
      exists tail. rewrite E. cbn [journal_file flat_map journal_ok]. rewrite R, K, <- app_assoc. auto.
    + replace (n - length (journal_frame r))%nat with 0%nat by lia. rewrite firstn_O, app_nil_r.
      exists (firstn n (journal_frame r)). repeat split. unfold tail_ok.
      destruct n as [|n]; [now left|]. right. unfold record_ok in R. split_andb. bool_prop.
      apply frame_prefix_torn; try assumption; lia.
Qed.

(** C31. Recovery accepts a journal exactly when it is at most 1 GiB long and is
    well-formed records (known
    kinds, strictly increasing sequences, matching checksums, bounded payloads)
    followed by nothing or by a torn tail, and returns those very records, each
    with its offset, and a report of the tail. *)
Theorem read_journal_iff max_payload file rs rep :
  payload_bound_ok max_payload = true ->
  read_journal (Some file) max_payload = Ok (rs, rep) <->
  size file <= kMaxJournalFile /\
  exists tail, file = journal_file rs ++ tail /\ tail_ok max_payload tail /\
    journal_ok max_payload None 0 rs = true /\
    rep = scan_report (Z.of_nat (length rs)) (last_of None rs) tail.
Proof.
  intros MP. split; [now apply read_journal_inv|].
  intros (B & tail & -> & T & J & ->). now apply read_journal_file_ok.
Qed.

(** Crash safety of the journal: cut at any byte, a well-formed journal still
    recovers, to exactly the records whose bytes are complete, and the report
    says torn exactly when the cut is not between two records, with the number of
    bytes to discard. *)
Theorem journal_crash_prefix max_payload rs n :
  payload_bound_ok max_payload = true -> journal_ok max_payload None 0 rs = true ->
  size (journal_file rs) <= kMaxJournalFile ->
  let kept := complete (Z.of_nat n) rs in
  let file := firstn n (journal_file rs) in
  exists rep, read_journal (Some file) max_payload = Ok (kept, rep) /\
    truncated_bytes rep = size file - size (journal_file kept) /\
    (torn_tail_truncated rep = true <-> size file <> size (journal_file kept)).
Proof.
  intros MP J B kept file. subst kept file.
  destruct (complete_split _ rs MP None 0 n J) as (tail & E & T & K).
  assert (size (firstn n (journal_file rs)) <= kMaxJournalFile) as B'
    by (rewrite length_firstn; lia).
  rewrite E in *. eexists. split; [now apply read_journal_file_ok|].
  cbn [scan_report truncated_bytes torn_tail_truncated]. rewrite length_app.
  split; [lia|]. rewrite negb_true_iff, Z.eqb_neq. lia.
Qed.

(** C32. A single damaged payload byte anywhere in the middle of the journal is
    never repaired silently: the whole journal, as long as it is within the 1 GiB
    the store reads at all, is refused as corrupt, whatever follows the damaged
    record. *)
Theorem journal_damage_refused max_payload rs r a x y b rest :
  payload_bound_ok max_payload = true ->
  journal_ok max_payload None 0 (rs ++ [r]) = true ->
  payload r = a ++ x :: b -> x <> y ->
  let file := journal_file rs ++ damaged_frame r (a ++ y :: b) ++ rest in
  size file <= kMaxJournalFile ->
  read_journal (Some file) max_payload = Err kCorrupt.
Proof.
  intros MP J E N file B.
  assert (journal_ok max_payload None 0 rs = true /\
          size (payload r) <= max_payload /\ counter_ok (jr_sequence r) = true) as (Jr & Br & U).
  { revert J. generalize (@None Z) 0. clear -E. induction rs as [|r' rs IH]; intros last offset J.
    - cbn [app journal_ok] in J. rewrite andb_true_r in J. unfold record_ok in J. split_andb.
      bool_prop. auto.
    - cbn [app journal_ok] in J. apply andb_true_iff in J. destruct J as [R J].
      apply IH in J. destruct J as (J & ?). cbn [journal_ok]. rewrite R, J. auto. }
  apply (read_journal_defect max_payload MP); try assumption.
  - unfold damaged_frame. intros D. apply app_eq_nil in D. destruct D as [D _].
    apply app_eq_nil in D. destruct D as [_ D]. apply app_eq_nil in D. destruct D; discriminate.
  - intros offset. eapply read_frame_damaged; eassumption.
Qed.

(** ** Witnesses *)
Definition example_journal : list JournalRecord :=
  [ mkJournalRecord kFence (mkCounter 1) (str "abc") 0;
    mkJournalRecord kRetire (mkCounter 4) (str "d") 25 ].

Lemma read_journal_iff_witness :
  read_journal (Some (journal_file example_journal)) 100 =
  Ok (example_journal, scan_report 2 (Some 4) []).
Proof.
  apply (read_journal_iff 100 (journal_file example_journal) example_journal
           (scan_report 2 (Some 4) []) ltac:(reflexivity)).
  split; [vm_compute; congruence|]. exists []. split; [symmetry; apply app_nil_r|].
  split; [now left|]. split; [vm_compute; reflexivity | reflexivity].
Defined.

Lemma journal_crash_prefix_witness :
  complete 30 example_journal = [mkJournalRecord kFence (mkCounter 1) (str "abc") 0] /\
  exists rep, read_journal (Some (firstn 30 (journal_file example_journal))) 100 =
    Ok (complete 30 example_journal, rep).
Proof.
  split; [reflexivity|].
  destruct (journal_crash_prefix 100 example_journal 30 ltac:(reflexivity) ltac:(vm_compute; reflexivity)
              ltac:(vm_compute; congruence)) as (rep & R & _).
  exists rep. exact R.
Defined.

Lemma journal_damage_refused_witness :
  read_journal (Some (damaged_frame (mkJournalRecord kFence (mkCounter 1) (str "abc") 0) (str "aXc") ++
                      str "tail")) 100 = Err kCorrupt.
Proof.
  apply (journal_damage_refused 100 [] (mkJournalRecord kFence (mkCounter 1) (str "abc") 0)
           (str "a") "b"%byte "X"%byte (str "c") (str "tail")).
  - reflexivity.
  - vm_compute. reflexivity.
  - reflexivity.
  - discriminate.
  - vm_compute. congruence.
Defined.
