(* ===== verification/StoreContract.v ===== *)
(** * What the store promises: snapshots, appends and reopening

    The sealed snapshot file, and the durability contract of the store object:
    the durable contents of a directory are a snapshot payload, its sequence and
    the records above it; [append], [write_snapshot] and [rotate_journal] change
    them atomically, wherever the process stops. *)
From S2P Require Import Prelude Errors Containers Identity Hash Bandwidth Time Authority Wire Policy Capacity Reservation Outcome SegTree Index Durable Store.

(** ** The sealed snapshot *)

(** The checked part of the header; the reserved field is covered by the
    checksum but not compared. *)
Definition snapshot_head (reserved : bytes) (sequence : Z) (p : bytes) : bytes :=
  kSnapshotMagic ++ put_u16 kDurableFormatVersion ++ reserved ++ put_u64 sequence ++
  put_u64 (size p) ++ put_u32 (crc32c p).

Definition snapshot_sealed (reserved : bytes) (sequence : Z) (p : bytes) : bytes :=
  snapshot_head reserved sequence p ++ put_u32 (crc32c (snapshot_head reserved sequence p)) ++
  p ++ kSnapshotSeal.

Definition snapshot_bytes (reserved : bytes) (sequence : Z) (p : bytes) : bytes :=
  snapshot_sealed reserved sequence p ++ put_u32 (crc32c (snapshot_sealed reserved sequence p)).

Lemma snapshot_file_bytes sequence p : snapshot_file sequence p = snapshot_bytes (put_u16 0) sequence p.
Proof. reflexivity. Qed.

Section snapshot.
Context (reserved p : bytes) (sequence : Z).
Context (R : length reserved = 2%nat) (Q : u_ok 64 sequence = true) (P : u_ok 64 (size p) = true).

Lemma length_snapshot_head : length (snapshot_head reserved sequence p) = 28%nat.
  Proof.
    unfold snapshot_head, put_u16, put_u32, put_u64. rewrite !length_app, !length_put_le, R. reflexivity.
  Qed.

Lemma length_snapshot_sealed : length (snapshot_sealed reserved sequence p) = (36 + length p)%nat.
  Proof.
    unfold snapshot_sealed, put_u32. rewrite !length_app, length_snapshot_head, length_put_le.
    change (length kSnapshotSeal) with 4%nat. lia.
  Qed.

Lemma size_snapshot_bytes : size (snapshot_bytes reserved sequence p) = 40 + size p.
  Proof.
    unfold snapshot_bytes, put_u32. rewrite length_app, length_snapshot_sealed, length_put_le. lia.
  Qed.

Lemma snapshot_fields :
    let file := snapshot_bytes reserved sequence p in
    firstn 4 file = kSnapshotMagic /\
    get_u16 (skipn 4 file) = kDurableFormatVersion /\
    get_u64 (skipn 8 file) = sequence /\
    get_u64 (skipn 16 file) = size p /\
    get_u32 (skipn 24 file) = crc32c p /\
    get_u32 (skipn 28 file) = crc32c (snapshot_head reserved sequence p) /\
    firstn 28 file = snapshot_head reserved sequence p /\
    skipn 32 file =
      p ++ kSnapshotSeal ++ put_u32 (crc32c (snapshot_sealed reserved sequence p)).
  Proof.
    cbv zeta. unfold get_u16, get_u32, get_u64.
    set (file := snapshot_bytes reserved sequence p).
    set (scrc := put_u32 (crc32c (snapshot_sealed reserved sequence p))).
    set (hcrc := crc32c (snapshot_head reserved sequence p)).
    assert (u_ok 32 hcrc = true) as Uh by apply crc32c_u_ok.
    assert (file = snapshot_head reserved sequence p ++ put_u32 hcrc ++ p ++ kSnapshotSeal ++ scrc) as F.
    { subst file. unfold snapshot_bytes. unfold snapshot_sealed at 1. rewrite <- !app_assoc. reflexivity. }
    pose proof length_snapshot_head as L28.
    assert (skipn 28 file = put_u32 hcrc ++ p ++ kSnapshotSeal ++ scrc) as S28
      by (rewrite F; apply skipn_app_at, L28).
    assert (firstn 28 file = snapshot_head reserved sequence p) as F28
      by (rewrite F; apply firstn_app_at, L28).
    assert (skipn 32 file = p ++ kSnapshotSeal ++ scrc) as S32.
    { change 32%nat with (28 + 4)%nat. rewrite skipn_skipn_add, S28. apply skipn_app_at, length_put_le. }
    clearbody hcrc. clear L28. unfold snapshot_head in F. rewrite <- !app_assoc in F.
    set (tl := put_u32 hcrc ++ p ++ kSnapshotSeal ++ scrc) in *.
    assert (skipn 4 file = put_u16 kDurableFormatVersion ++ reserved ++ put_u64 sequence ++
              put_u64 (size p) ++ put_u32 (crc32c p) ++ tl) as S4 by (rewrite F; reflexivity).
    assert (skipn 8 file = put_u64 sequence ++ put_u64 (size p) ++ put_u32 (crc32c p) ++ tl) as S8.
    { change 8%nat with (4 + 4)%nat. rewrite skipn_skipn_add, S4, app_assoc. apply skipn_app_at.
      unfold put_u16. rewrite length_app, length_put_le, R. reflexivity. }
    assert (skipn 16 file = put_u64 (size p) ++ put_u32 (crc32c p) ++ tl) as S16.
    { change 16%nat with (8 + 8)%nat. rewrite skipn_skipn_add, S8. apply skipn_app_at, length_put_le. }
    assert (skipn 24 file = put_u32 (crc32c p) ++ tl) as S24.
    { change 24%nat with (16 + 8)%nat. rewrite skipn_skipn_add, S16. apply skipn_app_at, length_put_le. }
    refine (conj _ (conj _ (conj _ (conj _ (conj _ (conj _ (conj _ _)))))));
    [rewrite F; reflexivity | rewrite S4 | rewrite S8 | rewrite S16 | rewrite S24
      | rewrite S28 | exact F28 | exact S32]; try (apply field_id; auto using crc32c_u_ok).
  Qed.

Lemma read_snapshot_bytes :
    40 + size p <= kMaxSnapshotFile ->
    read_snapshot (Some (snapshot_bytes reserved sequence p)) = Ok (p, sequence).
  Proof.
    intros B. pose proof snapshot_fields as F. cbv zeta in F.
    pose proof size_snapshot_bytes as Sz. pose proof length_snapshot_sealed as Ls.
    assert (firstn (length (snapshot_bytes reserved sequence p) - 4) (snapshot_bytes reserved sequence p) =
            snapshot_sealed reserved sequence p) as Sl.
    { apply firstn_app_at. unfold snapshot_bytes, put_u32. rewrite length_app, length_put_le. lia. }
    unfold read_snapshot, read_all.
    set (file := snapshot_bytes reserved sequence p) in *.
    destruct F as (F0 & F1 & F2 & F3 & F4 & F5 & F6 & F7).
    rewrite Z.gtb_ltb, Sz. unfold kSnapshotHeaderBytes, kSnapshotFooterBytes.
    replace (kMaxSnapshotFile <? 40 + size p) with false by (symmetry; apply Z.ltb_ge; lia).
    cbn [refuse rbind]. rewrite Sl, Sz, F0, F1, F2, F3, F4, F5, F6, F7, !beq_refl.
    replace (40 + size p <? 32 + 8) with false by (symmetry; apply Z.ltb_ge; lia).
    rewrite !Z.eqb_refl, Z.gtb_ltb.
    replace (40 + size p - 32 - 8 <? size p) with false by (symmetry; apply Z.ltb_ge; lia).
    replace (40 + size p =? 32 + size p + 8) with true by (symmetry; apply Z.eqb_eq; lia).
    rewrite Nat2Z.id, firstn_app_at, skipn_app_at, Z.eqb_refl by reflexivity.
    rewrite (firstn_app_at 4 kSnapshotSeal), (skipn_app_at 4 kSnapshotSeal), beq_refl by reflexivity.
    rewrite <- (app_nil_r (put_u32 _)). unfold get_u32 at 1. rewrite field_id by apply crc32c_u_ok.
    rewrite Z.eqb_refl. reflexivity.
  Qed.
End snapshot.

(** Cutting a byte string at fixed offsets. *)
Lemma cut_at {A} n m (l : list A) : skipn n l = firstn m (skipn n l) ++ skipn (n + m) l.
Proof. rewrite skipn_skipn_add. symmetry. apply firstn_skipn. Qed.

Lemma firstn_cut {A} n m (l : list A) : firstn (n + m) l = firstn n l ++ firstn m (skipn n l).
Proof. symmetry. apply take_take_drop. Qed.

Lemma read_snapshot_inv file p sequence :
  read_snapshot (Some file) = Ok (p, sequence) ->
  exists reserved, length reserved = 2%nat /\ u_ok 64 sequence = true /\
    file = snapshot_bytes reserved sequence p /\ size file <= kMaxSnapshotFile.
Proof.
  unfold read_snapshot, read_all, kSnapshotHeaderBytes, kSnapshotFooterBytes.
  intros H. apply rbind_Ok in H. destruct H as (f & X & H).
  apply rbind_refuse_Ok in X. destruct X as [B X]. injection X as <-.
  repeat (apply rbind_refuse_Ok in H; let c := fresh "C" in destruct H as [c H]).
  injection H as E Es. rewrite Z.gtb_ltb in B, C3.
  apply negb_false_iff in C0, C1, C2, C4, C5, C6, C7.
  apply beq_true in C0, C6. bool_prop.
  set (n := get_u64 (skipn 16 file)) in *.
  assert (0 <= n) as N by (pose proof (get_le_u_ok 8 (skipn 16 file)) as U; unfold u_ok in U; bool_prop; assumption).
  set (footer := skipn (Z.to_nat n) (skipn 32 file)) in *.
  assert (size p = n) as Lp by (rewrite <- E, length_firstn, length_skipn; lia).
  assert (length footer = 8%nat) as Lf by (subst footer; rewrite !length_skipn; lia).
  assert (file = firstn 28 file ++ put_u32 (get_u32 (skipn 28 file)) ++ p ++ kSnapshotSeal ++
                 put_u32 (get_u32 (skipn 4 footer))) as D.
  { rewrite <- (firstn_skipn 28 file) at 1. f_equal. unfold put_u32, get_u32.
    rewrite !put_get_le by (rewrite ?length_skipn; lia). etransitivity; [apply (cut_at 28 4)|]. f_equal.
    rewrite <- E, <- C6. change (28 + 4)%nat with 32%nat.
    rewrite <- (firstn_skipn (Z.to_nat n) (skipn 32 file)) at 1. f_equal. fold footer.
    rewrite <- (firstn_skipn 4 footer) at 1. f_equal. symmetry. apply firstn_all2.
    rewrite length_skipn. lia. }
  exists (firstn 2 (skipn 6 file)).
  assert (firstn 28 file = snapshot_head (firstn 2 (skipn 6 file)) sequence p) as Hd.
  { rewrite E in C5. unfold snapshot_head. rewrite Lp, <- Es, <- C0, <- C1, C5. unfold put_u16, put_u32, put_u64.
    subst n. unfold get_u16, get_u32, get_u64.
    rewrite !put_get_le by (rewrite ?length_skipn; lia).
    change 28%nat with (4 + (2 + (2 + (8 + (8 + 4)))))%nat.
    rewrite (firstn_cut 4 _ file), !(firstn_cut 2), (firstn_cut 8 (8 + 4)), (firstn_cut 8 4), <- !skipn_skipn_add. reflexivity. }
  assert (length (firstn 2 (skipn 6 file)) = 2%nat) as L2 by (rewrite length_firstn, length_skipn; lia).
  split; [exact L2|]. split; [rewrite <- Es; exact (get_le_u_ok 8 _)|]. split; [|lia].
  rewrite Hd in D, C2. rewrite C2 in D.
  assert (file = snapshot_sealed (firstn 2 (skipn 6 file)) sequence p ++
                 put_u32 (get_u32 (skipn 4 footer))) as D'.
  { rewrite D at 1. unfold snapshot_sealed. rewrite <- !app_assoc. reflexivity. }
  unfold snapshot_bytes. rewrite D' at 1. do 2 f_equal. rewrite C7. f_equal.
  rewrite D' at 2. apply firstn_app_at. rewrite length_snapshot_sealed by exact L2.
  apply (f_equal (@length _)) in D'. rewrite length_app, length_snapshot_sealed in D' by exact L2.
  unfold put_u32 in D'. rewrite length_put_le in D'. lia.
Qed.

(** ** The durable contents of a directory *)
Definition effective (floor : Z) (js : list JournalRecord) : list JournalRecord :=
  List.filter (fun r => negb (value (jr_sequence r) <=? floor)) js.

Definition store_id_valid (text : bytes) : bool :=
  (size text <=? 128) && has_value (from_hex (strip_newlines text)).

(** A directory whose journal holds the records [js] and then [tail], and whose
    snapshot is [p] at [floor]. *)
Record directory_ok (d : Disk) (o : Options) (p : bytes) (floor : Z) (js : list JournalRecord)
    (tail : bytes) : Prop := {
  do_bound : payload_bound_ok (max_record_payload o) = true;
  do_id : exists text, dk_store_id d = Some text /\ store_id_valid text = true;
  do_journal : dk_journal d = Some (journal_file js ++ tail);
  do_journal_ok : journal_ok (max_record_payload o) None 0 js = true;
  do_tail : tail_ok (max_record_payload o) tail;
  do_fits : size (journal_file js ++ tail) <= kMaxJournalFile;
  do_floor : u_ok 64 floor = true;
  do_snapshot : exists loaded, load_snapshot d = Ok (p, floor, loaded) }.

(** A store object in step with its directory. *)
Record store_ok (st : Store) (d : Disk) (js : list JournalRecord) : Prop := {
  so_directory :
    directory_ok d (options_ st) (snapshot_payload_ st) (value (snapshot_sequence_ st)) js [];
  so_open : journal_open st = true;
  so_bytes : journal_bytes_ st = size (journal_file js);
  so_last : value (last_sequence_ st) =
    last_sequence_of (value (snapshot_sequence_ st)) (effective (value (snapshot_sequence_ st)) js) }.

Lemma last_sequence_spec max_payload floor js : forall last offset a,
  journal_ok max_payload last offset js = true -> floor <= a ->
  match last with Some l => l <= a | None => True end -> (a = floor \/ last = Some a) ->
  let m := fold_left (fun _ r => value (jr_sequence r)) (effective floor js) a in
  a <= m /\ Forall (fun r => value (jr_sequence r) <= m) js /\
  (m = a \/ exists r, In r js /\ m = value (jr_sequence r)).
Proof.
  induction js as [|r js IH]; intros last offset a J F L A m.
  - subst m. cbn. split; [lia|]. split; [constructor | now left].
  - cbn [journal_ok] in J. apply andb_true_iff in J. destruct J as [R J].
    unfold record_ok in R. split_andb. apply negb_true_iff in H2.
    subst m. unfold effective. cbn [List.filter]. fold (effective floor js).
    destruct (value (jr_sequence r) <=? floor) eqn:C; cbn [negb fold_left]; bool_prop.
    + destruct (IH _ _ a J) as (M & G & I); try lia.
      { left. destruct A as [A|A]; [exact A|]. rewrite A in H2. bool_prop. lia. }
      split; [exact M|]. split; [constructor; [lia | exact G]|].
      destruct I as [I|(x & I & E)]; [now left | right; exists x; split; [right|]; assumption].
    + destruct (IH _ _ (value (jr_sequence r)) J) as (M & G & I); try lia; try now right.
      split; [|split; [constructor; assumption|]].
      * destruct A as [->|A]; [lia|]. rewrite A in H2. bool_prop. lia.
      * right. destruct I as [I|(x & I & E)];
          [exists r; split; [now left | exact I] | exists x; split; [now right | exact E]].
Qed.

Lemma last_sequence_bound max_payload floor js :
  journal_ok max_payload None 0 js = true ->
  let m := last_sequence_of floor (effective floor js) in
  floor <= m /\ Forall (fun r => value (jr_sequence r) <= m) js.
Proof.
  intros J m. destruct (last_sequence_spec _ floor js None 0 floor J) as (A & B & _); auto. lia.
Qed.

Lemma last_sequence_u_ok max_payload floor js :
  journal_ok max_payload None 0 js = true -> u_ok 64 floor = true ->
  u_ok 64 (last_sequence_of floor (effective floor js)) = true.
Proof.
  intros J U. unfold last_sequence_of.
  destruct (last_sequence_spec _ floor js None 0 floor J) as (A & B & [->|(r & I & E)]); auto; try lia.
  rewrite E. clear -J I. revert J. generalize (@None Z) 0.
  induction js as [|r' js IH]; intros last offset J; [contradiction|].
  cbn [journal_ok] in J. apply andb_true_iff in J. destruct J as [R J].
  destruct I as [->|I]; [|eauto]. unfold record_ok in R. split_andb. assumption.
Qed.

Lemma last_sequence_snoc floor js r :
  floor < value (jr_sequence r) ->
  last_sequence_of floor (effective floor (js ++ [r])) = value (jr_sequence r) /\
  effective floor (js ++ [r]) = effective floor js ++ [r].
Proof.
  intros L. unfold effective, last_sequence_of. rewrite List.filter_app. cbn [List.filter].
  replace (value (jr_sequence r) <=? floor) with false by (symmetry; apply Z.leb_gt; lia).
  cbn [negb]. rewrite fold_left_app. auto.
Qed.

(** ** Recovery of a directory *)
Lemma journal_ok_end max_payload js : forall last offset,
  journal_ok max_payload last offset js = true ->
  match List.last (map Some js) None with
  | Some r => file_offset r + frame_size r = offset + size (journal_file js)
  | None => js = []
  end.
Proof.
  induction js as [|r js IH]; intros last offset J; [reflexivity|].
  cbn [journal_ok] in J. apply andb_true_iff in J. destruct J as [R J]. apply IH in J.
  unfold record_ok in R. split_andb. bool_prop. cbn [journal_file flat_map].
  rewrite length_app, Nat2Z.inj_add, size_journal_frame.
  change (flat_map journal_frame js) with (journal_file js).
  destruct js as [|r' js]; [cbn; lia|]. cbn [map List.last] in *.
  destruct (match map Some js with [] => _ | _ :: _ => _ end); [lia | discriminate].
Qed.

Lemma last_map_Some {A} (l : list A) : List.last (map Some l) None = last l.
Proof. induction l as [|a [|b l] IH]; [reflexivity..|]. exact IH. Qed.

Lemma truncate_at_end max_payload js tail :
  journal_ok max_payload None 0 js = true ->
  firstn (Z.to_nat (truncate_at js)) (journal_file js ++ tail) = journal_file js.
Proof.
  intros J. apply journal_ok_end in J. rewrite last_map_Some in J. unfold truncate_at.
  destruct (last js) as [r|]; [|subst js; reflexivity].
  apply firstn_app_at. unfold frame_size in J. lia.
Qed.

Lemma store_id_accepted d text io fresh :
  dk_store_id d = Some text -> store_id_valid text = true -> check_store_id d io fresh = (Ok tt, d).
Proof.
  intros Id V. unfold check_store_id. rewrite Id. unfold store_id_valid in V. split_andb. bool_prop.
  unfold read_all. rewrite Z.gtb_ltb. replace (128 <? size text) with false by (symmetry; apply Z.ltb_ge; lia).
  cbn [refuse rbind]. destruct (from_hex (strip_newlines text)); [reflexivity | discriminate].
Qed.

Lemma open_directory d o p floor js tail fresh :
  directory_ok d o p floor js tail ->
  exists st,
    open d o open_io_ok fresh =
      (Ok st, mkDisk (dk_store_id d) (dk_snapshot d) (dk_snapshot_tmp d) (Some (journal_file js))) /\
    store_ok st (mkDisk (dk_store_id d) (dk_snapshot d) (dk_snapshot_tmp d) (Some (journal_file js))) js /\
    options_ st = o /\ snapshot_payload_ st = p /\ value (snapshot_sequence_ st) = floor /\
    records_ st = effective floor js /\
    torn_tail_truncated (report_ st) = negb (size tail =? 0) /\ truncated_bytes (report_ st) = size tail.
Proof.
  intros [B (text & Id & V) J K T F U (loaded & Sn)].
  unfold open. cbn [directories_created open_io_ok negb].
  rewrite (store_id_accepted d text) by assumption. rewrite Sn. unfold load_journal. rewrite J, read_journal_file_ok by assumption.
  cbn [scan_report torn_tail_truncated journal_resized journal_opened negb]. rewrite andb_false_r.
  assert ((if negb (size tail =? 0)
           then option_map (firstn (Z.to_nat (truncate_at js))) (Some (journal_file js ++ tail))
           else Some (journal_file js ++ tail)) = Some (journal_file js)) as Q.
  { destruct (size tail =? 0) eqn:Z0; cbn [negb option_map].
    - apply size_zero in Z0. subst tail. rewrite app_nil_r. reflexivity.
    - rewrite (truncate_at_end (max_record_payload o)) by assumption. reflexivity. }
  rewrite Q. eexists. split; [reflexivity|]. cbn [finish_open options_ snapshot_payload_ snapshot_sequence_ records_ value report_ torn_tail_truncated truncated_bytes scan_report].
  split; [|repeat split; reflexivity].
  constructor; try reflexivity. constructor; cbn; try assumption.
  - eauto.
  - rewrite app_nil_r. reflexivity.
  - now left.
  - rewrite app_nil_r. rewrite length_app in F. lia.
  - exists loaded. exact Sn.
Qed.

(** ** Operations on a store in step with its directory *)

(** The record [append] adds after [js]. *)
Definition next_record (st : Store) (js : list JournalRecord) (kind : RecordKind) (p : bytes) : JournalRecord :=
  mkJournalRecord kind (mkCounter (value (last_sequence_ st) + 1)) p (size (journal_file js)).

(** The process stops when the journal file is [n] bytes long. *)
Definition crash (d : Disk) (n : nat) : Disk :=
  mkDisk (dk_store_id d) (dk_snapshot d) (dk_snapshot_tmp d) (option_map (firstn n) (dk_journal d)).

Lemma journal_ok_snoc max_payload js r : forall last offset,
  journal_ok max_payload last offset js = true ->
  record_ok max_payload (last_of last js) (offset + size (journal_file js)) r = true ->
  journal_ok max_payload last offset (js ++ [r]) = true.
Proof.
  induction js as [|r' js IH]; intros last offset J R.
  - cbn in *. rewrite Z.add_0_r in R. rewrite R. reflexivity.
  - cbn [journal_ok app] in *. apply andb_true_iff in J. destruct J as [R' J]. rewrite R'. cbn [andb].
    apply IH; [exact J|]. cbn [last_of fold_left] in R. cbn [journal_file flat_map] in R.
    rewrite length_app, Nat2Z.inj_add, size_journal_frame in R. rewrite <- Z.add_assoc. exact R.
Qed.

Lemma journal_file_snoc js r : journal_file (js ++ [r]) = journal_file js ++ journal_frame r.
Proof. unfold journal_file. rewrite flat_map_app. cbn. rewrite app_nil_r. reflexivity. Qed.

Lemma effective_none n js : Forall (fun r => value (jr_sequence r) <= n) js -> effective n js = [].
Proof.
  unfold effective. induction 1 as [|r l R _ IH]; [reflexivity|].
  cbn [List.filter]. apply Z.leb_le in R. rewrite R. exact IH.
Qed.

Section contract.
Context (st : Store) (d : Disk) (js : list JournalRecord) (OK : store_ok st d js).

Let o := options_ st.
Let floor := value (snapshot_sequence_ st).
Let last := value (last_sequence_ st).

Lemma so_last_bound : floor <= last /\ Forall (fun r => value (jr_sequence r) <= last) js.
  Proof.
    subst last. rewrite (so_last _ _ _ OK). eapply last_sequence_bound, do_journal_ok, so_directory, OK.
  Qed.

Lemma so_last_u_ok : u_ok 64 last = true.
  Proof.
    subst last. rewrite (so_last _ _ _ OK). pose proof (so_directory _ _ _ OK) as D.
    eapply last_sequence_u_ok; [eapply do_journal_ok | eapply do_floor]; exact D.
  Qed.

Lemma last_of_bound l : last_of None js = Some l -> l <= last.
  Proof.
    destruct so_last_bound as [_ F]. revert F. unfold last_of. generalize last as m. clear OK.
    intros m. rewrite <- (rev_involutive js). destruct (rev js) as [|r rs]; [discriminate|].
    cbn [rev]. rewrite fold_left_app. cbn. intros F [= <-].
    apply Forall_app in F. destruct F as [_ F]. now inversion F.
  Qed.

  Section appending.
Context (kind : RecordKind) (p : bytes).
Context (P : size p <= max_record_payload o) (L : last < u64_max)
      (F : size (journal_file js) + kJournalHeaderBytes + size p <= kMaxJournalFile).

Let r := next_record st js kind p.

Lemma next_record_ok : journal_ok (max_record_payload o) None 0 (js ++ [r]) = true.
    Proof.
      pose proof (so_directory _ _ _ OK) as D. apply journal_ok_snoc; [eapply do_journal_ok, D|].
      pose proof so_last_u_ok as U. unfold record_ok, counter_ok, u_ok, u64_max in *. bool_prop.
      subst r. unfold next_record. cbn [jr_sequence payload file_offset value]. fold last.
      bool_goal; try lia.
      destruct (last_of None js) as [l|] eqn:E; [|reflexivity]. apply last_of_bound in E.
      apply Z.leb_gt. lia.
    Qed.

Lemma append_writes io :
      append st d io kind p =
      match io with
      | append_ok => (Ok (mkCounter (last + 1)),
          mkStore o true (records_ st ++ [r]) (mkCounter (last + 1)) (snapshot_sequence_ st)
            (size (journal_file (js ++ [r]))) (snapshot_payload_ st) (report_ st),
          journal_write d (journal_frame r))
      | append_header n => (Err kIo, st,
          journal_write d (firstn n (journal_header (last + 1) (RecordKind_to_Z kind) p)))
      | append_payload n => (Err kIo, st,
          journal_write d (journal_header (last + 1) (RecordKind_to_Z kind) p ++ firstn n p))
      | append_flush => (Err kIo, st, journal_write d (journal_frame r))
      end.
    Proof.
      unfold append. rewrite (so_open _ _ _ OK). cbn [negb].
      subst o. rewrite Z.gtb_ltb. replace (max_record_payload (options_ st) <? size p) with false
        by (symmetry; apply Z.ltb_ge; lia).
      pose proof so_last_u_ok as U. unfold u_ok, u64_max in *. bool_prop. fold last.
      rewrite (to_u_id 64 (last + 1)) by (unfold u_ok; bool_goal; lia).
      destruct io; try reflexivity. rewrite (so_bytes _ _ _ OK), length_journal_header.
      pose proof (so_directory _ _ _ OK) as D. pose proof (do_fits _ _ _ _ _ _ D) as B.
      rewrite app_nil_r in B. unfold kMaxJournalFile, kJournalHeaderBytes in *.
      rewrite !to_u_id by (unfold u_ok; bool_goal; try rewrite to_u_id; unfold u_ok; bool_goal; lia).
      rewrite journal_file_snoc, length_app, Nat2Z.inj_add, size_journal_frame.
      subst r. unfold next_record, frame_size, kJournalHeaderBytes. cbn [payload].
      replace (size (journal_file js) + (Z.of_nat 22 + size p) - (Z.of_nat 22 + size p))
        with (size (journal_file js)) by lia.
      reflexivity.
    Qed.

Lemma frame_size_next : frame_size r = kJournalHeaderBytes + size p.
    Proof. reflexivity. Qed.

Lemma next_counter_ok : counter_ok (jr_sequence r) = true.
    Proof.
      pose proof so_last_u_ok as U. unfold counter_ok, u_ok, u64_max in *. bool_prop.
      subst r. unfold next_record. cbn [jr_sequence value]. fold last. bool_goal; lia.
    Qed.

    (** Stopped inside the frame: the records as before, and a torn tail. *)
Lemma crash_inside n :
      (length (journal_file js) <= n)%nat -> Z.of_nat n < size (journal_file (js ++ [r])) ->
      exists tail,
        directory_ok (crash (journal_write d (journal_frame r)) n) o (snapshot_payload_ st) floor js tail.
    Proof.
      intros N G. destruct (so_directory _ _ _ OK) as [B I J K T X U Sn].
      rewrite app_nil_r in J, X.
      rewrite journal_file_snoc, length_app, Nat2Z.inj_add, size_journal_frame in G.
      pose proof frame_size_next as Fr.
      exists (firstn (n - length (journal_file js)) (journal_frame r)). constructor; try assumption.
      - cbn. rewrite J. cbn [option_map]. f_equal. rewrite firstn_app, firstn_all2 by lia. reflexivity.
      - unfold tail_ok. destruct (n - length (journal_file js))%nat as [|m] eqn:M; [now left|]. right.
        apply frame_prefix_torn; try assumption; try lia. apply next_counter_ok.
      - pose proof (size_journal_frame r). rewrite length_app, length_firstn. lia.
    Qed.

    (** Stopped after it: the record is there. *)
Lemma crash_after n :
      size (journal_file (js ++ [r])) <= Z.of_nat n ->
      directory_ok (crash (journal_write d (journal_frame r)) n) o (snapshot_payload_ st) floor
        (js ++ [r]) [].
    Proof.
      intros G. destruct (so_directory _ _ _ OK) as [B I J K T X U Sn].
      rewrite app_nil_r in J, X.
      pose proof (size_journal_frame r) as Sf. pose proof frame_size_next as Fr.
      rewrite journal_file_snoc, length_app in G.
      constructor; try assumption.
      - cbn. rewrite J. cbn [option_map]. rewrite journal_file_snoc, app_nil_r.
        f_equal. apply firstn_all2. rewrite length_app. lia.
      - apply next_record_ok.
      - rewrite app_nil_r, journal_file_snoc, length_app. lia.
    Qed.

Lemma append_store_ok :
      store_ok
        (mkStore o true (records_ st ++ [r]) (mkCounter (last + 1)) (snapshot_sequence_ st)
           (size (journal_file (js ++ [r]))) (snapshot_payload_ st) (report_ st))
        (journal_write d (journal_frame r)) (js ++ [r]).
    Proof.
      pose proof (crash_after (length (journal_file (js ++ [r]))) ltac:(lia)) as [B I J K T X U Sn].
      destruct (so_directory _ _ _ OK) as [_ _ J0 _ _ _ _ _]. rewrite app_nil_r in J0.
      constructor; try reflexivity.
      - constructor; try assumption. cbn. rewrite J0, journal_file_snoc, app_nil_r. reflexivity.
      - cbn [last_sequence_ snapshot_sequence_ value]. symmetry.
        apply (last_sequence_snoc floor js r). destruct so_last_bound. subst r. cbn. lia.
    Qed.
  End appending.

  Section snapshotting.
Context (p : bytes).
Context (P : size p <= max_snapshot_payload o) (F : size p + 40 <= kMaxSnapshotFile).

Let st' := mkStore o (journal_open st) (records_ st) (last_sequence_ st) (last_sequence_ st)
                 (journal_bytes_ st) p (report_ st).
Let d' := mkDisk (dk_store_id d) (Some (snapshot_file last p)) None (dk_journal d).

Lemma effective_last : effective last js = [].
    Proof.
      destruct so_last_bound as [_ B]. now apply effective_none.
    Qed.

Lemma write_snapshot_ok :
      write_snapshot st d snap_ok p = (Ok (last_sequence_ st), st', d') /\ store_ok st' d' js.
    Proof.
      split.
      - unfold write_snapshot. rewrite Z.gtb_ltb. subst o.
        replace (max_snapshot_payload (options_ st) <? size p) with false by (symmetry; apply Z.ltb_ge; lia).
        reflexivity.
      - destruct (so_directory _ _ _ OK) as [B I J K T X U Sn].
        assert (load_snapshot d' = Ok (p, last, true)) as Ls.
        { unfold load_snapshot, d'. cbn [dk_snapshot]. rewrite snapshot_file_bytes, read_snapshot_bytes;
            auto using so_last_u_ok; try lia.
          unfold u_ok, kMaxSnapshotFile in *. bool_goal; lia. }
        constructor; try (cbn; apply OK).
        + constructor; try assumption; cbn; [apply so_last_u_ok | eauto].
        + cbn [snapshot_sequence_ last_sequence_ st']. fold last. rewrite effective_last. reflexivity.
    Qed.

    (** A snapshot that could not be written or renamed leaves the old one. *)
Lemma write_snapshot_failed io :
      io <> snap_ok -> io <> snap_write write_ok ->
      exists e tmp, write_snapshot st d io p =
        (Err e, st, mkDisk (dk_store_id d) (dk_snapshot d) tmp (dk_journal d)).
    Proof.
      intros N M. unfold write_snapshot. rewrite Z.gtb_ltb. subst o.
      replace (max_snapshot_payload (options_ st) <? size p) with false by (symmetry; apply Z.ltb_ge; lia).
      destruct io as [|w|]; [contradiction| |eexists _, _; reflexivity].
      destruct w; [contradiction | eexists _, _; reflexivity..].
    Qed.
  End snapshotting.

  (** What is in the temporary file does not matter. *)
Lemma directory_ok_tmp o0 p floor0 tail tmp :
    directory_ok d o0 p floor0 js tail ->
    directory_ok (mkDisk (dk_store_id d) (dk_snapshot d) tmp (dk_journal d)) o0 p floor0 js tail.
  Proof. intros [B I J K T X U Sn]. constructor; assumption. Qed.

  (** Rotation after a snapshot: whether or not the old journal could be
      removed, nothing above the floor is lost. *)
Lemma rotate_journal_ok io :
    floor = last -> io <> rotate_sync -> io <> rotate_open ->
    exists st' d' js',
      rotate_journal st d io = (Ok tt, st', d') /\
      directory_ok d' o (snapshot_payload_ st) floor js' [] /\ effective floor js' = [] /\
      last_sequence_ st' = last_sequence_ st /\ options_ st' = o /\
      snapshot_payload_ st' = snapshot_payload_ st /\ snapshot_sequence_ st' = snapshot_sequence_ st.
  Proof.
    intros E N1 N2. pose proof (so_directory _ _ _ OK) as D.
    unfold rotate_journal. rewrite (so_open _ _ _ OK).
    destruct io; try contradiction; destruct D as [B I J K T X U Sn].
    - eexists _, _, []. split; [reflexivity|]. split; [|repeat split].
      constructor; try assumption; try reflexivity. vm_compute. discriminate.
    - eexists _, _, js. split; [reflexivity|]. split; [|split; [rewrite E; apply effective_last | repeat split]].
      constructor; try assumption. cbn. rewrite J, app_nil_r. reflexivity.
  Qed.
End contract.

(** ** The contract *)

(** A snapshot file is accepted exactly when it is a sealed snapshot: magic,
    version, sequence, length and all three checksums in place over the payload
    that is returned, and nothing else in the file. *)
Theorem read_snapshot_iff file p sequence :
  read_snapshot (Some file) = Ok (p, sequence) <->
  size file <= kMaxSnapshotFile /\ u_ok 64 sequence = true /\
  exists reserved, length reserved = 2%nat /\ file = snapshot_bytes reserved sequence p.
Proof.
  split.
  - intros H. destruct (read_snapshot_inv _ _ _ H) as (reserved & R & Q & E & B). eauto 6.
  - intros (B & Q & reserved & R & ->). rewrite size_snapshot_bytes in B by exact R.
    apply read_snapshot_bytes; try assumption.
    unfold u_ok, kMaxSnapshotFile in *. bool_goal; lia.
Qed.

(** Reopening a directory that is in order. *)
Definition reopens_to (d : Disk) (o : Options) (p : bytes) (floor : Z) (records : list JournalRecord) : Prop :=
  forall fresh, exists st d',
    open d o open_io_ok fresh = (Ok st, d') /\
    snapshot_payload_ st = p /\ value (snapshot_sequence_ st) = floor /\
    records_ st = effective floor records /\
    value (last_sequence_ st) = last_sequence_of floor (effective floor records).

Lemma directory_reopens d o p floor js tail :
  directory_ok d o p floor js tail -> reopens_to d o p floor js.
Proof.
  intros D fresh. destruct (open_directory d o p floor js tail fresh D)
    as (st & E & K & Eo & Ep & Ef & Er & _).
  eexists _, _. split; [exact E|]. repeat split; try assumption.
  rewrite (so_last _ _ _ K), Ef. reflexivity.
Qed.

(** C27. An append is atomic.  Take a store in step with its directory that has a
    sequence left, a payload within the bound on payloads, a journal that stays
    within its 1 GiB, and a host whose writes succeed.  The append returns the
    next sequence with the object in step with the directory, and wherever the process stops while the frame is being
    written, reopening finds either exactly the records of before or those and
    the new one, the latter as soon as every byte is there. *)
Theorem append_atomic st d js kind p n :
  store_ok st d js -> size p <= max_record_payload (options_ st) ->
  value (last_sequence_ st) < u64_max ->
  size (journal_file js) + kJournalHeaderBytes + size p <= kMaxJournalFile ->
  (length (journal_file js) <= n)%nat ->
  let r := next_record st js kind p in
  exists st' d',
    append st d append_ok kind p = (Ok (jr_sequence r), st', d') /\
    store_ok st' d' (js ++ [r]) /\ records_ st' = records_ st ++ [r] /\
    reopens_to (crash d' n) (options_ st) (snapshot_payload_ st) (value (snapshot_sequence_ st))
      (if Z.of_nat n <? size (journal_file (js ++ [r])) then js else js ++ [r]).
Proof.
  intros OK P L F N r. eexists _, _. split; [|split; [|split]].
  - rewrite (append_writes st d js OK kind p P L F append_ok). reflexivity.
  - apply append_store_ok; assumption.
  - reflexivity.
  - destruct (Z.of_nat n <? _) eqn:C; bool_prop.
    + destruct (crash_inside st d js OK kind p P L F n N C) as (tail & D).
      eapply directory_reopens, D.
    + eapply directory_reopens, (crash_after st d js OK kind p P L F n C).
Qed.

(** What a failed append had written. *)
Definition written_before (io : AppendIo) (p : bytes) : nat :=
  match io with
  | append_header n => Nat.min n 22
  | append_payload n => 22 + Nat.min n (length p)
  | _ => 22 + length p
  end.

Lemma append_partial st js kind p io :
  let r := next_record st js kind p in
  match io with
  | append_header n => firstn n (journal_header (value (jr_sequence r)) (RecordKind_to_Z kind) p)
  | append_payload n => journal_header (value (jr_sequence r)) (RecordKind_to_Z kind) p ++ firstn n p
  | _ => journal_frame r
  end = firstn (written_before io p) (journal_frame r).
Proof.
  intros r. unfold journal_frame. change (jr_kind r) with kind. change (payload r) with p.
  pose proof (length_journal_header (value (jr_sequence r)) (RecordKind_to_Z kind) p) as L.
  destruct io; cbn [written_before].
  - symmetry. apply firstn_all2. rewrite length_app. lia.
  - rewrite firstn_app, L. replace (Nat.min n 22 - 22)%nat with 0%nat by lia.
    rewrite firstn_O, app_nil_r. destruct (Nat.le_gt_cases n 22).
    + rewrite Nat.min_l by assumption. reflexivity.
    + rewrite !firstn_all2 by lia. reflexivity.
  - rewrite firstn_app, L, (firstn_all2 (journal_header _ _ _)) by lia. f_equal.
    replace (22 + Nat.min n (length p) - 22)%nat with (Nat.min n (length p)) by lia.
    destruct (Nat.le_gt_cases n (length p)).
    + rewrite Nat.min_l by assumption. reflexivity.
    + rewrite Nat.min_r, !firstn_all2 by lia. reflexivity.
  - symmetry. apply firstn_all2. rewrite length_app. lia.
Qed.

(** A refused append changes nothing in the object, and reopening right after
    it finds the records of before, unless all its bytes had reached the file: a
    failed flush leaves an unacknowledged record that recovery does replay. *)
Theorem append_refused_reopens st d js kind p io :
  store_ok st d js -> size p <= max_record_payload (options_ st) ->
  value (last_sequence_ st) < u64_max ->
  size (journal_file js) + kJournalHeaderBytes + size p <= kMaxJournalFile ->
  io <> append_ok ->
  let r := next_record st js kind p in
  exists d',
    append st d io kind p = (Err kIo, st, d') /\
    reopens_to d' (options_ st) (snapshot_payload_ st) (value (snapshot_sequence_ st))
      (if (written_before io p <? 22 + length p)%nat then js else js ++ [r]).
Proof.
  intros OK P L F N r. pose proof (append_partial st js kind p io) as W. cbv zeta in W.
  set (m := written_before io p) in *.
  exists (crash (journal_write d (journal_frame r)) (length (journal_file js) + m)). split.
  - rewrite (append_writes st d js OK kind p P L F io).
    assert (forall data, data = firstn m (journal_frame r) ->
      journal_write d data = crash (journal_write d (journal_frame r)) (length (journal_file js) + m)) as C.
    { intros data ->. unfold journal_write, crash. cbn [dk_store_id dk_snapshot dk_snapshot_tmp dk_journal].
      pose proof (do_journal _ _ _ _ _ _ (so_directory _ _ _ OK)) as J. rewrite app_nil_r in J. rewrite J.
      cbn [option_map]. rewrite firstn_app, (firstn_all2 (journal_file js)) by lia.
      replace (length (journal_file js) + m - length (journal_file js))%nat with m by lia. reflexivity. }
    destruct io; [contradiction | f_equal; apply C; exact W..].
  - pose proof (size_journal_frame r) as Sf. pose proof (frame_size_next st js kind p) as Fr.
    fold r in Fr. unfold kJournalHeaderBytes in Fr.
    assert (size (journal_file (js ++ [r])) = size (journal_file js) + 22 + size p) as Sz
      by (rewrite journal_file_snoc, length_app; lia).
    destruct (m <? 22 + length p)%nat eqn:C.
    + apply Nat.ltb_lt in C.
      destruct (crash_inside st d js OK kind p P L F (length (journal_file js) + m)) as (tail & D);
        [lia | fold r; lia | eapply directory_reopens, D].
    + apply Nat.ltb_ge in C. eapply directory_reopens, (crash_after st d js OK kind p P L F).
      fold r. lia.
Qed.

Lemma last_of_snoc js r : last_of None (js ++ [r]) = Some (value (jr_sequence r)).
Proof. unfold last_of. rewrite fold_left_app. reflexivity. Qed.

(** C29. After a flush that failed, on a store in step with its directory and with
    room for both records, the next append reuses the sequence of the
    record already in the file: it is acknowledged, and the directory can never
    be opened again, because recovery finds a sequence that does not increase. *)
Theorem append_after_failed_flush_corrupts st d js kind p kind' p' d1 st2 d2 seq fresh :
  store_ok st d js -> size p <= max_record_payload (options_ st) ->
  size p' <= max_record_payload (options_ st) ->
  value (last_sequence_ st) < u64_max ->
  size (journal_file js) + 2 * kJournalHeaderBytes + size p + size p' <= kMaxJournalFile ->
  append st d append_flush kind p = (Err kIo, st, d1) ->
  append st d1 append_ok kind' p' = (Ok seq, st2, d2) ->
  open d2 (options_ st) open_io_ok fresh = (Err kCorrupt, d2).
Proof.
  intros OK P P' L F A1 A2. unfold kJournalHeaderBytes in F.
  assert (size (journal_file js) + kJournalHeaderBytes + size p <= kMaxJournalFile) as F1
    by (unfold kJournalHeaderBytes; lia).
  rewrite (append_writes st d js OK kind p P L F1 append_flush) in A1. injection A1 as <-.
  set (r := next_record st js kind p) in *.
  pose proof (so_last_u_ok st d js OK) as U. unfold u_ok, u64_max in U, L. bool_prop.
  unfold append in A2. rewrite (so_open _ _ _ OK) in A2. cbn [negb] in A2.
  rewrite Z.gtb_ltb in A2. replace (max_record_payload (options_ st) <? size p') with false in A2
    by (symmetry; apply Z.ltb_ge; lia).
  rewrite (to_u_id 64 (value (last_sequence_ st) + 1)) in A2 by (unfold u_ok; bool_goal; lia).
  injection A2 as _ _ <-.
  destruct (so_directory _ _ _ OK) as [B (text & Id & V) J K T X Uf Sn]. rewrite app_nil_r in J.
  set (r' := mkJournalRecord kind' (mkCounter (value (last_sequence_ st) + 1)) p' 0).
  set (d2 := journal_write (journal_write d (journal_frame r)) _).
  assert (dk_journal d2 = Some (journal_file (js ++ [r]) ++ journal_frame r')) as J2.
  { subst d2. cbn. rewrite J. rewrite journal_file_snoc. reflexivity. }
  assert (value (last_sequence_ st) < u64_max) as L' by (unfold u64_max; lia).
  pose proof (next_record_ok st d js OK kind p P L') as Jr. fold r in Jr.
  pose proof (size_journal_frame r) as Sr. pose proof (size_journal_frame r') as Sr'.
  pose proof (frame_size_next st js kind p) as Fr. fold r in Fr.
  assert (frame_size r' = 22 + size p') as Fr' by reflexivity. unfold kJournalHeaderBytes in Fr.
  assert (read_journal (dk_journal d2) (max_record_payload (options_ st)) = Err kCorrupt) as RJ.
  { rewrite J2. apply (read_journal_defect _ B); try assumption.
    - intros N. apply (f_equal (@length _)) in N. change (length (@nil byte)) with 0%nat in N. lia.
    - intros offset. rewrite last_of_snoc.
      rewrite <- (app_nil_r (journal_frame r')).
      apply (read_frame_repeated _ B); [exact P' | | ].
      + unfold counter_ok, u_ok. cbn. bool_goal; lia.
      + subst r r'. cbn. lia.
    - rewrite length_app, journal_file_snoc, length_app. lia. }
  unfold open. cbn [directories_created open_io_ok negb].
  rewrite (store_id_accepted d2 text) by assumption.
  destruct Sn as (loaded & Sn). change (load_snapshot d) with (load_snapshot d2) in Sn.
  rewrite Sn. unfold load_journal. rewrite RJ. reflexivity.
Qed.

(** C28. Compaction is atomic, for a store in step with its directory and a payload
    within the bound on payloads and the 256 MiB of a snapshot file: a snapshot that cannot be written or renamed leaves
    the directory as it was; once renamed, reopening finds the new payload at the
    last sequence and no record above it, whether the journal has been rotated
    yet, has been rotated, or could not be removed. *)
Theorem compaction_atomic st d js p :
  store_ok st d js -> size p <= max_snapshot_payload (options_ st) -> size p + 40 <= kMaxSnapshotFile ->
  let o := options_ st in
  let last := value (last_sequence_ st) in
  (forall io, io <> snap_ok -> io <> snap_write write_ok ->
   exists e d', write_snapshot st d io p = (Err e, st, d') /\
     reopens_to d' o (snapshot_payload_ st) (value (snapshot_sequence_ st)) js) /\
  exists st1 d1,
    write_snapshot st d snap_ok p = (Ok (last_sequence_ st), st1, d1) /\
    reopens_to d1 o p last [] /\
    forall io, io <> rotate_sync -> io <> rotate_open ->
    exists st2 d2, rotate_journal st1 d1 io = (Ok tt, st2, d2) /\ reopens_to d2 o p last [].
Proof.
  intros OK P F o last. split.
  - intros io N M. destruct (write_snapshot_failed st d p P io N M) as (e & tmp & E).
    exists e. eexists. split; [exact E|].
    eapply directory_reopens, directory_ok_tmp, (so_directory _ _ _ OK).
  - destruct (write_snapshot_ok st d js OK p P F) as [E OK1].
    eexists _, _. split; [exact E|].
    assert (forall d' js', directory_ok d' o p last js' [] -> effective last js' = [] ->
                      reopens_to d' o p last []) as R.
    { intros d' js' D N fresh. destruct (directory_reopens _ _ _ _ _ _ D fresh) as (s & d2 & A & B & C & G & H).
      exists s, d2. rewrite N in G, H. auto. }
    pose proof (effective_last st d js OK) as N. split.
    + eapply R; [exact (so_directory _ _ _ OK1) | exact N].
    + intros io N1 N2.
      destruct (rotate_journal_ok _ _ _ OK1 io eq_refl N1 N2) as (st2 & d2 & js2 & A & D & G & _).
      exists st2, d2. split; [exact A | eapply R; [exact D | exact G]].
Qed.

(** The largest snapshots [write_snapshot] accepts and installs are ones
    recovery refuses: the bound on the payload leaves no room for the 40 bytes of
    header and seal in the bound on the file. *)
Theorem oversized_snapshot_unopenable st d js p fresh :
  store_ok st d js -> max_snapshot_payload (options_ st) = max_snapshot_payload default_options ->
  kMaxSnapshotFile - 40 < size p <= kMaxSnapshotFile ->
  exists st' d', write_snapshot st d snap_ok p = (Ok (last_sequence_ st), st', d') /\
    fst (open d' (options_ st) open_io_ok fresh) = Err kResourceExhausted.
Proof.
  intros OK M B. eexists _, _. split.
  - unfold write_snapshot. rewrite M, Z.gtb_ltb. unfold kMaxSnapshotFile in B. cbn [max_snapshot_payload default_options].
    replace (256 * 1024 * 1024 <? size p) with false by (symmetry; apply Z.ltb_ge; lia). reflexivity.
  - destruct (do_id _ _ _ _ _ _ (so_directory _ _ _ OK)) as (text & Id & V).
    unfold open. cbn [directories_created open_io_ok negb].
    rewrite (store_id_accepted _ text) by assumption.
    unfold load_snapshot, read_snapshot, read_all. cbn [dk_snapshot].
    rewrite snapshot_file_bytes, size_snapshot_bytes, Z.gtb_ltb by reflexivity.
    replace (kMaxSnapshotFile <? 40 + size p) with true by (symmetry; apply Z.ltb_lt; lia).
    reflexivity.
Qed.

(** ** Witnesses *)
Definition example_disk : Disk :=
  mkDisk (Some (to_hex (fingerprint128 (str "example")) ++ [x0a])) None None (Some []).

Definition example_store : Store :=
  mkStore default_options true [] (mkCounter 0) (mkCounter 0) 0 [] empty_report.

Lemma example_store_ok : store_ok example_store example_disk [].
Proof.
  constructor; try reflexivity. constructor; try reflexivity.
  - eexists. split; [reflexivity | vm_compute; reflexivity].
  - now left.
  - vm_compute. discriminate.
  - exists false. reflexivity.
Qed.

Lemma append_atomic_witness :
  exists st' d',
    append example_store example_disk append_ok kFence (str "abc") =
      (Ok (mkCounter 1), st', d') /\
    reopens_to (crash d' 24) default_options [] 0 [].
Proof.
  destruct (append_atomic example_store example_disk [] kFence (str "abc") 24 example_store_ok
              ltac:(vm_compute; congruence) ltac:(vm_compute; congruence) ltac:(vm_compute; congruence)
              (Nat.le_0_l _)) as (st' & d' & A & _ & _ & R).
  exists st', d'. split; [exact A | exact R].
Defined.

Lemma append_refused_reopens_witness :
  exists d',
    append example_store example_disk (append_payload 2) kFence (str "abc") =
      (Err kIo, example_store, d') /\
    reopens_to d' default_options [] 0 [].
Proof.
  destruct (append_refused_reopens example_store example_disk [] kFence (str "abc") (append_payload 2)
              example_store_ok ltac:(vm_compute; congruence) ltac:(vm_compute; congruence)
              ltac:(vm_compute; congruence) ltac:(discriminate)) as (d' & A & R).
  exists d'. split; [exact A | exact R].
Defined.

Definition example_flushed : Disk :=
  snd (append example_store example_disk append_flush kFence (str "abc")).
Definition example_reused : Result DurableSequence * Store * Disk :=
  append example_store example_flushed append_ok kFence (str "d").

Lemma append_after_failed_flush_corrupts_witness :
  example_reused = (Ok (mkCounter 1), snd (fst example_reused), snd example_reused) /\
  open (snd example_reused) default_options open_io_ok [] = (Err kCorrupt, snd example_reused).
Proof.
  assert (append example_store example_disk append_flush kFence (str "abc") =
          (Err kIo, example_store, example_flushed)) as E1 by (vm_compute; reflexivity).
  assert (append example_store example_flushed append_ok kFence (str "d") =
          (Ok (mkCounter 1), snd (fst example_reused), snd example_reused)) as E2
    by (vm_compute; reflexivity).
  split; [exact E2|].
  refine (append_after_failed_flush_corrupts example_store example_disk [] kFence (str "abc") kFence
            (str "d") _ _ _ _ [] example_store_ok _ _ _ _ E1 E2); vm_compute; congruence.
Defined.

Lemma compaction_atomic_witness :
  exists st1 d1,
    write_snapshot example_store example_disk snap_ok (str "state") = (Ok (mkCounter 0), st1, d1) /\
    reopens_to d1 default_options (str "state") 0 [].
Proof.
  destruct (compaction_atomic example_store example_disk [] (str "state") example_store_ok
              ltac:(vm_compute; congruence) ltac:(vm_compute; congruence))
    as [_ (st1 & d1 & A & R & _)].
  exists st1, d1. split; [exact A | exact R].
Defined.

Lemma oversized_snapshot_unopenable_witness :
  exists p st' d',
    write_snapshot example_store example_disk snap_ok p = (Ok (mkCounter 0), st', d') /\
    fst (open d' default_options open_io_ok []) = Err kResourceExhausted.
Proof.
  assert (size (repeat x00 (Z.to_nat kMaxSnapshotFile)) = kMaxSnapshotFile) as L.
  { rewrite repeat_length. apply Z2Nat.id. discriminate. }
  exists (repeat x00 (Z.to_nat kMaxSnapshotFile)).
  apply (oversized_snapshot_unopenable example_store example_disk [] _ [] example_store_ok eq_refl).
  rewrite L. split; [reflexivity | apply Z.le_refl].
Defined.
