(* ===== verification/Coordinator.v ===== *)
(** * The reservation coordinator: state, effects and context checks

    [src/coordinator_impl.hpp] and the first part of [src/coordinator_core.cpp].
    The members of [ReservationCoordinator::Impl] are grouped in five records:
    the environment (configuration, clock, store, incarnation, statistics), the
    authority tables, the record book, the sessions (attempts, claimants,
    fences, holds, overcommit states), and the capacity index with the entries
    suspended from it.  An operation is a [co]: it maps the state to a result
    and the next state, and what it changed before an error stays changed.  The
    mutex is held for a whole operation, so operations are steps. *)
From S2P Require Import Prelude Errors Containers Identity Hash Bandwidth Time Authority Wire Policy Capacity Reservation Outcome SegTree Index Durable CodecBase Codec Store.

(** ** Configuration, incarnation and environment *)

(** [CoordinatorConfig] without the directory and the clock, which are parts of
    the environment below, and without [retain_journal_records], which no code
    reads. *)
Record CoordinatorConfig := mkCoordinatorConfig {
  max_live_reservations : Z;
  max_history_records : Z;
  max_attempts : Z;
  index_scan_limit : Z;
  enable_preemption : bool;
  boot_identity : Identity128 }.

Definition default_config : CoordinatorConfig :=
  mkCoordinatorConfig 262144 262144 262144 8192 true nil_id.

Record CoordinatorIncarnation := mkCoordinatorIncarnation {
  ci_boot : Identity128;
  ci_epoch : FabricEpoch;
  ci_sequence : DurableSequence;
  ci_store : Identity128 }.

(** An [IClock]: the last reading and the readings to come.  When none is left
    the clock stands still. *)
Record Clock := mkClock { reading : Timestamp; upcoming : list Timestamp }.

Definition clock_read (k : Clock) : Timestamp * Clock :=
  match upcoming k with
  | [] => (reading k, k)
  | t :: later => (t, mkClock t later)
  end.

(** How the calls into the file system to come end; all is well when a list is
    used up. *)
Record Io := mkIo {
  io_append : list AppendIo;
  io_snapshot : list SnapshotIo;
  io_rotate : list RotateIo }.

Definition io_ok : Io := mkIo [] [] [].

Definition next_io {A} (ok : A) (l : list A) : A * list A :=
  match l with [] => (ok, []) | x :: l => (x, l) end.

Record Env := mkEnv {
  config : CoordinatorConfig;
  clock : Clock;
  store : Store;
  disk : Disk;
  io : Io;
  incarnation : CoordinatorIncarnation;
  stopping : bool;
  stats : CoordinatorStats;
  recovery : RecoveryReport }.

(** ** Authority tables *)
Record Tables := mkTables {
  ledger : CapacityLedger;
  paths : PathAuthorityTable;
  policies : PolicyRegistry;
  last_capacity_snapshot : Identity128;
  last_capacity_generation : CapacitySnapshotGeneration;
  last_path_snapshot : Identity128;
  last_path_generation : CapacitySnapshotGeneration }.

(** ** The record book *)
Abbreviation ReservationKey := (Identity128 * ReservationGeneration)%type.
Abbreviation SeriesKey := (Identity128 * SeriesGeneration)%type.

Definition key_of (r : ReservationRecord) : ReservationKey := (rr_id r, rr_generation r).

Record Book := mkBook {
  records : omap ReservationKey ReservationRecord;
  generations : omap Identity128 (list ReservationGeneration);
  current : omap Identity128 ReservationGeneration;
  edges : list SupersessionEdge;
  series_records : omap SeriesKey ReservationSeries;
  current_series : omap Identity128 SeriesGeneration;
  retired : omap Identity128 ReservationRecord;
  activation_queue : list (Timestamp * ReservationKey);
  expiry_queue : list (Timestamp * ReservationKey);
  recall_queue : list (Timestamp * ReservationKey);
  live_count : Z;
  history_count : Z }.

(** ** Sessions *)

(** [detail::AttemptRecord] and [detail::FenceRecord] have the members of the
    mutations they are journalled as; the code copies one into the other member
    by member. *)
Abbreviation AttemptRecord := AttemptMutation.
Abbreviation FenceRecord := FenceMutation.

Record OvercommitState := mkOvercommitState { mutation : OvercommitMutation; oc_resolved : bool }.

Record Sessions := mkSessions {
  attempts : omap Identity128 AttemptRecord;
  attempt_order : list Identity128;
  claimants : omap Identity128 ClaimantGeneration;
  fenced_boots : omap Identity128 FenceRecord;
  fenced_claimants : omap Identity128 FenceRecord;
  holds : omap Identity128 HoldRecord;
  released_holds : list Identity128;
  overcommit : omap ResourceName OvercommitState }.

(** ** The coordinator *)

(** The entries a [Suspension] object took out of the index, and whether they
    stay out.  At most one such object is alive at any time. *)
Record Suspension := mkSuspension { suspended : list IndexEntry; kept : bool }.

Record Coordinator := mkCoordinator {
  env : Env;
  tables : Tables;
  book : Book;
  sessions : Sessions;
  index : CapacityIndex;
  suspension : Suspension }.

Definition set_env (f : Env -> Env) (c : Coordinator) : Coordinator :=
  mkCoordinator (f (env c)) (tables c) (book c) (sessions c) (index c) (suspension c).
Definition set_tables (f : Tables -> Tables) (c : Coordinator) : Coordinator :=
  mkCoordinator (env c) (f (tables c)) (book c) (sessions c) (index c) (suspension c).
Definition set_book (f : Book -> Book) (c : Coordinator) : Coordinator :=
  mkCoordinator (env c) (tables c) (f (book c)) (sessions c) (index c) (suspension c).
Definition set_sessions (f : Sessions -> Sessions) (c : Coordinator) : Coordinator :=
  mkCoordinator (env c) (tables c) (book c) (f (sessions c)) (index c) (suspension c).
Definition set_index (f : CapacityIndex -> CapacityIndex) (c : Coordinator) : Coordinator :=
  mkCoordinator (env c) (tables c) (book c) (sessions c) (f (index c)) (suspension c).
Definition set_suspension (f : Suspension -> Suspension) (c : Coordinator) : Coordinator :=
  mkCoordinator (env c) (tables c) (book c) (sessions c) (index c) (f (suspension c)).

(** Assignments to one member. *)
Definition set_clock (k : Clock) (e : Env) : Env :=
  mkEnv (config e) k (store e) (disk e) (io e) (incarnation e) (stopping e) (stats e) (recovery e).
Definition set_store (s : Store) (d : Disk) (i : Io) (e : Env) : Env :=
  mkEnv (config e) (clock e) s d i (incarnation e) (stopping e) (stats e) (recovery e).
Definition set_incarnation (i : CoordinatorIncarnation) (e : Env) : Env :=
  mkEnv (config e) (clock e) (store e) (disk e) (io e) i (stopping e) (stats e) (recovery e).
Definition set_stopping (b : bool) (e : Env) : Env :=
  mkEnv (config e) (clock e) (store e) (disk e) (io e) (incarnation e) b (stats e) (recovery e).
Definition set_stats (f : CoordinatorStats -> CoordinatorStats) (e : Env) : Env :=
  mkEnv (config e) (clock e) (store e) (disk e) (io e) (incarnation e) (stopping e) (f (stats e))
    (recovery e).
Definition set_recovery (r : RecoveryReport) (e : Env) : Env :=
  mkEnv (config e) (clock e) (store e) (disk e) (io e) (incarnation e) (stopping e) (stats e) r.

Definition set_ledger (l : CapacityLedger) (t : Tables) : Tables :=
  mkTables l (paths t) (policies t) (last_capacity_snapshot t) (last_capacity_generation t)
    (last_path_snapshot t) (last_path_generation t).
Definition set_paths (p : PathAuthorityTable) (t : Tables) : Tables :=
  mkTables (ledger t) p (policies t) (last_capacity_snapshot t) (last_capacity_generation t)
    (last_path_snapshot t) (last_path_generation t).
Definition set_policies (p : PolicyRegistry) (t : Tables) : Tables :=
  mkTables (ledger t) (paths t) p (last_capacity_snapshot t) (last_capacity_generation t)
    (last_path_snapshot t) (last_path_generation t).
Definition set_last_capacity (i : Identity128) (g : CapacitySnapshotGeneration) (t : Tables) : Tables :=
  mkTables (ledger t) (paths t) (policies t) i g (last_path_snapshot t) (last_path_generation t).
Definition set_last_path (i : Identity128) (g : CapacitySnapshotGeneration) (t : Tables) : Tables :=
  mkTables (ledger t) (paths t) (policies t) (last_capacity_snapshot t) (last_capacity_generation t) i g.


Definition set_records (m : omap ReservationKey ReservationRecord) (b : Book) : Book :=
  mkBook m (generations b) (current b) (edges b) (series_records b) (current_series b) (retired
    b) (activation_queue b) (expiry_queue b) (recall_queue b) (live_count b) (history_count b).
Definition set_generations (m : omap Identity128 (list ReservationGeneration)) (b : Book) : Book :=
  mkBook (records b) m (current b) (edges b) (series_records b) (current_series b) (retired b)
    (activation_queue b) (expiry_queue b) (recall_queue b) (live_count b) (history_count b).
Definition set_current (m : omap Identity128 ReservationGeneration) (b : Book) : Book :=
  mkBook (records b) (generations b) m (edges b) (series_records b) (current_series b) (retired
    b) (activation_queue b) (expiry_queue b) (recall_queue b) (live_count b) (history_count b).
Definition set_edges (l : list SupersessionEdge) (b : Book) : Book :=
  mkBook (records b) (generations b) (current b) l (series_records b) (current_series b)
    (retired b) (activation_queue b) (expiry_queue b) (recall_queue b) (live_count b)
    (history_count b).
Definition set_series (m : omap SeriesKey ReservationSeries) (b : Book) : Book :=
  mkBook (records b) (generations b) (current b) (edges b) m (current_series b) (retired b)
    (activation_queue b) (expiry_queue b) (recall_queue b) (live_count b) (history_count b).
Definition set_current_series (m : omap Identity128 SeriesGeneration) (b : Book) : Book :=
  mkBook (records b) (generations b) (current b) (edges b) (series_records b) m (retired b)
    (activation_queue b) (expiry_queue b) (recall_queue b) (live_count b) (history_count b).
Definition set_retired (m : omap Identity128 ReservationRecord) (b : Book) : Book :=
  mkBook (records b) (generations b) (current b) (edges b) (series_records b) (current_series b)
    m (activation_queue b) (expiry_queue b) (recall_queue b) (live_count b) (history_count b).
Definition set_queues (a x r : list (Timestamp * ReservationKey)) (b : Book) : Book :=
  mkBook (records b) (generations b) (current b) (edges b) (series_records b) (current_series b)
    (retired b) a x r (live_count b) (history_count b).
Definition set_counts (live history : Z) (b : Book) : Book :=
  mkBook (records b) (generations b) (current b) (edges b) (series_records b) (current_series b)
    (retired b) (activation_queue b) (expiry_queue b) (recall_queue b) live history.

Definition set_attempts (m : omap Identity128 AttemptRecord) (order : list Identity128) (s : Sessions) : Sessions :=
  mkSessions m order (claimants s) (fenced_boots s) (fenced_claimants s) (holds s)
    (released_holds s) (overcommit s).
Definition set_claimants (m : omap Identity128 ClaimantGeneration) (s : Sessions) : Sessions :=
  mkSessions (attempts s) (attempt_order s) m (fenced_boots s) (fenced_claimants s) (holds s)
    (released_holds s) (overcommit s).
Definition set_fenced_boots (m : omap Identity128 FenceRecord) (s : Sessions) : Sessions :=
  mkSessions (attempts s) (attempt_order s) (claimants s) m (fenced_claimants s) (holds s)
    (released_holds s) (overcommit s).
Definition set_fenced_claimants (m : omap Identity128 FenceRecord) (s : Sessions) : Sessions :=
  mkSessions (attempts s) (attempt_order s) (claimants s) (fenced_boots s) m (holds s)
    (released_holds s) (overcommit s).
Definition set_holds (m : omap Identity128 HoldRecord) (s : Sessions) : Sessions :=
  mkSessions (attempts s) (attempt_order s) (claimants s) (fenced_boots s) (fenced_claimants s)
    m (released_holds s) (overcommit s).
Definition set_released_holds (l : list Identity128) (s : Sessions) : Sessions :=
  mkSessions (attempts s) (attempt_order s) (claimants s) (fenced_boots s) (fenced_claimants s)
    (holds s) l (overcommit s).
Definition set_overcommit (m : omap ResourceName OvercommitState) (s : Sessions) : Sessions :=
  mkSessions (attempts s) (attempt_order s) (claimants s) (fenced_boots s) (fenced_claimants s)
    (holds s) (released_holds s) m.

(** ** Operations as state transformers *)
Definition co (A : Type) : Type := Coordinator -> Result A * Coordinator.

Definition ret {A} (a : A) : co A := fun c => (Ok a, c).
Definition fail {A} (e : ErrorCode) : co A := fun c => (Err e, c).
Definition bind {A B} (m : co A) (k : A -> co B) : co B := fun c =>
  match m c with
  | (Ok a, c) => k a c
  | (Err e, c) => (Err e, c)
  end.
Definition gets {A} (f : Coordinator -> A) : co A := fun c => (Ok (f c), c).
Definition modify (f : Coordinator -> Coordinator) : co unit := fun c => (Ok tt, f c).
Definition lift {A} (r : Result A) : co A := fun c => (r, c).

(** [(void)status]: the error is dropped, the state is not. *)
Definition ignore {A} (m : co A) : co unit := fun c => (Ok tt, (m c).2).

Notation "'let*' x := m 'in' k" := (bind m (fun x => k))
  (at level 10, x pattern, m at level 100, k at level 200) : brf_scope.
Notation "m ';;' k" := (bind m (fun _ => k))
  (at level 100, k at level 200, right associativity) : brf_scope.
Notation "'reject_if' c 'with' e 'in' k" := (bind (lift (refuse c e)) (fun _ => k))
  (at level 10, c at level 100, e at level 100, k at level 200) : brf_scope.

(** A loop whose body may return early with an error. *)
Fixpoint for_each {A} (l : list A) (f : A -> co unit) : co unit :=
  match l with
  | [] => ret tt
  | a :: l => f a ;; for_each l f
  end.

(** A loop that computes a value. *)
Fixpoint co_fold {A B} (f : B -> A -> co B) (l : list A) (b : B) : co B :=
  match l with
  | [] => ret b
  | a :: l => let* b := f b a in co_fold f l b
  end.

Definition when (b : bool) (m : co unit) : co unit := if b then m else ret tt.

(** ** Statistics *)
Inductive Stat :=
  | n_commits | n_commit_rejections | n_replayed_attempts | n_amendments | n_releases
  | n_expiries | n_recalls | n_revocations | n_revalidations | n_fenced_holds
  | n_capacity_ingestions | n_generation_advances | n_durable_records | n_overcommit_events.

#[export] Instance Stat_eq_dec : EqDecision Stat.
Proof. solve_decision. Defined.

(** [++stats.k], on a 64-bit counter. *)
Definition bump_stat (k : Stat) (s : CoordinatorStats) : CoordinatorStats :=
  let n j v := if beq k j then to_u 64 (v + 1) else v in
  mkCoordinatorStats (n n_commits (commits s)) (n n_commit_rejections (commit_rejections s))
    (n n_replayed_attempts (replayed_attempts s)) (n n_amendments (amendments s))
    (n n_releases (releases s)) (n n_expiries (expiries s)) (n n_recalls (recalls s))
    (n n_revocations (revocations s)) (n n_revalidations (revalidations s))
    (n n_fenced_holds (fenced_holds s)) (n n_capacity_ingestions (capacity_ingestions s))
    (n n_generation_advances (generation_advances s)) (n n_durable_records (durable_records s))
    (n n_overcommit_events (overcommit_events s)) (tracked_reservations s) (tracked_series s)
    (live_holds s) (index_entries s) (st_epoch s) (st_coordinator_boot s) (st_journal_bytes s)
    (st_snapshot_sequence s).

Definition set_snapshot_stat (v : Z) (s : CoordinatorStats) : CoordinatorStats :=
  mkCoordinatorStats (commits s) (commit_rejections s) (replayed_attempts s) (amendments s)
    (releases s) (expiries s) (recalls s) (revocations s) (revalidations s) (fenced_holds s)
    (capacity_ingestions s) (generation_advances s) (durable_records s) (overcommit_events s)
    (tracked_reservations s) (tracked_series s) (live_holds s) (index_entries s) (st_epoch s)
    (st_coordinator_boot s) (st_journal_bytes s) v.

Definition bump (k : Stat) : co unit := modify (set_env (set_stats (bump_stat k))).

(** ** The clock, the journal and the context checks *)
Definition now_locked : co Timestamp := fun c =>
  let '(t, k) := clock_read (clock (env c)) in (Ok t, set_env (set_clock k) c).

Definition validate_context_locked (c : Coordinator) (context : RequestContext)
    (require_attempt : bool) : Status :=
  refuse_if stopping (env c) with kShuttingDown in
  refuse_if negb (beq (asserted_epoch context) (ci_epoch (incarnation (env c)))) with kStaleEpoch in
  refuse_if is_nil (rq_publisher context) with kInvalidIdentity in
  refuse_if require_attempt && is_nil (rq_attempt context) with kInvalidIdentity in
  refuse_if negb (is_nil (rq_publisher_boot context)) &&
            om_mem (fenced_boots (sessions c)) (rq_publisher_boot context) with kFencedClaimant in
  refuse_if negb (is_nil (rq_claimant context)) &&
            om_mem (fenced_claimants (sessions c)) (rq_claimant context) with kFencedClaimant in
  Ok tt.

Definition check_context (context : RequestContext) (require_attempt : bool) : co unit := fun c =>
  (validate_context_locked c context require_attempt, c).

Definition append_locked (record : DurableRecord) : co DurableSequence := fun c =>
  let e := env c in
  let payload := encode_record record in
  let '(how, later) := next_io append_ok (io_append (io e)) in
  let '(appended, st, d) := append (store e) (disk e) how (record_kind record) payload in
  let c := set_env (set_store st d (mkIo later (io_snapshot (io e)) (io_rotate (io e)))) c in
  match appended with
  | Err code => (Err code, c)
  | Ok seq =>
      (Ok seq,
       set_env (fun e =>
         set_incarnation
           (mkCoordinatorIncarnation (ci_boot (incarnation e)) (ci_epoch (incarnation e)) seq
              (ci_store (incarnation e)))
           (set_stats (bump_stat n_durable_records) e)) c)
  end.

Definition make_provenance_locked (c : Coordinator) (context : RequestContext)
    (sequence : DurableSequence) (at_ : Timestamp) : Provenance :=
  mkProvenance (rq_actor context) (rq_publisher context) (rq_publisher_boot context)
    (rq_session context) (rq_attempt context) (ci_epoch (incarnation (env c)))
    (ci_boot (incarnation (env c))) at_ sequence (sanitize_reason (rq_reason context)).

(** ** Holds *)
Definition release_record (h : HoldRecord) (at_ : Timestamp) (reason : bytes) : HoldRecord :=
  mkHoldRecord (hr_id h) (hr_generation h) (hr_claimant h) (hr_claimant_generation h) (hr_session h)
    (hr_boot h) (hr_epoch h) (hr_binding_kind h) (hr_resources h) (hr_path h) (hr_path_generation h)
    (hr_interval h) (hr_amount h) (hr_guarantee h) (hr_created_at h) (expires_at h) true at_ reason.

(** [erase_all] with its status dropped. *)
Definition erase_holder (kind : HolderKind) (id : Identity128) (generation : Z) : co unit :=
  modify (set_index (fun x => (index_erase_all x kind id generation).2)).

Definition kMaxReleasedHolds : Z := 4096.

(** The loop [while (released_holds.size() > 4096) released_holds.pop_front()]. *)
Fixpoint drop_oldest (l : list Identity128) (bound : Z) : list Identity128 :=
  match l with
  | [] => []
  | _ :: l' => if Z.of_nat (length l) >? bound then drop_oldest l' bound else l
  end.

Definition release_hold_locked (id : Identity128) (reason : bytes) (fenced : bool) : co unit :=
  let* found := gets (fun c => om_find (holds (sessions c)) id) in
  match found with
  | None => fail kNotFound
  | Some hold =>
      if released hold then ret tt
      else
        let* now := now_locked in
        modify (set_sessions (fun s =>
          set_holds (om_set (holds s) id (release_record hold now (sanitize_reason reason))) s)) ;;
        let* contained := gets (fun c => index_contains (index c) kHold id) in
        when contained (erase_holder kHold id (value (hr_generation hold))) ;;
        when fenced (bump n_fenced_holds) ;;
        modify (set_sessions (fun s =>
          set_released_holds (drop_oldest (released_holds s ++ [id]) kMaxReleasedHolds) s))
  end.

(** The holds a predicate selects, in map order, are released one by one. *)
Definition release_holds_where (P : HoldRecord -> bool) (reason : bytes) (fenced : bool) : co unit :=
  let* victims := gets (fun c =>
    om_keys (List.filter (fun p => negb (released p.2) && P p.2) (holds (sessions c)))) in
  for_each victims (fun id => ignore (release_hold_locked id reason fenced)).

Definition fence_holds_for_claimant_locked (claimant : Identity128)
    (generation : ClaimantGeneration) (reason : bytes) : co unit :=
  release_holds_where (fun h => beq (hr_claimant h) claimant &&
                                (value (hr_claimant_generation h) <? value generation)) reason true.
Definition fence_holds_for_boot_locked (boot : Identity128) (reason : bytes) : co unit :=
  release_holds_where (fun h => beq (hr_boot h) boot) reason true.
Definition fence_holds_for_session_locked (session : Identity128) (reason : bytes) : co unit :=
  release_holds_where (fun h => beq (hr_session h) session) reason true.

(** ** Claimants and policies *)
Definition register_generation (claimant : Identity128) (generation : ClaimantGeneration)
    (now : Timestamp) : co unit :=
  append_locked (DClaimantRegistration (mkClaimantMutation claimant generation now)) ;;
  modify (set_sessions (fun s => set_claimants (om_set (claimants s) claimant generation) s)).

Definition ensure_claimant_locked (claimant : Identity128) (generation : ClaimantGeneration)
    (now : Timestamp) : co unit :=
  reject_if is_nil claimant with kInvalidIdentity in
  let* registered := gets (fun c => om_find (claimants (sessions c)) claimant) in
  match registered with
  | None => register_generation claimant generation now
  | Some known =>
      reject_if value generation <? value known with kFencedClaimant in
      if value generation >? value known then
        register_generation claimant generation now ;;
        fence_holds_for_claimant_locked claimant generation (str "claimant generation advanced")
      else ret tt
  end.

(** The governing policy and the note of [policy_for_locked]: empty unless the
    built-in policy stands in. *)
Definition policy_for_locked (c : Coordinator) (name : PolicyName) : PolicyRecord * bytes :=
  match PolicyRegistry_current (policies (tables c)) name with
  | Some found => (found, [])
  | None =>
      (strict_default name,
       str "policy '" ++ name_view name ++
       str "' is not registered; the strict built-in policy applies")
  end.
