(* ===== verification/CoordRecords.v ===== *)
(** * Coordinator: records, index entries, queues and suspension

    [src/coordinator_records.cpp].  A [ReservationRecord&] of the code refers to
    an element of [records]; the model passes the record and writes it back
    under its key, and an operation that changes it returns it. *)
From S2P Require Import Prelude Errors Containers Identity Hash Bandwidth Time Authority Wire Policy Capacity Reservation Outcome SegTree Index Durable CodecBase Codec Store Coordinator.

(** ** Assignments to members of a record *)
Definition with_state (r : ReservationRecord) (state : ReservationState) (at_ : Timestamp)
    (reason : bytes) (provenance : Provenance) : ReservationRecord :=
  mkReservationRecord (rr_id r) (rr_generation r) (series_member r) (rr_series r) (series_index r)
    (terms r) (authority r) state (rr_applicability r) (rr_applicability_reason r) (declared_at r)
    (committed_at r) (activated_at r) at_ (rr_recall_effective_at r) (recall_grace r)
    (if is_terminal state then at_ else terminated_at r) (rr_predecessor r)
    (rr_predecessor_generation r) (sanitize_reason reason) provenance (rr_sequence r).

Definition with_recall (r : ReservationRecord) (effective_at : Timestamp) : ReservationRecord :=
  mkReservationRecord (rr_id r) (rr_generation r) (series_member r) (rr_series r) (series_index r)
    (terms r) (authority r) (rr_state r) (rr_applicability r) (rr_applicability_reason r)
    (declared_at r) (committed_at r) (activated_at r) (rr_state_changed_at r) effective_at
    (recall_grace r) (terminated_at r) (rr_predecessor r) (rr_predecessor_generation r)
    (state_reason r) (rr_last_provenance r) (rr_sequence r).

Definition with_grace (r : ReservationRecord) (g : Duration) : ReservationRecord :=
  mkReservationRecord (rr_id r) (rr_generation r) (series_member r) (rr_series r) (series_index r)
    (terms r) (authority r) (rr_state r) (rr_applicability r) (rr_applicability_reason r)
    (declared_at r) (committed_at r) (activated_at r) (rr_state_changed_at r)
    (rr_recall_effective_at r) g (terminated_at r) (rr_predecessor r) (rr_predecessor_generation r)
    (state_reason r) (rr_last_provenance r) (rr_sequence r).

Definition with_sequence (r : ReservationRecord) (s : DurableSequence) : ReservationRecord :=
  mkReservationRecord (rr_id r) (rr_generation r) (series_member r) (rr_series r) (series_index r)
    (terms r) (authority r) (rr_state r) (rr_applicability r) (rr_applicability_reason r)
    (declared_at r) (committed_at r) (activated_at r) (rr_state_changed_at r)
    (rr_recall_effective_at r) (recall_grace r) (terminated_at r) (rr_predecessor r)
    (rr_predecessor_generation r) (state_reason r) (rr_last_provenance r) s.

Definition with_applicability (r : ReservationRecord) (a : Applicability) (why : ApplicabilityReason)
    (at_ : Timestamp) : ReservationRecord :=
  mkReservationRecord (rr_id r) (rr_generation r) (series_member r) (rr_series r) (series_index r)
    (terms r) (authority r) (rr_state r) a why (declared_at r) (committed_at r) (activated_at r) at_
    (rr_recall_effective_at r) (recall_grace r) (terminated_at r) (rr_predecessor r)
    (rr_predecessor_generation r) (state_reason r) (rr_last_provenance r) (rr_sequence r).

(** ** Index maintenance *)
Definition indexable_locked (c : Coordinator) (record : ReservationRecord) : bool :=
  consumes record && negb (beq (rr_applicability record) ap_kStale) &&
  negb (empty (consuming_interval record)) &&
  forallb (CapacityLedger_is_current (ledger (tables c))) (av_resources (authority record)).

(** The entry of a record on one of its resources, over [window]. *)
Definition reservation_entry (record : ReservationRecord) (window : Interval) (name : ResourceName) :
    IndexEntry :=
  mkIndexEntry kReservation (rr_id record) (value (rr_generation record)) name window
    (amount (terms record)) (guarantee (terms record)) (rr_state record).

Definition record_entries (record : ReservationRecord) : list IndexEntry :=
  map (fun ref => reservation_entry record (consuming_interval record) (resource ref))
    (av_resources (authority record)).

(** Run an operation of the index that answers a status. *)
Definition on_index (f : CapacityIndex -> Status * CapacityIndex) : co unit := fun c =>
  let '(r, x) := f (index c) in (r, set_index (fun _ => x) c).

Definition index_insert_locked (record : ReservationRecord) : co unit :=
  if empty (consuming_interval record) then ret tt
  else on_index (fun x => index_replace_all x kReservation (rr_id record)
                            (value (rr_generation record)) (record_entries record)).

Definition index_erase_locked (record : ReservationRecord) : co unit :=
  let* contained := gets (fun c => index_contains (index c) kReservation (rr_id record)) in
  if contained then
    on_index (fun x => index_erase_all x kReservation (rr_id record) (value (rr_generation record)))
  else ret tt.

Definition index_holds_locked (c : Coordinator) (record : ReservationRecord) : bool :=
  existsb (fun e => holder_generation e =? value (rr_generation record))
    (index_find_all (index c) kReservation (rr_id record)).

Definition sync_index_locked (record : ReservationRecord) : co unit :=
  let* should_index := gets (fun c => indexable_locked c record) in
  let* indexed := gets (fun c => index_holds_locked c record) in
  if should_index && negb indexed then index_insert_locked record
  else if negb should_index && indexed then index_erase_locked record
  else ret tt.

Definition update_index_locked (record : ReservationRecord) : co unit :=
  let* indexed := gets (fun c => index_holds_locked c record) in
  when indexed (index_erase_locked record) ;;
  sync_index_locked record.

(** ** Time queues *)
Definition without_key (key : ReservationKey) (q : list (Timestamp * ReservationKey)) :
    list (Timestamp * ReservationKey) :=
  List.filter (fun p => negb (keqb p.2 key)) q.

Definition sync_queues (record : ReservationRecord) (b : Book) : Book :=
  let key := key_of record in
  let activation := without_key key (activation_queue b) in
  let expiry := without_key key (expiry_queue b) in
  let recall := without_key key (recall_queue b) in
  if negb (consumes record) then set_queues activation expiry recall b
  else
    let window := consuming_interval record in
    set_queues
      (if beq (rr_state record) kCommitted
       then mm_emplace activation (start (interval (terms record))) key else activation)
      (if empty window then expiry else mm_emplace expiry (end_ window) key)
      (if beq (rr_state record) kRecallPending && (ns (rr_recall_effective_at record) >? 0)
       then mm_emplace recall (rr_recall_effective_at record) key else recall) b.

Definition sync_queues_locked (record : ReservationRecord) : co unit :=
  modify (set_book (sync_queues record)).

Definition rebuild_queues (b : Book) : Book :=
  fold_left (fun b p => sync_queues p.2 b) (records b) (set_queues [] [] [] b).

Definition rebuild_index_locked : co unit :=
  modify (set_index index_clear) ;;
  let* all := gets (fun c => records (book c)) in
  for_each all (fun p =>
    let* generation := gets (fun c => om_find (current (book c)) p.1.1) in
    match generation with
    | Some g => if beq p.1.2 g then sync_index_locked p.2 else ret tt
    | None => ret tt
    end).

(** ** Record bookkeeping *)
Definition add_generation (history : list ReservationGeneration) (g : ReservationGeneration) :
    list ReservationGeneration :=
  if existsb (beq g) history then history else sort_keys (history ++ [g]).

(** [if (n > 0) --n] and [++n] on the two counts. *)
Definition count_in (terminal : bool) (b : Book) : Book :=
  if terminal then set_counts (live_count b) (history_count b + 1) b
  else set_counts (live_count b + 1) (history_count b) b.

(** [register_record_locked]. *)
Definition register_record (record : ReservationRecord) (b : Book) : Book :=
  let id := rr_id record in
  let generation := rr_generation record in
  let existed := om_mem (records b) (key_of record) in
  let b := set_records (om_set (records b) (key_of record) record) b in
  let history := default [] (om_find (generations b) id) in
  let b := set_generations (om_set (generations b) id (add_generation history generation)) b in
  let b :=
    match om_find (current b) id with
    | Some known =>
        if value generation >? value known then set_current (om_set (current b) id generation) b else b
    | None => set_current (om_set (current b) id generation) b
    end in
  if existed then b else count_in (is_terminal (rr_state record)) b.

Definition register_record_locked (record : ReservationRecord) : co unit :=
  modify (set_book (register_record record)).

(** The counts when a record in state [from] enters state [to]. *)
Definition recount (from to : ReservationState) (b : Book) : Book :=
  if negb (is_terminal from) && is_terminal to then
    set_counts (pred_count (live_count b)) (history_count b + 1) b
  else if is_terminal from && negb (is_terminal to) then
    set_counts (live_count b + 1) (pred_count (history_count b)) b
  else b.

Definition put_record (record : ReservationRecord) (b : Book) : Book :=
  set_records (om_set (records b) (key_of record) record) b.

(** [set_state_locked]: the record in its new state. *)
Definition set_state_locked (record : ReservationRecord) (state : ReservationState)
    (at_ : Timestamp) (reason : bytes) (provenance : Provenance) : co ReservationRecord :=
  let after := with_state record state at_ reason provenance in
  modify (set_book (fun b => put_record after (recount (rr_state record) state b))) ;;
  ret after.

Definition find_record (b : Book) (id : Identity128) (generation : ReservationGeneration) :
    option ReservationRecord := om_find (records b) (id, generation).

Definition find_record_locked (c : Coordinator) := find_record (book c).

Definition current_record_locked (c : Coordinator) (id : Identity128) : option ReservationRecord :=
  match om_find (current (book c)) id with
  | None => None
  | Some generation => find_record_locked c id generation
  end.

(** A [ReservationRecord*] read again after a call: what its element holds now. *)
Definition deref (c : Coordinator) (record : ReservationRecord) : ReservationRecord :=
  default record (find_record_locked c (rr_id record) (rr_generation record)).

(** ** Attempts *)
Definition find_attempt_locked (c : Coordinator) (attempt : Identity128) : option AttemptRecord :=
  om_find (attempts (sessions c)) attempt.

(** The eviction loop of [remember_attempt_locked]. *)
Fixpoint evict_attempts (bound : Z) (m : omap Identity128 AttemptRecord) (order : list Identity128) :
    omap Identity128 AttemptRecord * list Identity128 :=
  match order with
  | oldest :: rest =>
      if Z.of_nat (length order) >? bound then evict_attempts bound (om_erase m oldest) rest
      else (m, order)
  | [] => (m, [])
  end.

Definition remember_attempt (bound : Z) (record : AttemptRecord) (s : Sessions) : Sessions :=
  let id := at_attempt record in
  let order := if om_mem (attempts s) id then attempt_order s else attempt_order s ++ [id] in
  let '(m, order) := evict_attempts bound (om_set (attempts s) id record) order in
  set_attempts m order s.

Definition remember_attempt_locked (record : AttemptRecord) : co unit := modify (fun c =>
  set_sessions (remember_attempt (max_attempts (config (env c))) record) c).

(** ** Applicability *)
Definition mark_applicability_locked (record : ReservationRecord) (applicability : Applicability)
    (why : ApplicabilityReason) (at_ : Timestamp) : co ReservationRecord :=
  if beq (rr_applicability record) applicability && beq (rr_applicability_reason record) why then
    ret record
  else
    let* sequence := append_locked (DReservationApplicability
      (mkApplicabilityMutation (rr_id record) (rr_generation record) applicability why at_)) in
    let record := with_sequence (with_applicability record applicability why at_) sequence in
    modify (set_book (put_record record)) ;;
    sync_queues_locked record ;;
    sync_index_locked record ;;
    ret record.

(** ** Suspension *)

(** Take one entry out of the index; it is remembered first. *)
Definition suspend_entry (kind : HolderKind) (entry : IndexEntry) : co unit :=
  modify (set_suspension (fun s => mkSuspension (suspended s ++ [entry]) (kept s))) ;;
  on_index (fun x =>
    match index_erase x kind (ie_id entry) (holder_generation entry) (ie_resource entry) with
    | Ok x' => (Ok tt, x')
    | Err e => (Err e, x)
    end).

(** [Suspension::suspend]. *)
Definition suspend (record : ReservationRecord) : co unit :=
  let* held := gets (fun c => index_find_all (index c) kReservation (rr_id record)) in
  for_each held (fun entry =>
    if holder_generation entry =? value (rr_generation record) then suspend_entry kReservation entry
    else ret tt).

Definition suspend_hold (id : Identity128) : co unit :=
  let* held := gets (fun c => index_find_all (index c) kHold id) in
  for_each held (suspend_entry kHold).

(** [Suspension::restore]: an entry that does not go back in is reported on the
    error stream only. *)
Definition restore_entries (entries : list IndexEntry) (x : CapacityIndex) : CapacityIndex :=
  fold_left (fun x entry => match index_insert x entry with Ok x' => x' | Err _ => x end) entries x.

Definition keep_suspension : co unit :=
  modify (set_suspension (fun s => mkSuspension (suspended s) true)).

(** The life of a [Suspension] object: its destructor runs however the body is
    left. *)
Definition with_suspension {A} (body : co A) : co A := fun c =>
  let '(r, c) := body (set_suspension (fun _ => mkSuspension [] false) c) in
  let entries := if kept (suspension c) then [] else suspended (suspension c) in
  (r, set_suspension (fun _ => mkSuspension [] false) (set_index (restore_entries entries) c)).
