(* ===== verification/CoordPersist.v ===== *)
(** * Coordinator: snapshot, compaction and replay

    The persistence part of [src/coordinator_core.cpp]: the durable projection
    of the state, how a snapshot of it is applied to a fresh coordinator, and
    how each kind of durable record is replayed. *)
From S2P Require Import Prelude Errors Containers Identity Hash Bandwidth Time Authority Wire Policy Capacity Reservation Outcome SegTree Index Durable CodecBase Codec Store Coordinator CoordRecords.

(** ** [snapshot_state_locked] *)
Definition snapshot_capacity (e : CapacityEntry) : SnapshotCapacityEntry :=
  mkSnapshotCapacityEntry (ce_capacity e) (ce_snapshot e) (ce_ingested_at e) (ce_withdrawn e)
    (ce_withdrawn_at e) (ce_prior_generations e).
Definition snapshot_path (e : PathEntry) : SnapshotPathEntry :=
  mkSnapshotPathEntry (pt_path e) (pt_snapshot e) (pt_ingested_at e) (pt_retired e)
    (pt_prior_generations e).
Definition snapshot_policy (e : PolicyEntry) : SnapshotPolicyEntry :=
  mkSnapshotPolicyEntry (pe_record e) (pe_ingested_at e) (pe_prior_generations e).

(** The claimant mutations of a snapshot carry no instant, and of the fences only
    those under a boot identity are written. *)
Definition snapshot_state_locked (c : Coordinator) : SnapshotState :=
  mkSnapshotState (ci_epoch (incarnation (env c))) (ci_boot (incarnation (env c)))
    (last_sequence_ (store (env c)))
    (map snapshot_capacity (om_values (ledger (tables c))))
    (map snapshot_path (om_values (paths (tables c))))
    (map snapshot_policy (om_values (policies (tables c))))
    (om_values (records (book c)))
    (om_values (series_records (book c)))
    (edges (book c))
    (om_values (attempts (sessions c)))
    (om_values (fenced_boots (sessions c)))
    (map (fun p => mkClaimantMutation p.1 p.2 (mkTs 0)) (claimants (sessions c)))
    (map mutation (om_values (overcommit (sessions c))))
    (om_values (retired (book c))).

(** ** Compaction *)
Definition write_snapshot_locked (payload : bytes) : co unit := fun c =>
  let e := env c in
  let '(how, later) := next_io snap_ok (io_snapshot (io e)) in
  let '(written, st, d) := write_snapshot (store e) (disk e) how payload in
  (let? _ := written in Ok tt,
   set_env (set_store st d (mkIo (io_append (io e)) later (io_rotate (io e)))) c).

Definition rotate_journal_locked : co unit := fun c =>
  let e := env c in
  let '(how, later) := next_io rotate_ok (io_rotate (io e)) in
  let '(rotated, st, d) := rotate_journal (store e) (disk e) how in
  (rotated, set_env (set_store st d (mkIo (io_append (io e)) (io_snapshot (io e)) later)) c).

Definition compact_locked : co unit :=
  let* payload := gets (fun c => encode_SnapshotState (snapshot_state_locked c)) in
  write_snapshot_locked payload ;;
  rotate_journal_locked ;;
  modify (set_env (fun e =>
    set_stats (set_snapshot_stat (value (snapshot_sequence_ (store e)))) e)).

(** [if (store->should_compact()) compact_locked()]. *)
Definition compact_if_due : co unit :=
  let* due := gets (fun c => should_compact (store (env c))) in
  when due compact_locked.

(** ** Shared by replay and snapshot application *)
Definition apply_fence (fence : FenceMutation) (s : Sessions) : Sessions :=
  let s :=
    if claimant_wide fence && negb (is_nil (fm_claimant fence))
    then set_fenced_claimants (om_set (fenced_claimants s) (fm_claimant fence) fence) s else s in
  if negb (is_nil (fm_boot fence))
  then set_fenced_boots (om_set (fenced_boots s) (fm_boot fence) fence) s else s.

Definition apply_claimant (m : ClaimantMutation) (s : Sessions) : Sessions :=
  match om_find (claimants s) (cm_claimant m) with
  | Some known =>
      if value (cm_generation m) >? value known
      then set_claimants (om_set (claimants s) (cm_claimant m) (cm_generation m)) s else s
  | None => set_claimants (om_set (claimants s) (cm_claimant m) (cm_generation m)) s
  end.

Definition apply_overcommit (m : OvercommitMutation) (s : Sessions) : Sessions :=
  set_overcommit (om_set (overcommit s) (om_resource m) (mkOvercommitState m (resolved m))) s.

(** A series generation and, when it is later, the current one. *)
Definition apply_series (s : ReservationSeries) (b : Book) : Book :=
  let b := set_series (om_set (series_records b) (rs_id s, rs_generation s) s) b in
  match om_find (current_series b) (rs_id s) with
  | Some known =>
      if value (rs_generation s) >? value known
      then set_current_series (om_set (current_series b) (rs_id s) (rs_generation s)) b else b
  | None => set_current_series (om_set (current_series b) (rs_id s) (rs_generation s)) b
  end.

(** ** [apply_snapshot_locked] *)

(** The latest ingestion instant so far and the tables. *)
Definition apply_capacity_entry (acc : Timestamp * Tables) (item : SnapshotCapacityEntry) :
    Timestamp * Tables :=
  let '(best, t) := acc in
  let t := set_ledger (CapacityLedger_inject (ledger t)
    (mkCapacityEntry (sce_capacity item) (sce_snapshot item) (sce_ingested_at item)
       (sce_withdrawn item) (sce_withdrawn_at item) (sce_prior_generations item))) t in
  if negb (ts_lt (sce_ingested_at item) best)
  then (sce_ingested_at item, set_last_capacity (sce_snapshot item) (mkCounter 0) t)
  else (best, t).

Definition apply_path_entry (t : Tables) (item : SnapshotPathEntry) : Tables :=
  set_last_path (spe_snapshot item) (last_path_generation t)
    (set_paths (PathAuthorityTable_inject (paths t)
       (mkPathEntry (spe_path item) (spe_snapshot item) (spe_ingested_at item) (spe_retired item)
          (spe_prior_generations item))) t).

Definition apply_policy_entry (t : Tables) (item : SnapshotPolicyEntry) : Tables :=
  set_policies (PolicyRegistry_inject (policies t)
    (mkPolicyEntry (spo_record item) (spo_prior_generations item) (spo_ingested_at item))) t.

Definition apply_snapshot_tables (state : SnapshotState) (t : Tables) : Tables :=
  let t := set_policies [] (set_paths [] (set_ledger [] t)) in
  let '(_, t) := fold_left apply_capacity_entry (ss_capacity state) (mkTs 0, t) in
  let t := fold_left apply_path_entry (ss_paths state) t in
  fold_left apply_policy_entry (ss_policies state) t.

(** Register a record and schedule it. *)
Definition enter_record (b : Book) (r : ReservationRecord) : Book :=
  sync_queues r (register_record r b).

Definition archive_record (b : Book) (r : ReservationRecord) : Book :=
  register_record r (set_retired (om_set (retired b) (rr_id r) r) b).

Definition apply_snapshot_book (state : SnapshotState) (b : Book) : Book :=
  let b := fold_left enter_record (ss_reservations state) b in
  let b := fold_left (fun b s => apply_series s b) (ss_series state) b in
  let b := set_edges (ss_edges state) b in
  fold_left archive_record (ss_retired state) b.

Definition apply_snapshot_sessions (bound : Z) (state : SnapshotState) (s : Sessions) : Sessions :=
  let s := fold_left (fun s a => remember_attempt bound a s) (ss_attempts state) s in
  let s := fold_left (fun s f => apply_fence f s) (ss_fences state) s in
  let s := fold_left (fun s m => apply_claimant m s) (ss_claimants state) s in
  fold_left (fun s m => apply_overcommit m s) (ss_overcommits state) s.

Definition set_epoch (epoch : FabricEpoch) (c : Coordinator) : Coordinator :=
  set_env (fun e =>
    set_incarnation (mkCoordinatorIncarnation (ci_boot (incarnation e)) epoch
                       (ci_sequence (incarnation e)) (ci_store (incarnation e))) e) c.

Definition apply_snapshot_locked (state : SnapshotState) (c : Coordinator) : Coordinator :=
  let c := set_tables (apply_snapshot_tables state) c in
  let c := set_epoch (ss_epoch state) c in
  let c := set_book (apply_snapshot_book state) c in
  set_sessions (apply_snapshot_sessions (max_attempts (config (env c))) state) c.

(** ** [apply_replay_locked] *)
Definition on_ledger (f : CapacityLedger -> Result CapacityLedger) : co unit := fun c =>
  match f (ledger (tables c)) with
  | Ok l => (Ok tt, set_tables (set_ledger l) c)
  | Err e => (Err e, c)
  end.

Definition drop_changed {A B} (r : Result (A * B)) : Result B := let? (_, b) := r in Ok b.

Definition replay_capacity (m : CapacityMutation) : co unit :=
  let snapshot := cpm_snapshot m in
  for_each (cs_resources snapshot) (fun capacity =>
    on_ledger (fun l =>
      drop_changed (CapacityLedger_apply l capacity (cs_id snapshot) (cs_ingested_at snapshot)))) ;;
  for_each (withdrawals m) (fun name =>
    on_ledger (fun l =>
      match CapacityLedger_withdraw l name (cs_ingested_at snapshot) with
      | Err e => if beq e kNotFound then Ok l else Err e
      | Ok l => Ok l
      end)) ;;
  modify (set_tables (set_last_capacity (cs_id snapshot) (cs_generation snapshot))).

Definition replay_paths (snapshot : PathAuthoritySnapshot) : co unit :=
  for_each (ps_paths snapshot) (fun p => fun c =>
    match drop_changed
            (PathAuthorityTable_apply (paths (tables c)) p (ps_id snapshot) (ps_ingested_at snapshot)) with
    | Ok t => (Ok tt, set_tables (set_paths t) c)
    | Err e => (Err e, c)
    end) ;;
  modify (set_tables (set_last_path (ps_id snapshot) (ps_generation snapshot))).

Definition replay_policy (record : PolicyRecord) : co unit := fun c =>
  match drop_changed (PolicyRegistry_apply (policies (tables c)) record) with
  | Ok t => (Ok tt, set_tables (set_policies t) c)
  | Err e => (Err e, c)
  end.

(** A state change of the record a mutation names, which must exist. *)
Definition replay_state (id : Identity128) (generation : ReservationGeneration)
    (recall_at : Timestamp) (state : ReservationState) (at_ : Timestamp) (why : bytes)
    (provenance : ReservationRecord -> Provenance) : co unit :=
  let* found := gets (fun c => find_record_locked c id generation) in
  match found with
  | None => fail kCorrupt
  | Some target =>
      let target := if ns recall_at >? 0 then with_recall target recall_at else target in
      let* target := set_state_locked target state at_ why (provenance target) in
      sync_queues_locked target
  end.

Definition replay_attempt (a : option AttemptMutation) : co unit :=
  match a with Some a => remember_attempt_locked a | None => ret tt end.

Definition replay_reservation (m : ReservationMutation) : co unit :=
  let record := rm_record m in
  when (supersede_record m)
    (replay_state (rr_predecessor record) (rr_predecessor_generation record) (mkTs 0) kSuperseded
       (committed_at record) (str "superseded by a later generation") rr_last_provenance) ;;
  modify (set_book (fun b =>
    let b := match rm_edge m with Some edge => set_edges (edges b ++ [edge]) b | None => b end in
    let b := fold_left enter_record (record :: rm_members m) b in
    match rm_series m with Some s => apply_series s b | None => b end)) ;;
  for_each (companions m) (fun s =>
    replay_state (sm_id s) (sm_generation s) (mkTs 0) (to_state s) (sm_at s) (sm_reason s)
      (fun _ => sm_provenance s)) ;;
  replay_attempt (rm_attempt m).

Definition replay_applicability (m : ApplicabilityMutation) : co unit :=
  let* found := gets (fun c => find_record_locked c (apm_id m) (apm_generation m)) in
  match found with
  | None => fail kCorrupt
  | Some target =>
      modify (set_book (put_record
        (with_applicability target (apm_applicability m) (apm_reason m) (apm_at m))))
  end.

(** Move a terminal record to the archive. *)
Definition retire_key (archive : ReservationRecord -> ReservationRecord) (b : Book)
    (key : ReservationKey) : Book :=
  match om_find (records b) key with
  | None => b
  | Some r =>
      let b := set_retired (om_set (retired b) key.1 (archive r)) b in
      let b := set_records (om_erase (records b) key) b in
      set_counts (live_count b) (pred_count (history_count b)) b
  end.

Definition apply_replay_locked (record : DurableRecord) : co unit :=
  match record with
  | DFabricBoot m => fun c =>
      (Ok tt, if value (em_epoch m) >? value (ci_epoch (incarnation (env c)))
              then set_epoch (em_epoch m) c else c)
  | DCapacitySnapshot m => replay_capacity m
  | DPathSnapshot snapshot => replay_paths snapshot
  | DPolicyRecord r => replay_policy r
  | DReservationCommit m | DReservationAmend m | DReservationSeries m => replay_reservation m
  | DReservationState m =>
      replay_state (sm_id m) (sm_generation m) (sm_recall_effective_at m) (to_state m) (sm_at m)
        (sm_reason m) (fun _ => sm_provenance m) ;;
      replay_attempt (sm_attempt m)
  | DReservationApplicability m => replay_applicability m
  | DAttemptOutcome a => remember_attempt_locked a
  | DFence f => modify (set_sessions (apply_fence f))
  | DClaimantRegistration m => modify (set_sessions (apply_claimant m))
  | DOvercommit m => modify (set_sessions (apply_overcommit m))
  | DRetire m =>
      modify (set_book (fun b =>
        fold_left (retire_key (fun r => r)) (combine (rt_ids m) (rt_generations m)) b))
  end.
