(* ===== verification/CoordAssess.v ===== *)
(** * Coordinator: binding resolution and the closure evaluation

    The first part of [src/coordinator_admission.cpp]: what a request binds to,
    whether the bound resources close over the requested amount, and which
    holders a policy lets it displace. *)
From S2P Require Import Prelude Errors Containers Identity Hash Bandwidth Time Authority Wire Policy Capacity Reservation Outcome SegTree Index Durable CodecBase Codec Store Coordinator CoordRecords.

(** ** Values the code default-constructs *)
Definition ts0 : Timestamp := mkTs 0.
Definition bw0 : Bandwidth := mkBandwidth 0.
Definition no_recurrence : RecurrenceSpec := mkRecurrenceSpec false (mkDur 0) 1.
Definition default_terms : ReservationTerms :=
  mkReservationTerms nil_id (mkCounter 0) kResources [] empty_name (mkCounter 0) (mkInterval ts0 ts0)
    bw0 None None kGuaranteed 0 false false (mkDur 0) bw0 empty_name [] no_recurrence.
Definition default_provenance : Provenance :=
  mkProvenance empty_name nil_id nil_id nil_id nil_id (mkCounter 0) nil_id ts0 (mkCounter 0) [].
Definition default_authority : AuthorityVector :=
  mkAuthorityVector (mkCounter 0) (mkCounter 0) nil_id (mkCounter 0) nil_id (mkCounter 0) empty_name
    (mkCounter 0) (mkCounter 0) [] [].
Definition default_record : ReservationRecord :=
  mkReservationRecord nil_id (mkCounter 0) false nil_id (mkCounter 0) default_terms default_authority
    kDeclared ap_kCurrent ar_kCurrent ts0 ts0 ts0 ts0 ts0 (mkDur 0) ts0 nil_id (mkCounter 0) []
    default_provenance (mkCounter 0).
Definition default_conflicts : ConflictSet := mkConflictSet [] 0 0 false.

(** ** Binding resolution *)
Record ResolvedBinding := mkResolvedBinding {
  rb_kind : BindingKind;
  rb_path : PathName;
  rb_path_generation : PathAuthorityGeneration;
  rb_resources : list ResourceRef;
  rb_failure_domains : list FailureDomainRef }.

(** The loop over resource names: each must have live capacity; the failure
    domains it belongs to come along.  [kStaleGeneration] either way. *)
Fixpoint bind_resources (l : CapacityLedger) (names : list ResourceName) :
    Result (list ResourceRef * list FailureDomainRef) :=
  match names with
  | [] => Ok ([], [])
  | name :: names =>
      match CapacityLedger_find l name with
      | None => Err kStaleGeneration
      | Some entry =>
          refuse_if ce_withdrawn entry with kStaleGeneration in
          let? (refs, domains) := bind_resources l names in
          Ok (mkResourceRef name (rc_generation (ce_capacity entry)) :: refs,
              if name_empty (failure_domain (ce_capacity entry)) then domains
              else mkFailureDomainRef (failure_domain (ce_capacity entry))
                     (failure_domain_generation (ce_capacity entry)) :: domains)
      end
  end.

(** The path and its generation, and the names it stands for. *)
Definition bind_path (t : Tables) (terms : ReservationTerms) :
    Result (PathName * PathAuthorityGeneration * list ResourceName) :=
  match binding_kind terms with
  | kResources => Ok (empty_name, mkCounter 0, resources terms)
  | kPath =>
      match PathAuthorityTable_find (paths t) (path terms) with
      | None => Err kStaleGeneration
      | Some entry =>
          refuse_if pt_retired entry with kStaleGeneration in
          refuse_if negb (value (required_path_generation terms) =? 0) &&
                    negb (beq (pa_generation (pt_path entry)) (required_path_generation terms))
            with kStaleGeneration in
          Ok (path terms, pa_generation (pt_path entry), pa_components (pt_path entry))
      end
  end.

Definition resolve_binding (t : Tables) (terms : ReservationTerms) : Result ResolvedBinding :=
  let? (p, generation, names) := bind_path t terms in
  let? (refs, domains) := bind_resources (ledger t) names in
  let? refs := canonicalize_resources refs in
  let? domains := canonicalize_failure_domains domains in
  Ok (mkResolvedBinding (binding_kind terms) p generation refs domains).

Definition resolve_binding_locked (terms : ReservationTerms) : co ResolvedBinding := fun c =>
  (resolve_binding (tables c) terms, c).

(** ** Evaluation *)
Definition window_text (window : Interval) : bytes :=
  str "[" ++ format_timestamp (start window) ++ str "," ++ format_timestamp (end_ window) ++ str ")".

Record Assessment := mkAssessment {
  as_outcome : AdmissionOutcome;
  as_explanation : bytes;
  deltas : list CapabilityDelta;
  as_conflicts : ConflictSet;
  victims : list Identity128;
  victim_generations : list ReservationGeneration;
  as_preemption_planned : bool;
  as_reason : ApplicabilityReason }.

Definition default_assessment : Assessment :=
  mkAssessment ao_kCommittable [] [] default_conflicts [] [] false ar_kCurrent.

(** The locals of [assess_locked] that its loop over the bound resources
    updates. *)
Record Findings := mkFindings {
  fd_deltas : list CapabilityDelta;
  short_capacity : bool;
  stale : bool;
  policy_rejected : bool;
  emergency : bool;
  first_problem : bytes;
  fd_reason : ApplicabilityReason;
  short_resources : list ResourceName }.

(** [if (first_problem.empty()) first_problem = text]. *)
Definition first_of (problem text : bytes) : bytes := match problem with [] => text | _ => problem end.

(** The path check before the loop: the problem, if the path authority moved. *)
Definition path_problem (t : Tables) (terms : ReservationTerms) (binding : ResolvedBinding) :
    option bytes :=
  match binding_kind terms with
  | kResources => None
  | kPath =>
      match PathAuthorityTable_find (paths t) (path terms) with
      | None => Some (str "path '" ++ name_view (path terms) ++ str "' has no current authority")
      | Some entry =>
          if pt_retired entry then
            Some (str "path '" ++ name_view (path terms) ++ str "' is retired")
          else if negb (beq (pa_generation (pt_path entry)) (rb_path_generation binding)) then
            Some (str "path '" ++ name_view (path terms) ++ str "' moved authority generation")
          else None
      end
  end.

(** A delta that carries no figures: the generation is not live. *)
Definition bare_delta (ref : ResourceRef) (window : Interval) : CapabilityDelta :=
  mkCapabilityDelta (resource ref) (res_generation ref) bw0 bw0 bw0 bw0 bw0 bw0 bw0 window false false.

Definition stale_finding (f : Findings) (ref : ResourceRef) (window : Interval)
    (why : ApplicabilityReason) (text : bytes) : Findings :=
  mkFindings (fd_deltas f ++ [bare_delta ref window]) (short_capacity f) true (policy_rejected f)
    (emergency f) (first_of (first_problem f) text) why (short_resources f).

(** [reservable - (protected + policy + requested headroom)], never negative. *)
Definition required_ceiling (capacity : ResourceCapacity) (pol : PolicyRecord)
    (terms : ReservationTerms) : Bandwidth :=
  let required_headroom :=
    bps (protected_headroom capacity) + bps (policy_headroom pol) + bps (headroom_requirement terms) in
  let ceiling_raw := bps (reservable_capacity capacity) - required_headroom in
  mkBandwidth (if ceiling_raw >? 0 then ceiling_raw else 0).

Definition unresolved_overcommit (s : Sessions) (name : ResourceName) : bool :=
  match om_find (overcommit s) name with Some state => negb (oc_resolved state) | None => false end.

(** Whether the amount does not fit under the ceiling, with the allowance of the
    policy where it has one. *)
Definition exceeds (pol : PolicyRecord) (ceiling after : Z) : bool :=
  (after >? ceiling) &&
  negb (allow_overcommit pol && (after <=? ceiling + bps (overcommit_allowance pol))).

(** One turn of the loop, for a resource whose bound generation is live. *)
Definition assess_live (c : Coordinator) (terms : ReservationTerms) (pol : PolicyRecord)
    (capacity : ResourceCapacity) (f : Findings) (ref : ResourceRef) : Findings :=
  let window := interval terms in
  let name := resource ref in
  let ceiling := required_ceiling capacity pol terms in
  let combined := peak_combined (index c) name window in
  let after := saturating_add_bandwidth combined (amount terms) in
  let remaining := bps ceiling - bps after in
  let unresolved := unresolved_overcommit (sessions c) name in
  let blocked := unresolved && negb (allow_overcommit pol) in
  let problem :=
    if blocked then
      first_of (first_problem f)
        (str "resource '" ++ name_view name ++
         str "' is in an emergency overcommit state pending policy resolution")
    else first_problem f in
  let maintained := find (fun w => overlaps (mw_interval w) window) (maintenance capacity) in
  let problem :=
    match maintained with
    | Some w => first_of problem (str "resource '" ++ name_view name ++
                  str "' is under maintenance during " ++ window_text (mw_interval w))
    | None => problem
    end in
  let under_maintenance := match maintained with Some _ => true | None => false end in
  let short := exceeds pol (bps ceiling) (bps after) in
  mkFindings
    (fd_deltas f ++
     [mkCapabilityDelta name (res_generation ref) (reservable_capacity capacity)
        (protected_headroom capacity) ceiling (peak_committed (index c) name window) after
        (peak_holds (index c) name window)
        (mkBandwidth (if remaining >? 0 then remaining else 0)) window under_maintenance unresolved])
    (short_capacity f || short) (stale f) (policy_rejected f || under_maintenance)
    (emergency f || blocked) problem
    (if under_maintenance then ar_kMaintenanceWindowAdded else fd_reason f)
    (if short then short_resources f ++ [name] else short_resources f).

Definition assess_resource (c : Coordinator) (terms : ReservationTerms) (pol : PolicyRecord)
    (f : Findings) (ref : ResourceRef) : Findings :=
  match CapacityLedger_find (ledger (tables c)) (resource ref) with
  | None =>
      stale_finding f ref (interval terms) ar_kResourceWithdrawn
        (str "resource '" ++ name_view (resource ref) ++ str "' is withdrawn or unknown")
  | Some entry =>
      if ce_withdrawn entry then
        stale_finding f ref (interval terms) ar_kResourceWithdrawn
          (str "resource '" ++ name_view (resource ref) ++ str "' is withdrawn or unknown")
      else if negb (beq (rc_generation (ce_capacity entry)) (res_generation ref)) then
        stale_finding f ref (interval terms) ar_kResourceGenerationChanged
          (str "resource '" ++ name_view (resource ref) ++ str "' moved from generation " ++
           counter_to_string (res_generation ref) ++ str " to " ++
           counter_to_string (rc_generation (ce_capacity entry)))
      else assess_live c terms pol (ce_capacity entry) f ref
  end.

(** ** The conflict set of a shortage *)
Definition conflict_of (e : IndexEntry) : ConflictEntry :=
  mkConflictEntry (ie_id e) (mkCounter (holder_generation e)) (ie_resource e) (ie_interval e)
    (ie_amount e) (ie_guarantee e) (ie_state e) (beq (ie_kind e) kHold).

Definition collect_conflicts (c : Coordinator) (window : Interval) (max_conflicts : Z)
    (s : ConflictSet) (name : ResourceName) : ConflictSet :=
  let '(overlaps, total, truncated) :=
    index_overlapping (index c) name window max_conflicts (index_scan_limit (config (env c))) in
  mkConflictSet (cf_entries s ++ map conflict_of overlaps) (to_u 64 (total_considered s + total))
    (if truncated then scan_limit_hit s + 1 else scan_limit_hit s) (cf_truncated s || truncated).

Definition conflict_lt (a b : ConflictEntry) : bool :=
  kltb (cf_id a, (cf_generation a, cf_resource a)) (cf_id b, (cf_generation b, cf_resource b)).

Definition conflict_set (c : Coordinator) (window : Interval) (max_conflicts : Z)
    (names : list ResourceName) : ConflictSet :=
  let s := fold_left (collect_conflicts c window max_conflicts) names default_conflicts in
  let entries := sort conflict_lt (cf_entries s) in
  if Z.of_nat (length entries) >? max_conflicts then
    mkConflictSet (firstn (Z.to_nat max_conflicts) entries) (total_considered s) (scan_limit_hit s) true
  else mkConflictSet entries (total_considered s) (scan_limit_hit s) (cf_truncated s).

(** ** Explanations *)
Definition shortage_text (terms : ReservationTerms) (names : list ResourceName) (s : ConflictSet) :
    bytes :=
  str "INSUFFICIENT_CAPACITY: resource=" ++ name_view (hd empty_name names) ++ str " window=" ++
  window_text (interval terms) ++ str " amount=" ++ format_bandwidth (amount terms) ++
  str " conflicts=" ++ to_decimal (total_considered s) ++
  (if cf_truncated s then str " (conflict set truncated)" else []).

Definition delta_text (d : CapabilityDelta) : bytes :=
  str " | " ++ name_view (cd_resource d) ++ str ":" ++ counter_to_string (cd_generation d) ++
  str " ceiling=" ++ format_bandwidth (cd_committable_ceiling d) ++
  str " before=" ++ format_bandwidth (committed_peak_before d) ++
  str " holds=" ++ format_bandwidth (cd_holds_peak d) ++
  str " after=" ++ format_bandwidth (committed_peak_after d) ++
  str " remaining=" ++ format_bandwidth (remaining_after d).

Definition committable_text (terms : ReservationTerms) (ds : list CapabilityDelta) : bytes :=
  str "COMMITTABLE window=" ++ window_text (interval terms) ++ str " amount=" ++
  format_bandwidth (amount terms) ++ flat_map delta_text ds.

(** [if (text.size() > max) text.resize(max)]. *)
Definition resize_to (max_bytes : Z) (text : bytes) : bytes := firstn (Z.to_nat max_bytes) text.

(** ** [assess_locked] *)
Definition assess_locked (c : Coordinator) (terms : ReservationTerms) (binding : ResolvedBinding)
    (pol : PolicyRecord) (conflict_bound explanation_bound : Z) : Assessment :=
  let max_conflicts := if conflict_bound =? 0 then max_conflict_set pol else conflict_bound in
  let max_explanation :=
    if explanation_bound =? 0 then max_explanation_bytes pol else explanation_bound in
  let moved := path_problem (tables c) terms binding in
  let f := fold_left (assess_resource c terms pol) (rb_resources binding)
             (mkFindings [] false false false false (default [] moved) ar_kCurrent []) in
  let ds := sort (fun a b => kltb (cd_resource a) (cd_resource b)) (fd_deltas f) in
  let refused outcome prefix why :=
    mkAssessment outcome (str prefix ++ first_problem f) ds default_conflicts [] [] false why in
  if bool_decide (is_Some moved) then
    refused ao_kStalePathAuthority "STALE_PATH_AUTHORITY: "%string ar_kPathGenerationChanged
  else if stale f then refused ao_kStaleResource "STALE_RESOURCE: "%string (fd_reason f)
  else if policy_rejected f then refused ao_kPolicyRejected "POLICY_REJECTED: "%string (fd_reason f)
  else if emergency f then
    refused ao_kEmergencyOvercommit "EMERGENCY_OVERCOMMIT: "%string ar_kCurrent
  else if short_capacity f then
    let s := conflict_set c (interval terms) max_conflicts (short_resources f) in
    mkAssessment ao_kInsufficientCapacity
      (resize_to max_explanation (shortage_text terms (short_resources f) s)) ds s [] [] false
      ar_kCurrent
  else
    mkAssessment ao_kCommittable (resize_to max_explanation (committable_text terms ds)) ds
      default_conflicts [] [] false ar_kCurrent.

(** The bounds every caller but the explanation query passes. *)
Definition assess (c : Coordinator) (terms : ReservationTerms) (binding : ResolvedBinding)
    (pol : PolicyRecord) : Assessment :=
  assess_locked c terms binding pol (max_conflict_set pol) (max_explanation_bytes pol).

(** [to_admission_report] and [to_report]. *)
Definition to_admission_report (a : Assessment) : AdmissionReport :=
  mkAdmissionReport (as_outcome a) (as_explanation a) (deltas a) (as_conflicts a) (victims a)
    (victim_generations a) (as_preemption_planned a) (as_reason a).

(** ** Preemption candidates *)
Definition guarantee_lt (a b : GuaranteeClass) : bool := GuaranteeClass_to_Z a <? GuaranteeClass_to_Z b.

(** Weakest class first, then identity, then generation. *)
Definition displacement_lt (a b : IndexEntry) : bool :=
  kltb (GuaranteeClass_to_Z (ie_guarantee a), (ie_id a, holder_generation a))
       (GuaranteeClass_to_Z (ie_guarantee b), (ie_id b, holder_generation b)).

Definition same_generation (a b : IndexEntry) : bool :=
  beq (ie_id a) (ie_id b) && (holder_generation a =? holder_generation b).

(** Whether a policy lets [requester] displace the entry. *)
Definition displaceable (requester : GuaranteeClass) (pol : PolicyRecord) (self : Identity128)
    (e : IndexEntry) : bool :=
  beq (ie_kind e) kReservation && negb (beq (ie_id e) self) &&
  guarantee_lt (ie_guarantee e) requester &&
  negb (beq (ie_guarantee e) kGuaranteed && negb (allow_recall_guaranteed pol)) &&
  negb (beq (ie_guarantee e) kProtected && negb (allow_recall_protected pol)).

Definition preemption_candidates_locked (c : Coordinator) (name : ResourceName) (window : Interval)
    (requester : GuaranteeClass) (pol : PolicyRecord) (self : Identity128) : list IndexEntry :=
  let limit := index_scan_limit (config (env c)) in
  let '(overlaps, _, _) := index_overlapping (index c) name window limit limit in
  unique_by same_generation
    (sort displacement_lt (List.filter (displaceable requester pol self) overlaps)).
