(* ===== verification/CoordLifecycle.v ===== *)
(** * Coordinator: lifecycle

    [src/coordinator_lifecycle.cpp]: transitions, time reconciliation, history
    retirement, the degraded capacity state, applicability and revalidation, and
    the explicit lifecycle operations. *)
From S2P Require Import Prelude Errors Containers Identity Hash Bandwidth Time Authority Wire Policy Capacity Reservation Outcome SegTree Index Durable CodecBase Codec Store Coordinator CoordRecords CoordPersist CoordAssess.

Definition commits_as_active (now : Timestamp) (window : Interval) : bool :=
  negb (ts_lt now (start window)) && ts_lt now (end_ window).

(** ** Transitions *)

(** The attempt a caller's transition is journalled with. *)
Definition state_attempt (context : RequestContext) (record : ReservationRecord)
    (target : ReservationState) (at_ : Timestamp) : AttemptMutation :=
  mkAttemptMutation (rq_attempt context)
    (fingerprint128 (str "state|" ++ to_hex (rr_id record) ++ str "|" ++
                     to_decimal (value (rr_generation record)) ++ str "|" ++
                     to_decimal (ReservationState_to_Z target)))
    ao_kCommittable (rr_id record) (rr_generation record) (mkCounter 0) (claimant (terms record)) at_.

Definition with_result_sequence (a : AttemptMutation) (s : DurableSequence) : AttemptMutation :=
  mkAttemptMutation (at_attempt a) (fingerprint a) (at_outcome a) (at_reservation a) (at_generation a)
    s (at_claimant a) (at_at a).

(** The durable record of a transition; its provenance stays default. *)
Definition state_mutation (context : RequestContext) (record : ReservationRecord)
    (target : ReservationState) (at_ : Timestamp) (why : bytes) (recall_at : Timestamp) : StateMutation :=
  mkStateMutation (rr_id record) (rr_generation record) (rr_state record) target at_
    (sanitize_reason why) default_provenance recall_at
    (if is_nil (rq_attempt context) then None else Some (state_attempt context record target at_)).

(** The record in its new state, and the attempt to remember. *)
Definition transition_locked (record : ReservationRecord) (target : ReservationState)
    (at_ : Timestamp) (why : bytes) (context : RequestContext) (recall_at : Timestamp) :
    co (ReservationRecord * AttemptRecord) :=
  let* sequence := append_locked (DReservationState
    (state_mutation context record target at_ why recall_at)) in
  let* provenance := gets (fun c => make_provenance_locked c context sequence at_) in
  let moved := if ns recall_at >? 0 then with_recall record recall_at else record in
  let* after := set_state_locked moved target at_ why provenance in
  let after := with_sequence after sequence in
  modify (set_book (put_record after)) ;;
  (if beq target kRecallPending then update_index_locked after else sync_index_locked after) ;;
  sync_queues_locked after ;;
  ret (after, with_result_sequence (state_attempt context record target at_) sequence).

(** ** Time reconciliation *)

(** The keys of a queue that are due at [now]: the walk from the front. *)
Fixpoint due_keys (now : Timestamp) (q : list (Timestamp * ReservationKey)) : list ReservationKey :=
  match q with
  | (t, key) :: q => if ts_lt now t then [] else key :: due_keys now q
  | [] => []
  end.

Definition due_work (now : Timestamp) (b : Book) : list ReservationKey :=
  unique_by keqb (sort_keys (due_keys now (activation_queue b) ++ due_keys now (expiry_queue b) ++
                             due_keys now (recall_queue b))).

(** The context of the coordinator's own transitions: no attempt. *)
Definition internal_context (c : Coordinator) (why : bytes) : RequestContext :=
  let boot := ci_boot (incarnation (env c)) in
  mkRequestContext (mkName (str "brf-coordinator")) boot boot nil_id nil_id nil_id (mkCounter 0)
    (ci_epoch (incarnation (env c))) why.

Definition recall_due (now : Timestamp) (record : ReservationRecord) : bool :=
  beq (rr_state record) kRecallPending && (ns (rr_recall_effective_at record) >? 0) &&
  negb (ts_lt now (rr_recall_effective_at record)).

Definition count_revocation : co unit := bump n_recalls ;; bump n_revocations.

(** The end of the consuming interval is reached. *)
Definition expire_record (now : Timestamp) (context : RequestContext) (record : ReservationRecord) :
    co unit :=
  let window := consuming_interval record in
  if consumes record && (empty window || negb (ts_lt now (end_ window))) then
    if beq (rr_state record) kRecallPending then
      transition_locked record kRevoked now
        (str "recall effect reached at the committed interval end") context ts0 ;;
      count_revocation
    else
      transition_locked record kExpired now (str "committed interval elapsed") context ts0 ;;
      bump n_expiries
  else ret tt.

Definition settle_record (now : Timestamp) (context : RequestContext) (key : ReservationKey) : co unit :=
  let* found := gets (fun c => om_find (records (book c)) key) in
  match found with
  | None => ret tt
  | Some record =>
      if recall_due now record then
        transition_locked record kRevoked now (str "recall effect reached") context ts0 ;;
        count_revocation
      else
        let* record :=
          (if beq (rr_state record) kCommitted && commits_as_active now (interval (terms record)) then
             let* (active, _) :=
               transition_locked record kActive now (str "interval opened") context ts0 in
             ret active
           else ret record) in
        expire_record now context record
  end.

Definition expired_holds (now : Timestamp) (s : Sessions) : list Identity128 :=
  om_keys (List.filter (fun p => negb (released p.2) && negb (ts_lt now (expires_at p.2))) (holds s)).

Definition reconcile_locked (now : Timestamp) : co unit :=
  let* work := gets (fun c => due_work now (book c)) in
  let* context := gets (fun c => internal_context c (str "time reconciliation")) in
  for_each work (settle_record now context) ;;
  let* expired := gets (fun c => expired_holds now (sessions c)) in
  for_each expired (fun id => release_hold_locked id (str "hold deadline reached") false).

(** ** History *)
Definition kRetireBatch : Z := 64.

(** Terminal records, oldest sequence first. *)
Definition history_lt (a b : ReservationRecord) : bool :=
  kltb (rr_sequence a, key_of a) (rr_sequence b, key_of b).

Definition terminal_keys (b : Book) : list ReservationKey :=
  map key_of (sort history_lt
    (List.filter (fun r => is_terminal (rr_state r)) (om_values (records b)))).

(** What the archive keeps of a retired record. *)
Definition archived (now : Timestamp) (r : ReservationRecord) : ReservationRecord :=
  mkReservationRecord (rr_id r) (rr_generation r) (series_member r) (rr_series r) (series_index r)
    (terms r) (authority r) kRetired (rr_applicability r) (rr_applicability_reason r) (declared_at r)
    (committed_at r) (activated_at r) now (rr_recall_effective_at r) (recall_grace r)
    (terminated_at r) (rr_predecessor r) (rr_predecessor_generation r)
    (str "retired from live history into the archival record set") (rr_last_provenance r)
    (rr_sequence r).

Definition release_terminal_history_locked (now : Timestamp) : co unit :=
  let* b := gets book in
  let* bound := gets (fun c => max_history_records (config (env c))) in
  let batch := Z.min (history_count b - bound) kRetireBatch in
  let victims := firstn (Z.to_nat batch) (terminal_keys b) in
  if (history_count b <=? bound) || (Z.of_nat (length victims) =? 0) then ret tt
  else
    append_locked (DRetire (mkRetireMutation (map fst victims) (map snd victims) now)) ;;
    modify (set_book (fun b => fold_left (retire_key (archived now)) victims b)).

(** ** Degraded capacity state *)
Definition all_time : Interval := mkInterval ts0 (mkTs kMaxTimestampNs).

Definition entry_ceiling (entry : CapacityEntry) : Bandwidth :=
  if ce_withdrawn entry then bw0 else committable_ceiling (ce_capacity entry).

(** The record is bound to the resource and at least one of its bound
    generations is not live. *)
Definition stale_obligation (l : CapacityLedger) (name : ResourceName) (record : ReservationRecord) :
    bool :=
  consumes record &&
  existsb (fun ref => beq (resource ref) name) (av_resources (authority record)) &&
  negb (forallb (CapacityLedger_is_current l) (av_resources (authority record))).

Definition outstanding_records (c : Coordinator) (name : ResourceName) : list ReservationRecord :=
  List.filter (fun r => stale_obligation (ledger (tables c)) name r && negb (empty (consuming_interval r)))
    (om_values (records (book c))).

Definition obligation_peak (c : Coordinator) (name : ResourceName) : Bandwidth :=
  let peak := peak_committed (index c) name all_time in
  match outstanding_records c name with
  | [] => peak
  | stale =>
      let outstanding :=
        fold_left (fun x r => ici_add x (consuming_interval r) (amount (terms r))) stale ici_new in
      let stale_peak := ici_peak outstanding all_time in
      if bps stale_peak >? bps peak then stale_peak else peak
  end.

Definition record_overcommit (m : OvercommitMutation) : co unit :=
  append_locked (DOvercommit m) ;;
  modify (set_sessions (apply_overcommit m)).

Definition detect_overcommit_locked (name : ResourceName) (now : Timestamp) : co unit :=
  let* found := gets (fun c => CapacityLedger_find (ledger (tables c)) name) in
  match found with
  | None => ret tt
  | Some entry =>
      let ceiling := entry_ceiling entry in
      let* peak := gets (fun c => obligation_peak c name) in
      let over := bps peak >? bps ceiling in
      let* unresolved := gets (fun c => unresolved_overcommit (sessions c) name) in
      let mutation done :=
        mkOvercommitMutation name (rc_generation (ce_capacity entry)) peak ceiling all_time now done in
      if negb over then when unresolved (record_overcommit (mutation true))
      else if unresolved then ret tt
      else record_overcommit (mutation false) ;; bump n_overcommit_events
  end.

(** ** Applicability *)

(** The first of the bound resources that is not live. *)
Fixpoint stale_resource (l : CapacityLedger) (refs : list ResourceRef) : option ApplicabilityReason :=
  match refs with
  | [] => None
  | ref :: refs =>
      match CapacityLedger_find l (resource ref) with
      | None => Some ar_kResourceWithdrawn
      | Some entry =>
          if ce_withdrawn entry then Some ar_kResourceWithdrawn
          else if negb (beq (rc_generation (ce_capacity entry)) (res_generation ref))
          then Some ar_kResourceGenerationChanged
          else stale_resource l refs
      end
  end.

Definition stale_path (t : PathAuthorityTable) (record : ReservationRecord) : option ApplicabilityReason :=
  if value (path_generation (authority record)) =? 0 then None
  else
    match PathAuthorityTable_find t (path (terms record)) with
    | None => Some ar_kPathRetired
    | Some entry =>
        if pt_retired entry then Some ar_kPathRetired
        else if negb (beq (pa_generation (pt_path entry)) (path_generation (authority record)))
        then Some ar_kPathGenerationChanged
        else None
    end.

(** Why the authority of a record is no longer current, if it is not. *)
Definition staleness (t : Tables) (record : ReservationRecord) : option ApplicabilityReason :=
  match stale_resource (ledger t) (av_resources (authority record)) with
  | Some why => Some why
  | None =>
      match stale_path (paths t) record with
      | Some why => Some why
      | None =>
          if forallb (is_current_failure_domain (ledger t)) (av_failure_domains (authority record))
          then None else Some ar_kFailureDomainGenerationChanged
      end
  end.

(** ** Revalidation *)

(** The successor generation under the authority of this instant. *)
Definition revalidated (c : Coordinator) (record : ReservationRecord) (binding : ResolvedBinding)
    (pol : PolicyRecord) (now : Timestamp) (provenance : Provenance) (sequence : DurableSequence) :
    ReservationRecord :=
  let generation := mkCounter (to_u 64 (value (rr_generation record) + 1)) in
  let state := if commits_as_active now (interval (terms record)) then kActive else kCommitted in
  mkReservationRecord (rr_id record) generation (series_member record) (rr_series record)
    (series_index record) (terms record)
    (mkAuthorityVector (ci_epoch (incarnation (env c))) generation (claimant (terms record))
       (claimant_generation (terms record)) (last_capacity_snapshot (tables c))
       (last_capacity_generation (tables c)) (pr_name pol) (pr_generation pol)
       (rb_path_generation binding) (rb_resources binding) (rb_failure_domains binding))
    state ap_kCurrent ar_kCurrent (declared_at record) (committed_at record)
    (if beq state kActive && (ns (activated_at record) =? 0) then now else activated_at record)
    now (rr_recall_effective_at record) (recall_grace record) (terminated_at record) (rr_id record)
    (rr_generation record) (state_reason record) provenance sequence.

Definition edge_to (record successor : ReservationRecord) (now : Timestamp)
    (sequence : DurableSequence) (why : bytes) : SupersessionEdge :=
  mkSupersessionEdge (rr_id record) (rr_generation record) (rr_id successor) (rr_generation successor)
    now sequence why.

(** The sequence the next durable record is expected to get. *)
Definition predicted_sequence (c : Coordinator) : DurableSequence :=
  mkCounter (to_u 64 (value (last_sequence_ (store (env c))) + 1)).

(** Append a record whose sequence was predicted. *)
Definition append_predicted (record : DurableRecord) (predicted : DurableSequence) : co unit :=
  let* sequence := append_locked record in
  lift (refuse (negb (beq sequence predicted)) kInternal).

Definition revalidate_commit (record : ReservationRecord) (binding : ResolvedBinding)
    (pol : PolicyRecord) (now : Timestamp) (context : RequestContext) : co unit :=
  let* predicted := gets predicted_sequence in
  let* provenance := gets (fun c => make_provenance_locked c context predicted now) in
  let* successor := gets (fun c => revalidated c record binding pol now provenance predicted) in
  let edge := edge_to record successor now predicted
                (str "revalidated against authoritative generations") in
  append_predicted (DReservationAmend
    (mkReservationMutation successor None [] (Some edge) true [] None)) predicted ;;
  let* old := set_state_locked record kSuperseded now (str "superseded by revalidation") provenance in
  index_erase_locked old ;;
  sync_queues_locked old ;;
  modify (set_book (fun b => set_edges (edges b ++ [edge]) b)) ;;
  register_record_locked successor ;;
  sync_index_locked successor ;;
  sync_queues_locked successor ;;
  keep_suspension ;;
  bump n_revalidations.

(** A request that does not resolve or does not close leaves the record as it
    is, without an error. *)
Definition auto_revalidate_record_locked (record : ReservationRecord) (now : Timestamp)
    (context : RequestContext) : co unit :=
  let* resolved := gets (fun c => resolve_binding (tables c) (terms record)) in
  match resolved with
  | Err _ => ret tt
  | Ok binding =>
      let* (pol, _) := gets (fun c => policy_for_locked c
        (if name_empty (av_policy (authority record)) then policy (terms record)
         else av_policy (authority record))) in
      with_suspension (
        suspend record ;;
        let* assessment := gets (fun c => assess c (terms record) binding pol) in
        if beq (as_outcome assessment) ao_kCommittable
        then revalidate_commit record binding pol now context
        else ret tt)
  end.

(** One turn of the loop of [refresh_applicability_locked]. *)
Definition refresh_record (now : Timestamp) (auto_revalidate : bool) (key : ReservationKey) : co unit :=
  let* found := gets (fun c => om_find (records (book c)) key) in
  match found with
  | None => ret tt
  | Some record =>
      let* why := gets (fun c => staleness (tables c) record) in
      match why with
      | None =>
          when (negb (beq (rr_applicability record) ap_kCurrent))
            (mark_applicability_locked record ap_kCurrent ar_kCurrent now ;; ret tt)
      | Some why =>
          let* (pol, _) := gets (fun c => policy_for_locked c (av_policy (authority record))) in
          let attempted := auto_revalidate && auto_revalidate_on_generation_change pol in
          let* context := gets (fun c => internal_context c (str "policy-permitted revalidation")) in
          when attempted (auto_revalidate_record_locked record now context) ;;
          let* record := gets (fun c => deref c record) in
          if attempted && beq (rr_applicability record) ap_kCurrent then ret tt
          else mark_applicability_locked record ap_kRevalidationRequired why now ;; ret tt
      end
  end.

Definition refresh_applicability_locked (now : Timestamp) (auto_revalidate : bool) : co unit :=
  let* live := gets (fun c =>
    om_keys (List.filter (fun p => negb (is_terminal (rr_state p.2))) (records (book c)))) in
  for_each live (refresh_record now auto_revalidate).

(** ** Explicit lifecycle operations *)
Definition or_else (text fallback : bytes) : bytes := match text with [] => fallback | _ => text end.

(** The record a request names, which must exist. *)
Definition named_record (id : Identity128) (generation : ReservationGeneration) : co ReservationRecord :=
  let* found := gets (fun c => find_record_locked c id generation) in
  match found with None => fail kNotFound | Some record => ret record end.

(** Reconcile, then read the record again. *)
Definition reconcile_then (now : Timestamp) (record : ReservationRecord) : co ReservationRecord :=
  reconcile_locked now ;; gets (fun c => deref c record).

Definition unchanged_result (record : ReservationRecord) : LifecycleResult :=
  mkLifecycleResult record true 0.
Definition moved_result (record : ReservationRecord) : LifecycleResult :=
  mkLifecycleResult record false 1.

(** A transition a caller asked for, and its attempt remembered. *)
Definition caller_transition (record : ReservationRecord) (target : ReservationState)
    (now : Timestamp) (fallback : bytes) (context : RequestContext) (recall_at : Timestamp) :
    co ReservationRecord :=
  let* (after, attempt) :=
    transition_locked record target now (or_else (rq_reason context) fallback) context recall_at in
  remember_attempt_locked attempt ;;
  ret after.

Definition release_locked (context : RequestContext) (id : Identity128)
    (generation : ReservationGeneration) : co LifecycleResult :=
  let* now := now_locked in
  check_context context true ;;
  let* record := named_record id generation in
  reject_if negb (is_nil (rq_claimant context)) &&
            negb (beq (rq_claimant context) (claimant (terms record))) with kAuthorityRequired in
  when (negb (is_nil (rq_claimant context)))
    (ensure_claimant_locked (rq_claimant context) (rq_claimant_generation context) now) ;;
  let* record := reconcile_then now record in
  if beq (rr_state record) kReleased then ret (unchanged_result record)
  else
    reject_if is_terminal (rr_state record) with kIllegalTransition in
    let* after := caller_transition record kReleased now (str "released by claimant") context ts0 in
    bump n_releases ;;
    ret (moved_result after).

(** Whether contract or policy lets a reservation be recalled. *)
Definition recallable (pol : PolicyRecord) (t : ReservationTerms) : bool :=
  match guarantee t with
  | kScavenger | kPreemptible => true
  | kProtected => allow_recall_protected pol || recall_permitted t
  | kGuaranteed => allow_recall_guaranteed pol || recall_permitted t
  end.

(** The record a recall leaves pending, with its grace and its entries over the
    shortened interval. *)
Definition pend_recall (record : ReservationRecord) (now effect : Timestamp) (g : Duration)
    (context : RequestContext) : co ReservationRecord :=
  let* (after, attempt) :=
    transition_locked record kRecallPending now
      (or_else (rq_reason context) (str "recall recorded; effect pending")) context effect in
  let after := with_grace after g in
  modify (set_book (put_record after)) ;;
  update_index_locked after ;;
  sync_queues_locked after ;;
  remember_attempt_locked attempt ;;
  ret after.

Definition recall_locked (context : RequestContext) (id : Identity128)
    (generation : ReservationGeneration) (effective_at : Timestamp) (g : Duration) (force : bool) :
    co LifecycleResult :=
  let* now := now_locked in
  check_context context true ;;
  let* record := named_record id generation in
  let* previous := gets (fun c => find_attempt_locked c (rq_attempt context)) in
  match previous with
  | Some _ => bump n_replayed_attempts ;; ret (unchanged_result record)
  | None =>
      let* record := reconcile_then now record in
      reject_if negb (consumes record) with kIllegalTransition in
      let* (pol, _) := gets (fun c => policy_for_locked c (av_policy (authority record))) in
      reject_if negb (recallable pol (terms record)) with kPolicyRejected in
      let effect := if force || (ns effective_at =? 0) then now else effective_at in
      reject_if ts_lt effect now with kInvalidInterval in
      let effect := if ts_lt (end_ (interval (terms record))) effect
                    then end_ (interval (terms record)) else effect in
      let g := if dur_ns g =? 0 then default_recall_grace pol else g in
      if beq (rr_state record) kRecallPending && beq (rr_recall_effective_at record) effect then
        ret (unchanged_result record)
      else if negb (ts_lt now effect) then
        let* after := caller_transition record kRevoked now (str "recalled with immediate effect")
                        context ts0 in
        count_revocation ;;
        ret (moved_result after)
      else
        let* after := pend_recall record now effect g context in
        bump n_recalls ;;
        ret (moved_result after)
  end.

Definition revoke_locked (context : RequestContext) (id : Identity128)
    (generation : ReservationGeneration) : co LifecycleResult :=
  let* now := now_locked in
  check_context context true ;;
  let* record := named_record id generation in
  let* record := reconcile_then now record in
  let* previous := gets (fun c => find_attempt_locked c (rq_attempt context)) in
  match previous with
  | Some _ => bump n_replayed_attempts ;; ret (unchanged_result record)
  | None =>
      if beq (rr_state record) kRevoked then ret (unchanged_result record)
      else
        reject_if negb (consumes record) with kIllegalTransition in
        let* after := caller_transition record kRevoked now (str "revoked by authority") context ts0 in
        bump n_revocations ;;
        ret (moved_result after)
  end.

Definition revalidate_locked (context : RequestContext) (id : Identity128)
    (generation : ReservationGeneration) (mark_stale : bool) : co LifecycleResult :=
  let* now := now_locked in
  check_context context true ;;
  let* record := named_record id generation in
  let* record := reconcile_then now record in
  reject_if is_terminal (rr_state record) with kIllegalTransition in
  if beq (rr_applicability record) ap_kCurrent then ret (unchanged_result record)
  else if mark_stale then
    let* after := mark_applicability_locked record ap_kStale (rr_applicability_reason record) now in
    ret (moved_result after)
  else
    auto_revalidate_record_locked record now context ;;
    let* latest := gets (fun c => current_record_locked c id) in
    match latest with
    | Some latest =>
        reject_if negb (beq (rr_applicability latest) ap_kCurrent) with kStaleGeneration in
        ret (mkLifecycleResult latest false (if beq (rr_generation latest) generation then 0 else 1))
    | None => fail kStaleGeneration
    end.

(** The transitions counted are the expiries and revocations of the pass. *)
Definition reconcile_lifecycle_locked (context : RequestContext) : co LifecycleResult :=
  let* now := now_locked in
  check_context context false ;;
  let* before := gets (fun c => stats (env c)) in
  reconcile_locked now ;;
  refresh_applicability_locked now true ;;
  release_terminal_history_locked now ;;
  compact_if_due ;;
  let* after := gets (fun c => stats (env c)) in
  ret (mkLifecycleResult default_record false
         (to_u 64 ((expiries after - expiries before) + (revocations after - revocations before)))).
