(* ===== verification/CoordCommit.v ===== *)
(** * Coordinator: commit and amendment

    The rest of [src/coordinator_admission.cpp]: duplicate-safe commit with
    deterministic preemption, lineage-preserving amendment, and the answer to an
    ambiguous attempt. *)
From S2P Require Import Prelude Errors Containers Identity Hash Bandwidth Time Authority Wire Policy Capacity Reservation Outcome SegTree Index Durable CodecBase Codec Store Coordinator CoordRecords CoordPersist CoordAssess CoordLifecycle.

(** ** Fingerprints of requests *)
Definition request_fingerprint (t : ReservationTerms) (id : Identity128) (hold_ids : list Identity128) :
    Identity128 :=
  fingerprint128 (encode_ReservationTerms t ++ w_fixed128 id ++
                  w_count (Z.of_nat (length hold_ids)) ++ flat_map w_fixed128 hold_ids).

Definition amendment_fingerprint (target : Identity128) (generation : ReservationGeneration)
    (t : ReservationTerms) : Identity128 :=
  fingerprint128 (w_fixed128 target ++ encode_Counter generation ++ encode_ReservationTerms t).

(** ** Evaluation of every member *)
Definition with_interval (t : ReservationTerms) (window : Interval) : ReservationTerms :=
  mkReservationTerms (claimant t) (claimant_generation t) (binding_kind t) (resources t) (path t)
    (required_path_generation t) window (amount t) (minimum_amount t) (maximum_amount t) (guarantee t)
    (priority t) (preemptible t) (recall_permitted t) (grace t) (headroom_requirement t) (policy t)
    (policy_labels t) (recurrence t).

(** The evaluations, or the first one that is not committable and its member. *)
Fixpoint evaluate_all (c : Coordinator) (t : ReservationTerms) (binding : ResolvedBinding)
    (pol : PolicyRecord) (i : nat) (windows : list Interval) :
    (list Assessment) + (Assessment * nat) :=
  match windows with
  | [] => inl []
  | window :: windows =>
      let evaluation := assess c (with_interval t window) binding pol in
      if negb (beq (as_outcome evaluation) ao_kCommittable) then inr (evaluation, i)
      else
        match evaluate_all c t binding pol (S i) windows with
        | inl rest => inl (evaluation :: rest)
        | inr failure => inr failure
        end
  end.

(** ** Preemption planning *)

(** A plan: the victims so far and, once they suffice, the evaluations. *)
Abbreviation plan := (list IndexEntry * option (list Assessment))%type.

(** The loop over the candidates of one resource. *)
Fixpoint plan_candidates (t : ReservationTerms) (binding : ResolvedBinding) (pol : PolicyRecord)
    (windows : list Interval) (candidates victims : list IndexEntry) : co plan :=
  match candidates with
  | [] => ret (victims, None)
  | candidate :: candidates =>
      if Z.of_nat (length victims) >=? max_preemption_victims pol then ret (victims, None)
      else
        let* found := gets (fun c =>
          find_record_locked c (ie_id candidate) (mkCounter (holder_generation candidate))) in
        match found with
        | None => plan_candidates t binding pol windows candidates victims
        | Some victim => fun c =>
            match suspend victim c with
            | (Err _, c) => plan_candidates t binding pol windows candidates victims c
            | (Ok _, c) =>
                let victims := victims ++ [candidate] in
                match evaluate_all c t binding pol 0 windows with
                | inl evaluations => (Ok (victims, Some evaluations), c)
                | inr _ => plan_candidates t binding pol windows candidates victims c
                end
            end
        end
  end.

(** The loop over the bound resources. *)
Fixpoint plan_resources (t : ReservationTerms) (binding : ResolvedBinding) (pol : PolicyRecord)
    (self : Identity128) (windows : list Interval) (failing : Interval) (refs : list ResourceRef)
    (victims : list IndexEntry) : co plan :=
  match refs with
  | [] => ret (victims, None)
  | ref :: refs =>
      if Z.of_nat (length victims) >=? max_preemption_victims pol then ret (victims, None)
      else
        let* candidates := gets (fun c =>
          preemption_candidates_locked c (resource ref) failing (guarantee t) pol self) in
        let* (victims, evaluations) := plan_candidates t binding pol windows candidates victims in
        match evaluations with
        | Some _ => ret (victims, evaluations)
        | None => plan_resources t binding pol self windows failing refs victims
        end
  end.

(** Victims are planned only when policy and configuration allow it and the
    request does not start in the past; a plan that does not close is dropped. *)
Definition plan_preemption (t : ReservationTerms) (binding : ResolvedBinding) (pol : PolicyRecord)
    (self : Identity128) (now : Timestamp) (windows : list Interval) (failing : nat) : co plan :=
  let* enabled := gets (fun c => enable_preemption (config (env c))) in
  if allow_preemption_on_commit pol && enabled && negb (ts_lt (start (interval t)) now) &&
     (max_preemption_victims pol >? 0)
  then
    let* (victims, evaluations) :=
      plan_resources t binding pol self windows (nth failing windows (interval t))
        (rb_resources binding) [] in
    ret (match evaluations with Some _ => victims | None => [] end, evaluations)
  else ret ([], None).

(** ** Parts of [create_locked] *)
Definition policy_admits (pol : PolicyRecord) (t : ReservationTerms) (now : Timestamp) : Status :=
  refuse_if negb (allow_past_start pol) && ts_lt (start (interval t)) now with kPolicyRejected in
  refuse_if (dur_ns (max_future_horizon pol) >? 0) &&
            (ns (start (interval t)) - ns now >? dur_ns (max_future_horizon pol)) with kPolicyRejected in
  refuse_if (bps (minimum_reservation_amount pol) >? 0) &&
            (bps (amount t) <? bps (minimum_reservation_amount pol)) with kPolicyRejected in
  refuse_if (bps (max_extra_headroom pol) >? 0) &&
            (bps (headroom_requirement t) >? bps (max_extra_headroom pol)) with kPolicyRejected in
  refuse_if enabled (recurrence t) && (count (recurrence t) >? max_series_members pol)
    with kPolicyRejected in
  Ok tt.

Definition append_note (explanation note : bytes) : bytes :=
  match note with [] => explanation | _ => explanation ++ str " | " ++ note end.

Definition explained (a : Assessment) (text : bytes) : Assessment :=
  mkAssessment (as_outcome a) text (deltas a) (as_conflicts a) (victims a) (victim_generations a)
    (as_preemption_planned a) (as_reason a).

(** A report with an outcome and an explanation only. *)
Definition brief_report (outcome : AdmissionOutcome) (text : bytes) : AdmissionReport :=
  mkAdmissionReport outcome text [] default_conflicts [] [] false ar_kCurrent.

(** [current_series[id]]: an absent key is inserted with generation 0. *)
Definition current_series_at (id : Identity128) : co SeriesGeneration :=
  let* found := gets (fun c => om_find (current_series (book c)) id) in
  match found with
  | Some g => ret g
  | None =>
      modify (set_book (fun b => set_current_series (om_set (current_series b) id (mkCounter 0)) b)) ;;
      ret (mkCounter 0)
  end.

Definition current_series_record (id : Identity128) : co (option ReservationSeries) :=
  let* generation := current_series_at id in
  gets (fun c => om_find (series_records (book c)) (id, generation)).

(** The members of a series at their current generations. *)
Definition current_members (c : Coordinator) (s : ReservationSeries) : list ReservationRecord :=
  base.omap (current_record_locked c) (members s).

Definition default_series : ReservationSeries :=
  mkReservationSeries nil_id (mkCounter 0) nil_id (mkCounter 0) no_recurrence (mkInterval ts0 ts0) bw0
    kDeclared ts0 ts0 nil_id (mkCounter 0) [] default_provenance (mkCounter 0).

(** The series and members a replayed answer carries for [record]. *)
Definition replayed_series (record : ReservationRecord) :
    co (option ReservationSeries * list ReservationRecord) :=
  if series_member record then
    let* s := current_series_record (rr_series record) in
    match s with
    | Some s => let* ms := gets (fun c => current_members c s) in ret (Some s, ms)
    | None => ret (Some default_series, [])
    end
  else ret (None, []).

(** The answer to an attempt that already has a durable outcome. *)
Definition replay_commit (context : RequestContext) (previous : AttemptRecord) (note : bytes) :
    co CommitResult :=
  bump n_replayed_attempts ;;
  let text := append_note
    (str "IDEMPOTENT_REPLAY: attempt " ++ format_identity (rq_attempt context) ++
     str " already has durable outcome " ++ AdmissionOutcome_to_string (at_outcome previous)) note in
  let report := brief_report (at_outcome previous) text in
  let* found := gets (fun c => find_record_locked c (at_reservation previous) (at_generation previous)) in
  match found with
  | None =>
      ret (mkCommitResult default_record None [] report true (rq_attempt context)
             (result_sequence previous))
  | Some record =>
      let* (s, ms) := replayed_series record in
      ret (mkCommitResult record s ms report true (rq_attempt context) (result_sequence previous))
  end.

(** Identities that are already bound cannot be bound again. *)
Definition identities_free (c : Coordinator) (t : ReservationTerms) (id series_id : Identity128) : Status :=
  refuse_if om_mem (current (book c)) id with kConflict in
  refuse_if enabled (recurrence t) &&
            existsb (fun i => om_mem (current (book c))
                                (derive_member_id series_id (mkCounter (Z.of_nat i))))
              (seq 0 (Z.to_nat (count (recurrence t)))) with kConflict in
  Ok tt.

(** The holds named for consumption leave the index for the evaluation. *)
Definition suspend_holds (context : RequestContext) (hold_ids : list Identity128) : co unit :=
  for_each hold_ids (fun id =>
    let* found := gets (fun c => om_find (holds (sessions c)) id) in
    match found with
    | None => fail kNotFound
    | Some hold =>
        reject_if released hold with kNotFound in
        reject_if negb (beq (hr_session hold) (rq_session context)) with kAuthorityRequired in
        suspend_hold id
    end).

(** A refusal is durable: a retry of the attempt observes it. *)
Definition record_refusal (a : AttemptMutation) : co DurableSequence :=
  let* sequence := append_locked (DAttemptOutcome a) in
  remember_attempt_locked (with_result_sequence a sequence) ;;
  bump n_commit_rejections ;;
  ret sequence.

(** The evaluation a caller sees for an accepted request. *)
Definition accepted_assessment (evaluations : list Assessment) (note : bytes) (n_members : nat)
    (displaced : list IndexEntry) : Assessment :=
  let a := hd default_assessment evaluations in
  let text := as_explanation a ++
    (if (1 <? Z.of_nat n_members) then str " | series members=" ++ to_decimal (Z.of_nat n_members) else []) in
  let text := append_note text note in
  let text := text ++
    (match displaced with
     | [] => []
     | _ => str " | preemption victims=" ++ to_decimal (Z.of_nat (length displaced))
     end) in
  mkAssessment (as_outcome a) text (deltas a) (as_conflicts a) (map ie_id displaced)
    (map (fun v => mkCounter (holder_generation v)) displaced)
    (match displaced with [] => false | _ => true end) (as_reason a).

Definition commit_authority (c : Coordinator) (t : ReservationTerms) (binding : ResolvedBinding)
    (pol : PolicyRecord) (generation : ReservationGeneration) : AuthorityVector :=
  mkAuthorityVector (ci_epoch (incarnation (env c))) generation (claimant t) (claimant_generation t)
    (last_capacity_snapshot (tables c)) (last_capacity_generation (tables c)) (pr_name pol)
    (pr_generation pol) (rb_path_generation binding) (rb_resources binding)
    (rb_failure_domains binding).

(** [make_record]: a first generation. *)
Definition make_record (t : ReservationTerms) (auth : AuthorityVector) (series_id : Identity128)
    (now : Timestamp) (provenance : Provenance) (sequence : DurableSequence) (id : Identity128)
    (window : Interval) (i : Z) (is_member : bool) : ReservationRecord :=
  let state := if commits_as_active now window then kActive else kCommitted in
  mkReservationRecord id (mkCounter 1) is_member series_id (mkCounter i) (with_interval t window) auth
    state ap_kCurrent ar_kCurrent now now (if beq state kActive then now else ts0) now ts0 (mkDur 0) ts0
    nil_id (mkCounter 0) [] provenance sequence.

(** The records of a commit: one reservation, or every member of a series. *)
Definition commit_records (t : ReservationTerms) (auth : AuthorityVector) (id series_id : Identity128)
    (now : Timestamp) (provenance : Provenance) (sequence : DurableSequence) (windows : list Interval) :
    list ReservationRecord :=
  if enabled (recurrence t) then
    imap (fun i window =>
      make_record t auth series_id now provenance sequence
        (derive_member_id series_id (mkCounter (Z.of_nat i))) window (Z.of_nat i) true) windows
  else [make_record t auth series_id now provenance sequence id (hd (interval t) windows) 0 false].

Definition commit_series (t : ReservationTerms) (series_id : Identity128) (now : Timestamp)
    (provenance : Provenance) (sequence : DurableSequence) (windows : list Interval)
    (all : list ReservationRecord) : option ReservationSeries :=
  if enabled (recurrence t) then
    Some (mkReservationSeries series_id (mkCounter 1) (claimant t) (claimant_generation t)
            (recurrence t) (hd (interval t) windows) (amount t) kCommitted now now nil_id (mkCounter 0)
            (map rr_id all) provenance sequence)
  else None.

(** The companion mutations that revoke the victims. *)
Definition victim_mutations (c : Coordinator) (id : Identity128) (now : Timestamp)
    (provenance : Provenance) (displaced : list IndexEntry) : list StateMutation :=
  base.omap (fun v =>
    option_map (fun r =>
      mkStateMutation (rr_id r) (rr_generation r) (rr_state r) kRevoked now
        (str "preempted by reservation " ++ to_hex id) provenance ts0 None)
      (find_record_locked c (ie_id v) (mkCounter (holder_generation v)))) displaced.

Definition commit_attempt (context : RequestContext) (print : Identity128) (record : ReservationRecord)
    (t : ReservationTerms) (sequence : DurableSequence) (now : Timestamp) : AttemptMutation :=
  mkAttemptMutation (rq_attempt context) print ao_kCommittable (rr_id record) (rr_generation record)
    sequence (claimant t) now.

(** The in-memory projection of a companion. *)
Definition apply_companion (m : StateMutation) : co unit :=
  let* found := gets (fun c => find_record_locked c (sm_id m) (sm_generation m)) in
  match found with
  | None => ret tt
  | Some record =>
      let* after := set_state_locked record (to_state m) (sm_at m) (sm_reason m) (sm_provenance m) in
      sync_index_locked after ;;
      sync_queues_locked after ;;
      bump n_recalls
  end.

Definition enter_committed (record : ReservationRecord) : co unit :=
  register_record_locked record ;;
  sync_index_locked record ;;
  sync_queues_locked record.

(** [current_series[id] = generation]. *)
Definition set_live_series (s : option ReservationSeries) : co unit :=
  match s with
  | Some s => modify (set_book (fun b =>
      set_current_series (om_set (current_series b) (rs_id s) (rs_generation s))
        (set_series (om_set (series_records b) (rs_id s, rs_generation s) s) b)))
  | None => ret tt
  end.

Definition consume_hold (id : Identity128) (now : Timestamp) (consumer : Identity128) : co unit :=
  modify (set_sessions (fun s =>
    match om_find (holds s) id with
    | None => s
    | Some hold =>
        set_holds (om_set (holds s) id
          (release_record hold now (str "consumed by reservation " ++ to_hex consumer))) s
    end)).

(** The tail of a successful mutation: history, then compaction. *)
Definition housekeeping (now : Timestamp) : co unit :=
  release_terminal_history_locked now ;; compact_if_due.

(** From the decision to commit on: journal first, then the in-memory state. *)
Definition commit_accepted (context : RequestContext) (t : ReservationTerms) (id series_id : Identity128)
    (print : Identity128) (hold_ids : list Identity128) (now : Timestamp) (binding : ResolvedBinding)
    (pol : PolicyRecord) (windows : list Interval) (displaced : list IndexEntry)
    (accepted : Assessment) : co CommitResult :=
  let* predicted := gets predicted_sequence in
  let* provenance := gets (fun c => make_provenance_locked c context predicted now) in
  let* auth := gets (fun c => commit_authority c t binding pol (mkCounter 1)) in
  let all := commit_records t auth id series_id now provenance predicted windows in
  let record := hd default_record all in
  let s := commit_series t series_id now provenance predicted windows all in
  let* revoked := gets (fun c => victim_mutations c id now provenance displaced) in
  let attempt := commit_attempt context print record t predicted now in
  append_predicted (DReservationCommit
    (mkReservationMutation record s (tl all) None false revoked (Some attempt))) predicted ;;
  for_each revoked apply_companion ;;
  for_each all enter_committed ;;
  set_live_series s ;;
  remember_attempt_locked attempt ;;
  for_each hold_ids (fun h => consume_hold h now id) ;;
  keep_suspension ;;
  bump n_commits ;;
  housekeeping now ;;
  ret (mkCommitResult record s all (to_admission_report accepted) false (rq_attempt context) predicted).

(** The refusal of a request that does not close. *)
Definition refuse_commit (context : RequestContext) (t : ReservationTerms) (id print : Identity128)
    (dry_run : bool) (now : Timestamp) (note : bytes) (failure : Assessment) : co CommitResult :=
  if dry_run then
    ret (mkCommitResult default_record None [] (to_admission_report failure) false (rq_attempt context)
           (mkCounter 0))
  else
    let failure := explained failure (append_note (as_explanation failure) note) in
    let* sequence := record_refusal
      (mkAttemptMutation (rq_attempt context) print (as_outcome failure) id (mkCounter 0) (mkCounter 0)
         (claimant t) now) in
    ret (mkCommitResult default_record None [] (to_admission_report failure) false (rq_attempt context)
           sequence).

(** The decision, under the suspension of the consumed holds. *)
Definition decide_commit (context : RequestContext) (t : ReservationTerms) (id series_id : Identity128)
    (print : Identity128) (dry_run : bool) (hold_ids : list Identity128) (now : Timestamp) (note : bytes)
    (pol : PolicyRecord) (binding : ResolvedBinding) (windows : list Interval) : co CommitResult :=
  let decide evaluations displaced :=
    let accepted := accepted_assessment evaluations note (length windows) displaced in
    if dry_run then
      ret (mkCommitResult default_record None [] (to_admission_report accepted) false
             (rq_attempt context) (mkCounter 0))
    else commit_accepted context t id series_id print hold_ids now binding pol windows displaced accepted in
  suspend_holds context hold_ids ;;
  let* evaluated := gets (fun c => evaluate_all c t binding pol 0 windows) in
  match evaluated with
  | inl evaluations => decide evaluations []
  | inr (failure, failing) =>
      let* (displaced, evaluations) := plan_preemption t binding pol id now windows failing in
      match evaluations with
      | Some evaluations => decide evaluations displaced
      | None => refuse_commit context t id print dry_run now note failure
      end
  end.

(** ** [create_locked] *)
Definition create_locked (context : RequestContext) (t : ReservationTerms) (requested_id : Identity128)
    (dry_run : bool) (hold_ids : list Identity128) : co CommitResult :=
  let* now := now_locked in
  check_context context true ;;
  lift (validate_terms t) ;;
  reject_if negb (is_nil (rq_claimant context)) && negb (beq (rq_claimant context) (claimant t))
    with kAuthorityRequired in
  ensure_claimant_locked (claimant t) (claimant_generation t) now ;;
  reconcile_locked now ;;
  let* (pol, note) := gets (fun c => policy_for_locked c (policy t)) in
  lift (policy_admits pol t now) ;;
  let id := if is_nil requested_id then derive_series_id (claimant t) (rq_attempt context) 1
            else requested_id in
  let series_id := if enabled (recurrence t) then derive_series_id (claimant t) (rq_attempt context) 2
                   else nil_id in
  let print := request_fingerprint t id hold_ids in
  let* previous := gets (fun c => find_attempt_locked c (rq_attempt context)) in
  match previous with
  | Some previous =>
      reject_if negb (beq (fingerprint previous) print) with kConflict in
      replay_commit context previous note
  | None =>
      let* c := gets (fun c => c) in
      lift (identities_free c t id series_id) ;;
      reject_if negb dry_run && (live_count (book c) >=? max_live_reservations (config (env c)))
        with kResourceExhausted in
      let* binding := resolve_binding_locked t in
      let* windows := lift (expand_series (interval t) (recurrence t) (max_series_members pol)) in
      with_suspension
        (decide_commit context t id series_id print dry_run hold_ids now note pol binding windows)
  end.

(** ** Parts of [amend_locked] *)

(** The answer to a retried amendment. *)
Definition replay_amendment (predecessor : ReservationRecord) (previous : AttemptRecord) :
    co AmendmentResult :=
  bump n_replayed_attempts ;;
  let report := brief_report (at_outcome previous)
                  (str "IDEMPOTENT_REPLAY: amendment attempt already durable") in
  let* found := gets (fun c => find_record_locked c (at_reservation previous) (at_generation previous)) in
  match found with
  | None => ret (mkAmendmentResult predecessor default_record None [] report true)
  | Some successor =>
      let* (s, ms) := replayed_series successor in
      ret (mkAmendmentResult predecessor successor s ms report true)
  end.

(** The live members of the current generation of a series. *)
Definition live_members (c : Coordinator) (s : ReservationSeries) : list ReservationRecord :=
  List.filter (fun r => negb (is_terminal (rr_state r))) (current_members c s).

(** What an amendment supersedes leaves the index for the evaluation. *)
Definition suspend_superseded (predecessor : ReservationRecord) :
    co (list ReservationRecord * option ReservationSeries) :=
  if series_member predecessor then
    let* s := current_series_record (rr_series predecessor) in
    match s with
    | None => fail kCorrupt
    | Some s =>
        let* live := gets (fun c => live_members c s) in
        for_each live suspend ;;
        ret (live, Some s)
    end
  else suspend predecessor ;; ret ([predecessor], None).

(** [make_successor]. *)
Definition make_successor (t : ReservationTerms) (auth : AuthorityVector) (now : Timestamp)
    (provenance : Provenance) (sequence : DurableSequence) (previous : ReservationRecord)
    (window : Interval) : ReservationRecord :=
  let state := if commits_as_active now window then kActive else kCommitted in
  mkReservationRecord (rr_id previous) (mkCounter (to_u 64 (value (rr_generation previous) + 1)))
    (series_member previous) (rr_series previous) (series_index previous) (with_interval t window) auth
    state ap_kCurrent ar_kCurrent (declared_at previous) now (if beq state kActive then now else ts0)
    now ts0 (recall_grace previous) ts0 (rr_id previous) (rr_generation previous) [] provenance sequence.

(** Member [i] of the amended series: the successor of the [i]th superseded
    member, or a new identity behind the last one. *)
Definition series_successor (t : ReservationTerms) (auth : AuthorityVector) (now : Timestamp)
    (provenance : Provenance) (sequence : DurableSequence) (predecessor : ReservationRecord)
    (superseded : list ReservationRecord) (i : nat) (window : Interval) : ReservationRecord :=
  let successor := make_successor t auth now provenance sequence in
  let series_id := rr_series predecessor in
  let place r id g p pg :=
    mkReservationRecord id g true series_id (mkCounter (Z.of_nat i)) (terms r) (authority r) (rr_state r)
      (rr_applicability r) (rr_applicability_reason r) (declared_at r) (committed_at r) (activated_at r)
      (rr_state_changed_at r) (rr_recall_effective_at r) (recall_grace r) (terminated_at r) p pg
      (state_reason r) (rr_last_provenance r) (rr_sequence r) in
  match nth_error superseded i with
  | Some previous =>
      let r := successor previous window in
      place r (rr_id r) (rr_generation r) (rr_predecessor r) (rr_predecessor_generation r)
  | None =>
      let r := successor predecessor window in
      place r (derive_member_id series_id (mkCounter (Z.of_nat i))) (mkCounter 1) nil_id (mkCounter 0)
  end.

(** The position of the amended member among the superseded ones. *)
Fixpoint position (id : Identity128) (l : list ReservationRecord) : option nat :=
  match l with
  | [] => None
  | r :: l => if beq (rr_id r) id then Some O else option_map S (position id l)
  end.

Definition remove_nth {A} (n : nat) (l : list A) : list A := firstn n l ++ skipn (S n) l.

(** The companions that retire the other superseded members. *)
Definition series_companion (predecessor : ReservationRecord) (now : Timestamp)
    (provenance : Provenance) (r : ReservationRecord) : StateMutation :=
  mkStateMutation (rr_id r) (rr_generation r) (rr_state r) kSuperseded now
    (str "superseded by series generation " ++ to_decimal (to_u 64 (1 + value (rr_generation predecessor))))
    provenance ts0 None.

Definition amended_series (s : ReservationSeries) (t : ReservationTerms) (now : Timestamp)
    (provenance : Provenance) (sequence : DurableSequence) (windows : list Interval)
    (successors : list ReservationRecord) : ReservationSeries :=
  mkReservationSeries (rs_id s) (mkCounter (to_u 64 (value (rs_generation s) + 1))) (rs_claimant s)
    (rs_claimant_generation s) (recurrence t) (hd (interval t) windows) (amount t) (rs_state s) now now
    (rs_id s) (rs_generation s) (map rr_id successors) provenance sequence.

(** The mutation of an amendment and its successors.  When the amended member's
    position lies beyond the new members the code reads past the end of its
    vector: the model stops with an error there. *)
Definition amendment_mutation (t : ReservationTerms) (auth : AuthorityVector) (now : Timestamp)
    (provenance : Provenance) (sequence : DurableSequence) (why : bytes)
    (predecessor : ReservationRecord) (superseded : list ReservationRecord)
    (s : option ReservationSeries) (windows : list Interval) :
    Result (ReservationMutation * list ReservationRecord) :=
  match s with
  | None =>
      let record := make_successor t auth now provenance sequence predecessor
                      (hd (interval t) windows) in
      Ok (mkReservationMutation record None []
            (Some (edge_to predecessor record now sequence why)) true [] None, [record])
  | Some s =>
      match position (rr_id predecessor) superseded with
      | None => Err kCorrupt
      | Some target =>
          let successors :=
            imap (series_successor t auth now provenance sequence predecessor superseded) windows in
          match nth_error successors target with
          | None => Err kInternal
          | Some record =>
              let others := List.filter (fun r => negb (beq (rr_id r) (rr_id predecessor))) superseded in
              Ok (mkReservationMutation record
                    (Some (amended_series s t now provenance sequence windows successors))
                    (remove_nth target successors)
                    (Some (edge_to predecessor record now sequence why)) true
                    (map (series_companion predecessor now provenance) others) None, successors)
          end
      end
  end.

Definition with_attempt (m : ReservationMutation) (a : AttemptMutation) : ReservationMutation :=
  mkReservationMutation (rm_record m) (rm_series m) (rm_members m) (rm_edge m) (supersede_record m)
    (companions m) (Some a).

(** A superseded generation leaves the books. *)
Definition supersede (now : Timestamp) (provenance : Provenance) (previous : ReservationRecord) : co unit :=
  let* found := gets (fun c => find_record_locked c (rr_id previous) (rr_generation previous)) in
  match found with
  | None => ret tt
  | Some record =>
      let* after := set_state_locked record kSuperseded now
        (str "superseded by generation " ++ to_decimal (to_u 64 (value (rr_generation record) + 1)))
        provenance in
      index_erase_locked after ;;
      sync_queues_locked after
  end.

Definition enter_successor (record : ReservationRecord) : co unit :=
  register_record_locked record ;;
  update_index_locked record ;;
  sync_queues_locked record.

Definition amend_accepted (context : RequestContext) (predecessor : ReservationRecord)
    (t : ReservationTerms) (print : Identity128) (now : Timestamp) (binding : ResolvedBinding)
    (pol : PolicyRecord) (windows : list Interval) (superseded : list ReservationRecord)
    (s : option ReservationSeries) (accepted : Assessment) : co AmendmentResult :=
  let* predicted := gets predicted_sequence in
  let* provenance := gets (fun c => make_provenance_locked c context predicted now) in
  let* auth := gets (fun c => commit_authority c t binding pol
                                (mkCounter (to_u 64 (value (rr_generation predecessor) + 1)))) in
  let why := sanitize_reason (or_else (rq_reason context) (str "amendment")) in
  let* (m, successors) :=
    lift (amendment_mutation t auth now provenance predicted why predecessor superseded s windows) in
  let attempt := commit_attempt context print (rm_record m) t predicted now in
  append_predicted (DReservationAmend (with_attempt m attempt)) predicted ;;
  for_each superseded (supersede now provenance) ;;
  modify (set_book (fun b => set_edges (edges b ++ option_list (rm_edge m)) b)) ;;
  for_each successors enter_successor ;;
  set_live_series (rm_series m) ;;
  remember_attempt_locked attempt ;;
  keep_suspension ;;
  bump n_amendments ;;
  let* predecessor := gets (fun c => deref c predecessor) in
  housekeeping now ;;
  ret (mkAmendmentResult predecessor (rm_record m) (rm_series m) successors
         (to_admission_report accepted) false).

Definition refuse_amendment (context : RequestContext) (predecessor : ReservationRecord)
    (t : ReservationTerms) (print : Identity128) (dry_run : bool) (now : Timestamp)
    (failure : Assessment) : co AmendmentResult :=
  let rejected :=
    mkAmendmentResult predecessor default_record None [] (to_admission_report failure) false in
  if dry_run then ret rejected
  else
    record_refusal (mkAttemptMutation (rq_attempt context) print (as_outcome failure)
      (rr_id predecessor) (rr_generation predecessor) (mkCounter 0) (claimant t) now) ;;
    ret rejected.

(** The decision, under the suspension of what is superseded. *)
Definition decide_amendment (context : RequestContext) (predecessor : ReservationRecord)
    (t : ReservationTerms) (print : Identity128) (dry_run : bool) (now : Timestamp) (note : bytes)
    (pol : PolicyRecord) (binding : ResolvedBinding) (windows : list Interval) : co AmendmentResult :=
  let* (superseded, s) := suspend_superseded predecessor in
  let* evaluated := gets (fun c => evaluate_all c t binding pol 0 windows) in
  match evaluated with
  | inr (failure, _) => refuse_amendment context predecessor t print dry_run now failure
  | inl evaluations =>
      let accepted := hd default_assessment evaluations in
      let accepted := explained accepted (append_note (as_explanation accepted) note) in
      if dry_run then
        ret (mkAmendmentResult predecessor default_record None [] (to_admission_report accepted) false)
      else amend_accepted context predecessor t print now binding pol windows superseded s accepted
  end.

(** ** [amend_locked] *)
Definition amend_locked (context : RequestContext) (target : Identity128)
    (target_generation : ReservationGeneration) (t : ReservationTerms) (dry_run : bool) :
    co AmendmentResult :=
  let* now := now_locked in
  check_context context true ;;
  lift (validate_terms t) ;;
  let* predecessor := named_record target target_generation in
  let print := amendment_fingerprint target target_generation t in
  let* previous := gets (fun c => find_attempt_locked c (rq_attempt context)) in
  match previous with
  | Some previous =>
      reject_if negb (beq (fingerprint previous) print) with kConflict in
      replay_amendment predecessor previous
  | None =>
      reject_if is_terminal (rr_state predecessor) with kIllegalTransition in
      reject_if negb (beq (claimant t) (claimant (terms predecessor))) with kAuthorityRequired in
      reject_if value (claimant_generation t) <? value (claimant_generation (terms predecessor))
        with kFencedClaimant in
      ensure_claimant_locked (claimant t) (claimant_generation t) now ;;
      let* predecessor := reconcile_then now predecessor in
      let* (pol, note) := gets (fun c => policy_for_locked c (policy t)) in
      let* binding := resolve_binding_locked t in
      let* windows := lift (expand_series (interval t) (recurrence t) (max_series_members pol)) in
      with_suspension
        (decide_amendment context predecessor t print dry_run now note pol binding windows)
  end.

(** ** [reconcile_attempt_locked] *)
Definition reconcile_attempt_locked (context : RequestContext) (attempt : Identity128) :
    co AttemptReconciliation :=
  check_context context false ;;
  gets (fun c =>
    match find_attempt_locked c attempt with
    | None =>
        mkAttemptReconciliation attempt false ao_kInvalidRequest nil_id (mkCounter 0) (mkCounter 0) false
          (str "no durable record exists for this attempt")
    | Some r =>
        let done := outcome_is_acceptance (at_outcome r) &&
          bool_decide (is_Some (find_record_locked c (at_reservation r) (at_generation r))) in
        mkAttemptReconciliation attempt true (at_outcome r) (at_reservation r) (at_generation r)
          (result_sequence r) done
          (if done then str "durable commit confirmed"
           else str "durable outcome recorded without a commit")
    end).
