(* ===== verification/CoordOps.v ===== *)
(** * Coordinator: boot, authority ingestion, fences, holds, overcommit resolution

    The rest of [src/coordinator_core.cpp] (boot and capacity ingestion),
    [src/coordinator_ops.cpp] and [src/coordinator_overcommit.cpp], and the step
    relation over every public operation that changes state. *)
From S2P Require Import Prelude Errors Containers Identity Hash Bandwidth Time Authority Wire Policy Capacity Reservation Outcome SegTree Index Durable CodecBase Codec Store Coordinator CoordRecords CoordPersist CoordAssess CoordLifecycle CoordCommit.

(** ** Capacity ingestion *)

(** The checks on a capacity snapshot.  [None]: it was applied before. *)
Definition check_capacity_snapshot (c : Coordinator) (snapshot : CapacitySnapshot) : Result bool :=
  let t := tables c in
  refuse_if is_nil (cs_id snapshot) with kInvalidIdentity in
  refuse_if value (cs_generation snapshot) =? 0 with kInvalidArgument in
  refuse_if negb (value (cs_fabric_epoch snapshot) =? 0) &&
            negb (beq (cs_fabric_epoch snapshot) (ci_epoch (incarnation (env c)))) with kStaleEpoch in
  refuse_if Z.of_nat (length (cs_resources snapshot)) >? kMaxResourcesPerSnapshot
    with kResourceExhausted in
  if (value (cs_generation snapshot) <=? value (last_capacity_generation t)) &&
     negb (is_nil (last_capacity_snapshot t)) then
    refuse_if negb (beq (cs_id snapshot) (last_capacity_snapshot t)) with kStaleGeneration in
    Ok true
  else
    refuse_if adjacent_dup (sort_keys (map rc_resource (cs_resources snapshot))) with kConflict in
    Ok false.

(** One resource of the snapshot; the names applied so far grow. *)
Definition ingest_resource (snapshot : Identity128) (now : Timestamp) (applied : list ResourceName)
    (capacity : ResourceCapacity) : co (list ResourceName) :=
  let* previous := gets (fun c => CapacityLedger_find (ledger (tables c)) (rc_resource capacity)) in
  let before := match previous with
                | Some e => value (rc_generation (ce_capacity e))
                | None => 0
                end in
  let* l := gets (fun c => ledger (tables c)) in
  let* (changed, l) := lift (CapacityLedger_apply l capacity snapshot now) in
  modify (set_tables (set_ledger l)) ;;
  when (changed && negb (before =? 0) && (value (rc_generation capacity) >? before))
    (bump n_generation_advances) ;;
  ret (if changed then applied ++ [rc_resource capacity] else applied).

(** One withdrawal; a resource that is not known is passed over. *)
Definition ingest_withdrawal (now : Timestamp) (withdrawn : list ResourceName) (name : ResourceName) :
    co (list ResourceName) :=
  let* l := gets (fun c => ledger (tables c)) in
  match CapacityLedger_withdraw l name now with
  | Ok l => modify (set_tables (set_ledger l)) ;; ret (withdrawn ++ [name])
  | Err e => if beq e kNotFound then ret withdrawn else fail e
  end.

Definition stamp_capacity (s : CapacitySnapshot) (now : Timestamp) : CapacitySnapshot :=
  mkCapacitySnapshot (cs_id s) (cs_generation s) (cs_fabric_epoch s) now (cs_complete s) (cs_resources s).

Definition name_in (names : list ResourceName) (n : ResourceName) : bool := existsb (beq n) names.

Definition ingest_capacity_locked (snapshot : CapacitySnapshot) (names : list ResourceName)
    (context : RequestContext) : co unit :=
  let* now := now_locked in
  check_context context false ;;
  let* repeated := (fun c => (check_capacity_snapshot c snapshot, c)) in
  if repeated : bool then ret tt
  else
    let* applied := co_fold (ingest_resource (cs_id snapshot) now) (cs_resources snapshot) [] in
    let* withdrawn := co_fold (ingest_withdrawal now) names [] in
    let settle := modify (set_tables (set_last_capacity (cs_id snapshot) (cs_generation snapshot))) in
    if Z.of_nat (length (applied ++ withdrawn)) =? 0 then settle
    else
      append_locked (DCapacitySnapshot (mkCapacityMutation (stamp_capacity snapshot now) withdrawn)) ;;
      settle ;;
      bump n_capacity_ingestions ;;
      refresh_applicability_locked now true ;;
      release_holds_where (fun h => existsb (name_in (applied ++ withdrawn)) (hr_resources h))
        (str "resource generation changed under a provisional hold") true ;;
      for_each applied (fun n => detect_overcommit_locked n now) ;;
      for_each withdrawn (fun n => detect_overcommit_locked n now) ;;
      release_terminal_history_locked now.

(** ** Path ingestion *)
Definition check_path_snapshot (c : Coordinator) (snapshot : PathAuthoritySnapshot) : Status :=
  refuse_if is_nil (ps_id snapshot) with kInvalidIdentity in
  refuse_if value (ps_generation snapshot) =? 0 with kInvalidArgument in
  refuse_if negb (value (ps_fabric_epoch snapshot) =? 0) &&
            negb (beq (ps_fabric_epoch snapshot) (ci_epoch (incarnation (env c)))) with kStaleEpoch in
  refuse_if Z.of_nat (length (ps_paths snapshot)) >? kMaxResourcesPerSnapshot with kResourceExhausted in
  refuse (adjacent_dup (sort_keys (map pa_path (ps_paths snapshot)))) kConflict.

Definition ingest_path (snapshot : Identity128) (now : Timestamp) (changed : list PathName)
    (p : PathAuthority) : co (list PathName) :=
  let* t := gets (fun c => paths (tables c)) in
  let* (applied, t) := lift (PathAuthorityTable_apply t p snapshot now) in
  modify (set_tables (set_paths t)) ;;
  ret (if applied : bool then changed ++ [pa_path p] else changed).

Definition stamp_paths (s : PathAuthoritySnapshot) (now : Timestamp) : PathAuthoritySnapshot :=
  mkPathAuthoritySnapshot (ps_id s) (ps_generation s) (ps_fabric_epoch s) now (ps_complete s) (ps_paths s).

Definition ingest_paths_locked (snapshot : PathAuthoritySnapshot) (context : RequestContext) : co unit :=
  let* now := now_locked in
  check_context context false ;;
  (fun c => (check_path_snapshot c snapshot, c)) ;;
  let* changed := co_fold (ingest_path (ps_id snapshot) now) (ps_paths snapshot) [] in
  match changed with
  | [] => ret tt
  | _ =>
      append_locked (DPathSnapshot (stamp_paths snapshot now)) ;;
      modify (set_tables (set_last_path (ps_id snapshot) (ps_generation snapshot))) ;;
      refresh_applicability_locked now true ;;
      release_holds_where (fun h => negb (name_empty (hr_path h)) && existsb (beq (hr_path h)) changed)
        (str "path authority changed under a provisional hold") true
  end.

(** ** Policy ingestion *)
Definition stamp_policy (r : PolicyRecord) (now : Timestamp) : PolicyRecord :=
  mkPolicyRecord (pr_name r) (pr_generation r) now (allow_recall_guaranteed r)
    (allow_recall_protected r) (allow_preemption_on_commit r) (max_preemption_victims r)
    (default_recall_grace r) (allow_overcommit r) (overcommit_allowance r)
    (minimum_reservation_amount r) (allow_past_start r) (max_future_horizon r) (max_extra_headroom r)
    (auto_revalidate_on_generation_change r) (policy_headroom r) (max_conflict_set r)
    (max_explanation_bytes r) (max_series_members r) (max_hold_ttl r) (max_holds_per_session r)
    (max_hold_bandwidth r).

(** Live records bound to another generation of the policy. *)
Definition bound_elsewhere (r : PolicyRecord) (p : ReservationKey * ReservationRecord) : bool :=
  negb (is_terminal (rr_state p.2)) && beq (av_policy (authority p.2)) (pr_name r) &&
  negb (beq (policy_generation (authority p.2)) (pr_generation r)).

Definition mark_policy_change (now : Timestamp) (key : ReservationKey) : co unit :=
  let* found := gets (fun c => om_find (records (book c)) key) in
  match found with
  | None => ret tt
  | Some record =>
      mark_applicability_locked record ap_kRevalidationRequired ar_kPolicyMaterialChange now ;; ret tt
  end.

Definition ingest_policy_locked (record : PolicyRecord) (context : RequestContext) : co unit :=
  let* now := now_locked in
  check_context context false ;;
  let* previous := gets (fun c => PolicyRegistry_current (policies (tables c)) (pr_name record)) in
  let* t := gets (fun c => policies (tables c)) in
  let* (applied, t) := lift (PolicyRegistry_apply t record) in
  modify (set_tables (set_policies t)) ;;
  if negb applied then ret tt
  else
    append_locked (DPolicyRecord (stamp_policy record now)) ;;
    let material := match previous with Some p => materially_differs record p | None => true end in
    if negb material then ret tt
    else
      let* affected := gets (fun c => om_keys (List.filter (bound_elsewhere record) (records (book c)))) in
      for_each affected (mark_policy_change now).

(** ** Claimants and fences *)
Definition register_claimant_locked (claimant : Identity128) (generation : ClaimantGeneration)
    (context : RequestContext) : co unit :=
  check_context context false ;;
  reject_if value generation =? 0 with kInvalidIdentity in
  let* now := now_locked in
  ensure_claimant_locked claimant generation now.

Definition fence_locked (context : RequestContext) (claimant : Identity128)
    (generation : ClaimantGeneration) (boot session : Identity128) (wide : bool) : co unit :=
  let* now := now_locked in
  check_context context false ;;
  reject_if is_nil claimant && is_nil boot && is_nil session with kInvalidArgument in
  let fence :=
    mkFenceMutation claimant generation boot session now (sanitize_reason (rq_reason context)) wide in
  append_locked (DFence fence) ;;
  modify (set_sessions (apply_fence fence)) ;;
  when (negb (is_nil boot)) (fence_holds_for_boot_locked boot (fm_reason fence)) ;;
  when (negb (is_nil session)) (fence_holds_for_session_locked session (fm_reason fence)) ;;
  when (wide && negb (is_nil claimant))
    (fence_holds_for_claimant_locked claimant generation (fm_reason fence)).

(** ** Holds *)

(** The unreleased holds of a session: how many, and their bandwidth. *)
Definition session_holds (s : Sessions) (session : Identity128) : Z * Z :=
  let mine := List.filter (fun h => negb (released h) && beq (hr_session h) session) (om_values (holds s)) in
  (Z.of_nat (length mine), fold_left (fun n h => to_i64 (n + bps (hr_amount h))) mine 0).

(** The bounds of the policy on a hold.  The sums are those of [std::int64_t]: where
    the code's would overflow (undefined in C++) the model wraps around. *)
Definition hold_admits (c : Coordinator) (pol : PolicyRecord) (t : ReservationTerms)
    (session : Identity128) (now expires : Timestamp) : Status :=
  let '(n, bandwidth) := session_holds (sessions c) session in
  refuse_if (dur_ns (max_hold_ttl pol) >? 0) && (to_i64 (ns expires - ns now) >? dur_ns (max_hold_ttl pol))
    with kPolicyRejected in
  refuse_if negb (ts_lt now expires) with kInvalidInterval in
  refuse_if negb (max_holds_per_session pol =? 0) && (n >=? max_holds_per_session pol)
    with kResourceExhausted in
  refuse_if (bps (max_hold_bandwidth pol) >? 0) &&
            (to_i64 (bandwidth + bps (amount t)) >? bps (max_hold_bandwidth pol)) with kResourceExhausted in
  Ok tt.

Definition kHoldOrdinal : Z := 0x484F4C44.

Definition make_hold (c : Coordinator) (context : RequestContext) (t : ReservationTerms)
    (binding : ResolvedBinding) (now expires : Timestamp) : HoldRecord :=
  mkHoldRecord (derive (rq_attempt context) kHoldOrdinal) (mkCounter 1) (claimant t)
    (claimant_generation t) (rq_session context) (rq_publisher_boot context)
    (ci_epoch (incarnation (env c))) (rb_kind binding) (map resource (rb_resources binding))
    (rb_path binding) (rb_path_generation binding) (interval t) (amount t) (guarantee t) now expires
    false ts0 [].

Definition hold_entry (h : HoldRecord) (name : ResourceName) : IndexEntry :=
  mkIndexEntry kHold (hr_id h) (value (hr_generation h)) name (hr_interval h) (hr_amount h)
    (hr_guarantee h) kPending.

(** The entries go in one by one; a failure takes the hold's entries out. *)
Definition insert_hold (h : HoldRecord) : co unit := fun c =>
  match insert_loop (index c) (map (hold_entry h) (hr_resources h)) with
  | (Ok _, x) => (Ok tt, set_index (fun _ => x) c)
  | (Err e, x) =>
      (Err e, set_index (fun _ => (index_erase_all x kHold (hr_id h) (value (hr_generation h))).2) c)
  end.

Definition acquire_hold (context : RequestContext) (t : ReservationTerms) (expires : Timestamp) :
    co HoldRecord :=
  let* now := now_locked in
  check_context context true ;;
  lift (validate_terms t) ;;
  ensure_claimant_locked (claimant t) (claimant_generation t) now ;;
  reconcile_locked now ;;
  let* (pol, _) := gets (fun c => policy_for_locked c (policy t)) in
  (fun c => (hold_admits c pol t (rq_session context) now expires, c)) ;;
  let* binding := resolve_binding_locked t in
  let* assessment := gets (fun c => assess c t binding pol) in
  reject_if negb (beq (as_outcome assessment) ao_kCommittable)
    with (outcome_to_error_code (as_outcome assessment)) in
  let* hold := gets (fun c => make_hold c context t binding now expires) in
  insert_hold hold ;;
  modify (set_sessions (fun s => set_holds (om_set (holds s) (hr_id hold) hold) s)) ;;
  ret hold.

Definition release_hold (context : RequestContext) (id : Identity128)
    (generation : Counter HoldGenerationTag) : co HoldRecord :=
  check_context context false ;;
  let* found := gets (fun c => om_find (holds (sessions c)) id) in
  match found with
  | None => fail kNotFound
  | Some hold =>
      reject_if negb (beq (hr_generation hold) generation) with kGenerationMismatch in
      reject_if negb (beq (hr_boot hold) (rq_publisher_boot context)) &&
                negb (is_nil (rq_publisher_boot context)) with kAuthorityRequired in
      when (negb (released hold)) (release_hold_locked id (rq_reason context) false) ;;
      gets (fun c => default hold (om_find (holds (sessions c)) id))
  end.

Definition release_session (context : RequestContext) : co unit :=
  let* now := now_locked in
  check_context context false ;;
  reconcile_locked now ;;
  fence_holds_for_session_locked (rq_session context) (str "session released").

(** The flush at the end writes nothing new. *)
Definition begin_shutdown : co unit :=
  modify (set_env (set_stopping true)) ;;
  fence_holds_for_session_locked nil_id (str "coordinator shutdown") ;;
  release_holds_where (fun _ => true) (str "coordinator shutdown") false.

(** ** Overcommit resolution *)
Inductive OvercommitResolution := kRetain | kRevoke.

Definition kMaxResolutionVictims : Z := 4096.

(** The stale obligations of a resource as index entries, whatever their
    interval. *)
Definition stale_entries (c : Coordinator) (name : ResourceName) : list IndexEntry :=
  map (fun r => reservation_entry r (consuming_interval r) name)
    (List.filter (stale_obligation (ledger (tables c)) name) (om_values (records (book c)))).

Definition resolution_candidates (c : Coordinator) (name : ResourceName) : list IndexEntry :=
  let limit := index_scan_limit (config (env c)) in
  let '(overlaps, _, _) := index_overlapping (index c) name all_time limit limit in
  List.filter (fun e => beq (ie_kind e) kReservation) overlaps ++ stale_entries c name.

Definition candidates_peak (candidates : list IndexEntry) : Bandwidth :=
  ici_peak
    (fold_left (fun x e => if empty (ie_interval e) then x else ici_add x (ie_interval e) (ie_amount e))
       candidates ici_new) all_time.

(** The victim of this turn, if the resource does not close yet. *)
Definition next_victim (c : Coordinator) (name : ResourceName) (ceiling : Z) : option ReservationRecord :=
  let candidates := resolution_candidates c name in
  match sort displacement_lt candidates with
  | [] => None
  | weakest :: _ =>
      if bps (candidates_peak candidates) <=? ceiling then None
      else find_record_locked c (ie_id weakest) (mkCounter (holder_generation weakest))
  end.

Definition with_reason (context : RequestContext) (why : bytes) : RequestContext :=
  mkRequestContext (rq_actor context) (rq_publisher context) (rq_publisher_boot context)
    (rq_session context) (rq_attempt context) (rq_claimant context) (rq_claimant_generation context)
    (asserted_epoch context) why.

(** The loop ends by itself after [kMaxResolutionVictims + 1] revocations; the
    fuel covers them. *)
Fixpoint revoke_weakest (fuel : nat) (context : RequestContext) (name : ResourceName) (ceiling : Z)
    (now : Timestamp) (revoked : Z) : co unit :=
  match fuel with
  | O => fail kInternal
  | S fuel =>
      let* victim := gets (fun c => next_victim c name ceiling) in
      match victim with
      | None => ret tt
      | Some victim =>
          transition_locked victim kRevoked now (rq_reason context) context ts0 ;;
          if revoked + 1 >? kMaxResolutionVictims then ret tt
          else revoke_weakest fuel context name ceiling now (revoked + 1)
      end
  end.

Definition resolution_fuel : nat := Z.to_nat (kMaxResolutionVictims + 1).

Definition resolve_overcommit (context : RequestContext) (name : ResourceName)
    (resolution : OvercommitResolution) : co unit :=
  let* now := now_locked in
  check_context context true ;;
  let* unresolved := gets (fun c => unresolved_overcommit (sessions c) name) in
  reject_if negb unresolved with kNotFound in
  let* found := gets (fun c => CapacityLedger_find (ledger (tables c)) name) in
  match found with
  | None => fail kNotFound
  | Some entry =>
      let ceiling := entry_ceiling entry in
      match resolution with
      | kRetain => ret tt
      | kRevoke =>
          revoke_weakest resolution_fuel
            (with_reason context (str "overcommit resolution on " ++ name_view name)) name
            (bps ceiling) now 0
      end ;;
      let* peak := gets (fun c => peak_committed (index c) name all_time) in
      record_overcommit
        (mkOvercommitMutation name (rc_generation (ce_capacity entry)) peak ceiling all_time now true)
  end.

(** ** Boot and recovery *)

(** A coordinator before its store is read. *)
Definition fresh_stats : CoordinatorStats :=
  mkCoordinatorStats 0 0 0 0 0 0 0 0 0 0 0 0 0 0 0 0 0 0 (mkCounter 0) nil_id 0 0.

Definition blank_book : Book := mkBook [] [] [] [] [] [] [] [] [] [] 0 0.
Definition blank_sessions : Sessions := mkSessions [] [] [] [] [] [] [] [].
Definition blank_tables : Tables := mkTables [] [] [] nil_id (mkCounter 0) nil_id (mkCounter 0).

Definition blank_coordinator (cfg : CoordinatorConfig) (k : Clock) (st : Store) (d : Disk) (i : Io)
    (store_id : Identity128) : Coordinator :=
  mkCoordinator
    (mkEnv cfg k st d i (mkCoordinatorIncarnation nil_id (mkCounter 0) (mkCounter 0) store_id) false
       fresh_stats (report_ st))
    blank_tables blank_book blank_sessions index_empty (mkSuspension [] false).

(** [read_store_identity]: the first line of the identity file. *)
Fixpoint first_line (text : bytes) : bytes :=
  match text with
  | [] => []
  | b :: text => if byte_eqb b x0a then [] else b :: first_line text
  end.

Definition read_store_identity (d : Disk) : Result Identity128 :=
  match dk_store_id d with
  | None => Err kCorrupt
  | Some text =>
      match from_hex (strip_newlines (first_line text)) with
      | Ok id => Ok id
      | Err _ => Err kCorrupt
      end
  end.

(** The snapshot the store loaded, if it has one. *)
Definition load_state (st : Store) (c : Coordinator) : Result Coordinator :=
  match snapshot_payload_ st with
  | [] => Ok c
  | payload =>
      match decode_SnapshotState payload with
      | Err _ => Err kCorrupt
      | Ok (state, rest) =>
          refuse_if negb (r_exhausted rest) with kCorrupt in
          Ok (apply_snapshot_locked state c)
      end
  end.

Definition replay_record (r : JournalRecord) : co unit :=
  match decode_record (payload r) (jr_kind r) with
  | Err _ => fail kCorrupt
  | Ok durable => apply_replay_locked durable
  end.

(** The state of a coordinator from its store: snapshot, journal, derived
    structures. *)
Definition recover (st : Store) (c : Coordinator) : Result Coordinator :=
  let? c := load_state st c in
  match for_each (records_ st) replay_record c with
  | (Err e, _) => Err e
  | (Ok _, c) =>
      match rebuild_index_locked (set_book rebuild_queues c) with
      | (Err e, _) => Err e
      | (Ok _, c) => Ok c
      end
  end.

Definition advance_epoch (boot : Identity128) (next_epoch : FabricEpoch) (e : Env) : Env :=
  let seq := last_sequence_ (store e) in
  set_recovery
    (mkRecoveryReport (snapshot_loaded (recovery e)) (torn_tail_truncated (recovery e))
       (truncated_bytes (recovery e)) (rp_snapshot_sequence (recovery e))
       (records_replayed (recovery e)) (records_skipped (recovery e)) (value seq) next_epoch
       (Durable.detail (recovery e)))
    (set_incarnation (mkCoordinatorIncarnation boot next_epoch seq (ci_store (incarnation e))) e).

(** The part of [open] behind recovery: a new incarnation, then the facts that
    time changed while the fabric was down.  [fresh_boot] is the identity drawn
    when the configuration names none. *)
Definition boot_coordinator (fresh_boot : Identity128) : co unit :=
  let* epoch := gets (fun c => ci_epoch (incarnation (env c))) in
  reject_if value epoch =? u64_max with kOverflow in
  let next_epoch := mkCounter (value epoch + 1) in
  let* boot := gets (fun c => if is_nil (boot_identity (config (env c))) then fresh_boot
                              else boot_identity (config (env c))) in
  let* now := now_locked in
  append_locked (DFabricBoot (mkEpochMutation next_epoch boot now)) ;;
  modify (set_env (advance_epoch boot next_epoch)) ;;
  reconcile_locked now ;;
  refresh_applicability_locked now true ;;
  release_terminal_history_locked now.

(** [ReservationCoordinator::open] on a store directory. *)
Definition open_coordinator (cfg : CoordinatorConfig) (k : Clock) (d : Disk) (how : OpenIo) (i : Io)
    (fresh_store : bytes) (fresh_boot : Identity128) : Result Coordinator * Disk :=
  if (max_live_reservations cfg =? 0) || (max_attempts cfg =? 0) then (Err kInvalidArgument, d)
  else
    match open d default_options how fresh_store with
    | (Err e, d) => (Err e, d)
    | (Ok st, d) =>
        match (let? store_id := read_store_identity d in
               recover st (blank_coordinator cfg k st d i store_id)) with
        | Err e => (Err e, d)
        | Ok c =>
            match boot_coordinator fresh_boot c with
            | (Err e, c) => (Err e, disk (env c))
            | (Ok _, c) => (Ok c, disk (env c))
            end
        end
    end.
