(* ===== verification/CoordQuery.v ===== *)
(** * Coordinator: queries, explanations and the invariant audit

    [src/coordinator_query.cpp].  A query reconciles time first, like a request;
    the audit reads the whole state and lists what is violated (as data, not as
    text). *)
From S2P Require Import Prelude Errors Containers Identity Hash Bandwidth Time Authority Wire Policy Capacity Reservation Outcome SegTree Index Durable CodecBase Codec Store Coordinator CoordRecords CoordPersist CoordAssess CoordLifecycle CoordCommit CoordOps.

Definition kMaxQueryResults : nat := 4096.

Definition binding_contains (record : ReservationRecord) (name : ResourceName) : bool :=
  existsb (fun ref => beq (resource ref) name) (av_resources (authority record)).

(** ** Queries *)
Definition reconcile_now : co Timestamp :=
  let* now := now_locked in
  reconcile_locked now ;;
  ret now.

(** Generation 0 asks for the current one; a record that left the live history
    is answered from the archive, whatever its generation. *)
Definition get_reservation (id : Identity128) (generation : ReservationGeneration) : co ReservationRecord :=
  reconcile_now ;;
  let* found := gets (fun c =>
    if value generation =? 0 then current_record_locked c id else find_record_locked c id generation) in
  match found with
  | Some record => ret record
  | None =>
      let* archived := gets (fun c => om_find (retired (book c)) id) in
      match archived with Some record => ret record | None => fail kNotFound end
  end.

(** By identity, then generation. *)
Definition record_lt (a b : ReservationRecord) : bool := kltb (key_of a) (key_of b).

(** The first 4096 records the query selects, in key order. *)
Definition select (p : ReservationRecord -> bool) (b : Book) : list ReservationRecord :=
  sort record_lt (firstn kMaxQueryResults (List.filter p (om_values (records b)))).

Definition of_claimant (id : Identity128) (include_terminal : bool) (r : ReservationRecord) : bool :=
  beq (claimant (terms r)) id && (include_terminal || negb (is_terminal (rr_state r))).

Definition query_claimant (id : Identity128) (include_terminal : bool) : co (list ReservationRecord) :=
  reconcile_now ;;
  gets (fun c => select (of_claimant id include_terminal) (book c)).

Definition is_current_generation (b : Book) (r : ReservationRecord) : bool :=
  match om_find (current b) (rr_id r) with Some g => beq g (rr_generation r) | None => false end.

Definition on_window (b : Book) (name : ResourceName) (window : Interval) (include_terminal : bool)
    (r : ReservationRecord) : bool :=
  (include_terminal || is_current_generation b r) && binding_contains r name &&
  (empty window || overlaps (interval (terms r)) window).

Definition query_resource (name : ResourceName) (window : Interval) (include_terminal : bool) :
    co (list ReservationRecord) :=
  reconcile_now ;;
  gets (fun c => select (on_window (book c) name window include_terminal) (book c)).

Definition remaining_on (c : Coordinator) (name : ResourceName) (window : Interval) (entry : CapacityEntry) :
    RemainingCapacity :=
  let ceiling := entry_ceiling entry in
  let left := bps ceiling - bps (peak_combined (index c) name window) in
  mkRemainingCapacity name (rc_generation (ce_capacity entry)) window ceiling
    (peak_committed (index c) name window) (peak_holds (index c) name window)
    (mkBandwidth (if left >? 0 then left else 0))
    (negb (ce_withdrawn entry) && maintenance_covers (ce_capacity entry) window)
    (unresolved_overcommit (sessions c) name).

Definition query_remaining (name : ResourceName) (window : Interval) : co (list RemainingCapacity) :=
  reconcile_now ;;
  lift (validate_interval window) ;;
  let* found := gets (fun c => CapacityLedger_find (ledger (tables c)) name) in
  match found with
  | None => fail kNotFound
  | Some entry => gets (fun c => [remaining_on c name window entry])
  end.

Definition query_timeline (name : ResourceName) (window : Interval) (max_points : Z) : co CapacityTimeline :=
  reconcile_now ;;
  lift (validate_interval window) ;;
  reject_if (max_points =? 0) || (max_points >? 4096) with kInvalidArgument in
  gets (fun c =>
    let '(points, truncated) := index_timeline (index c) name window max_points in
    mkCapacityTimeline name window points truncated).

(** ** Lineage *)
Definition kMaxLineage : nat := 4096.

(** The walk over predecessors, nearest first. *)
Fixpoint ancestors (hops : nat) (b : Book) (cursor : Identity128) (generation : ReservationGeneration) :
    list SupersessionEdge :=
  match hops with
  | O => []
  | S hops =>
      if is_nil cursor then []
      else
        match find_record b cursor generation with
        | None => []
        | Some p =>
            mkSupersessionEdge cursor generation (rr_id p)
              (mkCounter (to_u 64 (value (rr_generation p) + 1))) (rr_state_changed_at p) (mkCounter 0)
              (state_reason p) ::
            ancestors hops b (rr_predecessor p) (rr_predecessor_generation p)
        end
  end.

(** The recorded edge behind a generation, or one derived from a record that
    names it as its predecessor. *)
Definition next_edge (b : Book) (id : Identity128) (generation : ReservationGeneration) :
    option SupersessionEdge :=
  match find (fun e => beq (se_predecessor e) id && beq (se_predecessor_generation e) generation) (edges b) with
  | Some e => Some e
  | None =>
      option_map (fun r =>
        mkSupersessionEdge id generation (rr_id r) (rr_generation r) (rr_state_changed_at r) (mkCounter 0)
          (state_reason r))
        (find (fun r => beq (rr_predecessor r) id && beq (rr_predecessor_generation r) generation)
           (om_values (records b)))
  end.

Fixpoint descend (hops : nat) (b : Book) (id : Identity128) (generation : ReservationGeneration) :
    list SupersessionEdge :=
  match hops with
  | O => []
  | S hops =>
      match next_edge b id generation with
      | None => []
      | Some e => e :: descend hops b (successor e) (successor_generation e)
      end
  end.

Definition query_lineage (c : Coordinator) (id : Identity128) (generation : ReservationGeneration) :
    Result LineageView :=
  let b := book c in
  let? effective :=
    (if value generation =? 0
     then match om_find (current b) id with Some g => Ok g | None => Err kNotFound end
     else Ok generation) in
  match find_record b id effective with
  | None => Err kNotFound
  | Some r =>
      let up := ancestors kMaxLineage b (rr_predecessor r) (rr_predecessor_generation r) in
      let down := descend kMaxLineage b id effective in
      Ok (mkLineageView id effective (rev up) down
            ((length up =? kMaxLineage)%nat || (length down =? kMaxLineage)%nat))
  end.

(** ** Explanations and reports *)
Definition explain_conflicts (t : ReservationTerms) (candidate : Identity128) : co AdmissionReport :=
  let* now := now_locked in
  lift (validate_terms t) ;;
  reconcile_locked now ;;
  let* (pol, note) := gets (fun c => policy_for_locked c (policy t)) in
  let* binding := resolve_binding_locked t in
  with_suspension (
    let* own := gets (fun c => if is_nil candidate then None else current_record_locked c candidate) in
    match own with Some record => suspend record | None => ret tt end ;;
    let* a := gets (fun c => assess c t binding pol) in
    ret (to_admission_report (explained a (append_note (as_explanation a) note)))).

Definition overcommit_entry (s : OvercommitState) : OvercommitEntry :=
  let m := mutation s in
  mkOvercommitEntry (om_resource m) (om_generation m) (om_committed_peak m) (om_ceiling m) (om_window m) (om_at m).

Definition overcommit_report (c : Coordinator) : OvercommitReport :=
  let entries := sort (fun a b => kltb (oe_resource a) (oe_resource b))
    (map overcommit_entry (List.filter (fun s => negb (oc_resolved s)) (om_values (overcommit (sessions c))))) in
  mkOvercommitReport entries (match entries with [] => false | _ => true end).

(** [stats]: the counters, with what the state itself counts. *)
Definition coordinator_stats (c : Coordinator) : CoordinatorStats :=
  let s := stats (env c) in
  let i := incarnation (env c) in
  mkCoordinatorStats (commits s) (commit_rejections s) (replayed_attempts s) (amendments s) (releases s)
    (expiries s) (recalls s) (revocations s) (revalidations s) (fenced_holds s) (capacity_ingestions s)
    (generation_advances s) (durable_records s) (overcommit_events s)
    (Z.of_nat (length (records (book c)))) (Z.of_nat (length (series_records (book c))))
    (Z.of_nat (length (List.filter (fun h => negb (released h)) (om_values (holds (sessions c))))))
    (entry_count_ (index c)) (ci_epoch i) (ci_boot i) (journal_bytes_ (store (env c)))
    (value (snapshot_sequence_ (store (env c)))).

(** [holds]: by creation, then identity. *)
Definition all_holds (c : Coordinator) : list HoldRecord :=
  sort (fun a b => kltb (hr_created_at a, hr_id a) (hr_created_at b, hr_id b)) (om_values (holds (sessions c))).

(** ** The audit *)
Inductive Violation :=
  | v_live_generations (id : Identity128) (n : Z)
  | v_not_indexed (key : ReservationKey)
  | v_indexed_not_consuming (key : ReservationKey)
  | v_accounting (name : ResourceName) (indexed brute : Z)
  | v_over_ceiling (name : ResourceName) (indexed ceiling : Z)
  | v_hold_not_indexed (id : Identity128)
  | v_hold_indexed (id : Identity128)
  | v_predecessor_not_older (key : ReservationKey)
  | v_walk_bound (id : Identity128)
  | v_lineage_cycle (id : Identity128)
  | v_sequence_beyond_head (id : Identity128)
  | v_queue_unknown (key : ReservationKey)
  | v_queue_not_consuming (key : ReservationKey)
  | v_queue_deadline (key : ReservationKey)
  | v_attempt_missing (attempt : Identity128).

(** 1. At most one non-terminal generation per identity. *)
Definition live_per_id (b : Book) : omap Identity128 Z :=
  fold_left (fun m p =>
    if is_terminal (rr_state p.2) then m
    else om_set m p.1.1 (default 0 (om_find m p.1.1) + 1)) (records b) [].

Definition audit_live (b : Book) : list Violation :=
  flat_map (fun p => if p.2 >? 1 then [v_live_generations p.1 p.2] else []) (live_per_id b).

(** 2. The index holds the consuming, currently bound generations. *)
Definition audit_indexed (c : Coordinator) (r : ReservationRecord) : list Violation :=
  let indexed := index_contains (index c) kReservation (rr_id r) && index_holds_locked c r in
  let should := indexable_locked c r in
  (if should && (negb indexed || negb (is_current_generation (book c) r)) then [v_not_indexed (key_of r)] else []) ++
  (if indexed && negb should then [v_indexed_not_consuming (key_of r)] else []).

(** 3. Brute-force accounting equals the index, and the ceilings hold. *)
Definition contributions (c : Coordinator) (name : ResourceName) : list (Interval * Z) :=
  map (fun r => (consuming_interval r, bps (amount (terms r))))
    (List.filter (fun r => is_current_generation (book c) r && indexable_locked c r && binding_contains r name)
       (om_values (records (book c)))) ++
  map (fun h => (hr_interval h, bps (hr_amount h)))
    (List.filter (fun h => negb (released h) && existsb (beq name) (hr_resources h))
       (om_values (holds (sessions c)))).

Definition sum_at (l : list (Interval * Z)) (sample : Timestamp) : Z :=
  fold_left (fun sum p => if contains p.1 sample then sum + p.2 else sum) l 0.

Definition brute_peak (l : list (Interval * Z)) : Z :=
  fold_left (fun peak sample => Z.max peak (sum_at l sample))
    (unique_by keqb (sort_keys (map (fun p => start p.1) l))) 0.

Definition audit_resource (c : Coordinator) (name : ResourceName) : list Violation :=
  let brute := brute_peak (contributions c name) in
  let indexed := bps (peak_combined (index c) name all_time) in
  (if brute =? indexed then [] else [v_accounting name indexed brute]) ++
  match CapacityLedger_find (ledger (tables c)) name with
  | Some entry =>
      let ceiling := bps (committable_ceiling (ce_capacity entry)) in
      if negb (ce_withdrawn entry) && (indexed >? ceiling) && negb (unresolved_overcommit (sessions c) name)
      then [v_over_ceiling name indexed ceiling] else []
  | None => []
  end.

(** 4. Every live hold has index entries, and a released one has none. *)
Definition audit_hold (c : Coordinator) (h : HoldRecord) : list Violation :=
  let indexed := index_contains (index c) kHold (hr_id h) in
  (if negb (released h) && negb indexed then [v_hold_not_indexed (hr_id h)] else []) ++
  (if released h && indexed then [v_hold_indexed (hr_id h)] else []).

(** 5. The walk over predecessors; [hops] counts the rounds left. *)
Fixpoint walk_lineage (hops : nat) (b : Book) (self cursor : Identity128)
    (generation : ReservationGeneration) : list Violation :=
  if is_nil cursor then []
  else
    match hops with
    | O => [v_walk_bound self]
    | S hops =>
        match find_record b cursor generation with
        | None => []
        | Some p =>
            if beq (rr_predecessor p) self then [v_lineage_cycle self]
            else walk_lineage hops b self (rr_predecessor p) (rr_predecessor_generation p)
        end
    end.

Definition audit_lineage (b : Book) (r : ReservationRecord) : list Violation :=
  if is_nil (rr_predecessor r) then []
  else
    (if value (rr_predecessor_generation r) <? value (rr_generation r) then []
     else [v_predecessor_not_older (key_of r)]) ++
    walk_lineage kMaxLineage b (rr_id r) (rr_predecessor r) (rr_predecessor_generation r).

(** 6. Sequences stay behind the journal head, and the expiry queue agrees with
    the records. *)
Definition audit_sequence (c : Coordinator) (r : ReservationRecord) : list Violation :=
  if value (rr_sequence r) >? value (last_sequence_ (store (env c))) then [v_sequence_beyond_head (rr_id r)] else [].

Definition audit_expiry (b : Book) (p : Timestamp * ReservationKey) : list Violation :=
  match om_find (records b) p.2 with
  | None => [v_queue_unknown p.2]
  | Some r =>
      if negb (consumes r) then [v_queue_not_consuming p.2]
      else if negb (beq (end_ (consuming_interval r)) p.1) then [v_queue_deadline p.2]
      else []
  end.

(** 7. An attempt that claims acceptance has its record. *)
Definition audit_attempt (b : Book) (a : AttemptRecord) : list Violation :=
  if negb (outcome_is_acceptance (at_outcome a)) || is_nil (at_reservation a) then []
  else
    match find_record b (at_reservation a) (at_generation a) with
    | Some _ => []
    | None => if om_mem (retired b) (at_reservation a) then [] else [v_attempt_missing (at_attempt a)]
    end.

Definition audit_locked (c : Coordinator) : list Violation :=
  let b := book c in
  let all := om_values (records b) in
  audit_live b ++
  flat_map (audit_indexed c) all ++
  flat_map (audit_resource c) (resource_names (ledger (tables c))) ++
  flat_map (audit_hold c) (om_values (holds (sessions c))) ++
  flat_map (audit_lineage b) all ++
  flat_map (audit_sequence c) all ++
  flat_map (audit_expiry b) (expiry_queue b) ++
  flat_map (audit_attempt b) (om_values (attempts (sessions c))).
