(* ===== verification/CoordSample.v ===== *)
(** * Coordinator: a small fabric for concrete runs

    One link of 1000 bit/s with 100 bit/s of protected headroom, one client, and
    the coordinator that opens on an empty directory.  The witnesses and the
    concrete theorems of the coordinator run on it. *)
From S2P Require Import Prelude Errors Containers Identity Hash Bandwidth Time Authority Wire Policy Capacity Reservation Outcome SegTree Index Durable CodecBase Codec Store Coordinator CoordRecords CoordPersist CoordAssess CoordLifecycle CoordCommit CoordOps.

Module Sample.

Definition id_of (n : Z) : Identity128 := derive nil_id n.
Definition second (s : Z) : Timestamp := mkTs (s * kNsPerSecond).

Definition config_of (live history attempts : Z) : CoordinatorConfig :=
  mkCoordinatorConfig live history attempts 100 true (id_of 1).

(** The clock stands still at second 1000. *)
Definition opened_with (cfg : CoordinatorConfig) (later : list Timestamp) : Coordinator :=
  match (open_coordinator cfg (mkClock (second 1000) later) empty_disk open_io_ok io_ok (str "store")
           (id_of 2)).1 with
  | Ok c => c
  | Err _ =>
      blank_coordinator cfg (mkClock ts0 [])
        (mkStore default_options true [] (mkCounter 0) (mkCounter 0) 0 [] empty_report) empty_disk io_ok
        nil_id
  end.

Definition opened : Coordinator := opened_with (config_of 1000 1000 1000) [].

(** A request of the client in fabric epoch 1. *)
Definition context (attempt : Identity128) : RequestContext :=
  mkRequestContext (mkName (str "client")) (id_of 3) (id_of 4) (id_of 5) attempt nil_id (mkCounter 0)
    (mkCounter 1) (str "why").

Definition link : ResourceName := mkName (str "link").
Definition link_capacity (generation : Z) (reservable : Z) : ResourceCapacity :=
  mkResourceCapacity link (mkCounter generation) (mkBandwidth reservable) (mkBandwidth 100) empty_name
    (mkCounter 0) [].
Definition snapshot (n : Z) (capacity : ResourceCapacity) : CapacitySnapshot :=
  mkCapacitySnapshot (id_of (100 + n)) (mkCounter n) (mkCounter 0) ts0 true [capacity].

Definition terms_on (from to : Z) (amount : Z) (class : GuaranteeClass) : ReservationTerms :=
  mkReservationTerms (id_of 7) (mkCounter 1) kResources [link] empty_name (mkCounter 0)
    (mkInterval (second from) (second to)) (mkBandwidth amount) None None class 0 false false (mkDur 0)
    bw0 (mkName (str "policy")) [] no_recurrence.

Definition state_of {A} (m : co A) (c : Coordinator) : Coordinator := (m c).2.

(** The fabric once the link has capacity. *)
Definition ready : Coordinator :=
  state_of (ingest_capacity_locked (snapshot 1 (link_capacity 1 1000)) [] (context nil_id)) opened.

(** And once 600 bit/s are committed on it for the seconds 2000 to 3000. *)
Definition committed : Coordinator :=
  state_of (create_locked (context (id_of 20)) (terms_on 2000 3000 600 kProtected) (id_of 21) false [])
    ready.

(** What an operation that succeeds returns. *)
Definition result_of {A} (default_ : A) (m : co A) (c : Coordinator) : A :=
  match (m c).1 with Ok a => a | Err _ => default_ end.

Definition no_commit : CommitResult :=
  mkCommitResult default_record None [] (brief_report ao_kInvalidRequest []) false nil_id (mkCounter 0).

End Sample.
