(* ===== verification/CoordSteps.v ===== *)
(** * Coordinator: public operations as steps, and reasoning about them

    The entry points of [ReservationCoordinator] that change state as one
    [Request] type with a handler, reachability from [open], and the rules that
    lift a relation between states from the primitives to every operation. *)
From stdpp Require Import relations.
From S2P Require Import Prelude Errors Containers Identity Hash Bandwidth Time Authority Wire Policy Capacity Reservation Outcome SegTree Index Durable CodecBase Codec Store Coordinator CoordRecords CoordPersist CoordAssess CoordLifecycle CoordCommit CoordOps CoordQuery.

(** ** Requests *)
Inductive Request :=
  | QIngestCapacity (snapshot : CapacitySnapshot) (names : list ResourceName) (context : RequestContext)
  | QIngestPaths (snapshot : PathAuthoritySnapshot) (context : RequestContext)
  | QIngestPolicy (record : PolicyRecord) (context : RequestContext)
  | QRegisterClaimant (claimant : Identity128) (generation : ClaimantGeneration) (context : RequestContext)
  | QFence (context : RequestContext) (claimant : Identity128) (generation : ClaimantGeneration)
      (boot session : Identity128) (wide : bool)
  | QCreate (context : RequestContext) (t : ReservationTerms) (requested_id : Identity128)
      (dry_run : bool) (hold_ids : list Identity128)
  | QAmend (context : RequestContext) (target : Identity128) (generation : ReservationGeneration)
      (t : ReservationTerms) (dry_run : bool)
  | QRelease (context : RequestContext) (id : Identity128) (generation : ReservationGeneration)
  | QRecall (context : RequestContext) (id : Identity128) (generation : ReservationGeneration)
      (effective_at : Timestamp) (g : Duration) (force : bool)
  | QRevoke (context : RequestContext) (id : Identity128) (generation : ReservationGeneration)
  | QRevalidate (context : RequestContext) (id : Identity128) (generation : ReservationGeneration)
      (mark_stale : bool)
  | QReconcileAttempt (context : RequestContext) (attempt : Identity128)
  | QReconcileLifecycle (context : RequestContext)
  | QAcquireHold (context : RequestContext) (t : ReservationTerms) (expires : Timestamp)
  | QReleaseHold (context : RequestContext) (id : Identity128) (generation : Counter HoldGenerationTag)
  | QReleaseSession (context : RequestContext)
  | QResolveOvercommit (context : RequestContext) (name : ResourceName)
      (resolution : OvercommitResolution)
  | QCompact
  | QShutdown
  | QGetReservation (id : Identity128) (generation : ReservationGeneration)
  | QQueryClaimant (id : Identity128) (include_terminal : bool)
  | QQueryResource (name : ResourceName) (window : Interval) (include_terminal : bool)
  | QQueryRemaining (name : ResourceName) (window : Interval)
  | QQueryTimeline (name : ResourceName) (window : Interval) (max_points : Z)
  | QExplainConflicts (t : ReservationTerms) (candidate : Identity128).

(** The state change and the status of a request. *)
Definition drop {A} (m : co A) : co unit := m ;; ret tt.

Definition handle (q : Request) : co unit :=
  match q with
  | QIngestCapacity s names context => ingest_capacity_locked s names context
  | QIngestPaths s context => ingest_paths_locked s context
  | QIngestPolicy r context => ingest_policy_locked r context
  | QRegisterClaimant cl g context => register_claimant_locked cl g context
  | QFence context cl g boot session wide => fence_locked context cl g boot session wide
  | QCreate context t id dry hold_ids => drop (create_locked context t id dry hold_ids)
  | QAmend context target g t dry => drop (amend_locked context target g t dry)
  | QRelease context id g => drop (release_locked context id g)
  | QRecall context id g at_ gr force => drop (recall_locked context id g at_ gr force)
  | QRevoke context id g => drop (revoke_locked context id g)
  | QRevalidate context id g st => drop (revalidate_locked context id g st)
  | QReconcileAttempt context a => drop (reconcile_attempt_locked context a)
  | QReconcileLifecycle context => drop (reconcile_lifecycle_locked context)
  | QAcquireHold context t expires => drop (acquire_hold context t expires)
  | QReleaseHold context id g => drop (release_hold context id g)
  | QReleaseSession context => release_session context
  | QResolveOvercommit context name how => resolve_overcommit context name how
  | QCompact => compact_locked
  | QShutdown => begin_shutdown
  | QGetReservation id g => drop (get_reservation id g)
  | QQueryClaimant id all => drop (query_claimant id all)
  | QQueryResource name window all => drop (query_resource name window all)
  | QQueryRemaining name window => drop (query_remaining name window)
  | QQueryTimeline name window n => drop (query_timeline name window n)
  | QExplainConflicts t candidate => drop (explain_conflicts t candidate)
  end.

(** The context of a request and whether it must carry an attempt; compaction,
    shutdown and queries carry none. *)
Definition request_context (q : Request) : option (RequestContext * bool) :=
  match q with
  | QIngestCapacity _ _ context | QIngestPaths _ context | QIngestPolicy _ context
  | QRegisterClaimant _ _ context | QFence context _ _ _ _ _ | QReconcileAttempt context _
  | QReconcileLifecycle context | QReleaseHold context _ _ | QReleaseSession context =>
      Some (context, false)
  | QCreate context _ _ _ _ | QAmend context _ _ _ _ | QRelease context _ _
  | QRecall context _ _ _ _ _ | QRevoke context _ _ | QRevalidate context _ _ _
  | QAcquireHold context _ _ | QResolveOvercommit context _ _ => Some (context, true)
  | QCompact | QShutdown | QGetReservation _ _ | QQueryClaimant _ _ | QQueryResource _ _ _
  | QQueryRemaining _ _ | QQueryTimeline _ _ _ | QExplainConflicts _ _ => None
  end.

(** ** Relations kept by operations *)
Definition keeps (R : Coordinator -> Coordinator -> Prop) {A} (m : co A) : Prop :=
  forall c, R c (m c).2.

Section keeps.
Context (R : Coordinator -> Coordinator -> Prop) `{!PreOrder R}.

Lemma keeps_ret {A} (a : A) : keeps R (ret a).
Proof. intros c. reflexivity. Qed.
Lemma keeps_fail {A} e : keeps R (@fail A e).
Proof. intros c. reflexivity. Qed.
Lemma keeps_gets {A} (f : Coordinator -> A) : keeps R (gets f).
Proof. intros c. reflexivity. Qed.
Lemma keeps_lift {A} (r : Result A) : keeps R (lift r).
Proof. intros c. reflexivity. Qed.
Lemma keeps_look {A} (f : Coordinator -> Result A) : keeps R (fun c => (f c, c)).
Proof. intros c. reflexivity. Qed.

Lemma keeps_bind {A B} (m : co A) (k : A -> co B) :
  keeps R m -> (forall a, keeps R (k a)) -> keeps R (bind m k).
Proof.
  intros M K c. unfold bind. specialize (M c). destruct (m c) as [[a|e] c']; cbn [snd] in *; [|exact M].
  etransitivity; [exact M | apply K].
Qed.

Lemma keeps_ignore {A} (m : co A) : keeps R m -> keeps R (ignore m).
Proof. intros M c. apply M. Qed.

Lemma keeps_for_each {A} (l : list A) (f : A -> co unit) :
  (forall a, keeps R (f a)) -> keeps R (for_each l f).
Proof. intros F. induction l; simpl; [apply keeps_ret | apply keeps_bind; auto]. Qed.

Lemma keeps_co_fold {A B} (f : B -> A -> co B) (l : list A) (b : B) :
  (forall b a, keeps R (f b a)) -> keeps R (co_fold f l b).
Proof. intros F. revert b. induction l; intros b; simpl; [apply keeps_ret | apply keeps_bind; auto]. Qed.

Lemma keeps_when b m : keeps R m -> keeps R (when b m).
Proof. intros M. destruct b; [exact M | apply keeps_ret]. Qed.

Lemma keeps_modify f : (forall c, R c (f c)) -> keeps R (modify f).
Proof. intros F c. apply F. Qed.

(** The state a continuation runs in may be a match on an intermediate result. *)
Lemma keeps_with_suspension {A} (m : co A) :
  (forall f c, R c (set_suspension f c)) -> (forall l c, R c (set_index (restore_entries l) c)) ->
  keeps R m -> keeps R (with_suspension m).
Proof.
  intros Su Ix M c. unfold with_suspension.
  specialize (M (set_suspension (fun _ => mkSuspension [] false) c)).
  destruct (m _) as [r c']. cbn [snd] in *.
  etransitivity; [apply Su|]. etransitivity; [exact M|]. etransitivity; [apply Ix|]. apply Su.
Qed.
End keeps.

Create HintDb frame discriminated.
#[export] Hint Constants Opaque : frame.

(** Split an operation into its primitives; the database [frame] closes them. *)
Ltac frame_step :=
  match goal with
  | |- keeps _ (bind _ _) => apply keeps_bind; [exact _ | | intros ?]
  | |- keeps _ (ret _) => apply keeps_ret; exact _
  | |- keeps _ (fail _) => apply keeps_fail; exact _
  | |- keeps _ (gets _) => apply keeps_gets; exact _
  | |- keeps _ (lift _) => apply keeps_lift; exact _
  | |- keeps _ (fun c => (_, c)) => apply keeps_look; exact _
  | |- keeps _ (ignore _) => apply keeps_ignore; try exact _
  | |- keeps _ (when _ _) => apply keeps_when; [exact _ |]
  | |- keeps _ (for_each _ _) => apply keeps_for_each; [exact _ | intros ?]
  | |- keeps _ (co_fold _ _ _) => apply keeps_co_fold; [exact _ | intros ? ?]
  | |- keeps _ (if ?b then _ else _) => destruct b
  | |- keeps _ (match ?x with _ => _ end) => destruct x
  | |- keeps _ (let _ := _ in _) => cbv zeta
  end.
Ltac frame := repeat first [solve [eauto 6 with frame nocore] | frame_step].

(** ** The frame interface

    What a relation between states must allow so that every operation keeps it:
    any change of the books, tables and sessions, the journal and snapshot
    calls, and the operations of the index. *)

(** One operation of the capacity index, successful or not. *)
Inductive index_move : CapacityIndex -> CapacityIndex -> Prop :=
  | move_insert x e x' : index_insert x e = Ok x' -> index_move x x'
  | move_erase x k id g r x' : index_erase x k id g r = Ok x' -> index_move x x'
  | move_erase_all x k id g : index_move x (index_erase_all x k id g).2.

(** Changes of the environment that touch neither configuration nor files. *)
Record env_frame (e e' : Env) : Prop := {
  ef_config : config e' = config e;
  ef_store : store e' = store e /\ disk e' = disk e /\ io e' = io e;
  ef_epoch : ci_epoch (incarnation e') = ci_epoch (incarnation e) /\
             ci_boot (incarnation e') = ci_boot (incarnation e);
  ef_clock : clock e' = clock e \/ clock e' = (clock_read (clock e)).2;
  ef_stopping : stopping e = true -> stopping e' = true }.

(** The changes the lifecycle makes to the sessions and to the record book, one
    member at a time: no attempt is remembered, no generation registered. *)
Inductive sessions_step : Sessions -> Sessions -> Prop :=
  | step_same s : sessions_step s s
  | step_claimant id g s : sessions_step s (set_claimants (om_set (claimants s) id g) s)
  | step_fence f s : sessions_step s (apply_fence f s)
  | step_hold id h s : sessions_step s (set_holds (om_set (holds s) id h) s)
  | step_released l s : sessions_step s (set_released_holds l s)
  | step_overcommit m s : sessions_step s (apply_overcommit m s).

(** Edges, series, archive and queues are beside the records. *)
Record meta_step (b b' : Book) : Prop := {
  ms_records : records b' = records b;
  ms_generations : generations b' = generations b /\ current b' = current b;
  ms_counts : live_count b' = live_count b /\ history_count b' = history_count b }.

Inductive book_step : Book -> Book -> Prop :=
  | step_put r b : book_step b (put_record r b)
  | step_state r from to b : book_step b (put_record r (recount from to b))
  | step_meta b b' : meta_step b b' -> book_step b b'
  | step_retire archive ks b : book_step b (fold_left (retire_key archive) ks b).

(** A call into the store changes the environment only: files, clock-free
    counters and the last sequence. *)
Record store_moves (c c' : Coordinator) : Prop := {
  sv_parts : tables c' = tables c /\ book c' = book c /\ sessions c' = sessions c /\
             index c' = index c /\ suspension c' = suspension c;
  sv_config : config (env c') = config (env c) /\ clock (env c') = clock (env c) /\
              stopping (env c') = stopping (env c);
  sv_epoch : ci_epoch (incarnation (env c')) = ci_epoch (incarnation (env c)) /\
             ci_boot (incarnation (env c')) = ci_boot (incarnation (env c)) }.

Lemma append_moves r : keeps store_moves (append_locked r).
Proof.
  intros c. unfold append_locked. destruct (next_io _ _), (append _ _ _ _ _) as [[[s|e] st] d];
    repeat split.
Qed.
Lemma snapshot_moves p : keeps store_moves (write_snapshot_locked p).
Proof.
  intros c. unfold write_snapshot_locked. destruct (next_io _ _), (write_snapshot _ _ _ _) as [[rw st] d].
  repeat split.
Qed.
Lemma rotate_moves : keeps store_moves rotate_journal_locked.
Proof.
  intros c. unfold rotate_journal_locked. destruct (next_io _ _), (rotate_journal _ _ _) as [[rw st] d].
  repeat split.
Qed.

(** What an operation needs of a relation that leaves the records alone. *)
Class Mute (R : Coordinator -> Coordinator -> Prop) : Prop := {
  #[global] mute_preorder :: PreOrder R;
  mute_env f c : env_frame (env c) (f (env c)) -> R c (set_env f c);
  mute_sessions f c : sessions_step (sessions c) (f (sessions c)) -> R c (set_sessions f c);
  mute_meta f c : meta_step (book c) (f (book c)) -> R c (set_book f c);
  mute_suspension f c : R c (set_suspension f c);
  mute_index f c : rtc index_move (index c) (f (index c)) -> R c (set_index f c);
  mute_append r : keeps R (append_locked r);
  mute_compact : keeps R compact_locked }.

(** What the lifecycle needs besides. *)
Class Calm (R : Coordinator -> Coordinator -> Prop) : Prop := {
  #[global] calm_mute :: Mute R;
  calm_book f c : book_step (book c) (f (book c)) -> R c (set_book f c) }.

(** A relation that ignores the store is closed under its calls. *)
Lemma Mute_intro R `{!PreOrder R} :
  (forall f c, env_frame (env c) (f (env c)) -> R c (set_env f c)) ->
  (forall f c, sessions_step (sessions c) (f (sessions c)) -> R c (set_sessions f c)) ->
  (forall f c, meta_step (book c) (f (book c)) -> R c (set_book f c)) ->
  (forall f c, R c (set_suspension f c)) ->
  (forall f c, rtc index_move (index c) (f (index c)) -> R c (set_index f c)) ->
  (forall c c', store_moves c c' -> R c c') -> Mute R.
Proof.
  intros E S B Su I M. split; auto.
  - intros r c. apply M, append_moves.
  - unfold compact_locked. frame; intros c; [apply M, snapshot_moves | apply M, rotate_moves | apply E; constructor; auto].
Qed.

Lemma Calm_intro R `{!PreOrder R} :
  (forall f c, env_frame (env c) (f (env c)) -> R c (set_env f c)) ->
  (forall f c, book_step (book c) (f (book c)) -> R c (set_book f c)) ->
  (forall f c, sessions_step (sessions c) (f (sessions c)) -> R c (set_sessions f c)) ->
  (forall f c, R c (set_suspension f c)) ->
  (forall f c, rtc index_move (index c) (f (index c)) -> R c (set_index f c)) ->
  (forall c c', store_moves c c' -> R c c') -> Calm R.
Proof. intros E B S Su I M. split; [apply Mute_intro; auto using step_meta | exact B]. Qed.

(** What the operations need besides that register records and remember
    attempts, and what the ingestion of tables needs on top. *)
Class Booked (R : Coordinator -> Coordinator -> Prop) : Prop := {
  #[global] booked_calm :: Calm R;
  frame_register r c : R c (set_book (register_record r) c);
  frame_attempt a : keeps R (remember_attempt_locked a) }.

Class Framed (R : Coordinator -> Coordinator -> Prop) : Prop := {
  #[global] frame_booked :: Booked R;
  frame_tables f c : R c (set_tables f c) }.

Lemma Framed_intro R :
  Calm R -> (forall f c, R c (set_tables f c)) -> (forall r c, R c (set_book (register_record r) c)) ->
  (forall a, keeps R (remember_attempt_locked a)) -> Framed R.
Proof. intros C T B A. split; [split; assumption | exact T]. Qed.

Lemma move_insert_loop x es : rtc index_move x (insert_loop x es).2.
Proof.
  revert x. induction es as [|e es IH]; intros x; simpl; [reflexivity|].
  destruct (index_insert x e) as [x'|] eqn:E; [|reflexivity].
  eapply rtc_l; [eapply move_insert, E | apply IH].
Qed.

Lemma move_replace_all x k id g es : rtc index_move x (index_replace_all x k id g es).2.
Proof.
  unfold index_replace_all. pose proof (move_erase_all x k id g) as M.
  destruct (index_erase_all x k id g) as [[u|e] x'] eqn:E; cbn [snd] in M.
  - eapply rtc_l; [exact M | apply move_insert_loop].
  - destruct (beq e kNotFound); [|apply rtc_once, M].
    eapply rtc_l; [exact M | apply move_insert_loop].
Qed.

Lemma move_restore l x : rtc index_move x (restore_entries l x).
Proof.
  revert x. induction l as [|e l IH]; intros x; [reflexivity|]. unfold restore_entries in *. simpl.
  destruct (index_insert x e) as [x'|] eqn:E; [|apply IH].
  eapply rtc_l; [eapply move_insert, E | apply IH].
Qed.

Section mute.
Context (R : Coordinator -> Coordinator -> Prop) `{!Mute R}.

Lemma keeps_env f : (forall e, env_frame e (f e)) -> keeps R (modify (set_env f)).
Proof. intros F c. apply mute_env, F. Qed.
Lemma keeps_sessions f : (forall s, sessions_step s (f s)) -> keeps R (modify (set_sessions f)).
Proof. intros F c. apply mute_sessions, F. Qed.
Lemma keeps_suspension f : keeps R (modify (set_suspension f)).
Proof. intros c. apply mute_suspension. Qed.
Lemma keeps_meta f : (forall b, meta_step b (f b)) -> keeps R (modify (set_book f)).
Proof. intros F c. apply mute_meta, F. Qed.
Lemma keeps_sync_queues r : keeps R (sync_queues_locked r).
Proof. apply keeps_meta. intros b. unfold sync_queues. case_if; repeat split. Qed.
Lemma keeps_on_index f :
  (forall x, rtc index_move x (f x).2) -> keeps R (on_index f).
Proof.
  intros F c. unfold on_index. specialize (F (index c)). destruct (f (index c)) as [r x].
  cbn [snd] in *. apply mute_index, F.
Qed.

#[local] Hint Constructors sessions_step : frame.
#[local] Hint Extern 2 (meta_step _ _) => repeat split : frame.
#[local] Hint Resolve keeps_meta : frame.
#[local] Hint Resolve keeps_sessions keeps_suspension keeps_sync_queues mute_append mute_compact : frame.

Lemma keeps_bump k : keeps R (bump k).
Proof. apply keeps_env. intros e. constructor; auto. Qed.
Lemma keeps_now : keeps R now_locked.
Proof.
  intros c. unfold now_locked. destruct (clock_read (clock (env c))) as [t k] eqn:K.
  apply mute_env. constructor; auto. right. cbn. now rewrite K.
Qed.
Lemma keeps_check_context x b : keeps R (check_context x b).
Proof. apply keeps_look. exact _. Qed.
#[local] Hint Resolve keeps_bump keeps_now keeps_check_context : frame.

Lemma keeps_erase_holder k id g : keeps R (erase_holder k id g).
Proof. intros c. apply mute_index. apply rtc_once, move_erase_all. Qed.
#[local] Hint Resolve keeps_erase_holder : frame.
Lemma keeps_release_hold id why b : keeps R (release_hold_locked id why b).
Proof. unfold release_hold_locked. frame. Qed.
#[local] Hint Resolve keeps_release_hold : frame.
Lemma keeps_release_holds_where P why b : keeps R (release_holds_where P why b).
Proof. unfold release_holds_where. frame. Qed.
#[local] Hint Resolve keeps_release_holds_where : frame.
Lemma keeps_register_generation cl g now : keeps R (register_generation cl g now).
Proof. unfold register_generation. frame. Qed.
#[local] Hint Resolve keeps_register_generation : frame.
Lemma keeps_ensure_claimant cl g now : keeps R (ensure_claimant_locked cl g now).
Proof. unfold ensure_claimant_locked, fence_holds_for_claimant_locked. frame. Qed.
#[local] Hint Resolve keeps_ensure_claimant : frame.

Lemma keeps_index_insert r : keeps R (index_insert_locked r).
Proof.
  unfold index_insert_locked. frame. apply keeps_on_index. intros x. apply move_replace_all.
Qed.
Lemma keeps_index_erase r : keeps R (index_erase_locked r).
Proof.
  unfold index_erase_locked. frame. apply keeps_on_index. intros x. apply rtc_once, move_erase_all.
Qed.
#[local] Hint Resolve keeps_index_insert keeps_index_erase : frame.
Lemma keeps_sync_index r : keeps R (sync_index_locked r).
Proof. unfold sync_index_locked. frame. Qed.
#[local] Hint Resolve keeps_sync_index : frame.
Lemma keeps_update_index r : keeps R (update_index_locked r).
Proof. unfold update_index_locked. frame. Qed.
Lemma keeps_suspend_entry k e : keeps R (suspend_entry k e).
Proof.
  unfold suspend_entry. frame. apply keeps_on_index. intros x.
  destruct (index_erase x k _ _ _) eqn:E; [|reflexivity]. apply rtc_once. eapply move_erase, E.
Qed.
#[local] Hint Resolve keeps_update_index keeps_suspend_entry : frame.
Lemma keeps_suspend r : keeps R (suspend r).
Proof. unfold suspend. frame. Qed.
Lemma keeps_suspend_hold id : keeps R (suspend_hold id).
Proof. unfold suspend_hold. frame. Qed.
Lemma keeps_keep : keeps R keep_suspension.
Proof. apply keeps_suspension. Qed.
Lemma keeps_scope {A} (m : co A) : keeps R m -> keeps R (with_suspension m).
Proof.
  apply keeps_with_suspension; [exact _ | intros; apply mute_suspension |].
  intros l c. apply mute_index, move_restore.
Qed.
#[local] Hint Resolve keeps_suspend keeps_suspend_hold keeps_keep : frame.

Lemma keeps_compact_if_due : keeps R compact_if_due.
Proof. unfold compact_if_due. frame. Qed.
Lemma keeps_record_overcommit m : keeps R (record_overcommit m).
Proof. unfold record_overcommit. frame. Qed.
#[local] Hint Resolve keeps_compact_if_due keeps_record_overcommit : frame.
Lemma keeps_detect_overcommit n now : keeps R (detect_overcommit_locked n now).
Proof. unfold detect_overcommit_locked. frame. Qed.
Lemma keeps_append_predicted r s : keeps R (append_predicted r s).
Proof. unfold append_predicted. frame. Qed.
Lemma keeps_named id g : keeps R (named_record id g).
Proof. unfold named_record. frame. Qed.
Lemma keeps_consume_hold id now by_ : keeps R (consume_hold id now by_).
Proof. apply keeps_sessions. intros s. destruct (om_find (holds s) id); constructor. Qed.
Lemma keeps_count_revocation : keeps R count_revocation.
Proof. unfold count_revocation. frame. Qed.
Lemma keeps_suspend_holds x ids : keeps R (suspend_holds x ids).
Proof. unfold suspend_holds. frame. Qed.
Lemma keeps_insert_hold h : keeps R (insert_hold h).
Proof.
  intros c. unfold insert_hold. pose proof (move_insert_loop (index c) (map (hold_entry h) (hr_resources h))) as M.
  destruct (insert_loop _ _) as [[u|e] x]; cbn [snd] in *.
  - apply mute_index, M.
  - apply mute_index. eapply rtc_r; [exact M | apply move_erase_all].
Qed.
Lemma keeps_resolve_binding t : keeps R (resolve_binding_locked t).
Proof. apply keeps_look. exact _. Qed.
(** Planning and replayed answers. *)
#[local] Hint Resolve keeps_append_predicted keeps_suspend_holds : frame.
Lemma keeps_plan_candidates t b p ws cs vs : keeps R (plan_candidates t b p ws cs vs).
Proof.
  revert vs. induction cs as [|e cs IH]; intros vs; cbn [plan_candidates]; frame.
  intros c. pose proof (keeps_suspend r c) as S. destruct (suspend r c) as [[u|err] c']; cbn [snd] in S.
  - destruct (evaluate_all c' t b p 0 ws); [exact S|]. etransitivity; [exact S | apply IH].
  - etransitivity; [exact S | apply IH].
Qed.
#[local] Hint Resolve keeps_plan_candidates : frame.
Lemma keeps_plan_resources t b p self ws w refs vs :
  keeps R (plan_resources t b p self ws w refs vs).
Proof. revert vs. induction refs as [|r refs IH]; intros vs; cbn [plan_resources]; frame. Qed.
#[local] Hint Resolve keeps_plan_resources : frame.
Lemma keeps_plan t b p self now ws i : keeps R (plan_preemption t b p self now ws i).
Proof. unfold plan_preemption. frame. Qed.
Lemma keeps_current_series_record id : keeps R (current_series_record id).
Proof. unfold current_series_record, current_series_at. frame. Qed.
#[local] Hint Resolve keeps_plan keeps_current_series_record : frame.
Lemma keeps_replayed_series r : keeps R (replayed_series r).
Proof. unfold replayed_series. frame. Qed.
#[local] Hint Resolve keeps_replayed_series : frame.
Lemma keeps_replay_commit x a n : keeps R (replay_commit x a n).
Proof. unfold replay_commit. frame. Qed.
Lemma keeps_set_live_series s : keeps R (set_live_series s).
Proof. unfold set_live_series. frame. Qed.
Lemma keeps_replay_amendment r a : keeps R (replay_amendment r a).
Proof. unfold replay_amendment. frame. Qed.
Lemma keeps_suspend_superseded r : keeps R (suspend_superseded r).
Proof. unfold suspend_superseded. frame. Qed.
End mute.
#[export] Hint Constructors sessions_step book_step : frame.
#[export] Hint Resolve keeps_sessions keeps_suspension keeps_bump
  keeps_now keeps_check_context keeps_erase_holder keeps_release_hold keeps_release_holds_where
  keeps_register_generation keeps_ensure_claimant keeps_index_insert keeps_index_erase
  keeps_sync_index keeps_update_index keeps_suspend_entry keeps_suspend keeps_suspend_hold keeps_keep
  keeps_compact_if_due keeps_record_overcommit keeps_detect_overcommit
  keeps_append_predicted keeps_named keeps_consume_hold keeps_count_revocation keeps_suspend_holds
  keeps_insert_hold keeps_resolve_binding keeps_meta keeps_sync_queues keeps_plan_candidates
  keeps_plan_resources keeps_plan keeps_current_series_record keeps_replayed_series
  keeps_replay_commit keeps_set_live_series keeps_replay_amendment keeps_suspend_superseded
  mute_append mute_compact : frame.
#[export] Hint Extern 2 (meta_step _ _) => repeat split : frame.
#[export] Hint Extern 3 (keeps _ (with_suspension _)) => apply keeps_scope; [exact _ | frame] : frame.
#[export] Hint Resolve calm_mute : frame.

Section calm.
Context (R : Coordinator -> Coordinator -> Prop) `{!Calm R}.

Lemma keeps_book_step f : (forall b, book_step b (f b)) -> keeps R (modify (set_book f)).
Proof. intros F c. apply calm_book, F. Qed.
#[local] Hint Resolve keeps_book_step : frame.
Lemma keeps_set_state r st t why p : keeps R (set_state_locked r st t why p).
Proof. unfold set_state_locked. frame. Qed.
#[local] Hint Resolve keeps_set_state : frame.
Lemma keeps_mark r a why t : keeps R (mark_applicability_locked r a why t).
Proof. unfold mark_applicability_locked. frame. Qed.
Lemma keeps_transition r st t why x t' : keeps R (transition_locked r st t why x t').
Proof. unfold transition_locked. frame. Qed.
#[local] Hint Resolve keeps_mark keeps_transition : frame.
Lemma keeps_expire now x r : keeps R (expire_record now x r).
Proof. unfold expire_record. frame. Qed.
#[local] Hint Resolve keeps_expire : frame.
Lemma keeps_settle now x k : keeps R (settle_record now x k).
Proof. unfold settle_record. frame. Qed.
#[local] Hint Resolve keeps_settle : frame.
Lemma keeps_reconcile now : keeps R (reconcile_locked now).
Proof. unfold reconcile_locked. frame. Qed.
#[local] Hint Resolve keeps_reconcile : frame.
Lemma keeps_reconcile_now : keeps R reconcile_now.
Proof. unfold reconcile_now. frame. Qed.
Lemma keeps_history now : keeps R (release_terminal_history_locked now).
Proof. unfold release_terminal_history_locked. frame. Qed.
#[local] Hint Resolve keeps_history keeps_reconcile_now : frame.
Lemma keeps_reconcile_then now r : keeps R (reconcile_then now r).
Proof. unfold reconcile_then. frame. Qed.
Lemma keeps_housekeeping now : keeps R (housekeeping now).
Proof. unfold housekeeping. frame. Qed.
End calm.
#[export] Hint Resolve keeps_book_step keeps_set_state keeps_mark keeps_transition
  keeps_expire keeps_settle keeps_reconcile keeps_reconcile_now keeps_history keeps_reconcile_then keeps_housekeeping : frame.
#[export] Hint Resolve booked_calm : frame.

Section booked.
Context (R : Coordinator -> Coordinator -> Prop) `{!Booked R}.

Lemma keeps_register r : keeps R (register_record_locked r).
Proof. intros c. apply frame_register. Qed.
#[local] Hint Resolve keeps_register frame_attempt : frame.
Lemma keeps_revalidate_commit r b p now x : keeps R (revalidate_commit r b p now x).
Proof. unfold revalidate_commit. frame. Qed.
#[local] Hint Resolve keeps_revalidate_commit : frame.
Lemma keeps_auto_revalidate r now x : keeps R (auto_revalidate_record_locked r now x).
Proof. unfold auto_revalidate_record_locked. frame. Qed.
#[local] Hint Resolve keeps_auto_revalidate : frame.
Lemma keeps_refresh_record now b k : keeps R (refresh_record now b k).
Proof. unfold refresh_record. frame. Qed.
#[local] Hint Resolve keeps_refresh_record : frame.
Lemma keeps_refresh now b : keeps R (refresh_applicability_locked now b).
Proof. unfold refresh_applicability_locked. frame. Qed.
Lemma keeps_caller_transition r st now f x t : keeps R (caller_transition r st now f x t).
Proof. unfold caller_transition. frame. Qed.
Lemma keeps_pend_recall r now t g x : keeps R (pend_recall r now t g x).
Proof. unfold pend_recall. frame. Qed.
#[local] Hint Resolve keeps_refresh keeps_named keeps_reconcile_then keeps_caller_transition
  keeps_pend_recall : frame.

(** *** Commit and amendment *)
Lemma keeps_record_refusal a : keeps R (record_refusal a).
Proof. unfold record_refusal. frame. Qed.
Lemma keeps_apply_companion m : keeps R (apply_companion m).
Proof. unfold apply_companion. frame. Qed.
Lemma keeps_enter_committed r : keeps R (enter_committed r).
Proof. unfold enter_committed. frame. Qed.
#[local] Hint Resolve keeps_record_refusal keeps_apply_companion keeps_enter_committed : frame.
Lemma keeps_commit_accepted x t id sid pr hs now b p ws vs a :
  keeps R (commit_accepted x t id sid pr hs now b p ws vs a).
Proof. unfold commit_accepted. frame. Qed.
Lemma keeps_refuse_commit x t id pr d now n a : keeps R (refuse_commit x t id pr d now n a).
Proof. unfold refuse_commit. frame. Qed.
#[local] Hint Resolve keeps_commit_accepted keeps_refuse_commit : frame.
Lemma keeps_decide_commit x t id sid pr d hs now n p b ws :
  keeps R (decide_commit x t id sid pr d hs now n p b ws).
Proof. unfold decide_commit. frame. Qed.
#[local] Hint Resolve keeps_decide_commit : frame.
Lemma keeps_create x t id d hs : keeps R (create_locked x t id d hs).
Proof. unfold create_locked. frame. Qed.

Lemma keeps_supersede now p r : keeps R (supersede now p r).
Proof. unfold supersede. frame. Qed.
Lemma keeps_enter_successor r : keeps R (enter_successor r).
Proof. unfold enter_successor. frame. Qed.
#[local] Hint Resolve keeps_supersede
  keeps_enter_successor : frame.
Lemma keeps_amend_accepted x pd t pr now b p ws sup s a :
  keeps R (amend_accepted x pd t pr now b p ws sup s a).
Proof. unfold amend_accepted. frame. Qed.
Lemma keeps_refuse_amendment x pd t pr d now a : keeps R (refuse_amendment x pd t pr d now a).
Proof. unfold refuse_amendment. frame. Qed.
#[local] Hint Resolve keeps_amend_accepted keeps_refuse_amendment : frame.
Lemma keeps_decide_amendment x pd t pr d now n p b ws : keeps R (decide_amendment x pd t pr d now n p b ws).
Proof. unfold decide_amendment. frame. Qed.
#[local] Hint Resolve keeps_decide_amendment : frame.
Lemma keeps_amend x id g t d : keeps R (amend_locked x id g t d).
Proof. unfold amend_locked. frame. Qed.

(** *** The other operations *)
Lemma keeps_revoke_weakest fuel x n k now i : keeps R (revoke_weakest fuel x n k now i).
Proof. revert i. induction fuel as [|fuel IH]; intros i; cbn [revoke_weakest]; frame. Qed.
#[local] Hint Resolve keeps_revoke_weakest keeps_create keeps_amend : frame.

(** The requests that ingest tables. *)
Definition ingests (q : Request) : bool :=
  match q with QIngestCapacity _ _ _ | QIngestPaths _ _ | QIngestPolicy _ _ => true | _ => false end.

Lemma keeps_handle_booked q : ingests q = false -> keeps R (handle q).
Proof.
  intros N. destruct q; try discriminate N; clear N; cbn [handle]; unfold drop.
  - unfold register_claimant_locked. frame.
  - unfold fence_locked, fence_holds_for_claimant_locked, fence_holds_for_boot_locked,
      fence_holds_for_session_locked. frame.
  - frame.
  - frame.
  - unfold release_locked. frame.
  - unfold recall_locked. frame.
  - unfold revoke_locked. frame.
  - unfold revalidate_locked. frame.
  - unfold reconcile_attempt_locked. frame.
  - unfold reconcile_lifecycle_locked. frame.
  - unfold acquire_hold. frame.
  - unfold release_hold. frame.
  - unfold release_session, fence_holds_for_session_locked. frame.
  - unfold resolve_overcommit. frame.
  - frame.
  - unfold begin_shutdown, fence_holds_for_session_locked. frame.
    apply keeps_env; [exact _|]. intros e. constructor; auto.
  - unfold get_reservation. frame.
  - unfold query_claimant. frame.
  - unfold query_resource. frame.
  - unfold query_remaining. frame.
  - unfold query_timeline. frame.
  - unfold explain_conflicts. frame.
Qed.
End booked.
#[export] Hint Resolve keeps_register frame_attempt keeps_revalidate_commit
  keeps_auto_revalidate keeps_refresh_record keeps_refresh keeps_caller_transition keeps_pend_recall
  keeps_record_refusal keeps_apply_companion keeps_enter_committed keeps_commit_accepted
  keeps_refuse_commit keeps_decide_commit keeps_create keeps_supersede keeps_enter_successor
  keeps_amend_accepted keeps_refuse_amendment keeps_decide_amendment keeps_amend keeps_revoke_weakest : frame.
#[export] Hint Resolve frame_booked : frame.


Section frame.
Context (R : Coordinator -> Coordinator -> Prop) `{!Framed R}.

Lemma keeps_tables f : keeps R (modify (set_tables f)).
Proof. intros c. apply frame_tables. Qed.
#[local] Hint Resolve keeps_tables : frame.

Lemma keeps_handle q : keeps R (handle q).
Proof.
  destruct (ingests q) eqn:I; [|now apply keeps_handle_booked; [exact _|]].
  destruct q; try discriminate I; clear I; cbn [handle].
  - unfold ingest_capacity_locked, ingest_resource, ingest_withdrawal. frame.
  - unfold ingest_paths_locked, ingest_path. frame.
  - unfold ingest_policy_locked, mark_policy_change. frame.
Qed.
End frame.
#[export] Hint Resolve keeps_tables keeps_handle : frame.
