(* ===== verification/CoordJournal.v ===== *)
(** * Coordinator: nothing durable changes without a journal record

    The request gate, the fields no request changes, and the journalling
    discipline of every operation. *)
From stdpp Require Import relations.
From S2P Require Import Prelude Errors Containers Identity Hash Bandwidth Time Authority Wire Policy Capacity Reservation Outcome SegTree Index Durable CodecBase Codec Store Coordinator CoordRecords CoordPersist CoordAssess CoordLifecycle CoordCommit CoordOps CoordQuery CoordSteps.

(** ** What a client relies on across restarts *)
Definition durable_book (b : Book) :=
  (records b, (generations b, current b), edges b, series_records b, retired b,
   (live_count b, history_count b)).
Definition durable_sessions (s : Sessions) :=
  (attempts s, attempt_order s, claimants s, fenced_boots s, fenced_claimants s, overcommit s).
Definition durable (c : Coordinator) := (durable_book (book c), durable_sessions (sessions c)).

(** ** Appended records *)
Definition seq_of (c : Coordinator) : Z := value (last_sequence_ (store (env c))).
Definition journal_of (c : Coordinator) : list JournalRecord := records_ (store (env c)).
Definition next_seq (s : Z) : Z := to_u 64 (s + 1).

(** The records carry the sequences that follow [s], the last of which is [s']. *)
Fixpoint consecutive (s : Z) (rs : list JournalRecord) (s' : Z) : Prop :=
  match rs with
  | [] => s' = s
  | r :: rs => value (jr_sequence r) = next_seq s /\ consecutive (next_seq s) rs s'
  end.

Lemma consecutive_app s rs s' rs' s'' :
  consecutive s rs s' -> consecutive s' rs' s'' -> consecutive s (rs ++ rs') s''.
Proof.
  revert s. induction rs as [|r rs IH]; intros s; simpl; [now intros -> |].
  intros [E C] C'. split; [exact E | now apply IH].
Qed.

(** A snapshot was written or loaded. *)
Definition snapshotted (c : Coordinator) : Prop := snapshot_payload_ (store (env c)) <> [].

(** [rs] was appended between the two states: their sequences follow on, and the
    journal of the later state is what compaction left of both; a record is gone
    only once there is a snapshot. *)
Definition appended (c : Coordinator) (rs : list JournalRecord) (c' : Coordinator) : Prop :=
  consecutive (seq_of c) rs (seq_of c') /\ (snapshotted c -> snapshotted c') /\
  exists gone, gone ++ journal_of c' = journal_of c ++ rs /\ (gone <> [] -> snapshotted c').

Lemma appended_refl c : appended c [] c.
Proof. split; [reflexivity|]. split; [auto|]. exists []. rewrite app_nil_r. split; [reflexivity | now intros []]. Qed.

Lemma appended_trans c rs c' rs' c'' :
  appended c rs c' -> appended c' rs' c'' -> appended c (rs ++ rs') c''.
Proof.
  intros (C & S & g & G & W) (C' & S' & g' & G' & W'). split; [eapply consecutive_app; eassumption|]. split; [auto|].
  exists (g ++ g'). split; [rewrite <- app_assoc, G', app_assoc, G, app_assoc; reflexivity|].
  intros N. destruct g as [|r g]; [now apply W' | now apply S', W].
Qed.

Lemma appended_same_store c c' : store (env c') = store (env c) -> appended c [] c'.
Proof.
  intros E. unfold appended, snapshotted, seq_of, journal_of. rewrite E. apply (appended_refl c).
Qed.

(** ** The two relations *)
Definition advances (c c' : Coordinator) : Prop := exists rs, appended c rs c'.
Definition accounts (c c' : Coordinator) : Prop :=
  exists rs, appended c rs c' /\ (rs = [] -> durable c' = durable c).

#[export] Instance advances_PreOrder : PreOrder advances.
Proof.
  split.
  - intros c. exists []. apply appended_refl.
  - intros c c' c'' [rs A] [rs' A']. exists (rs ++ rs'). eapply appended_trans; eassumption.
Qed.

#[export] Instance accounts_PreOrder : PreOrder accounts.
Proof.
  split.
  - intros c. exists []. split; [apply appended_refl | reflexivity].
  - intros c c' c'' (rs & A & D) (rs' & A' & D'). exists (rs ++ rs').
    split; [eapply appended_trans; eassumption|].
    intros E. apply app_nil in E. destruct E as [-> ->]. rewrite D', D by reflexivity. reflexivity.
Qed.

Lemma accounts_quiet c c' :
  store (env c') = store (env c) -> durable c' = durable c -> accounts c c'.
Proof. intros E D. exists []. split; [now apply appended_same_store | auto]. Qed.

Lemma append_locked_spec r c :
  match append_locked r c with
  | (Ok s, c') => exists j, appended c [j] c' /\ durable c' = durable c
  | (Err e, c') => appended c [] c' /\ durable c' = durable c
  end.
Proof.
  unfold append_locked. destruct (next_io append_ok (io_append (io (env c)))) as [how later].
  unfold append. destruct (negb (journal_open (store (env c)))).
  { split; [now apply appended_same_store | reflexivity]. }
  case_if; [split; [now apply appended_same_store | reflexivity]|].
  destruct how; try (split; [now apply appended_same_store | reflexivity]).
  eexists (mkJournalRecord (record_kind r) (mkCounter (next_seq (seq_of c))) (encode_record r) _). split; [|reflexivity]. split.
  - split; reflexivity.
  - split; [auto|]. exists []. split; [reflexivity | now intros []].
Qed.

Lemma advances_append r : keeps advances (append_locked r).
Proof.
  intros c. pose proof (append_locked_spec r c) as S. destruct (append_locked r c) as [[s|e] c'].
  - destruct S as (j & A & _). exists [j]. exact A.
  - exists []. apply S.
Qed.

(** A compaction drops the journal behind the snapshot it wrote. *)
Lemma compact_appends_nothing c : appended c [] (compact_locked c).2 /\ durable (compact_locked c).2 = durable c.
Proof.
  unfold compact_locked, bind, gets, write_snapshot_locked. cbv beta iota zeta. set (p := encode_SnapshotState _).
  assert (p <> []) as P by (intros E; apply (f_equal (@length _)) in E; discriminate E).
  destruct (next_io snap_ok (io_snapshot (io (env c)))) as [how later]. unfold write_snapshot.
  case_if; [split; [now apply appended_same_store | reflexivity]|].
  destruct (write_all _ _ _) as [tmp [u|e]]; [|split; [now apply appended_same_store | reflexivity]].
  assert (forall c', consecutive (seq_of c) [] (seq_of c') -> snapshot_payload_ (store (env c')) = p ->
            (journal_of c' = journal_of c \/ journal_of c' = []) -> appended c [] c') as A.
  { intros c' C E J. assert (snapshotted c') as W by (unfold snapshotted; congruence). split; [exact C|]. split; [auto|].
    rewrite app_nil_r. destruct J as [-> | ->]; [exists []; split; [reflexivity | now intros []] | exists (journal_of c); now rewrite app_nil_r]. }
  destruct how; cbn [rbind]; [| |split; [now apply appended_same_store | reflexivity]];
    unfold rotate_journal_locked; cbn [env set_env];
    (match goal with |- context [next_io rotate_ok ?l] => destruct (next_io rotate_ok l) as [how' later'] end);
    unfold rotate_journal; cbn [journal_open]; (split; [|destruct (journal_open (store (env c))), how'; reflexivity]);
    destruct (journal_open (store (env c))), how'; apply A; auto; reflexivity.
Qed.

Lemma accounts_compact : keeps accounts compact_locked.
Proof. intros c. destruct (compact_appends_nothing c) as [A D]. exists []. auto. Qed.

#[export] Instance Mute_advances : Mute advances.
Proof.
  split.
  - exact _.
  - intros f c F. exists []. apply appended_same_store. apply F.
  - intros f c _. exists []. now apply appended_same_store.
  - intros f c _. exists []. now apply appended_same_store.
  - intros f c. exists []. now apply appended_same_store.
  - intros f c _. exists []. now apply appended_same_store.
  - apply advances_append.
  - intros c. exists []. apply compact_appends_nothing.
Qed.

#[export] Instance Calm_advances : Calm advances.
Proof. split; [exact _ |]. intros f c _. exists []. now apply appended_same_store. Qed.

#[export] Instance Framed_advances : Framed advances.
Proof. apply Framed_intro; [exact _ | ..]; intros; try intros c; exists []; now apply appended_same_store. Qed.

#[export] Hint Resolve Mute_advances Calm_advances Framed_advances advances_append : frame.

(** ** Computations that journal before they succeed *)
Definition journals {A} (m : co A) : Prop := forall c,
  match m c with
  | (Ok _, c') => exists j rs, appended c (j :: rs) c'
  | (Err _, c') => accounts c c'
  end.

Lemma journals_append r : journals (append_locked r).
Proof.
  intros c. pose proof (append_locked_spec r c) as S. destruct (append_locked r c) as [[s|e] c'].
  - destruct S as (j & A & _). exists j, []. exact A.
  - exists []. split; [|intros _]; apply S.
Qed.

(** Once a record is appended any change is accounted for. *)
Lemma journals_bind {A B} (m : co A) (k : A -> co B) :
  journals m -> (forall a, keeps advances (k a)) -> journals (bind m k).
Proof.
  intros M K c. unfold bind. specialize (M c). destruct (m c) as [[a|e] c1]; [|exact M].
  destruct M as (j & rs & Ap). specialize (K a c1). destruct (k a c1) as [[b|e] c2]; cbn [snd] in K;
    destruct K as [rs' Ap'].
  - exists j, (rs ++ rs'). apply (appended_trans c (j :: rs) c1 rs' c2 Ap Ap').
  - exists (j :: rs ++ rs'). split; [|discriminate]. apply (appended_trans c (j :: rs) c1 rs' c2 Ap Ap').
Qed.

Lemma journals_after {A B} (m : co A) (k : A -> co B) :
  keeps accounts m -> (forall a, journals (k a)) -> journals (bind m k).
Proof.
  intros M K c. unfold bind. specialize (M c). destruct (m c) as [[a|e] c1]; cbn [snd] in M; [|exact M].
  specialize (K a c1). destruct M as (rs & Ap & D). destruct (k a c1) as [[b|e] c2].
  - destruct K as (j & rs' & Ap'). pose proof (appended_trans _ _ _ _ _ Ap Ap') as Q.
    destruct rs as [|j0 rs]; [exists j, rs'; exact Q | exists j0, (rs ++ j :: rs'); exact Q].
  - etransitivity; [exists rs; split; [exact Ap | exact D] | exact K].
Qed.

Lemma journals_keeps {A} (m : co A) : journals m -> keeps accounts m.
Proof.
  intros M c. specialize (M c). destruct (m c) as [[a|e] c']; [|exact M].
  destruct M as (j & rs & Ap). exists (j :: rs). split; [exact Ap | discriminate].
Qed.

Lemma accounts_bind_journals {A B} (m : co A) (k : A -> co B) :
  journals m -> (forall a, keeps advances (k a)) -> keeps accounts (bind m k).
Proof. intros M K. apply journals_keeps, journals_bind; assumption. Qed.

(** ** Quiet primitives *)
Lemma accounts_env f : (forall e, store (f e) = store e) -> keeps accounts (modify (set_env f)).
Proof. intros F c. apply accounts_quiet; [apply F | reflexivity]. Qed.
Lemma accounts_book f :
  (forall b, durable_book (f b) = durable_book b) -> keeps accounts (modify (set_book f)).
Proof. intros F c. apply accounts_quiet; [reflexivity|]. unfold durable. cbn. rewrite F. reflexivity. Qed.
Lemma accounts_sessions f :
  (forall s, durable_sessions (f s) = durable_sessions s) -> keeps accounts (modify (set_sessions f)).
Proof. intros F c. apply accounts_quiet; [reflexivity|]. unfold durable. cbn. rewrite F. reflexivity. Qed.
Lemma accounts_tables f : keeps accounts (modify (set_tables f)).
Proof. intros c. now apply accounts_quiet. Qed.
Lemma accounts_suspension f : keeps accounts (modify (set_suspension f)).
Proof. intros c. now apply accounts_quiet. Qed.
Lemma accounts_index f : keeps accounts (modify (set_index f)).
Proof. intros c. now apply accounts_quiet. Qed.
Lemma accounts_on_index f : keeps accounts (on_index f).
Proof. intros c. unfold on_index. destruct (f (index c)). now apply accounts_quiet. Qed.
Lemma accounts_bump k : keeps accounts (bump k).
Proof. now apply accounts_env. Qed.
Lemma accounts_now : keeps accounts now_locked.
Proof. intros c. unfold now_locked. destruct (clock_read _). now apply accounts_quiet. Qed.
Lemma accounts_sync_queues r : keeps accounts (sync_queues_locked r).
Proof. apply accounts_book. intros b. unfold sync_queues. now case_if. Qed.
Lemma accounts_append r : keeps accounts (append_locked r).
Proof. apply journals_keeps, journals_append. Qed.
Lemma accounts_scope {A} (m : co A) : keeps accounts m -> keeps accounts (with_suspension m).
Proof. apply keeps_with_suspension; [exact _ | intros; now apply accounts_quiet..]. Qed.

Create HintDb journal discriminated.
#[export] Hint Constants Opaque : journal.
#[export] Hint Resolve accounts_tables accounts_suspension accounts_index accounts_on_index accounts_bump
  accounts_now accounts_sync_queues accounts_append : journal.

(** Like [frame], for [accounts]: behind a computation that journals, the
    generic rules of [advances] take over. *)
Ltac account :=
  repeat first
    [ solve [eauto 3 with journal nocore]
    | apply accounts_bind_journals; [solve [eauto 2 with journal nocore] | intros ?; solve [eauto 6 with frame nocore | frame; eauto 6 with frame nocore]]
    | frame_step ].

(** ** Every operation accounts for what it changes *)
Lemma accounts_check_context x b : keeps accounts (check_context x b).
Proof. apply keeps_look. exact _. Qed.
Lemma accounts_erase_holder k id g : keeps accounts (erase_holder k id g).
Proof. apply accounts_index. Qed.
#[export] Hint Resolve accounts_check_context accounts_erase_holder : journal.

Lemma accounts_release_hold id why b : keeps accounts (release_hold_locked id why b).
Proof. unfold release_hold_locked. account; apply accounts_sessions; reflexivity. Qed.
#[export] Hint Resolve accounts_release_hold : journal.
Lemma accounts_release_holds_where P why b : keeps accounts (release_holds_where P why b).
Proof. unfold release_holds_where. account. Qed.
#[export] Hint Resolve accounts_release_holds_where : journal.
Lemma journals_register_generation cl g now : journals (register_generation cl g now).
Proof. apply journals_bind; [apply journals_append | intros; frame]. Qed.
#[export] Hint Resolve journals_append journals_register_generation journals_keeps : journal.
Lemma accounts_ensure_claimant cl g now : keeps accounts (ensure_claimant_locked cl g now).
Proof. unfold ensure_claimant_locked, fence_holds_for_claimant_locked. account. Qed.
Lemma accounts_index_insert r : keeps accounts (index_insert_locked r).
Proof. unfold index_insert_locked. account. Qed.
Lemma accounts_index_erase r : keeps accounts (index_erase_locked r).
Proof. unfold index_erase_locked. account. Qed.
#[export] Hint Resolve accounts_ensure_claimant accounts_index_insert accounts_index_erase : journal.
Lemma accounts_sync_index r : keeps accounts (sync_index_locked r).
Proof. unfold sync_index_locked. account. Qed.
Lemma accounts_mark r a why t : keeps accounts (mark_applicability_locked r a why t).
Proof. unfold mark_applicability_locked. account. Qed.
Lemma accounts_suspend_entry k e : keeps accounts (suspend_entry k e).
Proof. unfold suspend_entry. account. Qed.
#[export] Hint Resolve accounts_sync_index accounts_mark accounts_suspend_entry : journal.
Lemma accounts_suspend r : keeps accounts (suspend r).
Proof. unfold suspend. account. Qed.
Lemma accounts_suspend_hold id : keeps accounts (suspend_hold id).
Proof. unfold suspend_hold. account. Qed.
#[export] Hint Resolve accounts_suspend accounts_suspend_hold : journal.

#[export] Hint Resolve accounts_compact : journal.
Lemma accounts_compact_if_due : keeps accounts compact_if_due.
Proof. unfold compact_if_due. account. Qed.
Lemma journals_transition r st t why x t' : journals (transition_locked r st t why x t').
Proof. unfold transition_locked. apply journals_bind; [apply journals_append | intros; frame]. Qed.
#[export] Hint Resolve accounts_compact_if_due journals_transition : journal.
Lemma accounts_expire now x r : keeps accounts (expire_record now x r).
Proof. unfold expire_record, count_revocation. account. Qed.
#[export] Hint Resolve accounts_expire : journal.
Lemma accounts_settle now x k : keeps accounts (settle_record now x k).
Proof. unfold settle_record, count_revocation. account. Qed.
#[export] Hint Resolve accounts_settle : journal.
Lemma accounts_reconcile now : keeps accounts (reconcile_locked now).
Proof. unfold reconcile_locked. account. Qed.
Lemma accounts_history now : keeps accounts (release_terminal_history_locked now).
Proof. unfold release_terminal_history_locked. account. Qed.
Lemma accounts_record_overcommit m : keeps accounts (record_overcommit m).
Proof. unfold record_overcommit. account. Qed.
#[export] Hint Resolve accounts_reconcile accounts_history accounts_record_overcommit : journal.
Lemma accounts_detect_overcommit n now : keeps accounts (detect_overcommit_locked n now).
Proof. unfold detect_overcommit_locked. account. Qed.
Lemma journals_append_predicted r s : journals (append_predicted r s).
Proof. unfold append_predicted. apply journals_bind; [apply journals_append | intros; frame]. Qed.
#[export] Hint Resolve accounts_detect_overcommit journals_append_predicted : journal.
Lemma accounts_revalidate_commit r b p now x : keeps accounts (revalidate_commit r b p now x).
Proof. unfold revalidate_commit. account. Qed.
#[export] Hint Resolve accounts_revalidate_commit : journal.
Lemma accounts_auto_revalidate r now x : keeps accounts (auto_revalidate_record_locked r now x).
Proof. unfold auto_revalidate_record_locked. account. apply accounts_scope. account. Qed.
#[export] Hint Resolve accounts_auto_revalidate : journal.
Lemma accounts_refresh_record now b k : keeps accounts (refresh_record now b k).
Proof. unfold refresh_record. account. Qed.
#[export] Hint Resolve accounts_refresh_record : journal.
Lemma accounts_refresh now b : keeps accounts (refresh_applicability_locked now b).
Proof. unfold refresh_applicability_locked. account. Qed.
Lemma accounts_named id g : keeps accounts (named_record id g).
Proof. unfold named_record. account. Qed.
Lemma accounts_reconcile_then now r : keeps accounts (reconcile_then now r).
Proof. unfold reconcile_then. account. Qed.
Lemma accounts_caller_transition r st now f x t : keeps accounts (caller_transition r st now f x t).
Proof. unfold caller_transition. account. Qed.
Lemma accounts_pend_recall r now t g x : keeps accounts (pend_recall r now t g x).
Proof. unfold pend_recall. account. Qed.
#[export] Hint Resolve accounts_refresh accounts_named accounts_reconcile_then
  accounts_caller_transition accounts_pend_recall : journal.

Lemma accounts_plan_candidates t b p ws cs vs : keeps accounts (plan_candidates t b p ws cs vs).
Proof.
  revert vs. induction cs as [|e cs IH]; intros vs; cbn [plan_candidates]; account.
  intros c. pose proof (accounts_suspend r c) as S. destruct (suspend r c) as [[u|err] c']; cbn [snd] in S.
  - destruct (evaluate_all c' t b p 0 ws); [exact S|]. etransitivity; [exact S | apply IH].
  - etransitivity; [exact S | apply IH].
Qed.
#[export] Hint Resolve accounts_plan_candidates : journal.
Lemma accounts_plan_resources t b p self ws w refs vs :
  keeps accounts (plan_resources t b p self ws w refs vs).
Proof. revert vs. induction refs as [|r refs IH]; intros vs; cbn [plan_resources]; account. Qed.
#[export] Hint Resolve accounts_plan_resources : journal.
Lemma accounts_plan t b p self now ws i : keeps accounts (plan_preemption t b p self now ws i).
Proof. unfold plan_preemption. account. Qed.
Lemma accounts_replayed_series r : keeps accounts (replayed_series r).
Proof.
  unfold replayed_series, current_series_record, current_series_at. account.
  apply accounts_book. reflexivity.
Qed.
#[export] Hint Resolve accounts_plan accounts_replayed_series : journal.
Lemma accounts_replay_commit x a n : keeps accounts (replay_commit x a n).
Proof. unfold replay_commit. account. Qed.
Lemma accounts_suspend_holds x ids : keeps accounts (suspend_holds x ids).
Proof. unfold suspend_holds. account. Qed.
Lemma accounts_record_refusal a : keeps accounts (record_refusal a).
Proof. unfold record_refusal. account. Qed.
#[export] Hint Resolve accounts_replay_commit accounts_suspend_holds accounts_record_refusal : journal.
Lemma accounts_commit_accepted x t id sid pr hs now b p ws vs a :
  keeps accounts (commit_accepted x t id sid pr hs now b p ws vs a).
Proof. unfold commit_accepted. account. Qed.
Lemma accounts_refuse_commit x t id pr d now n a : keeps accounts (refuse_commit x t id pr d now n a).
Proof. unfold refuse_commit. account. Qed.
#[export] Hint Resolve accounts_commit_accepted accounts_refuse_commit : journal.
Lemma accounts_create x t id d hs : keeps accounts (create_locked x t id d hs).
Proof.
  unfold create_locked, resolve_binding_locked. account. apply accounts_scope.
  unfold decide_commit. account.
Qed.
Lemma accounts_replay_amendment r a : keeps accounts (replay_amendment r a).
Proof. unfold replay_amendment. account. Qed.
Lemma accounts_suspend_superseded r : keeps accounts (suspend_superseded r).
Proof.
  unfold suspend_superseded, current_series_record, current_series_at. account.
  apply accounts_book. reflexivity.
Qed.
Lemma accounts_amend_accepted x pd t pr now b p ws sup s a :
  keeps accounts (amend_accepted x pd t pr now b p ws sup s a).
Proof. unfold amend_accepted. account. Qed.
Lemma accounts_refuse_amendment x pd t pr d now a :
  keeps accounts (refuse_amendment x pd t pr d now a).
Proof. unfold refuse_amendment. account. Qed.
#[export] Hint Resolve accounts_replay_amendment accounts_suspend_superseded accounts_amend_accepted
  accounts_refuse_amendment accounts_create : journal.
Lemma accounts_amend x id g t d : keeps accounts (amend_locked x id g t d).
Proof.
  unfold amend_locked, resolve_binding_locked. account. apply accounts_scope.
  unfold decide_amendment. account.
Qed.
Lemma accounts_insert_hold h : keeps accounts (insert_hold h).
Proof. intros c. unfold insert_hold. destruct (insert_loop _ _) as [[u|e] x]; now apply accounts_quiet. Qed.
Lemma accounts_revoke_weakest fuel x n k now i : keeps accounts (revoke_weakest fuel x n k now i).
Proof. revert i. induction fuel as [|fuel IH]; intros i; cbn [revoke_weakest]; account. Qed.
#[export] Hint Resolve accounts_amend accounts_insert_hold accounts_revoke_weakest : journal.

Lemma accounts_handle q : keeps accounts (handle q).
Proof.
  destruct q; cbn [handle]; unfold drop.
  - unfold ingest_capacity_locked, ingest_resource, ingest_withdrawal. account.
  - unfold ingest_paths_locked, ingest_path. account.
  - unfold ingest_policy_locked, mark_policy_change. account.
  - unfold register_claimant_locked. account.
  - unfold fence_locked, fence_holds_for_boot_locked, fence_holds_for_session_locked,
      fence_holds_for_claimant_locked. account.
  - account.
  - account.
  - unfold release_locked. account.
  - unfold recall_locked, count_revocation. account.
  - unfold revoke_locked. account.
  - unfold revalidate_locked. account.
  - unfold reconcile_attempt_locked. account.
  - unfold reconcile_lifecycle_locked. account.
  - unfold acquire_hold, resolve_binding_locked. account. apply accounts_sessions. reflexivity.
  - unfold release_hold. account.
  - unfold release_session, fence_holds_for_session_locked. account.
  - unfold resolve_overcommit. account.
  - account.
  - unfold begin_shutdown, fence_holds_for_session_locked. account. now apply accounts_env.
  - unfold get_reservation, reconcile_now. account.
  - unfold query_claimant, reconcile_now. account.
  - unfold query_resource, reconcile_now. account.
  - unfold query_remaining, reconcile_now. account.
  - unfold query_timeline, reconcile_now. account.
  - unfold explain_conflicts, resolve_binding_locked. account. apply accounts_scope. account.
Qed.

