(* ===== verification/CoordGate.v ===== *)
(** * Coordinator: the journalling discipline and the request gate

    The two theorems every client of the coordinator relies on first: durable
    facts change only with journal records, and a refused request changes
    nothing. *)
From stdpp Require Import relations.
From S2P Require Import Prelude Errors Containers Identity Hash Bandwidth Time Authority Wire Policy Capacity Reservation Outcome SegTree Index Durable CodecBase Codec Store Coordinator CoordRecords CoordPersist CoordAssess CoordLifecycle CoordCommit CoordOps CoordQuery CoordSample CoordSteps CoordJournal.

(** ** Runs *)
Definition run (qs : list Request) (c : Coordinator) : Coordinator :=
  fold_left (fun c q => (handle q c).2) qs c.

Lemma keeps_run R `{!PreOrder R} : (forall q, keeps R (handle q)) -> forall qs c, R c (run qs c).
Proof.
  intros H qs. induction qs as [|q qs IH]; intros c; [reflexivity|].
  etransitivity; [apply (H q) | apply IH].
Qed.

(** C1. Write-ahead discipline of the whole API: whatever sequence of requests
    runs, with whatever outcomes and file system failures, the durable facts
    (records, lineage, series, archive, attempts, claimants, fences, overcommit
    states) change only if records were appended to the journal; their sequences
    follow the last one of the state before, and the journal is what compaction
    left of the old and the new records: none is gone unless there is a snapshot. *)
Theorem durable_change_is_journalled qs c :
  let c' := run qs c in
  exists rs, consecutive (seq_of c) rs (seq_of c') /\
             (exists gone, gone ++ journal_of c' = journal_of c ++ rs /\ (gone <> [] -> snapshotted c')) /\
             (durable c' <> durable c -> rs <> []).
Proof.
  intros c'. destruct (keeps_run accounts accounts_handle qs c) as (rs & (C & _ & G) & D).
  exists rs. split; [exact C|]. split; [exact G|]. intros N E. apply N, D, E.
Qed.

(** ** The request gate *)

(** A refused context stops a request at once; at most the clock was read. *)
Definition tick (c : Coordinator) : Coordinator :=
  set_env (set_clock (clock_read (clock (env c))).2) c.

Definition refused {A} (m : co A) (c : Coordinator) (e : ErrorCode) : Prop :=
  m c = (Err e, c) \/ m c = (Err e, tick c).

Lemma refused_bind {A B} (m : co A) (k : A -> co B) c e : refused m c e -> refused (bind m k) c e.
Proof. unfold refused, bind. intros [-> | ->]; auto. Qed.

Lemma refused_check {A} x b (k : unit -> co A) c e :
  validate_context_locked c x b = Err e -> refused (bind (check_context x b) k) c e.
Proof. intros V. apply refused_bind. left. unfold check_context. now rewrite V. Qed.

Lemma refused_now {A} x b (k : Timestamp -> unit -> co A) c e :
  validate_context_locked c x b = Err e ->
  refused (let* now := now_locked in bind (check_context x b) (k now)) c e.
Proof.
  intros V. right. unfold bind at 1. unfold now_locked, tick.
  destruct (clock_read (clock (env c))) as [t k'] eqn:K. cbn [snd]. unfold bind, check_context.
  assert (validate_context_locked (set_env (set_clock k') c) x b = Err e) as -> by exact V.
  reflexivity.
Qed.

Lemma handle_refused q x b c e :
  request_context q = Some (x, b) -> validate_context_locked c x b = Err e -> refused (handle q) c e.
Proof.
  intros Q V.
  destruct q; cbn [request_context] in Q; try discriminate Q; injection Q as -> <-; cbn [handle];
    unfold drop;
    first [now apply refused_check | now apply refused_now
          | apply refused_bind; first [now apply refused_check | now apply refused_now]].
Qed.

(** The gate: while the fabric is shutting down, or when a request asserts
    another fabric epoch, lacks its publisher or attempt identity, or comes from
    a fenced boot or claimant, the request is refused with that reason and
    changes nothing; at most one clock reading is consumed. *)
Theorem gate_refuses_without_effect q x b c e :
  request_context q = Some (x, b) -> validate_context_locked c x b = Err e ->
  handle q c = (Err e, c) \/ handle q c = (Err e, tick c).
Proof. apply handle_refused. Qed.

Lemma gate_refuses_without_effect_witness :
  let q := QRelease (Sample.context (Sample.id_of 9)) (Sample.id_of 21) (mkCounter 1) in
  handle q (set_env (set_stopping true) Sample.opened) =
    (Err kShuttingDown, set_env (set_stopping true) Sample.opened) \/
  handle q (set_env (set_stopping true) Sample.opened) =
    (Err kShuttingDown, tick (set_env (set_stopping true) Sample.opened)).
Proof.
  intros q. eapply (gate_refuses_without_effect q).
  - reflexivity.
  - reflexivity.
Defined.
