(* ===== verification/CoordClosure.v ===== *)
(** * Coordinator: what a closure evaluation decides

    [assess_locked] against a specification that speaks of instants and index
    entries: a request closes on a resource if at every instant of its window
    what the resource carries and the requested amount stay under the ceiling. *)
From S2P Require Import Prelude Errors Containers Identity Hash Bandwidth Time Authority Wire Policy Capacity Reservation Outcome SegTree Index Durable CodecBase Codec Store Coordinator CoordRecords CoordPersist CoordAssess CoordLifecycle CoordCommit CoordOps CoordQuery CoordSample.

(** ** The specification *)

(** The capacity a bound resource has if the bound generation is live. *)
Definition live_on (c : Coordinator) (ref : ResourceRef) : option ResourceCapacity :=
  match CapacityLedger_find (ledger (tables c)) (resource ref) with
  | Some e =>
      if ce_withdrawn e || negb (beq (rc_generation (ce_capacity e)) (res_generation ref)) then None
      else Some (ce_capacity e)
  | None => None
  end.

Definition maintained (t : ReservationTerms) (cap : ResourceCapacity) : bool :=
  existsb (fun w => overlaps (mw_interval w) (interval t)) (maintenance cap).

Definition blocked (c : Coordinator) (pol : PolicyRecord) (name : ResourceName) : bool :=
  unresolved_overcommit (sessions c) name && negb (allow_overcommit pol).

(** The most the resource may carry: the ceiling and, under a policy that allows
    overcommitment, its allowance. *)
Definition limit (t : ReservationTerms) (pol : PolicyRecord) (cap : ResourceCapacity) : Z :=
  bps (required_ceiling cap pol t) +
  (if allow_overcommit pol then Z.max 0 (bps (overcommit_allowance pol)) else 0).

(** The entries [es] and the amount together stay under the limit throughout the
    window; the sum saturates at [kMaxBandwidthBps]. *)
Definition closes (es : list IndexEntry) (t : ReservationTerms) (pol : PolicyRecord)
    (name : ResourceName) (cap : ResourceCapacity) : Prop :=
  forall p, ns (start (interval t)) <= p < ns (end_ (interval t)) ->
    Z.min kMaxBandwidthBps (occupancy (holdings (entries_on name es)) p + bps (amount t)) <=
    limit t pol cap.

(** ** The findings of the loop *)
Definition on_live (c : Coordinator) (P : ResourceRef -> ResourceCapacity -> bool) (ref : ResourceRef) : bool :=
  match live_on c ref with Some cap => P ref cap | None => false end.

Definition not_live (c : Coordinator) (ref : ResourceRef) : bool :=
  match live_on c ref with Some _ => false | None => true end.

(** The evaluation's own test of the amount. *)
Definition short_on (c : Coordinator) (t : ReservationTerms) (pol : PolicyRecord) (ref : ResourceRef)
    (cap : ResourceCapacity) : bool :=
  exceeds pol (bps (required_ceiling cap pol t))
    (bps (saturating_add_bandwidth (peak_combined (index c) (resource ref) (interval t)) (amount t))).

Lemma find_existsb {A} (P : A -> bool) l :
  existsb P l = match find P l with Some _ => true | None => false end.
Proof. induction l as [|a l IH]; [reflexivity|]. simpl. destruct (P a); [reflexivity | exact IH]. Qed.

Lemma assess_resource_findings c t pol f ref :
  let f' := assess_resource c t pol f ref in
  stale f' = stale f || not_live c ref /\
  policy_rejected f' = policy_rejected f || on_live c (fun _ cap => maintained t cap) ref /\
  emergency f' = emergency f || on_live c (fun r _ => blocked c pol (resource r)) ref /\
  short_capacity f' = short_capacity f || on_live c (short_on c t pol) ref.
Proof.
  cbv zeta. unfold assess_resource, not_live, on_live, live_on, maintained, blocked, short_on.
  destruct (CapacityLedger_find _ _) as [e|]; [|cbn; rewrite !orb_true_r, !orb_false_r; auto].
  destruct (ce_withdrawn e); cbn [orb]; [cbn; rewrite !orb_true_r, !orb_false_r; auto|].
  destruct (negb _); [cbn; rewrite !orb_true_r, !orb_false_r; auto|].
  unfold assess_live. rewrite find_existsb, orb_false_r. cbn [stale policy_rejected emergency short_capacity].
  split; [reflexivity|]. split; [now destruct (find _ _)|]. auto.
Qed.

Lemma assess_findings c t pol refs f :
  let f' := fold_left (assess_resource c t pol) refs f in
  stale f' = stale f || existsb (not_live c) refs /\
  policy_rejected f' = policy_rejected f || existsb (on_live c (fun _ cap => maintained t cap)) refs /\
  emergency f' = emergency f || existsb (on_live c (fun r _ => blocked c pol (resource r))) refs /\
  short_capacity f' = short_capacity f || existsb (on_live c (short_on c t pol)) refs.
Proof.
  cbv zeta. revert f. induction refs as [|ref refs IH]; intros f; cbn [fold_left existsb].
  - rewrite !orb_false_r. auto.
  - destruct (assess_resource_findings c t pol f ref) as (A & B & C & D).
    destruct (IH (assess_resource c t pol f ref)) as (-> & -> & -> & ->).
    rewrite A, B, C, D, !orb_assoc. auto.
Qed.

Lemma exceeds_spec pol ceiling after :
  exceeds pol ceiling after = false <->
  after <= ceiling + (if allow_overcommit pol then Z.max 0 (bps (overcommit_allowance pol)) else 0).
Proof.
  unfold exceeds. rewrite Z.gtb_ltb. destruct (allow_overcommit pol); cbn [andb negb];
    repeat match goal with |- context [?a <? ?b] => destruct (Z.ltb_spec a b)
                         | |- context [?a <=? ?b] => destruct (Z.leb_spec a b) end; cbn [andb negb]; split; intros; (discriminate || lia || reflexivity).
Qed.

Lemma is_max_le (f : Z -> Z) lo hi m cap amt k :
  is_max f lo hi m ->
  Z.min cap (m + amt) <= k <-> (forall p, lo <= p < hi -> Z.min cap (f p + amt) <= k).
Proof.
  intros [(x & Rx & Fx) A]. split.
  - intros L p Rp. specialize (A p Rp). lia.
  - intros L. specialize (L x Rx). rewrite Fx in L. exact L.
Qed.

Section decided.
Context (c : Coordinator) (n : Z) (es : list IndexEntry).
Context (Stands : index_ok n (index c) es).
Context (t : ReservationTerms) (Window : validate_interval (interval t) = Ok tt).

Lemma short_on_closes pol ref cap :
  short_on c t pol ref cap = false <-> closes es t pol (resource ref) cap.
Proof.
  apply validate_interval_Ok in Window as (Ws & We & _).
  unfold short_on. rewrite exceeds_spec, saturating_add_bandwidth_spec. unfold closes, limit.
  apply is_max_le. unfold peak_combined.
  apply (index_peak_exact n (index c) es _ _ _ ix_combined holdings); auto using so_combined.
  - unfold empty, ts_lt. apply negb_false_iff, Z.ltb_lt. lia.
  - lia.
Qed.
End decided.

(** *** Reading the flags *)
Lemma not_live_spec c refs :
  existsb (not_live c) refs = false <-> forall ref, In ref refs -> exists cap, live_on c ref = Some cap.
Proof.
  rewrite existsb_false_iff. unfold not_live. split; intros H ref I; specialize (H ref I).
  - destruct (live_on c ref) as [cap|]; [now exists cap | discriminate].
  - destruct H as (cap & ->). reflexivity.
Qed.

Lemma on_live_spec c P refs :
  existsb (on_live c P) refs = false <->
  forall ref cap, In ref refs -> live_on c ref = Some cap -> P ref cap = false.
Proof.
  rewrite existsb_false_iff. unfold on_live. split.
  - intros H ref cap I L. specialize (H ref I). now rewrite L in H.
  - intros H ref I. destruct (live_on c ref) as [cap|] eqn:L; [now apply H | reflexivity].
Qed.

(** A flag decides a property; the flags are tested in turn. *)
Lemma flag_case (b : bool) (P : Prop) : (b = false <-> P) -> b = true /\ ~ P \/ b = false /\ P.
Proof. intros H. destruct b; [left | right]; split; try reflexivity; [intros p; apply H in p; discriminate | now apply H]. Qed.

Lemma assess_outcome c t binding pol cb eb :
  let refs := rb_resources binding in
  as_outcome (assess_locked c t binding pol cb eb) =
  if bool_decide (is_Some (path_problem (tables c) t binding)) then ao_kStalePathAuthority
  else if existsb (not_live c) refs then ao_kStaleResource
  else if existsb (on_live c (fun _ cap => maintained t cap)) refs then ao_kPolicyRejected
  else if existsb (on_live c (fun r _ => blocked c pol (resource r))) refs then ao_kEmergencyOvercommit
  else if existsb (on_live c (short_on c t pol)) refs then ao_kInsufficientCapacity
  else ao_kCommittable.
Proof.
  cbv zeta. unfold assess_locked.
  destruct (assess_findings c t pol (rb_resources binding)
              (mkFindings [] false false false false (default [] (path_problem (tables c) t binding))
                 ar_kCurrent [])) as (-> & -> & -> & ->).
  cbn [stale policy_rejected emergency short_capacity orb]. repeat case_if; reflexivity.
Qed.

(** C12. The closure evaluation decides exactly what it promises, for a valid
    window and an index with a history of at most 2^24 structural updates, none
    of which brought an instant above 2^62 bit/s.  In the order of its refusals: a path whose authority moved, then a bound resource without a
    live generation, then maintenance inside the window, then an unresolved
    overcommitment the policy does not allow, then an instant of the window at
    which the entries the index stands for and the requested amount together
    exceed the ceiling left by the headrooms (and the policy's allowance); it is
    COMMITTABLE exactly when none of these holds.  The sum of the last test
    saturates at 10^15 bit/s, as the code's does. *)
Theorem assess_decides c n es t binding pol cb eb :
  index_history n (index c) es -> n <= 2 ^ 24 -> validate_interval (interval t) = Ok tt ->
  let o := as_outcome (assess_locked c t binding pol cb eb) in
  let bound ref cap := In ref (rb_resources binding) /\ live_on c ref = Some cap in
  let path_current := path_problem (tables c) t binding = None in
  let live := forall ref, In ref (rb_resources binding) -> exists cap, live_on c ref = Some cap in
  let serviceable := forall ref cap, bound ref cap -> maintained t cap = false in
  let permitted := forall ref cap, bound ref cap -> blocked c pol (resource ref) = false in
  let closed := forall ref cap, bound ref cap -> closes es t pol (resource ref) cap in
  (o = ao_kStalePathAuthority <-> ~ path_current) /\
  (o = ao_kStaleResource <-> path_current /\ ~ live) /\
  (o = ao_kPolicyRejected <-> path_current /\ live /\ ~ serviceable) /\
  (o = ao_kEmergencyOvercommit <-> path_current /\ live /\ serviceable /\ ~ permitted) /\
  (o = ao_kInsufficientCapacity <-> path_current /\ live /\ serviceable /\ permitted /\ ~ closed) /\
  (o = ao_kCommittable <-> path_current /\ live /\ serviceable /\ permitted /\ closed).
Proof.
  intros Hi Bn Wi o bound path_current live serviceable permitted closed.
  pose proof (assess_outcome c t binding pol cb eb) as O. cbv zeta in O. fold o in O.
  assert (Fp : bool_decide (is_Some (path_problem (tables c) t binding)) = false <-> path_current).
  { rewrite bool_decide_eq_false. unfold path_current. destruct (path_problem _ _ _); split; try congruence.
    - intros H. contradiction H. eauto.
    - intros _ [x E]. discriminate E. }
  assert (Fc : existsb (on_live c (short_on c t pol)) (rb_resources binding) = false <-> closed).
  { rewrite on_live_spec. unfold closed, bound. split.
    - intros H ref cap [I L]. eapply short_on_closes; eauto using index_history_ok.
    - intros H ref cap I L. eapply short_on_closes; eauto using index_history_ok. }
  assert (Fs : existsb (on_live c (fun _ cap => maintained t cap)) (rb_resources binding) = false <-> serviceable).
  { rewrite on_live_spec. unfold serviceable, bound. split; intros H ref cap; [intros [I L] | intros I L]; eauto. }
  assert (Fb : existsb (on_live c (fun r _ => blocked c pol (resource r))) (rb_resources binding) = false
               <-> permitted).
  { rewrite on_live_spec. unfold permitted, bound. split; intros H ref cap; [intros [I L] | intros I L]; eauto. }
  pose proof (not_live_spec c (rb_resources binding)) as Fl. fold live in Fl.
  clearbody o path_current live serviceable permitted closed.
  apply flag_case in Fp, Fl, Fs, Fb, Fc.
  destruct Fp as [[E Np]|[E Yp]]; rewrite E in O; [rewrite O; intuition congruence|].
  destruct Fl as [[E1 Nl]|[E1 Yl]]; rewrite E1 in O; [rewrite O; intuition congruence|].
  destruct Fs as [[E2 Ns]|[E2 Ys]]; rewrite E2 in O; [rewrite O; intuition congruence|].
  destruct Fb as [[E3 Nb]|[E3 Yb]]; rewrite E3 in O; [rewrite O; intuition congruence|].
  destruct Fc as [[E4 Nc]|[E4 Yc]]; rewrite E4 in O; rewrite O; intuition congruence.
Qed.

Lemma assess_decides_witness :
  let c := Sample.committed in
  let t := Sample.terms_on 2500 3500 300 kProtected in
  let binding := mkResolvedBinding kResources empty_name (mkCounter 0) [mkResourceRef Sample.link (mkCounter 1)] [] in
  let pol := strict_default (mkName (str "policy")) in
  let es := [mkIndexEntry kReservation (Sample.id_of 21) 1 Sample.link
               (mkInterval (Sample.second 2000) (Sample.second 3000)) (mkBandwidth 600) kProtected kCommitted] in
  as_outcome (assess_locked c t binding pol 16 256) = ao_kCommittable <->
  path_problem (tables c) t binding = None /\
  (forall ref, In ref (rb_resources binding) -> exists cap, live_on c ref = Some cap) /\
  (forall ref cap, In ref (rb_resources binding) /\ live_on c ref = Some cap -> maintained t cap = false) /\
  (forall ref cap, In ref (rb_resources binding) /\ live_on c ref = Some cap ->
     blocked c pol (resource ref) = false) /\
  (forall ref cap, In ref (rb_resources binding) /\ live_on c ref = Some cap ->
     closes es t pol (resource ref) cap).
Proof.
  intros c t binding pol es. apply (assess_decides c 1 es t binding pol 16 256).
  - apply (ih_insert 0 index_empty []); [apply ih_empty | |].
    + intros p _. unfold occupancy, delta_at, kIndexSaturation. simpl. case_if; lia.
    + vm_compute. reflexivity.
  - vm_compute. discriminate.
  - vm_compute. reflexivity.
Defined.

(** The saturating sum hides an overload where the limit reaches 10^15 bit/s. *)
Definition huge : ResourceCapacity :=
  mkResourceCapacity Sample.link (mkCounter 1) (mkBandwidth kMaxBandwidthBps) bw0 empty_name (mkCounter 0) [].

Definition full_link : Coordinator :=
  Sample.state_of
    (ingest_capacity_locked (Sample.snapshot 1 huge) [] (Sample.context nil_id) ;;
     create_locked (Sample.context (Sample.id_of 20))
       (Sample.terms_on 2000 3000 kMaxBandwidthBps kProtected) (Sample.id_of 21) false [] ;; ret tt)
    Sample.opened.

(** C26. A link of 10^15 bit/s that is fully committed still accepts another
    reservation of 10^15 bit/s for the same seconds: the sum of the closure test
    saturates at the ceiling. *)
Theorem full_link_oversold :
  let again :=
    create_locked (Sample.context (Sample.id_of 22))
      (Sample.terms_on 2000 3000 kMaxBandwidthBps kProtected) (Sample.id_of 23) false [] in
  exists r c, again full_link = (Ok r, c) /\ ar_outcome (cr_report r) = ao_kCommittable /\
    bps (peak_committed (index c) Sample.link (mkInterval (Sample.second 2000) (Sample.second 3000))) =
      2 * kMaxBandwidthBps.
Proof. eexists. eexists. split; [vm_compute; reflexivity|]. split; vm_compute; reflexivity. Qed.
