(* ===== verification/CoordSessions.v ===== *)
(** * Coordinator: refusals that stay, and the attempt table

    Two invariants of the sessions, by the frame rules of [CoordSteps]: a context
    that was refused stays refused for the life of the incarnation, and the table
    of attempts never outgrows its bound. *)
From stdpp Require Import relations.
From S2P Require Import Prelude Errors Containers Identity Hash Bandwidth Time Authority Wire Policy Capacity Reservation Outcome SegTree Index Durable CodecBase Codec Store Coordinator CoordRecords CoordPersist CoordAssess CoordLifecycle CoordCommit CoordOps CoordQuery CoordSample CoordSteps CoordJournal CoordGate.

(** ** Requests only tighten the gate *)
Definition covers (m m' : omap Identity128 FenceRecord) : Prop :=
  forall id, om_mem m id = true -> om_mem m' id = true.

Record tightens (c c' : Coordinator) : Prop := {
  tg_config : config (env c') = config (env c);
  tg_epoch : ci_epoch (incarnation (env c')) = ci_epoch (incarnation (env c)) /\
             ci_boot (incarnation (env c')) = ci_boot (incarnation (env c));
  tg_stopping : stopping (env c) = true -> stopping (env c') = true;
  tg_boots : covers (fenced_boots (sessions c)) (fenced_boots (sessions c'));
  tg_claimants : covers (fenced_claimants (sessions c)) (fenced_claimants (sessions c')) }.

Lemma covers_set m id f : covers m (om_set m id f).
Proof. intros k. unfold om_mem. rewrite om_find_set. destruct (keqb id k); auto. Qed.

#[export] Instance tightens_PreOrder : PreOrder tightens.
Proof.
  split.
  - intros c. split; try split; try red; auto.
  - intros c c' c'' [A [B B'] D F G] [A' [C C'] D' F' G']. split; try split; try red; auto; congruence.
Qed.

(** Same gate: what every operation that touches neither fences nor environment does. *)
Lemma tightens_quiet c c' :
  config (env c') = config (env c) ->
  ci_epoch (incarnation (env c')) = ci_epoch (incarnation (env c)) ->
  ci_boot (incarnation (env c')) = ci_boot (incarnation (env c)) ->
  stopping (env c') = stopping (env c) -> sessions c' = sessions c -> tightens c c'.
Proof. intros A B B' D E. split; [exact A | split; assumption | congruence | | ]; rewrite E; intros id H; exact H. Qed.

Lemma tightens_session c s : sessions_step (sessions c) s -> tightens c (set_sessions (fun _ => s) c).
Proof.
  intros S. assert (covers (fenced_boots (sessions c)) (fenced_boots s) /\
                    covers (fenced_claimants (sessions c)) (fenced_claimants s)) as [A B].
  { destruct S; try (split; intros id' H; exact H).
    unfold apply_fence. split; repeat case_if; try (intros id' H; exact H); apply covers_set. }
  split; auto.
Qed.

Lemma remember_attempt_rest bound a s :
  let s' := remember_attempt bound a s in
  fenced_boots s' = fenced_boots s /\ fenced_claimants s' = fenced_claimants s.
Proof. cbv zeta. unfold remember_attempt. now destruct (evict_attempts _ _ _). Qed.

#[export] Instance Calm_tightens : Calm tightens.
Proof.
  apply Calm_intro; [exact _ | ..].
  - intros f c [A _ B D]. split; try (intros id H; exact H); auto.
  - intros f c _. now apply tightens_quiet.
  - intros f c S. apply (tightens_session c (f (sessions c)) S).
  - intros f c. now apply tightens_quiet.
  - intros f c _. now apply tightens_quiet.
  - intros c c' [(_ & _ & S & _) (A & _ & B) [D E]]. now apply tightens_quiet.
Qed.

#[export] Instance Framed_tightens : Framed tightens.
Proof.
  apply Framed_intro; [exact _ | intros f c; now apply tightens_quiet.. |].
  intros a c. destruct (remember_attempt_rest (max_attempts (config (env c))) a (sessions c)) as [A B].
  split; auto; intros id; cbn; rewrite ?A, ?B; auto.
Qed.

Lemma validate_context_Ok c x b :
  validate_context_locked c x b = Ok tt <->
  stopping (env c) = false /\ asserted_epoch x = ci_epoch (incarnation (env c)) /\
  is_nil (rq_publisher x) = false /\ b && is_nil (rq_attempt x) = false /\
  negb (is_nil (rq_publisher_boot x)) && om_mem (fenced_boots (sessions c)) (rq_publisher_boot x) = false /\
  negb (is_nil (rq_claimant x)) && om_mem (fenced_claimants (sessions c)) (rq_claimant x) = false.
Proof.
  unfold validate_context_locked. rewrite !rbind_refuse_Ok, negb_false_iff, beq_eq. tauto.
Qed.

Lemma tightens_validate c c' x b :
  tightens c c' -> validate_context_locked c' x b = Ok tt -> validate_context_locked c x b = Ok tt.
Proof.
  intros [_ [E _] S B C]. rewrite !validate_context_Ok, E. intros (H1 & H2 & H3 & H4 & H5 & H6).
  repeat split; auto.
  - destruct (stopping (env c)); [rewrite S in H1; auto | reflexivity].
  - apply andb_false_iff in H5 as [-> | N]; [reflexivity|]. apply andb_false_iff. right.
    apply not_true_is_false. intros M. rewrite (B _ M) in N. discriminate.
  - apply andb_false_iff in H6 as [-> | N]; [reflexivity|]. apply andb_false_iff. right.
    apply not_true_is_false. intros M. rewrite (C _ M) in N. discriminate.
Qed.

(** A gate that demands less lets pass what one that demands more let pass. *)
Lemma validate_demands c x b b' :
  (b = true -> is_nil (rq_attempt x) = true -> b' = true) ->
  validate_context_locked c x b' = Ok tt -> validate_context_locked c x b = Ok tt.
Proof.
  intros D. rewrite !validate_context_Ok. intros (H1 & H2 & H3 & H4 & H5 & H6). repeat split; try assumption.
  destruct b; [|reflexivity]. destruct (is_nil (rq_attempt x)); [|reflexivity]. now rewrite D in H4.
Qed.

(** C10. A refusal by the gate is final for the incarnation: if a context was
    refused once (fabric shutting down, other epoch, missing publisher, missing
    attempt identity, fenced boot or claimant), then whatever requests run in
    between, with whatever outcomes and file system failures, every later request
    under it is refused too and leaves the coordinator as it was, up to one clock
    reading.  One case is excepted: a context without an attempt identity that was
    refused by an operation that demands one, and is presented to an operation
    that does not; if it would have been refused without the demand as well, the
    theorem holds for it with [required] false. *)
Theorem refused_stays_refused qs q x required demands c e :
  validate_context_locked c x required = Err e ->
  request_context q = Some (x, demands) ->
  (required = true -> is_nil (rq_attempt x) = true -> demands = true) ->
  exists e', handle q (run qs c) = (Err e', run qs c) \/ handle q (run qs c) = (Err e', tick (run qs c)).
Proof.
  intros V Q D. destruct (validate_context_locked (run qs c) x demands) as [[]|e'] eqn:V'.
  - apply (tightens_validate c) in V'; [apply (validate_demands _ _ required) in V'; [congruence | exact D]|].
    apply keeps_run; [exact _ | intros q'; apply keeps_handle; exact _].
  - exists e'. change (refused (handle q) (run qs c) e'). eapply handle_refused; eassumption.
Qed.

(** Refused for its epoch by a release, which demands an attempt identity; then by a
    registration, which does not. *)
Lemma refused_stays_refused_witness :
  let x := mkRequestContext (mkName (str "client")) (Sample.id_of 3) (Sample.id_of 4) (Sample.id_of 5)
             (Sample.id_of 9) nil_id (mkCounter 0) (mkCounter 0) [] in
  let qs := [QCompact; QShutdown] in
  let q := QRegisterClaimant (Sample.id_of 6) (mkCounter 1) x in
  (handle (QRelease x (Sample.id_of 21) (mkCounter 1)) Sample.opened).1 = Err kStaleEpoch /\
  exists e', handle q (run qs Sample.opened) = (Err e', run qs Sample.opened) \/
             handle q (run qs Sample.opened) = (Err e', tick (run qs Sample.opened)).
Proof.
  intros x qs q. split; [vm_compute; reflexivity|].
  apply (refused_stays_refused qs q x true false Sample.opened kStaleEpoch); [vm_compute; reflexivity | reflexivity |].
  intros _ N. vm_compute in N. discriminate N.
Defined.

(** The excepted case: what a release refused for want of an attempt identity, a
    registration lets pass. *)
Example attempt_demanded_by_some :
  let x := mkRequestContext (mkName (str "client")) (Sample.id_of 3) (Sample.id_of 4) (Sample.id_of 5)
             nil_id nil_id (mkCounter 0) (mkCounter 1) [] in
  (handle (QRelease x (Sample.id_of 21) (mkCounter 1)) Sample.opened).1 = Err kInvalidIdentity /\
  (handle (QRegisterClaimant (Sample.id_of 6) (mkCounter 1) x) Sample.opened).1 = Ok tt.
Proof. split; vm_compute; reflexivity. Qed.

(** ** The attempt table *)

(** The order of insertion lists the remembered attempts once each, at most
    [bound] of them. *)
Record attempts_ok (bound : Z) (m : omap Identity128 AttemptRecord) (order : list Identity128) : Prop := {
  ao_nodup : NoDup order;
  ao_listed id : In id order <-> om_mem m id = true;
  ao_bound : Z.of_nat (length order) <= bound }.

Lemma om_mem_set {V} (m : omap Identity128 V) id v k :
  om_mem (om_set m id v) k = keqb id k || om_mem m k.
Proof. unfold om_mem. rewrite om_find_set. now destruct (keqb id k). Qed.

Lemma om_mem_erase {V} (m : omap Identity128 V) id k :
  om_mem (om_erase m id) k = negb (keqb id k) && om_mem m k.
Proof. unfold om_mem. rewrite om_find_erase. now destruct (keqb id k). Qed.

Lemma evict_attempts_ok bound m order :
  0 <= bound -> NoDup order -> (forall id, In id order <-> om_mem m id = true) ->
  attempts_ok bound (evict_attempts bound m order).1 (evict_attempts bound m order).2.
Proof.
  intros B. revert m. induction order as [|oldest order IH]; intros m N L.
  - split; [exact N | exact L | simpl; lia].
  - cbn [evict_attempts]. case_if; bool_prop; [|split; cbn [fst snd]; auto].
    apply NoDup_cons in N. destruct N as [Out N]. apply IH; [exact N|].
    intros id. rewrite om_mem_erase, andb_true_iff, negb_true_iff, keqb_neq, <- L. simpl.
    rewrite list_elem_of_In in Out. intuition congruence.
Qed.

(** What was just remembered is found, unless the bound is zero. *)
Lemma evict_attempts_last bound m order id :
  0 < bound -> ~ In id order -> om_find (evict_attempts bound m (order ++ [id])).1 id = om_find m id.
Proof.
  intros B. revert m. induction order as [|oldest order IH]; intros m N; cbn [evict_attempts app].
  - replace (Z.of_nat (length [id]) >? bound) with false; [reflexivity|]. symmetry. rewrite Z.gtb_ltb.
    apply Z.ltb_ge. simpl. lia.
  - case_if; [|reflexivity]. rewrite IH by (intros I; apply N; right; exact I).
    rewrite om_find_erase. destruct (keqb oldest id) eqn:E; [|reflexivity].
    apply keqb_eq in E. subst. contradiction N. left. reflexivity.
Qed.

Definition attempt_table_ok (c : Coordinator) : Prop :=
  attempts_ok (max_attempts (config (env c))) (attempts (sessions c)) (attempt_order (sessions c)).

Lemma remember_attempt_ok bound a s :
  attempts_ok bound (attempts s) (attempt_order s) ->
  let s' := remember_attempt bound a s in attempts_ok bound (attempts s') (attempt_order s').
Proof.
  intros [N L B]. cbv zeta. unfold remember_attempt.
  pose proof (evict_attempts_ok bound (om_set (attempts s) (at_attempt a) a)
    (if om_mem (attempts s) (at_attempt a) then attempt_order s else attempt_order s ++ [at_attempt a])) as E.
  destruct (evict_attempts _ _ _) as [m order]. apply E; clear E; [lia | |].
  - destruct (om_mem (attempts s) (at_attempt a)) eqn:M; [exact N|]. apply NoDup_app.
    split; [exact N|]. split; [|apply NoDup_singleton]. intros id I. rewrite list_elem_of_singleton. intros ->.
    apply list_elem_of_In, L in I. congruence.
  - intros id. rewrite om_mem_set, orb_true_iff, keqb_eq.
    destruct (om_mem (attempts s) (at_attempt a)) eqn:M.
    + rewrite L. split; [auto | intros [<-|?]; auto].
    + rewrite in_app_iff, L. simpl. tauto.
Qed.

(** ** The bound holds from [open] on *)
Definition keeps_table (c c' : Coordinator) : Prop :=
  config (env c') = config (env c) /\ (attempt_table_ok c -> attempt_table_ok c').

#[export] Instance keeps_table_PreOrder : PreOrder keeps_table.
Proof. split; [intros c; split; auto | intros c c' c'' [A B] [A' B']; split; [congruence | auto]]. Qed.

Lemma keeps_table_quiet c c' :
  config (env c') = config (env c) -> sessions c' = sessions c -> keeps_table c c'.
Proof. intros A B. split; [exact A|]. unfold attempt_table_ok. rewrite A, B. auto. Qed.

Lemma keeps_table_session c s : sessions_step (sessions c) s -> keeps_table c (set_sessions (fun _ => s) c).
Proof.
  intros S. split; [reflexivity|]. unfold attempt_table_ok. cbn [env sessions set_sessions].
  destruct S; auto. unfold apply_fence. now repeat case_if.
Qed.

#[export] Instance Calm_keeps_table : Calm keeps_table.
Proof.
  apply Calm_intro; [exact _ | ..].
  - intros f c [A _ _ _]. now apply keeps_table_quiet.
  - intros f c _. now apply keeps_table_quiet.
  - intros f c S. apply (keeps_table_session c (f (sessions c)) S).
  - intros f c. now apply keeps_table_quiet.
  - intros f c _. now apply keeps_table_quiet.
  - intros c c' [(_ & _ & S & _) (A & _) _]. now apply keeps_table_quiet.
Qed.

#[export] Instance Framed_keeps_table : Framed keeps_table.
Proof.
  apply Framed_intro; [exact _ | intros f c; now apply keeps_table_quiet.. |].
  intros a c. split; [reflexivity|]. apply remember_attempt_ok.
Qed.

#[local] Hint Resolve Calm_keeps_table Framed_keeps_table : frame.

Lemma apply_snapshot_sessions_ok bound state s :
  attempts_ok bound (attempts s) (attempt_order s) ->
  let s' := apply_snapshot_sessions bound state s in attempts_ok bound (attempts s') (attempt_order s').
Proof.
  intros A. cbv zeta. unfold apply_snapshot_sessions.
  assert (forall l s, attempts_ok bound (attempts s) (attempt_order s) ->
            let s' := fold_left (fun s a => remember_attempt bound a s) l s in
            attempts_ok bound (attempts s') (attempt_order s')) as F1.
  { induction l as [|a l IH]; intros s0 A0; [exact A0|]. cbn [fold_left]. apply IH, remember_attempt_ok, A0. }
  assert (forall {X} (f : X -> Sessions -> Sessions) (l : list X) s,
            (forall x s, attempts (f x s) = attempts s /\ attempt_order (f x s) = attempt_order s) ->
            let s' := fold_left (fun s x => f x s) l s in
            attempts s' = attempts s /\ attempt_order s' = attempt_order s) as F2.
  { intros X f l. induction l as [|a l IH]; intros s0 H; [auto|]. cbn [fold_left].
    destruct (IH (f a s0) H) as [-> ->]. apply H. }
  destruct (F2 _ apply_overcommit (ss_overcommits state)
    (fold_left (fun s m => apply_claimant m s) (ss_claimants state)
       (fold_left (fun s f => apply_fence f s) (ss_fences state)
          (fold_left (fun s a => remember_attempt bound a s) (ss_attempts state) s)))) as [-> ->]; [auto|].
  destruct (F2 _ apply_claimant (ss_claimants state)
       (fold_left (fun s f => apply_fence f s) (ss_fences state)
          (fold_left (fun s a => remember_attempt bound a s) (ss_attempts state) s))) as [-> ->].
  { intros m s0. unfold apply_claimant. repeat case_match_goal; auto. }
  destruct (F2 _ apply_fence (ss_fences state)
          (fold_left (fun s a => remember_attempt bound a s) (ss_attempts state) s)) as [-> ->].
  { intros f s0. unfold apply_fence. repeat case_if; auto. }
  apply F1, A.
Qed.

Lemma keeps_table_modify_env f : (forall e, config (f e) = config e) -> keeps keeps_table (modify (set_env f)).
Proof. intros F c. apply keeps_table_quiet; [apply F | reflexivity]. Qed.

Lemma keeps_table_replay r : keeps keeps_table (apply_replay_locked r).
Proof.
  assert (forall f, keeps keeps_table (on_ledger f)) as L.
  { intros f c. unfold on_ledger. destruct (f _); now apply keeps_table_quiet. }
  assert (forall a, keeps keeps_table (replay_attempt a)) as A.
  { intros [a|]; unfold replay_attempt; frame. }
  destruct r; cbn [apply_replay_locked];
    unfold replay_capacity, replay_paths, replay_policy, replay_reservation, replay_state,
      replay_applicability; frame; auto; try (intros c; cbn; case_match_goal; now apply keeps_table_quiet);
    try (apply keeps_sessions; [exact _|]; intros s; unfold apply_claimant; repeat case_match_goal;
         constructor).
Qed.

Lemma keeps_table_rebuild : keeps keeps_table rebuild_index_locked.
Proof. unfold rebuild_index_locked. frame. intros c. now apply keeps_table_quiet. Qed.

Lemma keeps_table_boot fresh : keeps keeps_table (boot_coordinator fresh).
Proof. unfold boot_coordinator. frame. now apply keeps_table_modify_env. Qed.

Lemma recover_table st c c' : recover st c = Ok c' -> keeps_table c c'.
Proof.
  unfold recover. intros R. destruct (load_state st c) as [c1|] eqn:L; [|discriminate]. cbn [rbind] in R.
  assert (keeps_table c c1) as K1.
  { unfold load_state in L. destruct (snapshot_payload_ st); [injection L as <-; reflexivity|].
    destruct (decode_SnapshotState _) as [[state rest]|]; [|discriminate].
    destruct (r_exhausted rest); [|discriminate]. injection L as <-.
    split; [reflexivity|]. apply apply_snapshot_sessions_ok. }
  assert (keeps keeps_table (for_each (records_ st) replay_record)) as K2.
  { apply keeps_for_each; [exact _|]. intros r. unfold replay_record.
    destruct (decode_record _ _); [apply keeps_table_replay | apply keeps_fail; exact _]. }
  specialize (K2 c1). destruct (for_each _ _ c1) as [[u|e] c2]; [|discriminate].
  pose proof (keeps_table_rebuild (set_book rebuild_queues c2)) as K3.
  destruct (rebuild_index_locked _) as [[u'|e] c3]; [|discriminate]. injection R as <-.
  etransitivity; [exact K1|]. etransitivity; [exact K2|]. etransitivity; [|exact K3]. now apply keeps_table_quiet.
Qed.

Lemma open_table cfg k d how i fs fb c d' :
  0 <= max_attempts cfg -> open_coordinator cfg k d how i fs fb = (Ok c, d') ->
  config (env c) = cfg /\ attempt_table_ok c.
Proof.
  intros P O. unfold open_coordinator in O. case_if_in O; [discriminate|].
  destruct (open d default_options how fs) as [[st|e] d1]; [|discriminate].
  destruct (read_store_identity d1) as [sid|]; [|discriminate]. cbn [rbind] in O.
  destruct (recover st _) as [c1|] eqn:R; [|discriminate]. apply recover_table in R.
  pose proof (keeps_table_boot fb c1) as B. destruct (boot_coordinator fb c1) as [[u|e] c2]; [|discriminate].
  injection O as <- <-. cbn [snd] in B. destruct R as [R1 R2], B as [B1 B2]. split; [rewrite B1; exact R1|].
  apply B2, R2. split; [apply NoDup_nil_2 | intros id; split; [contradiction | discriminate] | exact P].
Qed.

(** C13. The idempotency table is bounded whatever the directory held when the
    fabric opened and whatever requests followed: it remembers at most
    [max_attempts] attempts, each once in the order of eviction, and the order
    lists exactly the attempts that can be replayed. *)
Theorem attempts_bounded cfg k d how i fs fb c d' qs :
  0 <= max_attempts cfg -> open_coordinator cfg k d how i fs fb = (Ok c, d') ->
  let s := sessions (run qs c) in
  Z.of_nat (length (attempt_order s)) <= max_attempts cfg /\ NoDup (attempt_order s) /\
  forall id, In id (attempt_order s) <-> exists a, om_find (attempts s) id = Some a.
Proof.
  intros P O. destruct (open_table _ _ _ _ _ _ _ _ _ P O) as [<- T].
  destruct (keeps_run keeps_table (fun q => keeps_handle keeps_table q) qs c) as [E K].
  destruct (K T) as [N L B]. rewrite E in B. split; [exact B|]. split; [exact N|].
  intros id. rewrite L. unfold om_mem. destruct (om_find _ id) as [a|]; split; eauto; [discriminate|].
  intros [a E']. discriminate.
Qed.

Lemma attempts_bounded_witness :
  let qs := [QCompact] in
  let s := sessions (run qs Sample.opened) in
  Z.of_nat (length (attempt_order s)) <= 1000 /\ NoDup (attempt_order s) /\
  forall id, In id (attempt_order s) <-> exists a, om_find (attempts s) id = Some a.
Proof.
  intros qs. eapply (attempts_bounded (Sample.config_of 1000 1000 1000) (mkClock (Sample.second 1000) [])
    empty_disk open_io_ok io_ok (str "store") (Sample.id_of 2)); [cbn; lia | vm_compute; reflexivity].
Defined.
