(* ===== verification/CoordAttempts.v ===== *)
(** * Coordinator: a commit attempt is decided once

    The attempt table as the evidence of [create_locked]: a decision is
    remembered under its attempt, and a retry answers from memory. *)
From stdpp Require Import relations.
From S2P Require Import Prelude Errors Containers Identity Hash Bandwidth Time Authority Wire Policy Capacity Reservation Outcome SegTree Index Durable CodecBase Codec Store Coordinator CoordRecords CoordPersist CoordAssess CoordLifecycle CoordCommit CoordOps CoordQuery CoordSample CoordSteps CoordJournal CoordGate CoordSessions.

(** ** What a computation yields when it succeeds *)
Definition yields {A} (m : co A) (c : Coordinator) (Q : A -> Coordinator -> Prop) : Prop :=
  forall a c', m c = (Ok a, c') -> Q a c'.

Lemma yields_ret {A} (a : A) c (Q : A -> Coordinator -> Prop) : Q a c -> yields (ret a) c Q.
Proof. intros H a' c' E. injection E as <- <-. exact H. Qed.
Lemma yields_fail {A} e c (Q : A -> Coordinator -> Prop) : yields (fail e) c Q.
Proof. intros a c' E. discriminate. Qed.
Lemma yields_gets {A} (f : Coordinator -> A) c Q : Q (f c) c -> yields (gets f) c Q.
Proof. intros H a' c' E. injection E as <- <-. exact H. Qed.
Lemma yields_modify f c (Q : unit -> Coordinator -> Prop) : Q tt (f c) -> yields (modify f) c Q.
Proof. intros H a' c' E. injection E as <- <-. exact H. Qed.
Lemma yields_lift {A} (r : Result A) c (Q : A -> Coordinator -> Prop) :
  (forall a, r = Ok a -> Q a c) -> yields (lift r) c Q.
Proof. intros H a' c' E. injection E as -> <-. now apply H. Qed.
Lemma yields_bind {A B} (m : co A) (k : A -> co B) c Q :
  yields m c (fun a c1 => yields (k a) c1 Q) -> yields (bind m k) c Q.
Proof. intros H b c' E. unfold bind in E. destruct (m c) as [[a|e] c1] eqn:M; [|discriminate]. eapply H; eauto. Qed.
Lemma yields_keeps {A} R (m : co A) c (Q : A -> Coordinator -> Prop) :
  keeps R m -> (forall a c', R c c' -> Q a c') -> yields m c Q.
Proof. intros K H a c' E. apply H. specialize (K c). now rewrite E in K. Qed.
Lemma yields_weaken {A} (m : co A) c (P Q : A -> Coordinator -> Prop) :
  yields m c P -> (forall a c', P a c' -> Q a c') -> yields m c Q.
Proof. intros Y H a c' E. eapply H, Y, E. Qed.

(** A read of the state that may fail. *)
Lemma yields_look {A} (f : Coordinator -> Result A) c (Q : A -> Coordinator -> Prop) :
  (forall a, f c = Ok a -> Q a c) -> yields (fun c => (f c, c)) c Q.
Proof. intros H a c' E. injection E as E <-. now apply H. Qed.

(** ** Operations that leave the attempts, or attempts and generations, alone *)
Definition same_table (c c' : Coordinator) : Prop :=
  (attempts (sessions c'), attempt_order (sessions c'), config (env c')) =
  (attempts (sessions c), attempt_order (sessions c), config (env c)).
Definition stands (c c' : Coordinator) : Prop :=
  same_table c c' /\ (generations (book c'), current (book c')) = (generations (book c), current (book c)).

#[export] Instance same_table_PreOrder : PreOrder same_table.
Proof. split; [intros c; reflexivity | intros c c' c'' A B; unfold same_table in *; congruence]. Qed.
#[export] Instance stands_PreOrder : PreOrder stands.
Proof.
  split; [intros c; split; reflexivity | intros c c' c'' [A A'] [B B']; split; [etransitivity; eassumption | congruence]].
Qed.

Lemma stands_quiet c c' :
  sessions c' = sessions c -> config (env c') = config (env c) -> book c' = book c -> stands c c'.
Proof. intros A B D. unfold stands, same_table. rewrite A, B, D. auto. Qed.

Lemma book_step_stands b b' : book_step b b' -> generations b' = generations b /\ current b' = current b.
Proof.
  intros S. destruct S.
  - auto.
  - unfold recount. repeat case_if; auto.
  - match goal with M : meta_step _ _ |- _ => apply M end.
  - revert b. induction ks as [|k ks IH]; intros b; [auto|]. cbn [fold_left].
    destruct (IH (retire_key archive b k)) as [-> ->]. unfold retire_key. case_match_goal; auto.
Qed.

Lemma sessions_step_table c s : sessions_step (sessions c) s -> stands c (set_sessions (fun _ => s) c).
Proof.
  intros S. split; [|reflexivity]. unfold same_table. cbn [sessions env set_sessions].
  destruct S; try reflexivity. unfold apply_fence. repeat case_if; reflexivity.
Qed.

#[export] Instance Calm_stands : Calm stands.
Proof.
  apply Calm_intro; [exact _ | ..].
  - intros f c [A _ _ _]. now apply stands_quiet.
  - intros f c S. apply book_step_stands in S as [E F]. split; [reflexivity|]. cbn. now rewrite E, F.
  - intros f c S. apply (sessions_step_table c (f (sessions c)) S).
  - intros f c. now apply stands_quiet.
  - intros f c _. now apply stands_quiet.
  - intros c c' [(_ & B & S & _) (A & _) _]. now apply stands_quiet.
Qed.

Lemma stands_keeps {A} (m : co A) : keeps stands m -> keeps same_table m.
Proof. intros K c. apply K. Qed.

#[export] Instance Calm_same_table : Calm same_table.
Proof.
  apply Calm_intro; [exact _ | ..].
  - intros f c F. now apply (mute_env (R := stands)).
  - intros f c F. now apply (calm_book (R := stands)).
  - intros f c F. now apply (mute_sessions (R := stands)).
  - intros f c. reflexivity.
  - intros f c _. reflexivity.
  - intros c c' [(_ & B & S & _) (A & _) _]. now apply stands_quiet.
Qed.
#[export] Hint Resolve Calm_stands Calm_same_table : frame.

Lemma same_table_book f : keeps same_table (modify (set_book f)).
Proof. intros c. reflexivity. Qed.
#[local] Hint Resolve same_table_book : frame.

Lemma stands_scope {A} (m : co A) c Q :
  (forall c1 c2 a, stands c1 c2 -> Q a c1 -> Q a c2) ->
  (forall c1, stands c c1 -> yields m c1 Q) -> yields (with_suspension m) c Q.
Proof.
  intros St Y a c' E. unfold with_suspension in E.
  destruct (m _) as [r c1] eqn:M. injection E as -> <-.
  eapply St; [|eapply Y; [|exact M]; now apply stands_quiet]. now apply stands_quiet.
Qed.

(** ** Remembering *)
Definition fresh_table (c : Coordinator) (id : Identity128) : Prop :=
  attempt_table_ok c /\ 0 < max_attempts (config (env c)) /\ find_attempt_locked c id = None.

Lemma same_table_find c c' id : same_table c c' -> find_attempt_locked c' id = find_attempt_locked c id.
Proof. unfold same_table, find_attempt_locked. intros S. injection S as -> _ _. reflexivity. Qed.

Lemma same_table_fresh c c' id : same_table c c' -> fresh_table c id -> fresh_table c' id.
Proof.
  unfold same_table, fresh_table, attempt_table_ok, find_attempt_locked. intros S. injection S as -> -> ->. auto.
Qed.

Lemma remember_knows a c :
  fresh_table c (at_attempt a) -> yields (remember_attempt_locked a) c (fun _ c' => find_attempt_locked c' (at_attempt a) = Some a).
Proof.
  intros ([N L B] & P & F). apply yields_modify. unfold find_attempt_locked in *.
  cbn [sessions set_sessions]. unfold remember_attempt, om_mem. rewrite F.
  assert (~ In (at_attempt a) (attempt_order (sessions c))) as Out.
  { rewrite L. unfold om_mem. rewrite F. discriminate. }
  pose proof (evict_attempts_last (max_attempts (config (env c)))
    (om_set (attempts (sessions c)) (at_attempt a) a) (attempt_order (sessions c)) (at_attempt a) P Out) as V.
  destruct (evict_attempts _ _ _) as [m order]. cbn [attempts set_attempts fst] in *.
  rewrite V. apply om_find_set_eq.
Qed.

(** ** Accepted evaluations are committable *)
Definition all_committable (evs : list Assessment) : Prop :=
  Forall (fun e => as_outcome e = ao_kCommittable) evs.

Lemma evaluate_all_committable c t b pol i ws evs :
  evaluate_all c t b pol i ws = inl evs -> all_committable evs.
Proof.
  revert i evs. induction ws as [|w ws IH]; intros i evs; cbn [evaluate_all].
  - intros [= <-]. constructor.
  - destruct (beq _ _) eqn:E; cbn [negb]; [|discriminate]. apply beq_true in E.
    destruct (evaluate_all _ _ _ _ _ _) as [rest|] eqn:R; [|discriminate]. intros [= <-].
    constructor; [exact E | eapply IH, R].
Qed.

Definition plan_sound (p : plan) (_ : Coordinator) : Prop :=
  match p.2 with Some evs => all_committable evs | None => True end.

Lemma plan_candidates_sound t b pol ws cs vs c : yields (plan_candidates t b pol ws cs vs) c plan_sound.
Proof.
  revert vs c. induction cs as [|e cs IH]; intros vs c; cbn [plan_candidates].
  { now apply yields_ret. }
  case_if; [now apply yields_ret|]. apply yields_bind, yields_gets.
  destruct (find_record_locked _ _ _) as [v|]; [|apply IH].
  intros p c' E. destruct (suspend v c) as [[u|err] c1]; [|eapply IH, E].
  destruct (evaluate_all c1 t b pol 0 ws) as [evs|] eqn:Ev; [|eapply IH, E].
  injection E as <- <-. eapply evaluate_all_committable, Ev.
Qed.

Lemma plan_resources_sound t b pol self ws w refs vs c :
  yields (plan_resources t b pol self ws w refs vs) c plan_sound.
Proof.
  revert vs c. induction refs as [|r refs IH]; intros vs c; cbn [plan_resources].
  { now apply yields_ret. }
  case_if; [now apply yields_ret|]. apply yields_bind, yields_gets, yields_bind.
  eapply yields_weaken; [apply plan_candidates_sound|]. intros [vs' [evs|]] c' H.
  - now apply yields_ret.
  - apply IH.
Qed.

Lemma plan_preemption_sound t b pol self now ws i c :
  yields (plan_preemption t b pol self now ws i) c plan_sound.
Proof.
  unfold plan_preemption. apply yields_bind, yields_gets. case_if; [|now apply yields_ret].
  apply yields_bind. eapply yields_weaken; [apply plan_resources_sound|].
  intros [vs evs] c' H. apply yields_ret. exact H.
Qed.

Lemma accepted_outcome evs note n ds :
  all_committable evs -> as_outcome (accepted_assessment evs note n ds) = ao_kCommittable.
Proof. intros A. destruct A; [reflexivity | assumption]. Qed.

(** ** What a decision leaves behind *)

(** The result carries the outcome of an attempt record that stays in the table. *)
Definition evidenced (context : RequestContext) (print : Identity128) (r : CommitResult) (c : Coordinator) : Prop :=
  exists a, find_attempt_locked c (rq_attempt context) = Some a /\ fingerprint a = print /\
            at_outcome a = ar_outcome (cr_report r).

Lemma evidenced_same_table x p r c c' : same_table c c' -> evidenced x p r c -> evidenced x p r c'.
Proof. intros S (a & K & H). exists a. rewrite (same_table_find _ _ _ S). auto. Qed.

Lemma keeps_table_enter r : keeps same_table (enter_committed r).
Proof. unfold enter_committed, register_record_locked. frame. Qed.
Lemma keeps_table_companion m : keeps same_table (apply_companion m).
Proof. unfold apply_companion. frame. Qed.
#[local] Hint Resolve keeps_table_enter keeps_table_companion : frame.

(** Pass over a computation that keeps the table. *)
Ltac pass := apply yields_bind; eapply (yields_keeps same_table);
  [solve [frame] | intros ? ? ?].

Lemma commit_accepted_evidenced x t id sid print hs now b pol ws ds acc c :
  fresh_table c (rq_attempt x) -> as_outcome acc = ao_kCommittable ->
  yields (commit_accepted x t id sid print hs now b pol ws ds acc) c (evidenced x print).
Proof.
  intros F O. unfold commit_accepted. do 8 pass.
  apply yields_bind. eapply yields_weaken.
  { apply remember_knows. eapply same_table_fresh; [|exact F].
    repeat (etransitivity; [eassumption|]). reflexivity. }
  intros u c1 K. do 4 pass. apply yields_ret. apply (evidenced_same_table _ _ _ c1).
  { repeat (etransitivity; [eassumption|]). reflexivity. }
  eexists. split; [exact K|]. cbn. rewrite O. auto.
Qed.

Lemma refuse_commit_evidenced x t id print now n a c :
  fresh_table c (rq_attempt x) ->
  yields (refuse_commit x t id print false now n a) c (evidenced x print).
Proof.
  intros F. unfold refuse_commit, record_refusal. cbn [negb]. apply yields_bind.
  pass. apply yields_bind. eapply yields_weaken.
  { apply remember_knows. eapply same_table_fresh; [eassumption | exact F]. }
  intros u c1 K. pass. apply yields_ret, yields_ret. eapply evidenced_same_table; [eassumption|].
  eexists. split; [exact K|]. repeat split.
Qed.

Lemma yields_scope {A} (m : co A) c Q :
  (forall c1 c2 a, same_table c1 c2 -> Q a c1 -> Q a c2) ->
  (forall c1, same_table c c1 -> yields m c1 Q) -> yields (with_suspension m) c Q.
Proof.
  intros St Y a c' E. unfold with_suspension in E.
  destruct (m _) as [r c1] eqn:M. injection E as -> <-.
  apply (St c1); [reflexivity|]. eapply Y; [|exact M]. reflexivity.
Qed.

Lemma decide_commit_evidenced x t id sid print hs now n pol b ws c :
  fresh_table c (rq_attempt x) ->
  yields (decide_commit x t id sid print false hs now n pol b ws) c (evidenced x print).
Proof.
  intros F. unfold decide_commit. pass. apply yields_bind, yields_gets.
  destruct (evaluate_all c' t b pol 0 ws) as [evs|[failure failing]] eqn:Ev.
  - apply commit_accepted_evidenced; [eapply same_table_fresh; eassumption|].
    apply accepted_outcome. eapply evaluate_all_committable, Ev.
  - apply yields_bind. intros [displaced evs] c1 E.
    pose proof (plan_preemption_sound _ _ _ _ _ _ _ _ _ _ E) as P.
    pose proof (keeps_plan same_table t b pol id now ws failing c') as K. rewrite E in K. cbn [snd] in K.
    assert (fresh_table c1 (rq_attempt x)) as F1.
    { eapply same_table_fresh; [exact K|]. eapply same_table_fresh; eassumption. }
    destruct evs as [evs|].
    + apply commit_accepted_evidenced; [exact F1 | now apply accepted_outcome].
    + now apply refuse_commit_evidenced.
Qed.

(** ** Replaying a decision *)
Definition answers (a : AttemptRecord) (c : Coordinator) (r : CommitResult) (c' : Coordinator) : Prop :=
  cr_replayed r = true /\ ar_outcome (cr_report r) = at_outcome a /\ cr_sequence r = result_sequence a /\
  stands c c'.

Lemma replay_commit_answers x a n c : yields (replay_commit x a n) c (answers a c).
Proof.
  intros r c' E. pose proof (keeps_replay_commit stands x a n c) as K. rewrite E in K. cbn [snd] in K.
  cut (yields (replay_commit x a n) c (fun r _ => cr_replayed r = true /\
        ar_outcome (cr_report r) = at_outcome a /\ cr_sequence r = result_sequence a)).
  { intros Y. destruct (Y r c' E) as (A & B & D). repeat split; auto; apply K. }
  unfold replay_commit. apply yields_bind, (yields_keeps (fun _ _ => True)); [easy|]. intros u c1 _.
  apply yields_bind, yields_gets. case_match_goal; [|now apply yields_ret].
  apply yields_bind, (yields_keeps (fun _ _ => True)); [easy|]. intros [s ms] c2 _. now apply yields_ret.
Qed.

(** The part of [create_locked] before the attempt is looked up. *)
Ltac stand := apply yields_bind; eapply (yields_keeps stands); [solve [frame] | intros ? ? ?].

Definition commit_id (x : RequestContext) (t : ReservationTerms) (requested : Identity128) : Identity128 :=
  if is_nil requested then derive_series_id (claimant t) (rq_attempt x) 1 else requested.

Lemma create_cases x t rid dry hs c (Q : CommitResult -> Coordinator -> Prop) :
  let print := request_fingerprint t (commit_id x t rid) hs in
  (forall c1 a r c', stands c c1 -> find_attempt_locked c (rq_attempt x) = Some a ->
     fingerprint a = print -> answers a c1 r c' -> Q r c') ->
  (forall c1 sid now n pol b ws, stands c c1 -> find_attempt_locked c (rq_attempt x) = None ->
     yields (with_suspension (decide_commit x t (commit_id x t rid) sid print dry hs now n pol b ws)) c1 Q) ->
  yields (create_locked x t rid dry hs) c Q.
Proof.
  intros print Known New. unfold create_locked. do 6 stand.
  apply yields_bind, yields_gets. destruct (policy_for_locked _ _) as [pol note]. stand.
  assert (stands c c'5) as S by (repeat (etransitivity; [eassumption|]); reflexivity).
  apply yields_bind, yields_gets. fold (commit_id x t rid). fold print.
  rewrite (same_table_find c c'5) by apply S. destruct (find_attempt_locked c (rq_attempt x)) as [a'|] eqn:F.
  - apply yields_bind, yields_lift. intros u P.
    assert (fingerprint a' = print) as Ep.
    { apply beq_true. destruct (beq _ _); [reflexivity | discriminate P]. }
    eapply yields_weaken; [apply replay_commit_answers|]. intros r cr Hr. eapply Known; eauto.
  - apply yields_bind, yields_gets. stand. stand. apply yields_bind.
    unfold resolve_binding_locked. apply yields_look. intros binding _.
    apply yields_bind, yields_lift. intros ws _. eapply New; [|reflexivity].
    etransitivity; [exact S|]. etransitivity; eassumption.
Qed.


Lemma create_evidenced x t rid hs c :
  attempt_table_ok c -> 0 < max_attempts (config (env c)) ->
  yields (create_locked x t rid false hs) c
    (evidenced x (request_fingerprint t (commit_id x t rid) hs)).
Proof.
  intros T P. apply create_cases.
  - intros c1 a r c' [S _] F E (_ & O & _ & S' & _). exists a.
    rewrite (same_table_find _ _ _ S'), (same_table_find _ _ _ S). auto.
  - intros c1 sid now n pol b ws [S _] F. apply yields_scope.
    + intros c2 c3 r S' Ev. eapply evidenced_same_table; eassumption.
    + intros c2 S2. apply decide_commit_evidenced.
      eapply same_table_fresh; [exact S2|]. eapply same_table_fresh; [exact S|]. repeat split; auto; apply T.
Qed.

Lemma create_retried x t rid dry hs c a :
  find_attempt_locked c (rq_attempt x) = Some a ->
  yields (create_locked x t rid dry hs) c (fun r c' =>
    fingerprint a = request_fingerprint t (commit_id x t rid) hs /\ cr_replayed r = true /\
    ar_outcome (cr_report r) = at_outcome a /\ stands c c').
Proof.
  intros F. apply create_cases.
  - intros c1 a' r c' S F' E (A & O & _ & S'). rewrite F in F'. injection F' as <-.
    repeat split; auto; etransitivity; eassumption || apply S || apply S'.
  - intros c1 sid now n pol b ws _ F'. rewrite F in F'. discriminate.
Qed.

(** C11. An attempt is decided once.  Take any fabric opened from any directory,
    at any later point, and a commit that got an answer, an acceptance or a
    refusal.  Whatever requests follow, as long as the table has not evicted or
    overwritten the attempt, every answer to a commit under the same attempt is
    for the same request (same fingerprint), is marked as a replay, carries the
    same outcome, and registers no generation of any reservation. *)
Theorem commit_decided_once cfg k d how i fs fb c0 d' qs0 x t rid hs r c1 qs x' t' rid' dry hs' r' c3 :
  0 < max_attempts cfg -> open_coordinator cfg k d how i fs fb = (Ok c0, d') ->
  create_locked x t rid false hs (run qs0 c0) = (Ok r, c1) ->
  let c2 := run qs c1 in
  rq_attempt x' = rq_attempt x ->
  find_attempt_locked c2 (rq_attempt x) = find_attempt_locked c1 (rq_attempt x) ->
  create_locked x' t' rid' dry hs' c2 = (Ok r', c3) ->
  request_fingerprint t' (commit_id x' t' rid') hs' = request_fingerprint t (commit_id x t rid) hs /\
  cr_replayed r' = true /\ ar_outcome (cr_report r') = ar_outcome (cr_report r) /\
  generations (book c3) = generations (book c2).
Proof.
  intros P O E c2 A F E'. destruct (open_table cfg k d how i fs fb c0 d' ltac:(lia) O) as [<- T].
  destruct (keeps_run keeps_table (fun q => keeps_handle keeps_table q) qs0 c0) as [Ec K].
  destruct (create_evidenced x t rid hs _ (K T) ltac:(now rewrite Ec) r c1 E) as (a & Fa & Pa & Oa).
  rewrite <- F, <- A in Fa.
  destruct (create_retried x' t' rid' dry hs' c2 a Fa r' c3 E') as (Pb & R & Ob & _ & S).
  injection S as S _. repeat split; congruence.
Qed.

Lemma run_nil c : run [] c = c.
Proof. reflexivity. Qed.

Lemma commit_decided_once_witness :
  let commit := create_locked (Sample.context (Sample.id_of 20)) (Sample.terms_on 2000 3000 600 kProtected)
                  (Sample.id_of 21) false [] in
  let first := Sample.result_of Sample.no_commit commit Sample.ready in
  let again := Sample.result_of Sample.no_commit commit Sample.committed in
  cr_replayed again = true /\ ar_outcome (cr_report again) = ar_outcome (cr_report first) /\
  generations (book (Sample.state_of commit Sample.committed)) = generations (book Sample.committed).
Proof.
  intros commit first again.
  pose (cfg := Sample.config_of 1000 1000 1000).
  pose (opening := open_coordinator cfg (mkClock (Sample.second 1000) []) empty_disk open_io_ok io_ok
                     (str "store") (Sample.id_of 2)).
  destruct (commit_decided_once cfg (mkClock (Sample.second 1000) []) empty_disk open_io_ok io_ok
    (str "store") (Sample.id_of 2) Sample.opened opening.2
    [QIngestCapacity (Sample.snapshot 1 (Sample.link_capacity 1 1000)) [] (Sample.context nil_id)]
    (Sample.context (Sample.id_of 20)) (Sample.terms_on 2000 3000 600 kProtected) (Sample.id_of 21) []
    first Sample.committed [] (Sample.context (Sample.id_of 20))
    (Sample.terms_on 2000 3000 600 kProtected) (Sample.id_of 21) false [] again
    (Sample.state_of commit Sample.committed)) as (_ & R & O & G);
    [vm_compute; reflexivity.. |].
  rewrite run_nil in G. split; [exact R|]. split; [exact O | exact G].
Defined.
