(* ===== verification/CoordResolve.v ===== *)
(** * Coordinator: the revocation loop of an overcommit resolution

    [revoke_weakest] against a relation that has no fuel: which reservations are
    revoked, in which order, and when the loop ends. *)
From S2P Require Import Prelude Errors Containers Identity Hash Bandwidth Time Authority Wire Policy Capacity Reservation Outcome SegTree Index Durable CodecBase Codec Store Coordinator CoordRecords CoordPersist CoordAssess CoordLifecycle CoordCommit CoordOps.

Section resolution.
Context (context : RequestContext) (name : ResourceName) (ceiling : Z) (now : Timestamp).

Definition revocation (victim : ReservationRecord) :=
  transition_locked victim kRevoked now (rq_reason context) context ts0.

(** [n] victims were revoked between two states, each the next one in its turn. *)
Inductive revocations : nat -> Coordinator -> Coordinator -> Prop :=
  | rv_none c : revocations 0 c c
  | rv_turn n c victim r c1 c' :
      next_victim c name ceiling = Some victim -> revocation victim c = (Ok r, c1) ->
      revocations n c1 c' -> revocations (S n) c c'.

Lemma revoke_weakest_turn fuel revoked c :
  revoke_weakest (S fuel) context name ceiling now revoked c =
  match next_victim c name ceiling with
  | None => (Ok tt, c)
  | Some victim =>
      match revocation victim c with
      | (Err e, c) => (Err e, c)
      | (Ok _, c) =>
          if revoked + 1 >? kMaxResolutionVictims then (Ok tt, c)
          else revoke_weakest fuel context name ceiling now (revoked + 1) c
      end
  end.
Proof.
  cbn [revoke_weakest]. unfold bind, gets, revocation. destruct (next_victim c name ceiling); [|reflexivity].
  destruct (transition_locked _ _ _ _ _ _ _) as [[rv|e] c1]; [|reflexivity]. now case_if.
Qed.

(** How a loop whose result is [result] ends at [c1]. *)
Definition loop_ends (spent : bool) (c1 : Coordinator) (result : Status * Coordinator) : Prop :=
  (result = (Ok tt, c1) /\ (next_victim c1 name ceiling = None \/ spent = true)) \/
  (exists victim e c2, next_victim c1 name ceiling = Some victim /\
     revocation victim c1 = (Err e, c2) /\ result = (Err e, c2)).

Lemma revoke_weakest_ends fuel revoked c :
  let left := kMaxResolutionVictims + 1 - revoked in
  0 < left <= Z.of_nat fuel ->
  exists n c1, Z.of_nat n <= left /\ revocations n c c1 /\
    loop_ends (Z.of_nat n =? left) c1 (revoke_weakest fuel context name ceiling now revoked c).
Proof.
  cbv zeta. revert revoked c. induction fuel as [|fuel IH]; intros revoked c F; [lia|].
  rewrite revoke_weakest_turn. destruct (next_victim c name ceiling) as [victim|] eqn:V.
  2:{ exists O, c. split; [lia|]. split; [constructor|]. left. auto. }
  destruct (revocation victim c) as [[r|e] c1] eqn:T.
  2:{ exists O, c. split; [lia|]. split; [constructor|]. right. exists victim, e, c1. auto. }
  rewrite Z.gtb_ltb. destruct (Z.ltb_spec kMaxResolutionVictims (revoked + 1)).
  - exists 1%nat, c1. split; [lia|]. split; [eapply rv_turn; [exact V | exact T | constructor]|].
    left. split; [reflexivity|]. right. apply Z.eqb_eq. lia.
  - destruct (IH (revoked + 1) c1) as (n & c2 & N & Rv & L); [lia|].
    exists (S n), c2. split; [lia|]. split; [eapply rv_turn; eassumption|].
    replace (Z.of_nat (S n) =? kMaxResolutionVictims + 1 - revoked)
      with (Z.of_nat n =? kMaxResolutionVictims + 1 - (revoked + 1)); [exact L|].
    apply eq_iff_eq_true. rewrite !Z.eqb_eq. lia.
Qed.
End resolution.

(** ** The victim of a turn *)
Lemma sort_head {A} (lt : A -> A -> bool) l a rest :
  (forall x y, lt x y = true -> lt y x = false) ->
  (forall x y z, lt x y = false -> lt y z = false -> lt x z = false) -> lt a a = false ->
  sort lt l = a :: rest -> In a l /\ forall b, In b l -> lt b a = false.
Proof.
  intros As Tr Ir E. split; [apply (sort_In lt); rewrite E; left; reflexivity|].
  intros b I. apply (sort_In lt) in I. pose proof (sort_sorted lt As Tr l) as S. rewrite E in I, S.
  destruct I as [<-|I]; [exact Ir|]. inversion S as [|? ? _ F]; subst.
  rewrite List.Forall_forall in F. auto.
Qed.

Lemma next_victim_weakest c name ceiling v :
  next_victim c name ceiling = Some v ->
  bps (candidates_peak (resolution_candidates c name)) > ceiling /\
  exists e, In e (resolution_candidates c name) /\
    find_record_locked c (ie_id e) (mkCounter (holder_generation e)) = Some v /\
    forall e', In e' (resolution_candidates c name) ->
      GuaranteeClass_to_Z (ie_guarantee e) <= GuaranteeClass_to_Z (ie_guarantee e').
Proof.
  unfold next_victim. destruct (sort displacement_lt _) as [|e rest] eqn:E; [discriminate|].
  destruct (Z.leb_spec (bps (candidates_peak (resolution_candidates c name))) ceiling); [discriminate|].
  intros V. split; [lia|]. exists e. apply sort_head in E; [|intros; unfold displacement_lt in *..].
  - destruct E as [I W]. split; [exact I|]. split; [exact V|]. intros e' I'. specialize (W e' I').
    unfold displacement_lt in W. apply Z.nlt_ge. intros L.
    assert (kltb (GuaranteeClass_to_Z (ie_guarantee e')) (GuaranteeClass_to_Z (ie_guarantee e)) = true) as K.
    { unfold kltb. cbn. apply Z.compare_lt_iff in L. now rewrite L. }
    unfold kltb in K, W. cbn in K, W. destruct (Z.compare _ _); discriminate.
  - now apply kltb_asym.
  - eapply kltb_negtrans; eassumption.
  - apply kltb_irrefl.
Qed.

(** C14. The revocation loop of an overcommit resolution ends, by itself, after at
    most 4097 revocations, and never for want of fuel: it revokes one victim
    after the other and stops because nothing is left to revoke (the resource
    closes, there is no candidate, or the weakest one has no record), because the bound is reached, or with
    the error of a revocation that failed.  Each victim is taken while the
    candidates exceed the ceiling and is of the weakest guarantee class among
    them. *)
Theorem resolution_ends context name ceiling now c :
  (exists n c1, Z.of_nat n <= kMaxResolutionVictims + 1 /\
     revocations context name ceiling now n c c1 /\
     loop_ends context name ceiling now (Z.of_nat n =? kMaxResolutionVictims + 1) c1
       (revoke_weakest resolution_fuel context name ceiling now 0 c)) /\
  (forall v, next_victim c name ceiling = Some v ->
     bps (candidates_peak (resolution_candidates c name)) > ceiling /\
     exists e, In e (resolution_candidates c name) /\
       find_record_locked c (ie_id e) (mkCounter (holder_generation e)) = Some v /\
       forall e', In e' (resolution_candidates c name) ->
         GuaranteeClass_to_Z (ie_guarantee e) <= GuaranteeClass_to_Z (ie_guarantee e')).
Proof.
  split; [|apply next_victim_weakest].
  destruct (revoke_weakest_ends context name ceiling now resolution_fuel 0 c) as (n & c1 & H);
    [|exists n, c1; rewrite Z.sub_0_r in H; exact H].
  unfold resolution_fuel, kMaxResolutionVictims. rewrite Z2Nat.id; lia.
Qed.
