(* ===== verification/CoordBook.v ===== *)
(** * Coordinator: the record book and its invariant

    What the record set, the current generations and the two counts promise,
    and how the four changes of a book keep it: an element replaced, a record
    registered, a record retired, anything beside the records. *)
From stdpp Require Import relations.
From S2P Require Import Prelude Errors Containers Identity Hash Bandwidth Time Authority Wire Policy Capacity Reservation Outcome SegTree Index Durable CodecBase Codec Store Coordinator CoordRecords CoordPersist CoordAssess CoordLifecycle CoordCommit CoordOps CoordQuery CoordSteps.

(** ** Counting in an ordered map *)
Section tally.
Context {K V : Type} `{OrdKey K} (P : V -> bool).

Definition tally (m : omap K V) : Z := Z.of_nat (length (List.filter (fun p => P p.2) m)).

Definition counted (o : option V) : Z := match o with Some v => Z.b2z (P v) | None => 0 end.

Lemma tally_cons k v (m : omap K V) : tally ((k, v) :: m) = Z.b2z (P v) + tally m.
Proof. unfold tally. cbn [List.filter]. cbn [snd]. destruct (P v); cbn [length Z.b2z]; lia. Qed.

Lemma find_below k (m : omap K V) :
  (forall q, In q m -> kltb k q.1 = true) -> om_find m k = None.
Proof.
  intros F. destruct (om_find m k) as [v|] eqn:E; [|reflexivity].
  apply om_find_In, F in E. cbn in E. now rewrite kltb_irrefl in E.
Qed.

Lemma tally_set (m : omap K V) k v :
  om_sorted m -> tally (om_set m k v) = tally m + Z.b2z (P v) - counted (om_find m k).
Proof.
  induction m as [|[k' v'] m IH]; intros S; [cbn [om_set om_find counted]; rewrite tally_cons; lia|].
  apply om_sorted_cons in S. destruct S as [S F]. cbn [om_set om_find].
  destruct (kcmp k k') eqn:E.
  - assert (keqb k' k = true) as -> by (rewrite keqb_sym; unfold keqb; now rewrite E).
    rewrite !tally_cons. cbn [counted]. lia.
  - assert (kltb k k' = true) as L by (unfold kltb; now rewrite E).
    rewrite (keqb_sym k' k). unfold keqb. rewrite E.
    rewrite (find_below k m); [rewrite !tally_cons; cbn [counted]; lia|].
    intros q I. eapply kltb_trans; [exact L | apply (F q I)].
  - rewrite (keqb_sym k' k). unfold keqb. rewrite E, !tally_cons, IH by exact S. lia.
Qed.

Lemma tally_erase (m : omap K V) k :
  om_sorted m -> tally (om_erase m k) = tally m - counted (om_find m k).
Proof.
  induction m as [|[k' v'] m IH]; intros S; [reflexivity|].
  apply om_sorted_cons in S. destruct S as [S F].
  unfold om_erase in *. cbn [List.filter om_find fst]. destruct (keqb k' k) eqn:E; cbn [negb].
  - apply keqb_eq in E. subst k'. rewrite IH by exact S.
    rewrite (find_below k m), tally_cons by exact F. cbn [counted]. lia.
  - rewrite !tally_cons, IH by exact S. lia.
Qed.

Lemma tally_nonneg (m : omap K V) k : om_sorted m -> counted (om_find m k) <= tally m.
Proof. intros S. pose proof (tally_erase m k S) as E. unfold tally at 1 in E. lia. Qed.
End tally.

(** ** The invariant *)
Definition live (r : ReservationRecord) : bool := negb (is_terminal (rr_state r)).
Definition ended (r : ReservationRecord) : bool := is_terminal (rr_state r).

Record book_ok (b : Book) : Prop := {
  bk_sorted : om_sorted (records b);
  bk_keyed : forall k r, om_find (records b) k = Some r -> key_of r = k;
  bk_current : forall k r, om_find (records b) k = Some r ->
    exists g, om_find (current b) k.1 = Some g /\ value k.2 <= value g;
  bk_live : forall k r, om_find (records b) k = Some r -> live r = true ->
    om_find (current b) k.1 = Some k.2;
  bk_width : forall id g, om_find (current b) id = Some g -> 0 <= value g;
  bk_counts : live_count b = tally live (records b) /\ history_count b = tally ended (records b) }.

(** The generation ended: it is terminal, or it left the records. *)
Definition dead (b : Book) (k : ReservationKey) : Prop :=
  match om_find (records b) k with
  | Some r => ended r = true
  | None => exists g, om_find (current b) k.1 = Some g /\ value k.2 <= value g
  end.

(** Current generations only grow, and what ended stays ended. *)
Definition grows (b b' : Book) : Prop :=
  forall id g, om_find (current b) id = Some g ->
    exists g', om_find (current b') id = Some g' /\ value g <= value g'.

Definition settles (b b' : Book) : Prop := grows b b' /\ forall k, dead b k -> dead b' k.

#[export] Instance grows_PreOrder : PreOrder grows.
Proof.
  split; [intros b id g F; exists g; split; [exact F | lia]|].
  intros b b' b'' A B id g F. destruct (A id g F) as (g' & F' & L).
  destruct (B id g' F') as (g'' & F'' & L'). exists g''. split; [exact F'' | lia].
Qed.
#[export] Instance settles_PreOrder : PreOrder settles.
Proof.
  split; [intros b; split; [reflexivity | auto]|].
  intros b b' b'' [A A'] [B B']. split; [etransitivity; eassumption | auto].
Qed.

(** What the invariant reads of a book. *)
Definition core (b : Book) :=
  (records b, current b, live_count b, history_count b).

Lemma core_fields b b' :
  core b' = core b ->
  records b' = records b /\ current b' = current b /\
  live_count b' = live_count b /\ history_count b' = history_count b.
Proof. unfold core. intros [= -> -> -> ->]. auto. Qed.

Lemma core_ok b b' : core b' = core b -> book_ok b -> book_ok b'.
Proof. intros E [S K C L W N]. apply core_fields in E as (A & B & D & F). split; rewrite ?A, ?B, ?D, ?F; auto. Qed.

Lemma core_settles b b' : core b' = core b -> settles b b'.
Proof.
  intros E. apply core_fields in E as (A & B & _ & _). unfold settles, grows, dead. rewrite A, B.
  split; [intros id g F; exists g; split; [exact F | lia] | auto].
Qed.

Lemma live_negb r : live r = negb (ended r).
Proof. reflexivity. Qed.

(** The changes of a book at one key: everything else stays. *)
Record at_key (k : ReservationKey) (b b' : Book) : Prop := {
  ak_current : current b' = current b;
  ak_other : forall k', k' <> k -> om_find (records b') k' = om_find (records b) k' }.

(** ** An element replaced *)
Definition replaced (r r' : ReservationRecord) (b : Book) : Book :=
  put_record r' (recount (rr_state r) (rr_state r') b).

Lemma replaced_same r r' b : rr_state r' = rr_state r -> replaced r r' b = put_record r' b.
Proof. intros E. unfold replaced, recount. rewrite E. now destruct (is_terminal (rr_state r)). Qed.

Lemma replaced_fields r r' b :
  records (replaced r r' b) = om_set (records b) (key_of r') r' /\ current (replaced r r' b) = current b.
Proof. unfold replaced, recount. repeat case_if; auto. Qed.

Lemma replaced_counts r r' b :
  book_ok b -> om_find (records b) (key_of r) = Some r -> key_of r' = key_of r ->
  let b' := replaced r r' b in
  live_count b' = live_count b + Z.b2z (live r') - Z.b2z (live r) /\
  history_count b' = history_count b + Z.b2z (ended r') - Z.b2z (ended r).
Proof.
  intros [S _ _ _ _ [CL CE]] F K. unfold replaced, recount, live, ended.
  pose proof (tally_nonneg live (records b) (key_of r) S) as NL.
  pose proof (tally_nonneg ended (records b) (key_of r) S) as NE.
  rewrite F in NL, NE. cbn [counted] in NL, NE. unfold live, ended in CL, CE, NL, NE.
  destruct (is_terminal (rr_state r)), (is_terminal (rr_state r'));
    cbn [negb andb Z.b2z live_count history_count put_record set_records set_counts] in *;
    unfold pred_count; split; repeat case_if; bool_prop; try lia.
Qed.

Lemma replace_ok r r' b :
  book_ok b -> om_find (records b) (key_of r) = Some r -> key_of r' = key_of r ->
  (ended r = true -> ended r' = true) ->
  book_ok (replaced r r' b) /\ settles b (replaced r r' b) /\ at_key (key_of r) b (replaced r r' b) /\
  om_find (records (replaced r r' b)) (key_of r) = Some r'.
Proof.
  intros B F K T. destruct (replaced_counts r r' b B F K) as [CL CE].
  destruct B as [S Ky Cu Li Wi [NL NE]]. destruct (replaced_fields r r' b) as [R C].
  revert CL CE. generalize dependent (replaced r r' b). intros b' R C CL CE. rewrite K in R.
  assert (forall k, om_find (records b') k = if keqb (key_of r) k then Some r' else om_find (records b) k) as G.
  { intros k. rewrite R. apply om_find_set. }
  split; [split|split; [split|split; [split|]]].
  - rewrite R. now apply om_set_sorted.
  - intros k x. rewrite G. destruct (keqb (key_of r) k) eqn:E; [|apply Ky].
    apply keqb_eq in E. intros [= <-]. congruence.
  - intros k x. rewrite G, C. destruct (keqb (key_of r) k) eqn:E; [|apply Cu].
    apply keqb_eq in E. subst k. intros _. eapply Cu, F.
  - intros k x. rewrite G, C. destruct (keqb (key_of r) k) eqn:E; [|apply Li].
    apply keqb_eq in E. subst k. intros [= <-] L. apply (Li _ _ F).
    rewrite live_negb in *. destruct (ended r); [|reflexivity]. now rewrite T in L.
  - now rewrite C.
  - rewrite R, !tally_set by exact S. rewrite F. cbn [counted]. lia.
  - intros id g Fg. rewrite C. exists g. split; [exact Fg | lia].
  - intros k. unfold dead. rewrite G, C. destruct (keqb (key_of r) k) eqn:E; [|auto].
    apply keqb_eq in E. subst k. now rewrite F.
  - exact C.
  - intros k' N. rewrite G. apply not_eq_sym, keqb_neq in N. now rewrite N.
  - now rewrite G, keqb_refl.
Qed.

(** ** A record registered *)

(** The generation may enter: its identity is new, or its current generation is
    an earlier one that ended, or it replaces a live record of the same key. *)
Definition enters (b : Book) (r : ReservationRecord) : Prop :=
  live r = true /\ 0 <= value (rr_generation r) /\
  match om_find (current b) (rr_id r) with
  | None => True
  | Some g =>
      (value g < value (rr_generation r) /\
       forall r0, om_find (records b) (rr_id r, g) = Some r0 -> ended r0 = true) \/
      (g = rr_generation r /\
       exists r0, om_find (records b) (key_of r) = Some r0 /\ live r0 = true)
  end.

(** The changes of a book at one identity. *)
Record at_id (id : Identity128) (b b' : Book) : Prop := {
  ai_current : forall id', id' <> id -> om_find (current b') id' = om_find (current b) id';
  ai_other : forall k, k.1 <> id -> om_find (records b') k = om_find (records b) k }.

#[export] Instance at_id_PreOrder id : PreOrder (at_id id).
Proof.
  split; [split; auto|]. intros b b' b'' [A B] [A' B'].
  split; intros; [rewrite A', A | rewrite B', B]; auto.
Qed.

Lemma at_key_id k b b' : at_key k b b' -> at_id k.1 b b'.
Proof. intros [C O]. split; intros; [now rewrite C | apply O; now intros ->]. Qed.

Lemma register_records r b : records (register_record r b) = om_set (records b) (key_of r) r.
Proof.
  unfold register_record, count_in. cbv zeta.
  destruct (om_find (current _) _); repeat case_if; reflexivity.
Qed.

Lemma register_current r b :
  book_ok b -> enters b r ->
  forall id, om_find (current (register_record r b)) id =
             if keqb (rr_id r) id then Some (rr_generation r) else om_find (current b) id.
Proof.
  intros B (L & W & E) id. unfold register_record, count_in. cbv zeta.
  cbn [records current set_records set_generations generations].
  destruct (om_find (current b) (rr_id r)) as [g|] eqn:C.
  - destruct E as [[G _]|[-> _]].
    + assert ((value (rr_generation r) >? value g) = true) as -> by (apply Z.gtb_lt; lia).
      destruct (om_mem (records b) (key_of r)), (is_terminal (rr_state r)); apply om_find_set.
    + assert ((value (rr_generation r) >? value (rr_generation r)) = false) as -> by (rewrite Z.gtb_ltb; lia).
      assert (om_find (current b) id = if keqb (rr_id r) id then Some (rr_generation r) else om_find (current b) id) as <-;
        [|destruct (om_mem (records b) (key_of r)), (is_terminal (rr_state r)); reflexivity].
      destruct (keqb (rr_id r) id) eqn:K; [|reflexivity]. apply keqb_eq in K. now subst id.
  - destruct (om_mem (records b) (key_of r)), (is_terminal (rr_state r)); apply om_find_set.
Qed.

Lemma register_counts r b :
  live r = true ->
  live_count (register_record r b) =
    (if om_mem (records b) (key_of r) then live_count b else live_count b + 1) /\
  history_count (register_record r b) = history_count b.
Proof.
  rewrite live_negb. intros L. apply negb_true_iff in L. unfold ended in L.
  unfold register_record, count_in. cbv zeta. rewrite L.
  destruct (om_find (current _) _); repeat case_if; auto.
Qed.

(** An entering record is new, or takes the place of a live one. *)
Lemma enters_found b r :
  book_ok b -> enters b r ->
  om_find (records b) (key_of r) = None \/
  exists r0, om_find (records b) (key_of r) = Some r0 /\ live r0 = true.
Proof.
  intros B (L & W & E). destruct (om_find (records b) (key_of r)) as [r0|] eqn:F; [|auto]. right.
  destruct (bk_current b B _ _ F) as (g & C & G). cbn [key_of fst snd] in C, G.
  rewrite C in E. destruct E as [[G' _]|[_ (r1 & F1 & L1)]]; [lia|]. exists r0. split; [reflexivity | congruence].
Qed.

Lemma register_ok r b :
  book_ok b -> enters b r ->
  let b' := register_record r b in
  book_ok b' /\ settles b b' /\ at_id (rr_id r) b b' /\
  om_find (records b') (key_of r) = Some r /\ om_find (current b') (rr_id r) = Some (rr_generation r).
Proof.
  intros B E. cbv zeta. pose proof (register_current r b B E) as C.
  pose proof (register_records r b) as R. destruct (register_counts r b (proj1 E)) as [CL CE].
  pose proof (enters_found b r B E) as F. destruct E as (L & W & E). destruct B as [S Ky Cu Li Wi [NL NE]].
  revert C R CL CE. generalize (register_record r b). intros b' C R CL CE.
  assert (forall k, om_find (records b') k = if keqb (key_of r) k then Some r else om_find (records b) k) as G.
  { intros k. rewrite R. apply om_find_set. }
  assert (om_find (current b') (rr_id r) = Some (rr_generation r)) as C0 by now rewrite C, keqb_refl.
  assert (forall id g, om_find (current b) id = Some g ->
            exists g', om_find (current b') id = Some g' /\ value g <= value g') as Gr.
  { intros id g Fg. rewrite C. destruct (keqb (rr_id r) id) eqn:K; [|exists g; split; [exact Fg | lia]].
    apply keqb_eq in K. subst id. exists (rr_generation r). split; [reflexivity|].
    rewrite Fg in E. destruct E as [[E _]|[-> _]]; lia. }
  split; [split|split; [split|split; [split|split]]]; try assumption.
  - rewrite R. now apply om_set_sorted.
  - intros k x. rewrite G. destruct (keqb (key_of r) k) eqn:K; [|apply Ky].
    apply keqb_eq in K. intros [= <-]. exact K.
  - intros k x. rewrite G. destruct (keqb (key_of r) k) eqn:K.
    + apply keqb_eq in K. subst k. intros _. exists (rr_generation r). split; [exact C0 | cbn; lia].
    + intros Fx. destruct (Cu _ _ Fx) as (g & Fg & Lg). destruct (Gr _ _ Fg) as (g' & Fg' & Lg').
      exists g'. split; [exact Fg' | lia].
  - intros k x. rewrite G. destruct (keqb (key_of r) k) eqn:K.
    + apply keqb_eq in K. subst k. intros _ _. exact C0.
    + intros Fx Lx. specialize (Li _ _ Fx Lx). rewrite C. destruct (keqb (rr_id r) k.1) eqn:I; [|exact Li].
      apply keqb_eq in I. rewrite <- I in Li. rewrite Li in E. exfalso. destruct k as [id g]. cbn in *. subst id.
      destruct E as [[_ D]|[-> _]].
      * specialize (D x Fx). rewrite live_negb, D in Lx. discriminate.
      * unfold key_of in K. now rewrite keqb_refl in K.
  - intros id g. rewrite C. destruct (keqb (rr_id r) id); [intros [= <-]; exact W | apply Wi].
  - assert (ended r = false) as Er by (rewrite live_negb in L; now apply negb_true_iff in L).
    rewrite R, !tally_set by exact S. rewrite Er, L, CL, CE. unfold om_mem.
    destruct F as [F|(r0 & F & L0)]; rewrite F; cbn [counted]; [cbn [Z.b2z]; lia|].
    rewrite L0. rewrite live_negb in L0. apply negb_true_iff in L0. rewrite L0. cbn [Z.b2z]. lia.
  - intros k. unfold dead. rewrite G. destruct (keqb (key_of r) k) eqn:K.
    + apply keqb_eq in K. subst k. destruct F as [F|(r0 & F & L0)]; rewrite F.
      * intros (g & Fg & Lg). cbn [key_of fst snd] in Fg, Lg. rewrite Fg in E.
        destruct E as [[E _]|[_ (r0 & F0 & _)]]; [lia | congruence].
      * intros D. rewrite live_negb, D in L0. discriminate.
    + destruct (om_find (records b) k) as [x|]; [auto|]. intros (g & Fg & Lg).
      destruct (Gr _ _ Fg) as (g' & Fg' & Lg'). exists g'. split; [exact Fg' | lia].
  - intros id' N. rewrite C. apply not_eq_sym, keqb_neq in N. now rewrite N.
  - intros k N. rewrite G. destruct (keqb (key_of r) k) eqn:K; [|reflexivity].
    apply keqb_eq in K. now subst k.
  - now rewrite G, keqb_refl.
Qed.

(** ** A record retired *)
Definition retirable (b : Book) (k : ReservationKey) : Prop :=
  forall r, om_find (records b) k = Some r -> ended r = true.

Lemma retire_ok archive k b :
  book_ok b -> retirable b k ->
  book_ok (retire_key archive b k) /\ settles b (retire_key archive b k) /\
  (forall k', retirable b k' -> retirable (retire_key archive b k) k').
Proof.
  intros B T. unfold retire_key. destruct (om_find (records b) k) as [r|] eqn:F.
  2:{ split; [exact B | split; [reflexivity | auto]]. }
  specialize (T _ F). destruct B as [S Ky Cu Li Wi [NL NE]]. cbn.
  assert (forall k', om_find (om_erase (records b) k) k' = if keqb k k' then None else om_find (records b) k') as G
    by (intros k'; apply om_find_erase).
  pose proof (tally_nonneg ended (records b) k S) as P. rewrite F in P. cbn [counted] in P. rewrite T in P.
  split; [split|split; [split|]]; cbn.
  - now apply om_erase_sorted.
  - intros k' x. rewrite G. destruct (keqb k k'); [discriminate | apply Ky].
  - intros k' x. rewrite G. destruct (keqb k k'); [discriminate | apply Cu].
  - intros k' x. rewrite G. destruct (keqb k k'); [discriminate | apply Li].
  - exact Wi.
  - pose proof (tally_erase live (records b) k S) as EL. pose proof (tally_erase ended (records b) k S) as EE.
    rewrite F in EL, EE. cbn [counted] in EL, EE. rewrite live_negb, T in EL. rewrite T in EE.
    cbn [Z.b2z negb] in *. unfold tally, om_erase in *. unfold pred_count. case_if; bool_prop; lia.
  - intros id g Fg. exists g. split; [exact Fg | lia].
  - intros k'. unfold dead. cbn. rewrite G. destruct (keqb k k') eqn:K; [|auto].
    apply keqb_eq in K. subst k'. intros _. eapply Cu, F.
  - intros k' R x. cbn. rewrite G. destruct (keqb k k'); [discriminate | apply R].
Qed.

Lemma retire_all_ok archive ks : forall b,
  book_ok b -> Forall (retirable b) ks ->
  book_ok (fold_left (retire_key archive) ks b) /\ settles b (fold_left (retire_key archive) ks b).
Proof.
  induction ks as [|k ks IH]; intros b B T; [split; [exact B | reflexivity]|].
  inversion T as [|? ? T1 T2]; subst. destruct (retire_ok archive k b B T1) as (B' & S & K).
  destruct (IH _ B') as [B'' S'']; [eapply Forall_impl; [exact T2 | apply K]|].
  split; [exact B'' | cbn; etransitivity; eassumption].
Qed.

(** ** What a book starts with *)
Lemma blank_ok : book_ok blank_book.
Proof. split; try discriminate; [constructor | auto]. Qed.

Lemma terminal_keys_ok b : book_ok b -> Forall (retirable b) (terminal_keys b).
Proof.
  intros B. apply List.Forall_forall. intros k I. unfold terminal_keys in I.
  apply in_map_iff in I as (r & <- & I). apply sort_In, filter_In in I. destruct I as [I T].
  unfold om_values in I. apply in_map_iff in I as ([k r'] & E & I). cbn in E. subst r'.
  intros x F. apply om_In_find in I; [|apply B]. pose proof (bk_keyed b B _ _ I) as K. subst k.
  rewrite I in F. injection F as <-. exact T.
Qed.
