(* ===== verification/CoordSound.v ===== *)
(** * Coordinator: lifecycle soundness, the rules

    Partial correctness over the invariant of the book: a computation keeps
    [book_ok] and lets what ended stay ended, as long as no identity has used up
    its generations. *)
From stdpp Require Import relations.
From S2P Require Import Prelude Errors Containers Identity Hash Bandwidth Time Authority Wire Policy Capacity Reservation Outcome SegTree Index Durable CodecBase Codec Store Coordinator CoordRecords CoordPersist CoordAssess CoordLifecycle CoordCommit CoordOps CoordQuery CoordSteps CoordBook.

(** ** Relations between states *)

(** Every current generation still has a successor. *)
Definition tight (c : Coordinator) : Prop :=
  forall id g, om_find (current (book c)) id = Some g -> value g < u64_max.

Definition grown (c c' : Coordinator) : Prop := grows (book c) (book c').
Definition quiet (c c' : Coordinator) : Prop := core (book c') = core (book c).

(** No record leaves; and the current generations stand besides. *)
Definition stays (c c' : Coordinator) : Prop :=
  forall k, om_mem (records (book c)) k = true -> om_mem (records (book c')) k = true.
Definition matures (c c' : Coordinator) : Prop :=
  current (book c') = current (book c) /\ stays c c'.

Definition touches (k : ReservationKey) (c c' : Coordinator) : Prop := at_key k (book c) (book c').
Definition within (id : Identity128) (c c' : Coordinator) : Prop := at_id id (book c) (book c').

(** The record is what the book holds under its key. *)
Definition stored (c : Coordinator) (r : ReservationRecord) : Prop :=
  om_find (records (book c)) (key_of r) = Some r.

#[export] Instance grown_PreOrder : PreOrder grown.
Proof. split; [intros c; unfold grown; reflexivity | intros c c' c'' A B; unfold grown in *; etransitivity; eassumption]. Qed.
#[export] Instance quiet_PreOrder : PreOrder quiet.
Proof. split; [intros c; reflexivity | intros c c' c'' A B; unfold quiet in *; congruence]. Qed.
#[export] Instance stays_PreOrder : PreOrder stays.
Proof. split; [intros c k; auto | intros c c' c'' A B k M; auto]. Qed.
#[export] Instance matures_PreOrder : PreOrder matures.
Proof. split; [intros c; split; [auto | reflexivity] | intros c c' c'' [A A'] [B B']; split; [congruence | etransitivity; eassumption]]. Qed.
#[export] Instance touches_PreOrder k : PreOrder (touches k).
Proof.
  split; [intros c; split; auto|]. intros c c' c'' [A A'] [B B']. split; [congruence|].
  intros k' N. rewrite B', A'; auto.
Qed.
#[export] Instance within_PreOrder id : PreOrder (within id).
Proof. split; [intros c; unfold within; reflexivity | intros c c' c'' A B; unfold within in *; etransitivity; eassumption]. Qed.

Section quiet.
Context (c c' : Coordinator) (E : quiet c c').

Lemma quiet_records : records (book c') = records (book c).
Proof. apply core_fields in E. apply E. Qed.
Lemma quiet_current : current (book c') = current (book c).
Proof. apply core_fields in E. apply E. Qed.
Lemma quiet_stored r : stored c r -> stored c' r.
Proof. unfold stored. now rewrite quiet_records. Qed.
Lemma quiet_matures : matures c c'.
Proof. split; [apply quiet_current | unfold stays; now rewrite quiet_records]. Qed.
Lemma quiet_touches k : touches k c c'.
Proof. split; [apply quiet_current | intros k' _; now rewrite quiet_records]. Qed.
Lemma quiet_within id : within id c c'.
Proof. split; intros; [now rewrite quiet_current | now rewrite quiet_records]. Qed.
Lemma quiet_enters r : enters (book c) r -> enters (book c') r.
Proof. unfold enters. now rewrite quiet_records, quiet_current. Qed.
End quiet.

Lemma matures_stays c c' : matures c c' -> stays c c'.
Proof. now intros [_ S]. Qed.

Lemma touches_within k c c' : touches k c c' -> within k.1 c c'.
Proof. apply at_key_id. Qed.

Lemma stored_mem c r : stored c r -> om_mem (records (book c)) (key_of r) = true.
Proof. unfold stored, om_mem. now intros ->. Qed.

Lemma touches_matures c c' r : stored c' r -> touches (key_of r) c c' -> matures c c'.
Proof.
  intros S [A B]. split; [exact A|]. intros k M. destruct (keqb k (key_of r)) eqn:K.
  - apply keqb_eq in K. subst k. now apply stored_mem.
  - apply keqb_neq in K. unfold om_mem. rewrite B by exact K. exact M.
Qed.

Lemma within_stored c c' r id : rr_id r <> id -> within id c c' -> stored c r -> stored c' r.
Proof. intros N [_ O] S. unfold stored. rewrite O; assumption. Qed.

Lemma deref_stored c r :
  book_ok (book c) -> om_mem (records (book c)) (key_of r) = true ->
  stored c (deref c r) /\ key_of (deref c r) = key_of r.
Proof.
  intros B M. unfold deref, find_record_locked, find_record. change (rr_id r, rr_generation r) with (key_of r).
  unfold om_mem in M. destruct (om_find (records (book c)) (key_of r)) as [x|] eqn:F; [|discriminate].
  change (default r (Some x)) with x. pose proof (bk_keyed _ B _ _ F) as K. split; [unfold stored; now rewrite K | exact K].
Qed.

(** ** The instances *)
Lemma book_step_current b b' : book_step b b' -> current b' = current b.
Proof.
  intros S. destruct S.
  - reflexivity.
  - unfold recount. repeat case_if; auto.
  - match goal with M : meta_step _ _ |- _ => apply M end.
  - revert b. induction ks as [|k ks IH]; intros b; [reflexivity|]. cbn [fold_left]. rewrite IH.
    unfold retire_key. case_match_goal; auto.
Qed.

Lemma grown_same c c' : current (book c') = current (book c) -> grown c c'.
Proof. intros E id g F. rewrite E. exists g. split; [exact F | lia]. Qed.

#[export] Instance Calm_grown : Calm grown.
Proof.
  apply Calm_intro; [exact _ | ..]; intros; apply grown_same; try reflexivity.
  - now apply book_step_current.
  - match goal with M : store_moves _ _ |- _ => destruct M as [(_ & -> & _) _ _] end. reflexivity.
Qed.

#[export] Instance Framed_grown : Framed grown.
Proof.
  apply Framed_intro; [exact _ | intros f c; now apply grown_same | | intros a c; now apply grown_same].
  intros r c id g F. cbn [book set_book]. unfold register_record, count_in. cbv zeta.
  cbn [records current set_records set_generations generations].
  destruct (om_find (current (book c)) (rr_id r)) as [known|] eqn:C.
  - destruct (Z.gtb_spec (value (rr_generation r)) (value known)) as [L|L].
    + assert (exists g', om_find (om_set (current (book c)) (rr_id r) (rr_generation r)) id = Some g' /\
                value g <= value g') as G.
      { rewrite om_find_set. destruct (keqb (rr_id r) id) eqn:K; [|exists g; split; [exact F | lia]].
        apply keqb_eq in K. subst id. rewrite C in F. injection F as <-.
        exists (rr_generation r). split; [reflexivity | lia]. }
      destruct (om_mem _ _), (is_terminal (rr_state r)); exact G.
    + exists g. split; [|lia]. destruct (om_mem _ _), (is_terminal (rr_state r)); exact F.
  - exists g. split; [|lia]. assert (rr_id r <> id) as N by congruence.
    destruct (om_mem _ _), (is_terminal (rr_state r)); cbn; rewrite om_find_set_ne; auto.
Qed.

#[export] Instance Mute_quiet : Mute quiet.
Proof.
  apply Mute_intro; [exact _ | ..]; intros; unfold quiet; try reflexivity.
  - match goal with M : meta_step _ _ |- _ => destruct M as [A [_ B] [D F]] end.
    unfold core. cbn [book set_book]. now rewrite A, B, D, F.
  - match goal with M : store_moves _ _ |- _ => destruct M as [(_ & -> & _) _ _] end. reflexivity.
Qed.

Lemma quiet_env f : keeps quiet (modify (set_env f)).
Proof. intros c. reflexivity. Qed.
Lemma quiet_tables f : keeps quiet (modify (set_tables f)).
Proof. intros c. reflexivity. Qed.
Lemma quiet_remember a : keeps quiet (remember_attempt_locked a).
Proof. intros c. reflexivity. Qed.
#[export] Hint Resolve Mute_quiet Calm_grown Framed_grown quiet_env quiet_tables quiet_remember : frame.

Lemma tight_grown c c' : grown c c' -> tight c' -> tight c.
Proof. intros G T id g F. destruct (G _ _ F) as (g' & F' & L). specialize (T _ _ F'). lia. Qed.

(** ** Sound computations *)
Definition sound {A} (m : co A) (c : Coordinator) (Q : A -> Coordinator -> Prop) : Prop :=
  tight (m c).2 -> book_ok (book c) ->
  book_ok (book (m c).2) /\ settles (book c) (book (m c).2) /\
  match (m c).1 with Ok a => Q a (m c).2 | Err _ => True end.

Lemma sound_ret {A} (a : A) c (Q : A -> Coordinator -> Prop) : Q a c -> sound (ret a) c Q.
Proof. intros H _ B. split; [exact B | split; [reflexivity | exact H]]. Qed.
Lemma sound_fail {A} e c (Q : A -> Coordinator -> Prop) : sound (fail e) c Q.
Proof. intros _ B. split; [exact B | split; [reflexivity | exact I]]. Qed.
Lemma sound_gets {A} (f : Coordinator -> A) c (Q : A -> Coordinator -> Prop) : Q (f c) c -> sound (gets f) c Q.
Proof. intros H _ B. split; [exact B | split; [reflexivity | exact H]]. Qed.
Lemma sound_look {A} (f : Coordinator -> Result A) c (Q : A -> Coordinator -> Prop) :
  (forall a, f c = Ok a -> Q a c) -> sound (fun c => (f c, c)) c Q.
Proof.
  intros H _ B. cbn [fst snd]. split; [exact B | split; [reflexivity |]].
  destruct (f c) eqn:E; [now apply H | exact I].
Qed.
Lemma sound_lift {A} (r : Result A) c (Q : A -> Coordinator -> Prop) :
  (forall a, r = Ok a -> Q a c) -> sound (lift r) c Q.
Proof. apply (sound_look (fun _ => r)). Qed.

Lemma sound_weaken {A} (m : co A) c (P Q : A -> Coordinator -> Prop) :
  sound m c P -> (forall a c', P a c' -> Q a c') -> sound m c Q.
Proof.
  intros S H T B. destruct (S T B) as (B' & K & P'). split; [exact B' | split; [exact K|]].
  destruct (m c).1; auto.
Qed.

Lemma sound_ok {A} (m : co A) c (Q : A -> Coordinator -> Prop) :
  (book_ok (book c) -> sound m c Q) -> sound m c Q.
Proof. intros H T B. now apply H. Qed.

(** What is known of the final state. *)
Lemma sound_after {A} (m : co A) c (P Q : A -> Coordinator -> Prop) :
  sound m c P ->
  (forall a c', book_ok (book c') -> settles (book c) (book c') -> P a c' -> Q a c') -> sound m c Q.
Proof.
  intros S H T B. destruct (S T B) as (B' & K & P'). split; [exact B' | split; [exact K|]].
  destruct (m c).1; auto.
Qed.

Lemma sound_tight {A} (m : co A) c (Q : A -> Coordinator -> Prop) :
  keeps grown m -> (tight c -> sound m c Q) -> sound m c Q.
Proof. intros G H T. apply H; [|exact T]. eapply tight_grown; [apply G | exact T]. Qed.

Lemma sound_bind {A B} (m : co A) (k : A -> co B) c Q :
  (forall a, keeps grown (k a)) -> sound m c (fun a c1 => sound (k a) c1 Q) -> sound (bind m k) c Q.
Proof.
  intros G S T I. unfold bind in *. unfold sound in S. destruct (m c) as [[a|e] c1]; cbn [fst snd] in *.
  - destruct (S (tight_grown _ _ (G a c1) T) I) as (I1 & K & S1).
    destruct (S1 T I1) as (I2 & K2 & Q2). split; [exact I2 | split; [etransitivity; eassumption | exact Q2]].
  - destruct (S T I) as (I1 & K & _). auto.
Qed.

Lemma sound_quiet {A} (m : co A) c (Q : A -> Coordinator -> Prop) :
  keeps quiet m -> (forall a c', quiet c c' -> Q a c') -> sound m c Q.
Proof.
  intros K H _ B. specialize (K c). split; [eapply core_ok; eassumption|].
  split; [now apply core_settles|]. destruct (m c).1; auto.
Qed.

Lemma sound_for_each {A} (I : list A -> Coordinator -> Prop) (f : A -> co unit) l c :
  (forall a, keeps grown (f a)) ->
  (forall a l c, I (a :: l) c -> sound (f a) c (fun _ c' => I l c')) ->
  I l c -> sound (for_each l f) c (fun _ c' => I [] c').
Proof.
  intros G F. revert c. induction l as [|a l IH]; intros c H; cbn [for_each]; [now apply sound_ret|].
  apply sound_bind; [intros _; apply keeps_for_each; [exact _ | exact G]|].
  eapply sound_weaken; [apply F, H|]. intros u c1 H1. now apply IH.
Qed.

(** A loop whose turns all relate the state before to the one after. *)
Lemma sound_loop {A} R `{!PreOrder R} (f : A -> co unit) l c :
  (forall a, keeps grown (f a)) ->
  (forall a c, In a l -> sound (f a) c (fun _ c' => R c c')) ->
  sound (for_each l f) c (fun _ c' => R c c').
Proof.
  intros G F. eapply sound_weaken.
  - apply (sound_for_each (fun rest c' => R c c' /\ incl rest l)); [exact G | |split; [reflexivity | apply incl_refl]].
    intros a rest c1 [T J]. eapply sound_weaken; [apply F, J; now left|].
    intros u c2 T2. split; [etransitivity; eassumption | intros x X; apply J; now right].
  - now intros u c1 [T _].
Qed.

Lemma sound_scope {A} (m : co A) c (Q : A -> Coordinator -> Prop) :
  (forall a c1 c2, quiet c1 c2 -> Q a c1 -> Q a c2) ->
  (forall c1, quiet c c1 -> sound m c1 Q) -> sound (with_suspension m) c Q.
Proof.
  intros St H T B. unfold with_suspension in *.
  set (c1 := set_suspension _ c) in *. assert (quiet c c1) as E by reflexivity.
  unfold sound in H. specialize (H c1 E). destruct (m c1) as [r c2]. cbn [fst snd] in *.
  destruct (H T B) as (B2 & K & Q2). split; [exact B2 | split; [exact K|]].
  destruct r; [|exact I]. eapply St; [|exact Q2]. reflexivity.
Qed.

(** Composition of steps: each link of the chain is a hypothesis, or follows
    from one by the database. *)
Create HintDb links.
#[export] Hint Resolve quiet_within quiet_matures quiet_touches matures_stays : links.
Ltac chain :=
  repeat first [solve [eauto 3 with links nocore] | etransitivity; [solve [eauto 3 with links nocore] |]];
  try reflexivity.
