(* ===== verification/CoordLife.v ===== *)
(** * Coordinator: lifecycle soundness of the lifecycle operations

    Transitions, time reconciliation, history, applicability and revalidation
    over the invariant of the book. *)
From stdpp Require Import relations.
From S2P Require Import Prelude Errors Containers Identity Hash Bandwidth Time Authority Wire Policy Capacity Reservation Outcome SegTree Index Durable CodecBase Codec Store Coordinator CoordRecords CoordPersist CoordAssess CoordLifecycle CoordCommit CoordOps CoordQuery CoordSteps CoordBook CoordSound.

(** Pass over a computation that does not touch the core of the book. *)
Ltac grow := intros; solve [frame].
Ltac hush := apply sound_bind; [grow | apply sound_quiet; [solve [frame] | intros ? ? ?]].
Ltac hush_to c1 := apply sound_bind; [grow | apply sound_quiet; [solve [frame] | intros ? c1 ?]].
Ltac peek := apply sound_bind; [grow | apply sound_gets].

(** ** One record moves *)

(** A record is the element it was read from, up to members other than key and
    state. *)
Definition stands_for (r r0 : ReservationRecord) : Prop :=
  key_of r = key_of r0 /\ rr_state r = rr_state r0.

(** The element of the key becomes [r'] and nothing else changes. *)
Definition moved_to (r r' : ReservationRecord) (c c' : Coordinator) : Prop :=
  stored c' r' /\ key_of r' = key_of r /\ touches (key_of r) c c'.

Lemma moved_quiet r r' c c1 c2 : moved_to r r' c c1 -> quiet c1 c2 -> moved_to r r' c c2.
Proof.
  intros (S & K & T) E. split; [eapply quiet_stored; eassumption | split; [exact K|]].
  etransitivity; [exact T | now apply quiet_touches].
Qed.

Lemma moved_trans r r' r'' c c1 c2 : moved_to r r' c c1 -> moved_to r' r'' c1 c2 -> moved_to r r'' c c2.
Proof.
  intros (S & K & T) (S' & K' & T'). rewrite K in K', T'.
  split; [exact S' | split; [exact K' | etransitivity; eassumption]].
Qed.

Lemma moved_matures r r' c c' : moved_to r r' c c' -> matures c c'.
Proof. intros (S & K & T). eapply touches_matures; [exact S | now rewrite K]. Qed.
Lemma moved_within r r' c c' : moved_to r r' c c' -> within (rr_id r) c c'.
Proof. intros (_ & _ & T). apply (touches_within (key_of r)), T. Qed.
#[export] Hint Resolve moved_matures moved_within : links.

Lemma quiet_moved r c c1 : quiet c c1 -> stored c r -> moved_to r r c c1.
Proof. intros E S. split; [eapply quiet_stored; eassumption | split; [reflexivity | now apply quiet_touches]]. Qed.

Lemma sound_move r r' c (Q : unit -> Coordinator -> Prop) :
  stored c r -> key_of r' = key_of r -> (ended r = true -> ended r' = true) ->
  (forall c', moved_to r r' c c' -> Q tt c') ->
  sound (modify (set_book (replaced r r'))) c Q.
Proof.
  intros S K T H _ B. destruct (replace_ok r r' (book c) B S K T) as (B' & St & A & F).
  split; [exact B' | split; [exact St|]]. apply H. split; [|split; [exact K | exact A]].
  unfold stored. now rewrite K.
Qed.

Lemma sound_put r r' c (Q : unit -> Coordinator -> Prop) :
  stored c r -> stands_for r' r -> (forall c', moved_to r r' c c' -> Q tt c') ->
  sound (modify (set_book (put_record r'))) c Q.
Proof.
  intros S [K E] H. intros T B. change (put_record r' (book c)) with (put_record r' (book c)) in *.
  assert (modify (set_book (put_record r')) c = modify (set_book (replaced r r')) c) as G.
  { unfold modify, set_book. f_equal. f_equal. symmetry. now apply replaced_same. }
  rewrite G in *. revert T B. apply sound_move; auto. unfold ended. now rewrite E.
Qed.

Lemma sound_set_state r0 r st t why p c (Q : ReservationRecord -> Coordinator -> Prop) :
  stored c r0 -> stands_for r r0 -> (ended r0 = true -> is_terminal st = true) ->
  (forall r' c', moved_to r0 r' c c' -> rr_state r' = st -> Q r' c') ->
  sound (set_state_locked r st t why p) c Q.
Proof.
  intros S [K E] T H. unfold set_state_locked. apply sound_bind; [grow|]. rewrite E.
  apply (sound_move r0 (with_state r st t why p)); auto.
  intros c' M. apply sound_ret. now apply H.
Qed.

Lemma sound_mark r a why t c (Q : ReservationRecord -> Coordinator -> Prop) :
  stored c r -> (forall r' c', moved_to r r' c c' -> rr_state r' = rr_state r -> Q r' c') ->
  sound (mark_applicability_locked r a why t) c Q.
Proof.
  intros S H. unfold mark_applicability_locked. case_if.
  { apply sound_ret, H; [apply quiet_moved; [reflexivity | exact S] | reflexivity]. }
  hush. apply sound_bind; [grow|]. eapply sound_put; [eapply quiet_stored; eassumption | now split|].
  intros c2 M. hush. hush. apply sound_ret, H; [|reflexivity].
  repeat (eapply moved_quiet; [|eassumption]). eapply moved_trans; [|exact M]. now apply quiet_moved.
Qed.

Lemma sound_transition r st t why x at_ c (Q : ReservationRecord * AttemptRecord -> Coordinator -> Prop) :
  stored c r -> (ended r = true -> is_terminal st = true) ->
  (forall r' a c', moved_to r r' c c' -> rr_state r' = st -> Q (r', a) c') ->
  sound (transition_locked r st t why x at_) c Q.
Proof.
  intros S T H. unfold transition_locked. hush. hush. apply sound_bind; [grow|].
  eapply (sound_set_state r); [repeat (eapply quiet_stored; [eassumption|]); exact S | case_if; now split | exact T |].
  intros r' c3 M St. apply sound_bind; [grow|].
  eapply sound_put; [apply M | now split|]. intros c4 M'.
  apply sound_bind; [grow|]. apply sound_quiet; [case_if; frame|]. intros u c5 E5. hush.
  apply sound_ret, H; [|exact St].
  repeat (eapply moved_quiet; [|eassumption]). eapply moved_trans; [|exact M'].
  eapply moved_trans; [|exact M]. apply quiet_moved; [etransitivity; eassumption | exact S].
Qed.

Lemma found_stored c k r : book_ok (book c) -> om_find (records (book c)) k = Some r -> stored c r /\ key_of r = k.
Proof. intros B F. pose proof (bk_keyed _ B _ _ F) as K. split; [unfold stored; now rewrite K | exact K]. Qed.

(** Look a record up; what is found is stored. *)
Lemma sound_find {B} k (f : option ReservationRecord -> co B) c Q :
  (forall o, keeps grown (f o)) ->
  sound (f None) c Q -> (forall r, stored c r -> key_of r = k -> sound (f (Some r)) c Q) ->
  sound (bind (gets (fun c => om_find (records (book c)) k)) f) c Q.
Proof.
  intros G N S. apply sound_ok. intros I. apply sound_bind; [exact G|]. apply sound_gets.
  destruct (om_find (records (book c)) k) as [r|] eqn:F; [|exact N].
  destruct (found_stored c k r I F) as [H K]. now apply S.
Qed.

(** ** Time reconciliation *)
Lemma sound_transition_matures r st t why x at_ c :
  stored c r -> is_terminal st = true ->
  sound (transition_locked r st t why x at_) c (fun _ c' => matures c c').
Proof. intros S T. eapply sound_transition; [exact S | auto |]. intros r' a c' M _. eapply moved_matures, M. Qed.

(** A computation, then counters. *)
Lemma sound_then {A B} (m : co A) (k : A -> co B) c :
  (forall a, keeps grown (k a)) -> (forall a, keeps quiet (k a)) ->
  sound m c (fun _ c' => matures c c') -> sound (bind m k) c (fun _ c' => matures c c').
Proof.
  intros G K S. apply sound_bind; [exact G|]. eapply sound_weaken; [exact S|]. intros a c1 M.
  apply sound_quiet; [apply K|]. intros b c2 E. etransitivity; [exact M | now apply quiet_matures].
Qed.

Lemma sound_expire now x r c :
  stored c r -> sound (expire_record now x r) c (fun _ c' => matures c c').
Proof.
  intros S. unfold expire_record. case_if; [|apply sound_ret; reflexivity].
  case_if; (apply sound_then; [grow | intros; frame | now apply sound_transition_matures]).
Qed.

Lemma sound_settle now x k c : sound (settle_record now x k) c (fun _ c' => matures c c').
Proof.
  unfold settle_record. apply sound_find; [grow | apply sound_ret; reflexivity|]. intros r S _.
  case_if; [apply sound_then; [grow | intros; frame | now apply sound_transition_matures]|].
  apply sound_bind; [grow|]. case_if.
  - apply sound_bind; [grow|]. eapply sound_transition; [exact S | |].
    { unfold ended. match goal with E : _ && _ = true |- _ => apply andb_true_iff in E as [E _]; apply beq_true in E; rewrite E end.
      discriminate. }
    intros r' a c1 M _. apply sound_ret. eapply sound_weaken; [apply sound_expire, M|].
    intros u c2 M2. etransitivity; [eapply moved_matures, M | exact M2].
  - apply sound_ret. now apply sound_expire.
Qed.

Lemma sound_reconcile now c : sound (reconcile_locked now) c (fun _ c' => matures c c').
Proof.
  unfold reconcile_locked. peek. peek. apply sound_then; [grow | intros; frame |].
  apply (sound_loop matures); [grow|]. intros k c1 _. apply sound_settle.
Qed.

Lemma sound_history now c : sound (release_terminal_history_locked now) c (fun _ _ => True).
Proof.
  unfold release_terminal_history_locked. apply sound_ok. intros B. peek. peek. case_if; [now apply sound_ret|].
  hush. intros T B1. pose proof (Forall_take _ (Z.to_nat (Z.min (history_count (book c) -
    max_history_records (config (env c))) kRetireBatch)) _ (terminal_keys_ok _ B)) as R.
  assert (Forall (retirable (book c')) _) as R' by
    (eapply Forall_impl; [exact R | intros k Rk; unfold retirable; erewrite quiet_records by eassumption; exact Rk]).
  destruct (retire_all_ok (archived now) _ _ B1 R') as [B2 St].
  split; [exact B2 | split; [exact St | exact I]].
Qed.

Lemma sound_housekeeping now c : sound (housekeeping now) c (fun _ _ => True).
Proof.
  unfold housekeeping. apply sound_bind; [grow|]. eapply sound_weaken; [apply sound_history|].
  intros u c1 _. now apply sound_quiet; [frame|].
Qed.

(** Reconcile, then read again: the record is there. *)
Lemma sound_reconcile_then now r c (Q : ReservationRecord -> Coordinator -> Prop) :
  stored c r ->
  (forall r' c', matures c c' -> stored c' r' -> key_of r' = key_of r -> Q r' c') ->
  sound (reconcile_then now r) c Q.
Proof.
  intros S H. unfold reconcile_then. apply sound_bind; [grow|].
  eapply sound_after; [apply sound_reconcile|]. intros u c1 B _ M. apply sound_gets.
  destruct (deref_stored c1 r B) as [S1 K]; [|now apply H].
  apply M. now apply stored_mem.
Qed.

Lemma sound_named id g c (Q : ReservationRecord -> Coordinator -> Prop) :
  (forall r, stored c r -> key_of r = (id, g) -> Q r c) -> sound (named_record id g) c Q.
Proof.
  intros H. unfold named_record, find_record_locked, find_record. apply sound_find; [grow | apply sound_fail|].
  intros r S K. apply sound_ret. now apply H.
Qed.

(** ** A successor generation *)
Definition succeeds (s r : ReservationRecord) : Prop :=
  rr_id s = rr_id r /\ value (rr_generation s) = to_u 64 (value (rr_generation r) + 1) /\ live s = true.

(** The record is the current generation of its identity. *)
Definition is_current (c : Coordinator) (r : ReservationRecord) : Prop :=
  om_find (current (book c)) (rr_id r) = Some (rr_generation r).

Lemma live_current c r : book_ok (book c) -> stored c r -> live r = true -> is_current c r.
Proof. intros B S L. exact (bk_live _ B _ _ S L). Qed.

(** The successor of a current generation may enter once that ended. *)
Lemma successor_enters c c' r s :
  book_ok (book c) -> tight c -> is_current c r ->
  current (book c') = current (book c) -> dead (book c') (key_of r) -> succeeds s r ->
  enters (book c') s.
Proof.
  intros B T C E D (I & G & Ls). split; [exact Ls|].
  pose proof (bk_width _ B _ _ C) as W. specialize (T _ _ C).
  rewrite to_u_id in G by (unfold u_ok, u64_max in *; rewrite andb_true_iff; lia).
  split; [lia|].
  rewrite I, E, C. left. split; [lia|]. intros r0 F. unfold dead, key_of in D. now rewrite F in D.
Qed.

Lemma moved_dead r r' c c' : moved_to r r' c c' -> ended r' = true -> dead (book c') (key_of r).
Proof. intros (S & K & _) E. unfold dead. rewrite <- K. unfold stored in S. now rewrite S. Qed.

Lemma quiet_dead c c' k : quiet c c' -> dead (book c) k -> dead (book c') k.
Proof. intros E. apply core_settles, E. Qed.

Lemma sound_register r c (Q : unit -> Coordinator -> Prop) :
  enters (book c) r ->
  (forall c', within (rr_id r) c c' -> stays c c' -> stored c' r ->
     om_find (current (book c')) (rr_id r) = Some (rr_generation r) -> Q tt c') ->
  sound (register_record_locked r) c Q.
Proof.
  intros E H _ B. destruct (register_ok r (book c) B E) as (B' & St & A & S & C).
  split; [exact B' | split; [exact St|]]. apply H; auto.
  intros k M. cbn [register_record_locked modify book set_book snd]. unfold om_mem in *.
  rewrite register_records, om_find_set. now destruct (keqb _ k).
Qed.

(** ** Revalidation *)
Lemma sound_revalidate_commit r b p now x c :
  stored c r -> live r = true ->
  sound (revalidate_commit r b p now x) c (fun _ c' => within (rr_id r) c c' /\ stays c c').
Proof.
  intros S L. unfold revalidate_commit. apply sound_tight; [frame|]. intros T. apply sound_ok. intros B.
  peek. peek. peek. hush_to c1. apply sound_bind; [grow|].
  eapply sound_set_state; [eapply quiet_stored; eassumption | now split | reflexivity |].
  intros r' c2 M St. hush. hush. hush. apply sound_bind; [grow|].
  assert (forall c5, quiet c2 c5 -> enters (book c5) (revalidated c r b p now
    (make_provenance_locked c x (predicted_sequence c) now) (predicted_sequence c))) as En.
  { intros c5 E5. apply (successor_enters c c5 r); auto using live_current.
    - etransitivity; [apply (quiet_current _ _ E5)|]. destruct (moved_matures _ _ _ _ M) as [-> _].
      eapply quiet_current; eassumption.
    - apply (quiet_dead _ _ _ E5). eapply moved_dead; [exact M|]. unfold ended. now rewrite St.
    - split; [reflexivity | split; [reflexivity|]]. unfold live, revalidated. cbn [rr_state]. now case_if. }
  apply sound_register; [apply En; repeat (etransitivity; [eassumption|]); reflexivity|].
  intros c6 W K _ _. apply sound_quiet; [frame|]. intros u c7 E7.
  split; chain.
Qed.

Lemma sound_auto_revalidate r now x c :
  stored c r -> live r = true ->
  sound (auto_revalidate_record_locked r now x) c (fun _ c' => within (rr_id r) c c' /\ stays c c').
Proof.
  intros S L. unfold auto_revalidate_record_locked. peek.
  destruct (resolve_binding _ _); [|apply sound_ret; split; reflexivity].
  peek. destruct (policy_for_locked _ _) as [pol note]. apply sound_scope.
  { intros u c1 c2 E [W K]. split; chain. }
  intros c1 E1. hush_to c2. peek. case_if; [|apply sound_ret; split; chain].
  eapply sound_weaken; [apply sound_revalidate_commit; [|exact L]|].
  - repeat (eapply quiet_stored; [eassumption|]). exact S.
  - intros u c3 [W K]. split; chain.
Qed.

(** ** Applicability *)
Lemma sound_refresh_record now auto k c :
  (forall r, om_find (records (book c)) k = Some r -> live r = true) ->
  sound (refresh_record now auto k) c (fun _ c' => within k.1 c c').
Proof.
  intros Li. unfold refresh_record. apply sound_find; [grow | apply sound_ret; reflexivity|]. intros r S K.
  assert (live r = true) as L by (apply Li; rewrite <- K; exact S).
  assert (rr_id r = k.1) as I by now rewrite <- K. rewrite <- I.
  assert (forall c1 a why t, stored c1 r -> sound (mark_applicability_locked r a why t ;; ret tt) c1
            (fun _ c2 => within (rr_id r) c1 c2)) as Mark.
  { intros c1 a why t S1. apply sound_bind; [grow|]. eapply sound_mark; [exact S1|].
    intros r' c2 M _. apply sound_ret. chain. }
  peek. destruct (staleness _ _) as [why|]; [|destruct (beq (rr_applicability r) _); [apply sound_ret; reflexivity | now apply Mark]].
  peek. destruct (policy_for_locked _ _) as [pol note]. peek. apply sound_bind; [grow|].
  eapply sound_after with (P := fun _ c1 => within (rr_id r) c c1 /\ stays c c1).
  { destruct (auto && _); [now apply sound_auto_revalidate | apply sound_ret; split; reflexivity]. }
  intros u c1 B1 _ [W1 K1]. peek. case_if; [apply sound_ret; exact W1|].
  destruct (deref_stored c1 r B1) as [S1 E1]; [apply K1; now apply stored_mem|].
  apply sound_bind; [grow|]. eapply sound_mark; [exact S1|]. intros r' c2 M _. apply sound_ret.
  assert (rr_id (deref c1 r) = rr_id r) as D by (injection E1; auto). rewrite <- D in W1 |- *. chain.
Qed.

(** The records still to be visited are live, one per identity. *)
Definition to_visit (l : list ReservationKey) (c : Coordinator) : Prop :=
  List.NoDup (map fst l) /\
  forall k, In k l -> forall r, om_find (records (book c)) k = Some r -> live r = true.

Lemma to_visit_live b :
  book_ok b ->
  let l := om_keys (List.filter (fun p => live p.2) (records b)) in
  List.NoDup (map fst l) /\ forall k, In k l -> forall r, om_find (records b) k = Some r -> live r = true.
Proof.
  intros B. cbv zeta. set (m := List.filter _ _).
  assert (om_sorted m) as S by (apply om_filter_sorted, B).
  assert (forall k, In k (om_keys m) -> exists r, om_find (records b) k = Some r /\ live r = true) as F.
  { intros k I. unfold om_keys in I. apply in_map_iff in I as ([k' r] & <- & I).
    apply filter_In in I as [I L]. exists r. split; [apply om_In_find; [apply B | exact I] | exact L]. }
  split.
  - assert (List.NoDup (om_keys m)) as N by (apply NoDup_ListNoDup, (om_sorted_NoDup m S)).
    revert N F. generalize (om_keys m). intros l. induction l as [|k l IH]; intros N F; [constructor|].
    inversion N as [|? ? N1 N2]; subst. cbn [map]. constructor; [|apply IH; [exact N2 | intros; apply F; now right]].
    intros I. apply in_map_iff in I as (k' & E & I). apply N1.
    destruct (F k (or_introl eq_refl)) as (r & Fr & L), (F k' (or_intror I)) as (r' & Fr' & L').
    apply (bk_live _ B) in Fr; [|exact L]. apply (bk_live _ B) in Fr'; [|exact L'].
    destruct k as [i g], k' as [i' g']. cbn in *. subst i'. rewrite Fr in Fr'. injection Fr' as ->. exact I.
  - intros k I r Fr. destruct (F k I) as (r' & Fr' & L). congruence.
Qed.

Lemma sound_refresh now auto c : sound (refresh_applicability_locked now auto) c (fun _ _ => True).
Proof.
  unfold refresh_applicability_locked. apply sound_ok. intros B. peek.
  eapply sound_weaken; [apply (sound_for_each to_visit)|]; [grow | | now apply to_visit_live | auto].
  intros k l c1 [N F]. inversion N as [|? ? N1 N2]; subst.
  eapply sound_weaken; [apply sound_refresh_record; intros r Fr; apply (F k (or_introl eq_refl) r Fr)|].
  intros u c2 [_ O]. split; [exact N2|]. intros k' I r Fr.
  rewrite O in Fr; [apply (F k' (or_intror I) r Fr)|]. intros E. apply N1. rewrite <- E. now apply in_map.
Qed.
