(* ===== verification/CoordLifeOps.v ===== *)
(** * Coordinator: lifecycle soundness of commit, amendment and the rest

    The operations that register records, and the lifecycle operations of
    callers, over the invariant of the book. *)
From stdpp Require Import relations.
From S2P Require Import Prelude Errors Containers Identity Hash Bandwidth Time Authority Wire Policy Capacity Reservation Outcome SegTree Index Durable CodecBase Codec Store Coordinator CoordRecords CoordPersist CoordAssess CoordLifecycle CoordCommit CoordOps CoordQuery CoordSteps CoordBook CoordSound CoordLife.

(** ** Operations of callers *)
Definition any {A} : A -> Coordinator -> Prop := fun _ _ => True.

Lemma consumes_live r : consumes r = true -> live r = true.
Proof. unfold consumes, live. destruct (rr_state r); cbn; auto. Qed.

Lemma sound_caller r st now why x at_ c :
  stored c r -> is_terminal st = true -> sound (caller_transition r st now why x at_) c any.
Proof.
  intros S T. unfold caller_transition. apply sound_bind; [grow|].
  eapply sound_transition; [exact S | auto |]. intros r' a c1 M St. hush. now apply sound_ret.
Qed.

Lemma sound_pend_recall r now effect g x c :
  stored c r -> live r = true -> sound (pend_recall r now effect g x) c any.
Proof.
  intros S L. unfold pend_recall. apply sound_bind; [grow|].
  eapply sound_transition; [exact S | |].
  { unfold live in L. unfold ended. destruct (is_terminal (rr_state r)); discriminate. }
  intros r' a c1 M St. apply sound_bind; [grow|]. eapply sound_put; [apply M | now split|].
  intros c2 M'. do 3 hush. now apply sound_ret.
Qed.

(** A successful answer that nothing more is known of. *)
Lemma sound_any {A} (m : co A) c : keeps quiet m -> sound m c any.
Proof. intros K. now apply sound_quiet. Qed.

Lemma sound_then_any {A B} (m : co A) (k : A -> co B) c :
  (forall a, keeps grown (k a)) -> (forall a, keeps quiet (k a)) -> sound m c any -> sound (bind m k) c any.
Proof.
  intros G K S. apply sound_bind; [exact G|]. eapply sound_weaken; [exact S|]. intros a c1 _. now apply sound_any.
Qed.

(** A refusal in front of a computation. *)
Lemma sound_reject {A} b e (k : co A) c Q :
  keeps grown k -> (b = false -> sound k c Q) -> sound (bind (lift (refuse b e)) (fun _ => k)) c Q.
Proof.
  intros G H. apply sound_bind; [intros _; exact G|]. apply sound_lift. intros u E.
  destruct b; [discriminate | now apply H].
Qed.
Ltac pass := apply sound_reject; [grow | intros ?].

Lemma sound_release x id g c : sound (release_locked x id g) c any.
Proof.
  unfold release_locked. do 2 hush. apply sound_bind; [grow|]. apply sound_named. intros r S K.
  pass. hush_to c1. apply sound_bind; [grow|].
  apply sound_reconcile_then; [eapply quiet_stored; eassumption|]. intros r' c2 _ S' _.
  case_if; [now apply sound_ret|]. pass.
  apply sound_then_any; [grow | intros; frame | now apply sound_caller].
Qed.

Lemma sound_recall x id g at_ gr force c : sound (recall_locked x id g at_ gr force) c any.
Proof.
  unfold recall_locked. do 2 hush. apply sound_bind; [grow|]. apply sound_named. intros r S K.
  peek. destruct (find_attempt_locked _ _); [apply sound_any; frame|].
  apply sound_bind; [grow|]. apply sound_reconcile_then; [exact S|]. intros r' c2 _ S' _.
  pass. peek. destruct (policy_for_locked _ _) as [pol note]. do 2 pass.
  case_if; [now apply sound_ret|].
  case_if; (apply sound_then_any; [grow | intros; frame |]).
  - now apply sound_caller.
  - apply sound_pend_recall; [exact S'|]. apply consumes_live. now apply negb_false_iff.
Qed.

Lemma sound_revoke x id g c : sound (revoke_locked x id g) c any.
Proof.
  unfold revoke_locked. do 2 hush. apply sound_bind; [grow|]. apply sound_named. intros r S K.
  apply sound_bind; [grow|]. apply sound_reconcile_then; [exact S|]. intros r' c2 _ S' _.
  peek. destruct (find_attempt_locked _ _); [apply sound_any; frame|].
  case_if; [now apply sound_ret|]. pass.
  apply sound_then_any; [grow | intros; frame | now apply sound_caller].
Qed.

Lemma sound_revalidate x id g stale c : sound (revalidate_locked x id g stale) c any.
Proof.
  unfold revalidate_locked. do 2 hush. apply sound_bind; [grow|]. apply sound_named. intros r S K.
  apply sound_bind; [grow|]. apply sound_reconcile_then; [exact S|]. intros r' c2 _ S' _.
  pass. case_if; [now apply sound_ret|]. case_if.
  - apply sound_then_any; [grow | intros; frame |].
    eapply sound_mark; [exact S'|]. now intros.
  - apply sound_then_any; [grow | intros; frame |].
    eapply sound_weaken; [apply sound_auto_revalidate; [exact S'|] | now intros].
    unfold live. match goal with E : is_terminal _ = false |- _ => now rewrite E end.
Qed.

Lemma sound_revoke_weakest fuel x n k now i c : sound (revoke_weakest fuel x n k now i) c any.
Proof.
  revert i c. induction fuel as [|fuel IH]; intros i c; cbn [revoke_weakest]; [apply sound_fail|].
  apply sound_ok. intros B. peek. destruct (next_victim c n k) as [v|] eqn:V; [|now apply sound_ret].
  unfold next_victim in V. destruct (sort _ _) as [|w ws]; [discriminate|].
  destruct (_ <=? _); [discriminate|]. apply (found_stored c) in V as [S _]; [|exact B].
  apply sound_bind; [grow|]. eapply sound_transition; [exact S | reflexivity |]. intros r' a c1 _ _.
  case_if; [now apply sound_ret | apply IH].
Qed.

Lemma sound_resolve x n how c : sound (resolve_overcommit x n how) c any.
Proof.
  unfold resolve_overcommit. do 2 hush. peek. pass. peek.
  destruct (CapacityLedger_find _ _) as [e|]; [|apply sound_fail].
  apply sound_then_any; [grow | intros; frame |].
  destruct how; [now apply sound_ret | apply sound_revoke_weakest].
Qed.

(** ** Ingestion *)
Lemma keeps_quiet_ingest_resource s now l r : keeps quiet (ingest_resource s now l r).
Proof. unfold ingest_resource. frame. Qed.
Lemma keeps_quiet_ingest_withdrawal now l n : keeps quiet (ingest_withdrawal now l n).
Proof. unfold ingest_withdrawal. frame. Qed.
Lemma keeps_quiet_ingest_path s now l p : keeps quiet (ingest_path s now l p).
Proof. unfold ingest_path. frame. Qed.
Lemma keeps_grown_ingest_resource s now l r : keeps grown (ingest_resource s now l r).
Proof. unfold ingest_resource. frame. Qed.
Lemma keeps_grown_ingest_withdrawal now l n : keeps grown (ingest_withdrawal now l n).
Proof. unfold ingest_withdrawal. frame. Qed.
Lemma keeps_grown_ingest_path s now l p : keeps grown (ingest_path s now l p).
Proof. unfold ingest_path. frame. Qed.
Lemma keeps_grown_mark_policy now k : keeps grown (mark_policy_change now k).
Proof. unfold mark_policy_change. frame. Qed.
#[local] Hint Resolve keeps_quiet_ingest_resource keeps_quiet_ingest_withdrawal keeps_quiet_ingest_path
  keeps_grown_ingest_resource keeps_grown_ingest_withdrawal keeps_grown_ingest_path
  keeps_grown_mark_policy : frame.

Lemma sound_ingest_capacity s names x c : sound (ingest_capacity_locked s names x) c any.
Proof.
  unfold ingest_capacity_locked. do 3 hush. case_if; [now apply sound_ret|].
  do 2 hush. cbv zeta. case_if; [apply sound_any; frame|].
  do 3 hush. apply sound_bind; [grow|]. eapply sound_weaken; [apply sound_refresh|]. intros u c1 _.
  do 3 hush. eapply sound_weaken; [apply sound_history | now intros].
Qed.

Lemma sound_ingest_paths s x c : sound (ingest_paths_locked s x) c any.
Proof.
  unfold ingest_paths_locked. do 4 hush. case_match_goal; [now apply sound_ret|].
  do 2 hush. apply sound_then_any; [grow | intros; frame |].
  eapply sound_weaken; [apply sound_refresh | now intros].
Qed.

Lemma sound_ingest_policy r x c : sound (ingest_policy_locked r x) c any.
Proof.
  unfold ingest_policy_locked. do 2 hush. peek. peek. apply sound_bind; [grow|]. apply sound_lift.
  intros [applied t] _. hush. case_if; [now apply sound_ret|]. hush. cbv zeta.
  case_if; [now apply sound_ret|]. peek.
  eapply sound_weaken; [apply (sound_loop matures); [grow|] | now intros].
  intros k c1 _. unfold mark_policy_change. apply sound_find; [grow | now apply sound_ret|].
  intros r' S _. apply sound_then; [grow | intros; frame |].
  eapply sound_mark; [exact S|]. intros r2 c2 M _. chain.
Qed.

Lemma sound_reconcile_lifecycle x c : sound (reconcile_lifecycle_locked x) c any.
Proof.
  unfold reconcile_lifecycle_locked. do 2 hush. peek. apply sound_bind; [grow|].
  eapply sound_weaken; [apply sound_reconcile|]. intros u c1 _. apply sound_bind; [grow|].
  eapply sound_weaken; [apply sound_refresh|]. intros u2 c2 _.
  apply sound_then_any; [grow | intros; frame |].
  eapply sound_weaken; [apply sound_history | now intros].
Qed.

(** ** Holds and sessions *)
Lemma sound_acquire x t expires c : sound (acquire_hold x t expires) c any.
Proof.
  unfold acquire_hold. do 4 hush. apply sound_bind; [grow|].
  eapply sound_weaken; [apply sound_reconcile|]. intros u c1 _. apply sound_any.
  unfold resolve_binding_locked. frame.
Qed.

Lemma sound_release_session x c : sound (release_session x) c any.
Proof.
  unfold release_session, fence_holds_for_session_locked. do 2 hush. apply sound_then_any; [grow | intros; frame |].
  eapply sound_weaken; [apply sound_reconcile | now intros].
Qed.

(** ** Commit *)

(** A first generation whose identity is new, or was just entered live. *)
Definition joins (b : Book) (r : ReservationRecord) : Prop :=
  live r = true /\ rr_generation r = mkCounter 1 /\
  match om_find (current b) (rr_id r) with
  | None => True
  | Some g => g = mkCounter 1 /\ exists r0, om_find (records b) (key_of r) = Some r0 /\ live r0 = true
  end.

Lemma joins_enters b r : joins b r -> enters b r.
Proof.
  intros (L & G & J). split; [exact L|]. rewrite G. split; [easy|].
  destruct (om_find (current b) (rr_id r)) as [g|]; [|exact I]. right. exact J.
Qed.

Lemma joins_quiet c c' r : quiet c c' -> joins (book c) r -> joins (book c') r.
Proof. intros E. unfold joins. now rewrite (quiet_records _ _ E), (quiet_current _ _ E). Qed.

Lemma sound_enter_committed r c (Q : unit -> Coordinator -> Prop) :
  joins (book c) r ->
  (forall c', (forall r', joins (book c) r' -> joins (book c') r') -> Q tt c') ->
  sound (enter_committed r) c Q.
Proof.
  intros J H. unfold enter_committed. apply sound_bind; [grow|].
  apply sound_register; [now apply joins_enters|]. intros c1 [W O] _ S C. hush_to c2.
  assert (forall c3, quiet c1 c3 -> forall r', joins (book c) r' -> joins (book c3) r') as Next.
  { intros c3 E r' (L & G & J'). apply (joins_quiet c1); [exact E|]. split; [exact L | split; [exact G|]].
    destruct (decide (rr_id r' = rr_id r)) as [I|I].
    - rewrite I, C. destruct J as (Lr & Gr & _). split; [exact Gr|]. exists r.
      unfold stored in S. split; [|exact Lr]. rewrite <- S. f_equal. unfold key_of. congruence.
    - rewrite W by exact I. rewrite O; [exact J' | exact I]. }
  apply sound_quiet; [frame|]. intros [] c3 E3. apply H, Next. etransitivity; eassumption.
Qed.

Lemma sound_companion m c :
  is_terminal (to_state m) = true -> sound (apply_companion m) c (fun _ c' => matures c c').
Proof.
  intros T. unfold apply_companion, find_record_locked, find_record.
  apply sound_find; [grow | apply sound_ret; reflexivity|]. intros r S _. apply sound_then; [grow | intros; frame |].
  eapply sound_set_state; [exact S | now split | auto |]. intros r' c1 M _. chain.
Qed.

Lemma sound_companions (ms : list StateMutation) (f : StateMutation -> co unit) c :
  f = apply_companion -> (forall m, In m ms -> is_terminal (to_state m) = true) ->
  sound (for_each ms f) c (fun _ c' => matures c c').
Proof. intros -> T. apply (sound_loop matures); [grow|]. intros m c1 I. now apply sound_companion, T. Qed.

Lemma victims_revoked c id now p l m : In m (victim_mutations c id now p l) -> is_terminal (to_state m) = true.
Proof.
  unfold victim_mutations. rewrite <- list_elem_of_In, list_elem_of_omap. intros (v & _ & E).
  destruct (find_record_locked _ _ _); [|discriminate]. injection E as <-. reflexivity.
Qed.

(** The identities a commit enters are new. *)
Definition new_ids (t : ReservationTerms) (id sid : Identity128) (n : nat) (c : Coordinator) : Prop :=
  (enabled (recurrence t) = false -> om_find (current (book c)) id = None) /\
  (enabled (recurrence t) = true -> forall i, (i < n)%nat ->
     om_find (current (book c)) (derive_member_id sid (mkCounter (Z.of_nat i))) = None).

Lemma new_ids_same t id sid n c c' :
  current (book c') = current (book c) -> new_ids t id sid n c -> new_ids t id sid n c'.
Proof. intros E. unfold new_ids. now rewrite E. Qed.

Lemma commit_records_join c t auth id sid now p seq ws r :
  new_ids t id sid (length ws) c -> In r (commit_records t auth id sid now p seq ws) -> joins (book c) r.
Proof.
  intros [N1 N2]. unfold commit_records. destruct (enabled (recurrence t)).
  - rewrite <- list_elem_of_In, elem_of_lookup_imap. intros (i & w & -> & L).
    unfold joins, make_record, live. cbn [rr_state rr_id rr_generation].
    rewrite N2 by (auto; eapply lookup_lt_Some; exact L). split; [now case_if | auto].
  - intros [<-|[]]. unfold joins, make_record, live. cbn [rr_state rr_id rr_generation].
    rewrite N1 by auto. split; [now case_if | auto].
Qed.

Lemma sound_commit_accepted x t id sid print hs now b pol ws ds acc c :
  new_ids t id sid (length ws) c ->
  sound (commit_accepted x t id sid print hs now b pol ws ds acc) c any.
Proof.
  intros N. unfold commit_accepted. do 4 peek. cbv zeta. hush_to c1. apply sound_bind; [grow|].
  eapply sound_weaken; [apply sound_companions; [reflexivity | apply victims_revoked]|]. intros u c2 [C2 _].
  apply sound_bind; [grow|]. eapply sound_weaken.
  { apply (sound_for_each (fun l c => forall r, In r l -> joins (book c) r)); [grow | |].
    - intros r l c3 J. apply sound_enter_committed; [apply J; now left|]. intros c4 K r' I. apply K, J. now right.
    - intros r. apply commit_records_join. eapply new_ids_same; [|exact N].
      rewrite C2. eapply quiet_current; eassumption. }
  intros u3 c3 _. do 5 hush. apply sound_then_any; [grow | intros; frame |].
  eapply sound_weaken; [apply sound_housekeeping | now intros].
Qed.

Lemma sound_decide_commit x t id sid print dry hs now note pol b ws c :
  new_ids t id sid (length ws) c ->
  sound (decide_commit x t id sid print dry hs now note pol b ws) c any.
Proof.
  intros N. unfold decide_commit. cbv zeta. hush_to c1. peek.
  assert (new_ids t id sid (length ws) c1) as N1
    by (eapply new_ids_same; [eapply quiet_current; eassumption | exact N]).
  destruct (evaluate_all _ _ _ _ _ _) as [evs|[failure i]].
  - case_if; [now apply sound_ret | now apply sound_commit_accepted].
  - apply sound_bind; [grow|]. apply sound_quiet; [frame|]. intros [vs evs] c2 E2.
    destruct evs; [|apply sound_any; unfold refuse_commit, record_refusal; frame].
    case_if; [now apply sound_ret|]. apply sound_commit_accepted.
    eapply new_ids_same; [eapply quiet_current; eassumption | exact N1].
Qed.

Lemma expand_loop_length room i a b s l : expand_loop room i a b s = Ok l -> length l = room.
Proof.
  revert i l. induction room as [|room IH]; intros i l E; cbn [expand_loop] in E; [now injection E as <-|].
  cbv zeta in E. apply rbind_refuse_Ok in E as [_ E]. apply rbind_Ok in E as (u & _ & E).
  apply rbind_Ok in E as (rest & R & E). injection E as <-. cbn [length]. f_equal. eapply IH, R.
Qed.

Lemma expand_series_length first spec n l :
  expand_series first spec n = Ok l -> enabled spec = true -> length l = Z.to_nat (count spec).
Proof.
  unfold expand_series. intros E En. rewrite En in E. cbn [negb] in E.
  apply rbind_refuse_Ok in E as [_ E]. apply rbind_refuse_Ok in E as [_ E].
  apply rbind_Ok in E as (u & _ & E). apply rbind_refuse_Ok in E as [_ E]. cbv zeta in E.
  apply rbind_refuse_Ok in E as [_ E]. apply rbind_refuse_Ok in E as [_ E].
  eapply expand_loop_length, E.
Qed.

Lemma identities_free_new c t id sid ws n :
  identities_free c t id sid = Ok tt -> expand_series (interval t) (recurrence t) n = Ok ws ->
  new_ids t id sid (length ws) c.
Proof.
  unfold identities_free. intros F X. apply rbind_refuse_Ok in F as [F1 F].
  apply rbind_refuse_Ok in F as [F2 _]. unfold om_mem in F1. split.
  - intros _. now destruct (om_find _ id).
  - intros En i L. rewrite (expand_series_length _ _ _ _ X En) in L. rewrite En in F2. cbn [andb] in F2.
    rewrite existsb_false_iff in F2. specialize (F2 i). unfold om_mem in F2.
    destruct (om_find _ (derive_member_id _ _)); [|reflexivity]. discriminate F2.
    apply in_seq. lia.
Qed.

Lemma sound_create x t rid dry hs c : sound (create_locked x t rid dry hs) c any.
Proof.
  unfold create_locked. do 3 hush. pass. hush. apply sound_bind; [grow|].
  eapply sound_weaken; [apply sound_reconcile|]. intros u c1 _. peek.
  destruct (policy_for_locked _ _) as [pol note]. hush_to c2. cbv zeta. peek.
  destruct (find_attempt_locked _ _) as [previous|]; [apply sound_any; frame|].
  peek. apply sound_bind; [grow|]. apply sound_lift. intros [] F. pass. hush_to c3.
  apply sound_bind; [grow|]. apply sound_lift. intros ws X. apply sound_scope; [easy|].
  intros c4 E4. apply sound_decide_commit. eapply new_ids_same; [|eapply identities_free_new; eassumption].
  etransitivity; eapply quiet_current; eassumption.
Qed.

(** ** Amendment *)
Lemma sound_supersede now p r c :
  is_current c r ->
  sound (supersede now p r) c (fun _ c' => matures c c' /\ dead (book c') (key_of r)).
Proof.
  intros C. unfold supersede, find_record_locked, find_record. change (rr_id r, rr_generation r) with (key_of r).
  apply sound_bind; [grow|]. apply sound_ok. intros B. apply sound_gets.
  destruct (om_find (records (book c)) (key_of r)) as [x|] eqn:F.
  - destruct (found_stored c _ _ B F) as [S K]. apply sound_bind; [grow|].
    eapply sound_set_state; [exact S | now split | reflexivity |]. intros r' c1 M St. hush_to c2.
    apply sound_quiet; [frame|]. intros u c3 E3. split; [chain|].
    rewrite <- K. repeat (eapply quiet_dead; [eassumption|]). eapply moved_dead; [exact M|].
    unfold ended. now rewrite St.
  - apply sound_ret. split; [reflexivity|]. unfold dead. rewrite F. exists (rr_generation r). split; [exact C | cbn; lia].
Qed.

Lemma sound_supersede_all now p l c :
  (forall r, In r l -> is_current c r) ->
  sound (for_each l (supersede now p)) c
    (fun _ c' => matures c c' /\ forall r, In r l -> dead (book c') (key_of r)).
Proof.
  intros C. eapply sound_weaken.
  - apply (sound_for_each (fun rest c' => matures c c' /\ incl rest l /\
             forall r, In r l -> In r rest \/ dead (book c') (key_of r))); [grow | |].
    + intros r rest c1 (M & J & D). eapply sound_after; [apply sound_supersede|].
      { unfold is_current. destruct M as [-> _]. apply C, J. now left. }
      intros u c2 _ [_ St] [M2 Dr]. split; [etransitivity; eassumption|].
      split; [intros y Y; apply J; now right|]. intros y Y.
      destruct (D y Y) as [[<-|I]|I]; [right; exact Dr | left; exact I | right; now apply St].
    + split; [reflexivity | split; [apply incl_refl | auto]].
  - intros u c1 (M & _ & D). split; [exact M|]. intros r I. destruct (D r I) as [[]|K]; exact K.
Qed.

Lemma current_member_current c s r : book_ok (book c) -> In r (current_members c s) -> is_current c r.
Proof.
  unfold current_members. rewrite <- list_elem_of_In, list_elem_of_omap. intros B (id & _ & F).
  unfold current_record_locked, find_record_locked, find_record in F.
  destruct (om_find (current (book c)) id) as [g|] eqn:C; [|discriminate].
  apply (bk_keyed _ B) in F. injection F as <- <-. exact C.
Qed.

(** What an amendment supersedes is current; without a series it is the
    predecessor. *)
Lemma sound_suspend_superseded pd c :
  is_current c pd ->
  sound (suspend_superseded pd) c (fun p c' => quiet c c' /\
    (forall r, In r p.1 -> is_current c' r) /\ (p.2 = None -> p.1 = [pd])).
Proof.
  intros C. unfold suspend_superseded.
  assert (forall c1 c2 r, quiet c1 c2 -> is_current c1 r -> is_current c2 r) as Q.
  { intros c1 c2 r E. unfold is_current. now rewrite (quiet_current _ _ E). }
  destruct (series_member pd).
  - hush_to c1. case_match_goal; [|apply sound_fail]. apply sound_ok. intros B. peek. hush_to c2.
    apply sound_ret. split; [etransitivity; eassumption | split; [|discriminate]].
    intros y I. cbn [fst] in I. apply filter_In in I as [I _]. eapply Q; [eassumption|].
    eapply current_member_current; eassumption.
  - hush_to c1. apply sound_ret. split; [assumption | split; [|reflexivity]].
    intros r [<-|[]]. eapply Q; eassumption.
Qed.

Lemma make_successor_succeeds t auth now p seq pd w : succeeds (make_successor t auth now p seq pd w) pd.
Proof. split; [reflexivity | split; [reflexivity|]]. unfold live, make_successor. cbn [rr_state]. now case_if. Qed.

(** An amendment to one interval has one successor, of a superseded record. *)
Lemma amendment_one t auth now p seq why pd sup s w m succs :
  amendment_mutation t auth now p seq why pd sup s [w] = Ok (m, succs) ->
  (s = None -> sup = [pd]) ->
  exists s0 p0, succs = [s0] /\ In p0 sup /\ succeeds s0 p0.
Proof.
  unfold amendment_mutation. destruct s as [s|]; intros E Alone.
  - destruct (position _ _) as [target|] eqn:P; [|discriminate].
    destruct (nth_error (imap _ _) target) eqn:N; [|discriminate]. injection E as _ <-.
    destruct sup as [|p0 sup]; [discriminate P|]. cbn [imap].
    eexists _, p0. split; [reflexivity | split; [now left|]].
    unfold series_successor. cbn [nth_error]. apply (make_successor_succeeds t auth now p seq p0 w).
  - injection E as _ <-. rewrite Alone by reflexivity. eexists _, pd.
    split; [reflexivity | split; [now left | apply make_successor_succeeds]].
Qed.

Lemma sound_amend_accepted x pd t print now b pol w sup s acc c :
  (forall r, In r sup -> is_current c r) -> (s = None -> sup = [pd]) ->
  sound (amend_accepted x pd t print now b pol [w] sup s acc) c any.
Proof.
  intros C Alone. unfold amend_accepted. do 3 peek. cbv zeta. apply sound_tight.
  { apply keeps_bind; [exact _ | frame |]. intros [m succs]. frame. }
  intros T. apply sound_ok. intros B. apply sound_bind; [intros [m succs]; frame|].
  apply sound_lift. intros [m succs] Am. destruct (amendment_one _ _ _ _ _ _ _ _ _ _ _ _ Am Alone) as (s0 & p0 & -> & I & Su).
  hush_to c1. assert (forall r, In r sup -> is_current c1 r) as C1.
  { intros r Ir. unfold is_current. erewrite quiet_current by eassumption. now apply C. }
  apply sound_bind; [grow|]. eapply sound_weaken; [apply sound_supersede_all, C1|].
  intros u c2 [[E2 _] D]. hush_to c3. cbn [for_each]. apply sound_bind; [grow|]. apply sound_bind; [grow|].
  unfold enter_successor. apply sound_bind; [grow|]. apply sound_register.
  { apply (successor_enters c c3 p0); auto.
    - etransitivity; [eapply quiet_current; eassumption|]. rewrite E2. eapply quiet_current; eassumption.
    - eapply quiet_dead; [eassumption | now apply D]. }
  intros c4 _ _ _ _. hush. apply sound_quiet; [frame|]. intros u5 c5 _. apply sound_ret. do 4 hush. peek.
  apply sound_then_any; [grow | intros; frame |]. eapply sound_weaken; [apply sound_housekeeping | now intros].
Qed.

Lemma sound_amend x id g t dry c :
  enabled (recurrence t) = false -> sound (amend_locked x id g t dry) c any.
Proof.
  intros En. unfold amend_locked. do 3 hush. apply sound_bind; [grow|]. apply sound_named. intros r S K. cbv zeta.
  peek. destruct (find_attempt_locked _ _) as [previous|]; [apply sound_any; frame|].
  apply sound_ok. intros B. do 3 pass. hush_to c1. apply sound_bind; [grow|].
  apply sound_reconcile_then; [eapply quiet_stored; eassumption|]. intros pd c2 [E2 _] S2 K2.
  assert (is_current c2 pd) as C2.
  { unfold is_current. rewrite E2. erewrite quiet_current by eassumption. injection K2 as -> ->.
    apply live_current; auto. unfold live. match goal with E : is_terminal _ = false |- _ => now rewrite E end. }
  peek. destruct (policy_for_locked _ _) as [pol note]. hush_to c3. apply sound_bind; [grow|].
  apply sound_lift. intros ws X. unfold expand_series in X. rewrite En in X. injection X as <-.
  apply sound_scope; [easy|]. intros c4 E4. unfold decide_amendment. apply sound_bind; [intros [sup s]; frame|].
  eapply sound_weaken; [apply sound_suspend_superseded|].
  { unfold is_current. erewrite !quiet_current by eassumption. exact C2. }
  intros [sup s] c5 (E5 & C5 & Alone). peek. destruct (evaluate_all _ _ _ _ _ _) as [evs|[failure i]].
  - cbv zeta. case_if; [now apply sound_ret | now apply sound_amend_accepted].
  - apply sound_any. unfold refuse_amendment, record_refusal. frame.
Qed.
