(* ===== verification/CoordLifetime.v ===== *)
(** * Coordinator: the life of a generation

    Every request keeps the invariant of the record book, so an identity has at
    most one live generation, the counts are exact, and what ended stays ended;
    and the one request that does not: an amendment that regrows a series. *)
From stdpp Require Import relations.
From S2P Require Import Prelude Errors Containers Identity Hash Bandwidth Time Authority Wire Policy Capacity Reservation Outcome SegTree Index Durable CodecBase Codec Store Coordinator CoordRecords CoordPersist CoordAssess CoordLifecycle CoordCommit CoordOps CoordQuery CoordSample CoordSteps CoordJournal CoordGate CoordBook CoordSound CoordLife CoordLifeOps.

(** ** Requests *)

(** An amendment of the terms keeps the number of occurrences at one. *)
Definition in_place (q : Request) : bool :=
  match q with QAmend _ _ _ t _ => negb (enabled (recurrence t)) | _ => true end.

(** A query: reconcile, then read. *)
Lemma sound_then_reconcile {A} (m : co A) c :
  keeps quiet m -> keeps grown m -> sound (reconcile_now ;; m) c any.
Proof.
  intros K G. unfold reconcile_now. apply sound_bind; [now intros _|]. hush. apply sound_bind; [grow|].
  eapply sound_weaken; [apply sound_reconcile|]. intros u c1 _. apply sound_ret. now apply sound_any.
Qed.

Lemma sound_handle q c : in_place q = true -> sound (handle q) c any.
Proof.
  intros P. assert (forall A (m : co A), sound m c any -> sound (drop m) c any) as D.
  { intros A m S. unfold drop. apply sound_then_any; [grow | intros; frame | exact S]. }
  destruct q; cbn [handle]; try apply D.
  - apply sound_ingest_capacity.
  - apply sound_ingest_paths.
  - apply sound_ingest_policy.
  - apply sound_any. unfold register_claimant_locked. frame.
  - apply sound_any. unfold fence_locked, fence_holds_for_claimant_locked, fence_holds_for_boot_locked,
      fence_holds_for_session_locked. frame.
  - apply sound_create.
  - apply sound_amend. now apply negb_true_iff in P.
  - apply sound_release.
  - apply sound_recall.
  - apply sound_revoke.
  - apply sound_revalidate.
  - apply sound_any. unfold reconcile_attempt_locked. frame.
  - apply sound_reconcile_lifecycle.
  - apply sound_acquire.
  - apply sound_any. unfold release_hold. frame.
  - apply sound_release_session.
  - apply sound_resolve.
  - apply sound_any. frame.
  - apply sound_any. unfold begin_shutdown, fence_holds_for_session_locked. frame.
  - unfold get_reservation. now apply sound_then_reconcile; frame.
  - unfold query_claimant. now apply sound_then_reconcile; frame.
  - unfold query_resource. now apply sound_then_reconcile; frame.
  - unfold query_remaining. now apply sound_then_reconcile; frame.
  - unfold query_timeline. now apply sound_then_reconcile; frame.
  - unfold explain_conflicts. do 2 hush. apply sound_bind; [grow|].
    eapply sound_weaken; [apply sound_reconcile|]. intros u c1 _. apply sound_any.
    unfold resolve_binding_locked. frame.
Qed.

Lemma run_app qs qs' c : run (qs ++ qs') c = run qs' (run qs c).
Proof. apply fold_left_app. Qed.

Lemma run_sound qs c :
  forallb in_place qs = true -> tight (run qs c) -> book_ok (book c) ->
  book_ok (book (run qs c)) /\ settles (book c) (book (run qs c)).
Proof.
  revert c. induction qs as [|q qs IH]; intros c P T B; [split; [exact B | reflexivity]|].
  cbn [forallb] in P. apply andb_true_iff in P as [P Ps]. change (run (q :: qs) c) with (run qs (handle q c).2) in *.
  assert (tight (handle q c).2) as T1 by (eapply tight_grown; [apply (keeps_run grown); intros; frame | exact T]).
  destruct (sound_handle q c P T1 B) as (B1 & S1 & _). destruct (IH _ Ps T B1) as [B2 S2].
  split; [exact B2 | etransitivity; eassumption].
Qed.

(** ** A fabric opened on a new directory *)
Definition new_directory (d : Disk) : Prop := dk_snapshot d = None /\ dk_journal d = None.

Lemma open_new d o io fresh st d' :
  new_directory d -> open d o io fresh = (Ok st, d') -> records_ st = [] /\ snapshot_payload_ st = [].
Proof.
  intros [S J] E. unfold open in E. destruct (negb _); [discriminate|].
  destruct (check_store_id d io fresh) as [checked d1] eqn:C. destruct checked; [|discriminate].
  assert (dk_snapshot d1 = None /\ dk_journal d1 = None) as [S1 J1].
  { unfold check_store_id in C. destruct (dk_store_id d); [injection C as _ <-; auto|].
    destruct (write_all _ _ _). injection C as _ <-. auto. }
  assert (load_snapshot d1 = Ok ([], 0, false)) as L by (unfold load_snapshot; now rewrite S1).
  assert (load_journal d1 o = Ok ([], empty_report)) as M by (unfold load_journal; now rewrite J1).
  rewrite L, M in E. cbn [torn_tail_truncated empty_report andb] in E.
  destruct (negb (journal_opened io)); [discriminate|]. injection E as <- _. auto.
Qed.

Lemma keeps_quiet_rebuild : keeps quiet rebuild_index_locked.
Proof. unfold rebuild_index_locked. frame. intros c. reflexivity. Qed.

Lemma recover_new st c c' :
  records_ st = [] -> snapshot_payload_ st = [] -> recover st c = Ok c' -> book c = blank_book ->
  book_ok (book c').
Proof.
  intros R S E B. unfold recover, load_state in E. rewrite S in E. cbn [rbind] in E. rewrite R in E.
  change (for_each [] replay_record c) with (@Ok unit tt, c) in E. cbv iota in E. pose proof (keeps_quiet_rebuild (set_book rebuild_queues c)) as Q.
  destruct (rebuild_index_locked _) as [[u|e] c1]; [|discriminate]. injection E as <-.
  eapply core_ok; [exact Q|]. cbn [book set_book]. rewrite B. apply blank_ok.
Qed.

Lemma grown_env f : keeps grown (modify (set_env f)).
Proof. intros c. now apply grown_same. Qed.
#[local] Hint Resolve grown_env : frame.

Lemma sound_boot b c : sound (boot_coordinator b) c any.
Proof.
  unfold boot_coordinator. peek. pass. peek. do 3 hush. apply sound_bind; [grow|].
  eapply sound_weaken; [apply sound_reconcile|]. intros u c1 _. apply sound_bind; [grow|].
  eapply sound_weaken; [apply sound_refresh|]. intros u2 c2 _. apply sound_history.
Qed.

Lemma opened_ok cfg k d how i fresh boot c d' :
  new_directory d -> open_coordinator cfg k d how i fresh boot = (Ok c, d') -> tight c -> book_ok (book c).
Proof.
  intros N E T. unfold open_coordinator in E. destruct (_ || _); [discriminate|].
  destruct (open d default_options how fresh) as [[st|e] d1] eqn:O; [|discriminate].
  destruct (open_new _ _ _ _ _ _ N O) as [R S].
  destruct (read_store_identity d1) as [id|]; [|discriminate]. cbn [rbind] in E.
  destruct (recover st _) as [c1|] eqn:Rc; [|discriminate].
  apply recover_new in Rc; [|exact R | exact S | reflexivity].
  pose proof (sound_boot boot c1) as B. unfold sound in B.
  destruct (boot_coordinator boot c1) as [[u|e] c2]; [|discriminate]. injection E as <- _. now apply B.
Qed.

(** ** The life of a generation *)
Definition tightb (c : Coordinator) : bool := forallb (fun p => value p.2 <? u64_max) (current (book c)).

Lemma tightb_tight c : tightb c = true -> tight c.
Proof.
  unfold tightb. rewrite forallb_forall. intros F id g C. apply om_find_In, F in C. cbn in C. lia.
Qed.

Lemma one_live b k k' r r' :
  book_ok b -> om_find (records b) k = Some r -> om_find (records b) k' = Some r' ->
  live r = true -> live r' = true -> rr_id r = rr_id r' -> r = r'.
Proof.
  intros B F F' L L' E. pose proof (bk_keyed _ B _ _ F) as K. pose proof (bk_keyed _ B _ _ F') as K'.
  apply (bk_live _ B) in F as C; [|exact L]. apply (bk_live _ B) in F' as C'; [|exact L'].
  subst k k'. cbn in *. rewrite <- E, C in C'. injection C' as G.
  assert (key_of r = key_of r') as K by (unfold key_of; congruence). rewrite <- K, F in F'. congruence.
Qed.

(** C2. The life of a generation.  Take a fabric opened on a new directory and
    any sequence of requests (with any outcomes and file system failures) among
    which amendments do not ask for a recurrence, and let no identity use up its
    64-bit generations.  Then after the requests an identity has at most one
    live generation, the current one, which no other exceeds; the live and
    history counts the limits are checked against are exact; and between any
    two points of the run current generations only grow and a generation that
    ended (terminal, or retired from the records) stays ended: nothing brings a
    released, expired, revoked or superseded reservation back. *)
Theorem generations_live_once cfg k d how i fresh boot c d' qs n :
  new_directory d -> open_coordinator cfg k d how i fresh boot = (Ok c, d') ->
  forallb in_place qs = true -> tight (run qs c) ->
  let b := book (run qs c) in
  (forall k r k' r', om_find (records b) k = Some r -> om_find (records b) k' = Some r' ->
     live r = true -> live r' = true -> rr_id r = rr_id r' -> r = r') /\
  (forall k r, om_find (records b) k = Some r -> key_of r = k /\
     exists g, om_find (current b) (rr_id r) = Some g /\ value (rr_generation r) <= value g /\
               (live r = true -> rr_generation r = g)) /\
  live_count b = tally live (records b) /\ history_count b = tally ended (records b) /\
  (forall id g, om_find (current (book (run (firstn n qs) c))) id = Some g ->
     exists g', om_find (current b) id = Some g' /\ value g <= value g') /\
  (forall k, dead (book (run (firstn n qs) c)) k -> dead b k).
Proof.
  intros N O P T b. pose proof T as T0. rewrite <- (firstn_skipn n qs), run_app in T0. set (c1 := run (firstn n qs) c) in *.
  rewrite <- (firstn_skipn n qs), forallb_app in P. apply andb_true_iff in P as [P1 P2].
  assert (tight c1) as T1 by (eapply tight_grown; [apply (keeps_run grown); intros; frame | exact T0]).
  assert (tight c) as Tc by (eapply tight_grown; [apply (keeps_run grown); intros; frame | exact T1]).
  pose proof (opened_ok _ _ _ _ _ _ _ _ _ N O Tc) as B.
  destruct (run_sound _ _ P1 T1 B) as [B1 _]. destruct (run_sound _ _ P2 T0 B1) as [B2 [G D]].
  subst b. rewrite <- (firstn_skipn n qs), run_app. fold c1.
  split; [intros k1 r1 k2 r2; now apply one_live|]. split; [|split; [apply B2 | split; [apply B2 | split; [exact G | exact D]]]].
  intros k0 r F. pose proof (bk_keyed _ B2 _ _ F) as K. split; [exact K|].
  destruct (bk_current _ B2 _ _ F) as (g & C & L). subst k0. exists g. split; [exact C | split; [exact L|]].
  intros Lr. apply (bk_live _ B2) in F; [|exact Lr]. cbn in *. congruence.
Qed.

(** Commit, release, try to commit the identity again and to reconcile: the
    released generation stays ended. *)
Definition released_run : list Request :=
  [QIngestCapacity (Sample.snapshot 1 (Sample.link_capacity 1 1000)) [] (Sample.context nil_id);
   QCreate (Sample.context (Sample.id_of 20)) (Sample.terms_on 2000 3000 600 kProtected) (Sample.id_of 21) false [];
   QRelease (Sample.context (Sample.id_of 22)) (Sample.id_of 21) (mkCounter 1);
   QCreate (Sample.context (Sample.id_of 23)) (Sample.terms_on 2000 3000 600 kProtected) (Sample.id_of 21) false [];
   QReconcileLifecycle (Sample.context nil_id)].

Lemma generations_live_once_witness :
  dead (book (run (firstn 3 released_run) Sample.opened)) (Sample.id_of 21, mkCounter 1) /\
  dead (book (run released_run Sample.opened)) (Sample.id_of 21, mkCounter 1).
Proof.
  destruct (generations_live_once (Sample.config_of 1000 1000 1000) (mkClock (Sample.second 1000) [])
    empty_disk open_io_ok io_ok (str "store") (Sample.id_of 2) Sample.opened
    (snd (open_coordinator (Sample.config_of 1000 1000 1000) (mkClock (Sample.second 1000) []) empty_disk
            open_io_ok io_ok (str "store") (Sample.id_of 2))) released_run 3) as (_ & _ & _ & _ & _ & D).
  - split; reflexivity.
  - vm_compute. reflexivity.
  - reflexivity.
  - apply tightb_tight. vm_compute. reflexivity.
  - assert (dead (book (run (firstn 3 released_run) Sample.opened)) (Sample.id_of 21, mkCounter 1)) as D1
      by (vm_compute; reflexivity).
    split; [exact D1 | exact (D _ D1)].
Defined.

(** ** The exception: a series regrown *)
Definition series_terms (amount_ : Z) : ReservationTerms :=
  let t := Sample.terms_on 2000 3000 amount_ kProtected in
  mkReservationTerms (claimant t) (claimant_generation t) (binding_kind t) (resources t) (path t)
    (required_path_generation t) (interval t) (amount t) (minimum_amount t) (maximum_amount t) (guarantee t)
    (priority t) (preemptible t) (recall_permitted t) (grace t) (headroom_requirement t) (policy t)
    (policy_labels t) (mkRecurrenceSpec true (mkDur (2000 * kNsPerSecond)) 2).

Definition member (i : Z) : Identity128 :=
  derive_member_id (derive_series_id (Sample.id_of 7) (Sample.id_of 20) 2) (mkCounter i).

(** A series of two members, the second released, then the first amended with
    the same recurrence. *)
Definition regrown_run : list Request :=
  [QIngestCapacity (Sample.snapshot 1 (Sample.link_capacity 1 1000)) [] (Sample.context nil_id);
   QCreate (Sample.context (Sample.id_of 20)) (series_terms 300) (Sample.id_of 21) false [];
   QRelease (Sample.context (Sample.id_of 22)) (member 1) (mkCounter 1);
   QAmend (Sample.context (Sample.id_of 23)) (member 0) (mkCounter 1) (series_terms 400) false].

(** C15. An amendment of a series brings a released reservation back: after a
    member is released, its generation has ended; an amendment of another member
    with the recurrence of the series derives the released member's identity
    again, with generation 1, and overwrites the terminal record with a live
    one.  The counts miss it: two records are live, one is counted, and the
    history counts two terminal records where there is one. *)
Theorem series_amendment_revives :
  let c := run (firstn 3 regrown_run) Sample.opened in
  let c' := run regrown_run Sample.opened in
  dead (book c) (member 1, mkCounter 1) /\ ~ dead (book c') (member 1, mkCounter 1) /\
  (live_count (book c'), tally live (records (book c'))) = (1, 2) /\
  (history_count (book c'), tally ended (records (book c'))) = (2, 1).
Proof.
  cbv zeta.
  split; [vm_compute; reflexivity|]. split; [vm_compute; discriminate|].
  split; vm_compute; reflexivity.
Qed.
