(* ===== verification/CoordAudit.v ===== *)
(** * Coordinator: what the audit reports

    The audit of [CoordQuery.v] against the invariant of the record book: the
    check of live generations never reports anything in the runs the invariant
    covers, and the check of lineages reports what is no violation. *)
From S2P Require Import Prelude Errors Containers Identity Hash Bandwidth Time Authority Wire Policy Capacity Reservation Outcome SegTree Index Durable CodecBase Codec Store Coordinator CoordRecords CoordPersist CoordAssess CoordLifecycle CoordCommit CoordOps CoordQuery CoordSample CoordSteps CoordGate CoordBook CoordSound CoordLife CoordLifeOps CoordLifetime.

(** ** Live generations per identity *)
Definition live_of (id : Identity128) (p : ReservationKey * ReservationRecord) : bool :=
  live p.2 && keqb p.1.1 id.

Lemma live_fold l : forall m id,
  default 0 (om_find (fold_left (fun m p =>
    if is_terminal (rr_state p.2) then m
    else om_set m p.1.1 (default 0 (om_find m p.1.1) + 1)) l m) id) =
  default 0 (om_find m id) + Z.of_nat (length (List.filter (live_of id) l)).
Proof.
  induction l as [|[k r] l IH]; intros m id; [cbn; lia|].
  cbn [fold_left]. rewrite IH. cbn [List.filter]. unfold live_of at 2, live. cbn [fst snd].
  destruct (is_terminal (rr_state r)); cbn [negb andb]; [reflexivity|].
  rewrite om_find_set. destruct (keqb k.1 id) eqn:E; [|reflexivity].
  apply keqb_eq in E. rewrite E. simpl. lia.
Qed.

Lemma live_fold_sorted (l : list (ReservationKey * ReservationRecord)) : forall m : omap Identity128 Z, om_sorted m ->
  om_sorted (fold_left (fun m p =>
    if is_terminal (rr_state p.2) then m
    else om_set m p.1.1 (default 0 (om_find m p.1.1) + 1)) l m).
Proof.
  induction l as [|p l IH]; intros m S; [exact S|]. cbn [fold_left]. apply IH.
  destruct (is_terminal _); auto with brf.
Qed.

Lemma live_per_id_counts b id n :
  In (id, n) (live_per_id b) -> n = Z.of_nat (length (List.filter (live_of id) (records b))).
Proof.
  intros I. apply om_In_find in I; [|apply live_fold_sorted; constructor].
  pose proof (live_fold (records b) [] id) as F. unfold live_per_id in I. rewrite I in F. exact F.
Qed.

Lemma all_same_length {A} (l : list A) : NoDup l -> (forall x y, In x l -> In y l -> x = y) -> (length l <= 1)%nat.
Proof.
  intros N E. destruct l as [|x [|y l]]; cbn; [lia..|]. exfalso. inversion N as [|? ? N1 _]; subst.
  apply N1. rewrite (E x y); [|now left | now right; left]. apply list_elem_of_In. now left.
Qed.

Lemma live_unique b id : book_ok b -> (length (List.filter (live_of id) (records b)) <= 1)%nat.
Proof.
  intros B. pose proof (bk_sorted _ B) as S. apply all_same_length.
  - apply NoDup_ListNoDup, List.NoDup_filter, (List.NoDup_map_inv fst), NoDup_ListNoDup, om_sorted_NoDup, S.
  - intros [k r] [k' r'] I I'. unfold live_of in *. apply filter_In in I as [I P], I' as [I' P'].
    cbn [fst snd] in *. apply andb_true_iff in P as [L E], P' as [L' E']. apply keqb_eq in E, E'.
    apply (om_In_find _ _ _ S) in I, I'. pose proof (bk_live _ B _ _ I L) as C. pose proof (bk_live _ B _ _ I' L') as C'.
    rewrite E in C. rewrite E' in C'. assert (k = k') as -> by (destruct k, k'; cbn in *; congruence). congruence.
Qed.

Lemma audit_live_ok b : book_ok b -> audit_live b = [].
Proof.
  intros B. unfold audit_live. pose proof (live_per_id_counts b) as H. induction (live_per_id b) as [|[id n] l IH]; [reflexivity|].
  cbn [flat_map fst snd]. rewrite IH by (intros; apply H; now right). rewrite (H id n) by now left.
  pose proof (live_unique b id B). rewrite Z.gtb_ltb. destruct (Z.ltb_spec 1 (Z.of_nat (length (List.filter (live_of id) (records b))))); [lia | reflexivity].
Qed.

(** The first check of the audit, at most one live generation per identity,
    never reports anything: not on a fabric opened on a new directory, nor after
    any sequence of requests (with any outcomes and file system failures) among
    which amendments ask for no recurrence, while no identity uses up its
    generations. *)
Theorem audit_finds_one_live cfg k d how i fresh boot c d' qs :
  new_directory d -> open_coordinator cfg k d how i fresh boot = (Ok c, d') ->
  forallb in_place qs = true -> tight (run qs c) -> audit_live (book (run qs c)) = [].
Proof.
  intros N O P T. apply audit_live_ok.
  assert (tight c) as Tc by (eapply tight_grown; [apply (keeps_run grown); intros; frame | exact T]).
  exact (proj1 (run_sound _ _ P T (opened_ok _ _ _ _ _ _ _ _ _ N O Tc))).
Qed.

(** Two commits, one released and its identity committed again. *)
Definition audited_run : list Request :=
  [QIngestCapacity (Sample.snapshot 1 (Sample.link_capacity 1 1000)) [] (Sample.context nil_id);
   QCreate (Sample.context (Sample.id_of 20)) (Sample.terms_on 2000 3000 300 kProtected) (Sample.id_of 21) false [];
   QCreate (Sample.context (Sample.id_of 22)) (Sample.terms_on 2000 3000 300 kProtected) (Sample.id_of 23) false [];
   QRelease (Sample.context (Sample.id_of 24)) (Sample.id_of 21) (mkCounter 1);
   QAmend (Sample.context (Sample.id_of 25)) (Sample.id_of 23) (mkCounter 1) (Sample.terms_on 2000 3000 400 kProtected) false].

Lemma audit_finds_one_live_witness :
  length (records (book (run audited_run Sample.opened))) = 3%nat /\ audit_live (book (run audited_run Sample.opened)) = [].
Proof.
  split; [vm_compute; reflexivity|].
  refine (audit_finds_one_live (Sample.config_of 1000 1000 1000) (mkClock (Sample.second 1000) [])
    empty_disk open_io_ok io_ok (str "store") (Sample.id_of 2) Sample.opened
    (snd (open_coordinator (Sample.config_of 1000 1000 1000) (mkClock (Sample.second 1000) []) empty_disk
            open_io_ok io_ok (str "store") (Sample.id_of 2))) audited_run _ _ _ _).
  - split; reflexivity.
  - vm_compute. reflexivity.
  - reflexivity.
  - apply tightb_tight. vm_compute. reflexivity.
Defined.

(** ** Lineages *)

(** C24. The lineage check of the audit reports a cycle that is none: a
    reservation amended twice in place is reported, although its predecessors
    are generations 2 and 1 of the same identity and every state before passes
    the whole audit.  The walk compares identities only, and the predecessor of
    an amended generation has the same identity. *)
Theorem audit_reports_amended_twice :
  let amend g amount := amend_locked (Sample.context (Sample.id_of (29 + g))) (Sample.id_of 21) (mkCounter g)
                          (Sample.terms_on 2000 3000 amount kProtected) false in
  let once := Sample.state_of (amend 1 500) Sample.committed in
  let twice := Sample.state_of (amend 2 400) once in
  audit_locked Sample.committed = [] /\ audit_locked once = [] /\
  audit_locked twice = [v_lineage_cycle (Sample.id_of 21)] /\
  option_map (fun r => (rr_predecessor r, rr_predecessor_generation r)) (find_record (book twice) (Sample.id_of 21) (mkCounter 3)) =
    Some (Sample.id_of 21, mkCounter 2) /\
  option_map (fun r => (rr_predecessor r, rr_predecessor_generation r)) (find_record (book twice) (Sample.id_of 21) (mkCounter 2)) =
    Some (Sample.id_of 21, mkCounter 1) /\
  option_map rr_predecessor (find_record (book twice) (Sample.id_of 21) (mkCounter 1)) = Some nil_id.
Proof. vm_compute. repeat split. Qed.
