(* ===== verification/CoordCapacity.v ===== *)
(** * Coordinator: commits close

    What the index of a coordinator stands for, from the opening of a directory
    on, and what a commit adds to it: nothing but the entries of the records it
    commits, so that on every bound resource the ceiling holds afterwards. *)
From stdpp Require Import relations.
From S2P Require Import Prelude Errors Containers Identity Hash Bandwidth Time Authority Wire Policy Capacity Reservation Outcome SegTree Index IndexLog Durable CodecBase Codec Store Coordinator CoordRecords CoordPersist CoordAssess CoordLifecycle CoordCommit CoordOps CoordQuery CoordSample CoordSteps CoordGate CoordClosure CoordBook CoordSound CoordLife CoordLifeOps.

(** ** The index is built by insertions and erasures *)
Definition indexes (c c' : Coordinator) : Prop := rtc index_move (index c) (index c').

#[export] Instance indexes_PreOrder : PreOrder indexes.
Proof. split; [intros c; apply rtc_refl | intros c c' c'' A B; unfold indexes in *; etransitivity; eassumption]. Qed.

Lemma indexes_same c c' : index c' = index c -> indexes c c'.
Proof. unfold indexes. intros ->. apply rtc_refl. Qed.

#[export] Instance Calm_indexes : Calm indexes.
Proof.
  apply Calm_intro; [exact _ | intros; now apply indexes_same.. | intros f c M; exact M |].
  intros c c' [(_ & _ & _ & E & _) _ _]. now apply indexes_same.
Qed.

#[export] Instance Framed_indexes : Framed indexes.
Proof. apply Framed_intro; [exact _ | intros; now apply indexes_same.. | intros a c; now apply indexes_same]. Qed.

#[export] Hint Resolve Calm_indexes Framed_indexes : frame.

Lemma logged_moves log es x x' :
  rtc index_move x x' -> logged log es x -> exists more es', logged (more ++ log) es' x'.
Proof.
  intros R. revert log es. induction R as [x|x y z M R IH]; intros log es L; [exists [], es; exact L|].
  assert (exists more es', logged (more ++ log) es' y) as (m1 & es1 & L1).
  { destruct M as [x e x' E|x k id g r x' E|x k id g].
    - exists [e], (e :: es). eapply logged_insert; eassumption.
    - exists []. eexists. eapply logged_erase; eassumption.
    - exists []. eexists. eapply logged_erase_all; eassumption. }
  destruct (IH _ _ L1) as (m2 & es2 & L2). exists (m2 ++ m1), es2. now rewrite <- app_assoc.
Qed.

Lemma indexes_rebuild c : rtc index_move index_empty (index (rebuild_index_locked c).2).
Proof.
  assert (forall m : co unit, keeps indexes m ->
            rtc index_move index_empty (index ((modify (set_index index_clear) ;; m) c).2)) as K
    by (intros m K; exact (K (set_index index_clear c))).
  unfold rebuild_index_locked. apply K. frame.
Qed.

Lemma keeps_indexes_env f : keeps indexes (modify (set_env f)).
Proof. intros c. now apply indexes_same. Qed.
#[local] Hint Resolve keeps_indexes_env : frame.

Lemma opened_index cfg k d how i fresh boot c d' :
  open_coordinator cfg k d how i fresh boot = (Ok c, d') -> rtc index_move index_empty (index c).
Proof.
  unfold open_coordinator. intros E. destruct (_ || _); [discriminate|].
  destruct (open d default_options how fresh) as [[st|e] d1]; [|discriminate].
  destruct (read_store_identity d1) as [id|]; [|discriminate]. cbn [rbind] in E.
  destruct (recover st _) as [c1|] eqn:Rc; [|discriminate].
  assert (rtc index_move index_empty (index c1)) as R1.
  { unfold recover in Rc. apply rbind_Ok in Rc as (c0 & _ & Rc). destruct (for_each _ _ _) as [[u|e] c2]; [|discriminate].
    pose proof (indexes_rebuild (set_book rebuild_queues c2)) as R.
    destruct (rebuild_index_locked _) as [[u'|e] c3]; [|discriminate]. injection Rc as <-. exact R. }
  assert (keeps indexes (boot_coordinator boot)) as K by (unfold boot_coordinator; frame).
  specialize (K c1). destruct (boot_coordinator boot c1) as [[u|e] c2]; [|discriminate]. injection E as <- _.
  etransitivity; eassumption.
Qed.

Lemma run_logged cfg k d how i fresh boot c d' qs :
  open_coordinator cfg k d how i fresh boot = (Ok c, d') -> exists log es, logged log es (index (run qs c)).
Proof.
  intros O. apply opened_index in O. assert (rtc index_move index_empty (index (run qs c))) as R.
  { etransitivity; [exact O|]. apply (keeps_run indexes). intros; frame. }
  destruct (logged_moves [] [] _ _ R logged_empty) as (more & es & L). eauto.
Qed.

(** ** Operations that insert given entries at most, or none *)
Record takes (joined : list IndexEntry) (c c' : Coordinator) : Prop := {
  tk_index : absorbs joined (index c) (index c');
  tk_tables : tables c' = tables c }.

Abbreviation narrows := (takes []).

Lemma takes_trans a b c c' c'' : takes a c c' -> takes b c' c'' -> takes (a ++ b) c c''.
Proof. intros [A A'] [B B']. split; [eapply absorbs_trans; eassumption | congruence]. Qed.

Lemma takes_mono a b c c' : a ⊆+ b -> takes a c c' -> takes b c c'.
Proof. intros S [A T]. split; [eapply absorbs_mono; eassumption | exact T]. Qed.

#[export] Instance narrows_PreOrder : PreOrder narrows.
Proof.
  split; [intros c; split; [apply absorbs_refl | reflexivity]|].
  intros c c' c'' A B. exact (takes_trans [] [] _ _ _ A B).
Qed.

Lemma narrows_same c c' : index c' = index c -> tables c' = tables c -> narrows c c'.
Proof. intros E T. split; [rewrite E; apply absorbs_refl | exact T]. Qed.

Lemma narrows_modify f :
  (forall c, index (f c) = index c /\ tables (f c) = tables c) -> keeps narrows (modify f).
Proof. intros F c. destruct (F c). now apply narrows_same. Qed.

Lemma narrows_store {A} (m : co A) : keeps store_moves m -> keeps narrows m.
Proof. intros M c. destruct (M c) as [(T & _ & _ & I & _) _ _]. now apply narrows_same. Qed.

Lemma narrows_append r : keeps narrows (append_locked r).
Proof. apply narrows_store, append_moves. Qed.
Lemma narrows_snapshot p : keeps narrows (write_snapshot_locked p).
Proof. apply narrows_store, snapshot_moves. Qed.
Lemma narrows_rotate : keeps narrows rotate_journal_locked.
Proof. apply narrows_store, rotate_moves. Qed.

Lemma takes_on_index joined f : (forall x, absorbs joined x (f x).2) -> keeps (takes joined) (on_index f).
Proof.
  intros F c. unfold on_index. specialize (F (index c)). destruct (f (index c)) as [r x]. cbn [snd] in *.
  split; [exact F | reflexivity].
Qed.
#[local] Hint Extern 1 (keeps _ (modify _)) => (apply narrows_modify; intros; split; reflexivity) : frame.
#[local] Hint Resolve narrows_append narrows_snapshot narrows_rotate : frame.

Lemma narrows_bump k : keeps narrows (bump k).
Proof. unfold bump. frame. Qed.
Lemma narrows_append_predicted r s : keeps narrows (append_predicted r s).
Proof. unfold append_predicted. frame. Qed.
Lemma narrows_register r : keeps narrows (register_record_locked r).
Proof. unfold register_record_locked. frame. Qed.
Lemma narrows_sync_queues r : keeps narrows (sync_queues_locked r).
Proof. unfold sync_queues_locked. frame. Qed.
Lemma narrows_set_state r st t why p : keeps narrows (set_state_locked r st t why p).
Proof. unfold set_state_locked. frame. Qed.
Lemma narrows_remember a : keeps narrows (remember_attempt_locked a).
Proof. unfold remember_attempt_locked. frame. Qed.
Lemma narrows_set_live_series s : keeps narrows (set_live_series s).
Proof. unfold set_live_series. frame. Qed.
Lemma narrows_consume_hold id now by_ : keeps narrows (consume_hold id now by_).
Proof. unfold consume_hold. frame. Qed.
Lemma narrows_keep : keeps narrows keep_suspension.
Proof. unfold keep_suspension. frame. Qed.
#[local] Hint Resolve narrows_bump narrows_append_predicted narrows_register narrows_sync_queues narrows_set_state
  narrows_remember narrows_set_live_series narrows_consume_hold narrows_keep : frame.

Lemma narrows_housekeeping now : keeps narrows (housekeeping now).
Proof. unfold housekeeping, release_terminal_history_locked, compact_if_due, compact_locked. frame. Qed.
#[local] Hint Resolve narrows_housekeeping : frame.

(** Index entries of a record: taken, or not wanted. *)
Lemma takes_nothing joined {A} (m : co A) : keeps narrows m -> keeps (takes joined) m.
Proof. intros K c. eapply takes_mono; [apply submseteq_nil_l | apply K]. Qed.

Lemma narrows_index_erase r : keeps narrows (index_erase_locked r).
Proof. unfold index_erase_locked. frame. apply takes_on_index. intros x. apply absorbs_erase_all. Qed.

Lemma takes_sync_index r : keeps (takes (record_entries r)) (sync_index_locked r).
Proof.
  unfold sync_index_locked. intros c. unfold bind, gets.
  case_if; [|case_if; apply takes_nothing; [apply narrows_index_erase | intros c1; reflexivity]].
  unfold index_insert_locked. case_if; [apply takes_nothing; intros c1; reflexivity|].
  apply takes_on_index. intros x. apply absorbs_replace_all.
Qed.

Lemma narrows_sync_gone r : consumes r = false -> keeps narrows (sync_index_locked r).
Proof.
  intros N. unfold sync_index_locked. intros c. unfold bind, gets.
  assert (indexable_locked c r = false) as -> by (unfold indexable_locked; now rewrite N).
  cbn [andb negb]. case_if; [apply narrows_index_erase | reflexivity].
Qed.

Lemma takes_then {A B} joined (m : co A) (k : A -> co B) :
  keeps (takes joined) m -> (forall a, keeps narrows (k a)) -> keeps (takes joined) (bind m k).
Proof.
  intros M K c. unfold bind. specialize (M c). destruct (m c) as [[a|e] c1]; cbn [snd] in *; [|exact M].
  specialize (K a c1). rewrite <- (app_nil_r joined). eapply takes_trans; eassumption.
Qed.

Lemma narrows_then {A B} joined (m : co A) (k : A -> co B) :
  keeps narrows m -> (forall a, keeps (takes joined) (k a)) -> keeps (takes joined) (bind m k).
Proof.
  intros M K c. unfold bind. specialize (M c). destruct (m c) as [[a|e] c1]; cbn [snd] in *.
  - exact (takes_trans [] joined _ _ _ M (K a c1)).
  - eapply takes_mono; [apply submseteq_nil_l | exact M].
Qed.

Lemma takes_enter r : keeps (takes (record_entries r)) (enter_committed r).
Proof. unfold enter_committed. apply narrows_then; [frame | intros _]. apply takes_then; [apply takes_sync_index | frame]. Qed.

(** A loop takes what its turns take. *)
Lemma takes_each {A} (joins : A -> list IndexEntry) (m : A -> co unit) :
  (forall a, keeps (takes (joins a)) (m a)) -> forall l, keeps (takes (flat_map joins l)) (for_each l m).
Proof.
  intros T. induction l as [|a l IH]; cbn [for_each flat_map]; [intros c; reflexivity|].
  intros c. unfold bind. pose proof (T a c) as E. destruct (m a c) as [[u|e] c1]; cbn [snd] in *.
  - eapply takes_trans; [exact E | apply IH].
  - eapply takes_mono; [|exact E]. apply submseteq_inserts_r. reflexivity.
Qed.

Lemma narrows_companion m : is_terminal (to_state m) = true -> keeps narrows (apply_companion m).
Proof.
  intros T. unfold apply_companion. apply keeps_bind; [exact _ | frame |]. intros [r|]; [|frame]. intros c.
  set (after := with_state r (to_state m) (sm_at m) (sm_reason m) (sm_provenance m)).
  set (c1 := set_book (fun b => put_record after (recount (rr_state r) (to_state m) b)) c).
  assert (consumes after = false) as N.
  { unfold consumes. cbn [after with_state rr_state]. destruct (to_state m); (discriminate T || reflexivity). }
  pose proof (narrows_sync_gone after N).
  assert (keeps narrows (sync_index_locked after ;; sync_queues_locked after ;; bump n_recalls)) as K by frame.
  change (narrows c ((sync_index_locked after ;; sync_queues_locked after ;; bump n_recalls) c1).2).
  etransitivity; [now apply (narrows_same c c1) | apply K].
Qed.

Lemma narrows_suspend_entry k e : keeps narrows (suspend_entry k e).
Proof.
  unfold suspend_entry. frame. apply takes_on_index. intros x.
  destruct (index_erase x k _ _ _) eqn:E; [|apply absorbs_refl]. eapply absorbs_erase, E.
Qed.
#[local] Hint Resolve narrows_suspend_entry : frame.

Lemma narrows_suspend r : keeps narrows (suspend r).
Proof. unfold suspend. frame. Qed.
Lemma narrows_suspend_holds x ids : keeps narrows (suspend_holds x ids).
Proof. unfold suspend_holds, suspend_hold. frame. Qed.

(** ** Planning leaves the state its evaluations were made in *)
Definition planned (t : ReservationTerms) (b : ResolvedBinding) (pol : PolicyRecord) (ws : list Interval)
    (c : Coordinator) (p : Result plan * Coordinator) : Prop :=
  narrows c p.2 /\
  forall vs evs, p.1 = Ok (vs, Some evs) -> evaluate_all p.2 t b pol 0 ws = inl evs.

Lemma planned_after t b pol ws c c1 p : narrows c c1 -> planned t b pol ws c1 p -> planned t b pol ws c p.
Proof. intros N [P E]. split; [etransitivity; eassumption | exact E]. Qed.

Lemma planned_none t b pol ws c vs : planned t b pol ws c (Ok (vs, None), c).
Proof. split; [reflexivity | discriminate]. Qed.

Lemma plan_candidates_planned t b pol ws cs : forall vs c, planned t b pol ws c (plan_candidates t b pol ws cs vs c).
Proof.
  induction cs as [|e cs IH]; intros vs c; cbn [plan_candidates]; [apply planned_none|].
  case_if; [apply planned_none|]. unfold bind, gets. destruct (find_record_locked _ _ _) as [victim|]; [|apply IH].
  pose proof (narrows_suspend victim c) as N. destruct (suspend victim c) as [[u|err] c1]; cbn [snd] in N.
  - destruct (evaluate_all c1 t b pol 0 ws) as [evs|f] eqn:Ev.
    + split; [exact N|]. now intros vs' evs' [= _ <-].
    + eapply planned_after; [exact N | apply IH].
  - eapply planned_after; [exact N | apply IH].
Qed.

Lemma plan_resources_planned t b pol self ws w refs : forall vs c,
  planned t b pol ws c (plan_resources t b pol self ws w refs vs c).
Proof.
  induction refs as [|ref refs IH]; intros vs c; cbn [plan_resources]; [apply planned_none|].
  case_if; [apply planned_none|]. unfold bind at 1, gets at 1. unfold bind.
  match goal with |- context [plan_candidates t b pol ws ?cs vs c] =>
    pose proof (plan_candidates_planned t b pol ws cs vs c) as [N E];
    destruct (plan_candidates t b pol ws cs vs c) as [[[vs1 [evs|]]|err] c1] end; cbn [fst snd] in *.
  - split; [exact N|]. intros vs' evs' [= <- <-]. now apply (E vs1).
  - eapply planned_after; [exact N | apply IH].
  - split; [exact N | discriminate].
Qed.

Lemma plan_preemption_planned t b pol self now ws i c : planned t b pol ws c (plan_preemption t b pol self now ws i c).
Proof.
  unfold plan_preemption. unfold bind at 1, gets at 1. case_if; [|apply planned_none]. unfold bind.
  match goal with |- context [plan_resources t b pol self ws ?w ?rs [] c] =>
    pose proof (plan_resources_planned t b pol self ws w rs [] c) as [N E];
    destruct (plan_resources t b pol self ws w rs [] c) as [[[vs1 evs]|err] c1] end; cbn [fst snd] in *.
  - split; [exact N|]. intros vs' evs' [= _ ->]. now apply (E vs1).
  - split; [exact N | discriminate].
Qed.

(** ** What a commit leaves *)
Lemma keeps_each_in R `{!PreOrder R} {A} (l : list A) (f : A -> co unit) :
  (forall a, In a l -> keeps R (f a)) -> keeps R (for_each l f).
Proof.
  induction l as [|a l IH]; intros F; cbn [for_each]; [apply keeps_ret; exact _|].
  apply keeps_bind; [exact _ | apply F; now left | intros _; apply IH; intros b I; apply F; now right].
Qed.

(** The suspension is left alone. *)
Definition unsuspended (c c' : Coordinator) : Prop := suspension c' = suspension c.

#[export] Instance unsuspended_PreOrder : PreOrder unsuspended.
Proof. split; [intros c; reflexivity | intros c c' c'' A B; unfold unsuspended in *; congruence]. Qed.

Lemma unsuspended_store {A} (m : co A) : keeps store_moves m -> keeps unsuspended m.
Proof. intros M c. destruct (M c) as [(_ & _ & _ & _ & S) _ _]. exact S. Qed.

Lemma unsuspended_housekeeping now : keeps unsuspended (housekeeping now).
Proof.
  pose proof (unsuspended_store _ rotate_moves). pose proof (fun p => unsuspended_store _ (snapshot_moves p)).
  pose proof (fun r => unsuspended_store _ (append_moves r)).
  assert (forall f, (forall c, suspension (f c) = suspension c) -> keeps unsuspended (modify f)) as Md by (intros f F c; apply F).
  unfold housekeeping, release_terminal_history_locked, compact_if_due, compact_locked. frame; now apply Md.
Qed.

Lemma evaluate_all_windows c t b pol ws : forall i evs,
  evaluate_all c t b pol i ws = inl evs ->
  forall w, In w ws -> as_outcome (assess c (with_interval t w) b pol) = ao_kCommittable.
Proof.
  induction ws as [|w ws IH]; intros i evs E w' I; [contradiction|]. cbn [evaluate_all] in E.
  destruct (negb (beq (as_outcome _) ao_kCommittable)) eqn:B; [discriminate|].
  apply negb_false_iff, beq_true in B. destruct I as [<-|I]; [exact B|].
  destruct (evaluate_all c t b pol (S i) ws) eqn:E'; [|discriminate]. eapply IH; eassumption.
Qed.

(** The windows a request is evaluated over. *)
Definition windows_of (t : ReservationTerms) (ws : list Interval) : Prop :=
  ws <> [] /\ (enabled (recurrence t) = false -> ws = [interval t]).

(** Records over the windows of a request: one per position, with the bound
    resources, the terms over its window, and no recall pending. *)
Definition records_of (t : ReservationTerms) (b : ResolvedBinding) (ws : list Interval)
    (rs : list ReservationRecord) : Prop :=
  exists f : nat -> Interval -> ReservationRecord,
    (forall r, In r rs -> exists i w, ws !! i = Some w /\ r = f i w) /\
    forall i w, av_resources (authority (f i w)) = rb_resources b /\ terms (f i w) = with_interval t w /\
                consuming_interval (f i w) = w.

Lemma records_of_imap t b ws f :
  (forall i w, av_resources (authority (f i w)) = rb_resources b /\ terms (f i w) = with_interval t w /\
               consuming_interval (f i w) = w) -> records_of t b ws (imap f ws).
Proof.
  intros F. exists f. split; [|exact F]. intros r. rewrite <- list_elem_of_In, elem_of_lookup_imap.
  intros (i & w & -> & L). eauto.
Qed.

Lemma commit_records_of t b auth id sid now p seq ws :
  (enabled (recurrence t) = false -> ws = [interval t]) -> av_resources auth = rb_resources b ->
  records_of t b ws (commit_records t auth id sid now p seq ws).
Proof.
  intros One A. unfold commit_records. destruct (enabled (recurrence t)).
  - apply records_of_imap. intros i w. repeat split. exact A.
  - rewrite One by reflexivity. apply (records_of_imap t b [interval t] (fun _ w => make_record t auth sid now p seq id w 0 false)).
    intros i w. repeat split. exact A.
Qed.

(** The index takes the records of the answer and nothing else, and what was
    suspended stays out. *)
Record commits (t : ReservationTerms) (id sid : Identity128) (now : Timestamp) (b : ResolvedBinding)
    (ws : list Interval) (c : Coordinator) (r : CommitResult) (c' : Coordinator) : Prop := {
  cm_takes : takes (flat_map record_entries (cr_members r)) c c';
  cm_kept : kept (suspension c') = true;
  cm_members : windows_of t ws -> records_of t b ws (cr_members r) }.

(** What holds whenever a computation succeeds. *)
Definition ends {A} (m : co A) (P : A -> Coordinator -> Prop) : Prop :=
  forall c a c', m c = (Ok a, c') -> P a c'.

Lemma ends_bind {A B} (m : co A) (k : A -> co B) P : (forall a, ends (k a) P) -> ends (bind m k) P.
Proof. intros K c b c' E. unfold bind in E. destruct (m c) as [[a|e] c1]; [eapply K, E | discriminate]. Qed.

Lemma ends_kept (m n : co unit) {A} (r : A) :
  keeps unsuspended m -> keeps unsuspended n ->
  ends (keep_suspension ;; m ;; n ;; ret r) (fun a c' => a = r /\ kept (suspension c') = true).
Proof.
  intros U V c a c' E. unfold bind, keep_suspension in E. cbn [modify] in E.
  match type of E with context [m ?c1] => specialize (U c1); destruct (m c1) as [[u|e] c2] end; [|discriminate].
  specialize (V c2). destruct (n c2) as [[u'|e] c3]; [|discriminate]. injection E as <- <-.
  split; [reflexivity|]. cbn [snd] in U, V. now rewrite V, U.
Qed.

#[local] Hint Resolve narrows_append_predicted narrows_set_live_series narrows_remember narrows_consume_hold
  narrows_keep narrows_bump narrows_housekeeping narrows_companion : frame.

Lemma commit_accepted_commits x t id sid print hs now b pol ws ds acc c r c' :
  commit_accepted x t id sid print hs now b pol ws ds acc c = (Ok r, c') -> commits t id sid now b ws c r c'.
Proof.
  unfold commit_accepted. do 4 (unfold bind at 1, gets at 1). cbv zeta.
  match goal with |- context [commit_records t ?a id sid now ?p ?q ws] =>
    set (auth := a); set (prov := p); set (seq := q) end.
  set (all := commit_records t auth id sid now prov seq ws).
  set (vs := victim_mutations c id now prov ds).
  match goal with |- ?m c = _ -> _ => set (rest := m) end. intros E.
  assert (ends rest (fun a c' => cr_members a = all /\ kept (suspension c') = true)) as En.
  { unfold rest. do 6 (apply ends_bind; intros ?). intros c1 r1 c2 E1.
    apply ends_kept in E1 as [-> K]; [auto | intros c3; reflexivity | apply unsuspended_housekeeping]. }
  destruct (En _ _ _ E) as [M K]. constructor; [|exact K|].
  - rewrite M. assert (keeps narrows (for_each vs apply_companion)) as Nv.
    { apply keeps_each_in; [exact _|]. intros m I. apply narrows_companion. eapply victims_revoked, I. }
    assert (keeps (takes (flat_map record_entries all)) rest) as N.
    { unfold rest. do 2 (apply narrows_then; [frame | intros _]). apply takes_then; [apply takes_each, takes_enter | intros _; frame]. }
    specialize (N c). now rewrite E in N.
  - rewrite M. intros [_ One]. now apply commit_records_of.
Qed.

(** The evaluation a decision rests on: in [c1] every window is COMMITTABLE, and
    from there to [c'] only the entries of its records join the index. *)
Definition rests_on (t : ReservationTerms) (pol : PolicyRecord) (b : ResolvedBinding) (ws : list Interval)
    (c1 : Coordinator) (rs : list ReservationRecord) (c' : Coordinator) : Prop :=
  (forall w, In w ws -> as_outcome (assess c1 (with_interval t w) b pol) = ao_kCommittable) /\
  takes (flat_map record_entries rs) c1 c' /\
  (windows_of t ws -> records_of t b ws rs).

Lemma accepted_rests x t id sid print hs now b pol ws ds acc c1 r c' i evs :
  evaluate_all c1 t b pol i ws = inl evs ->
  commit_accepted x t id sid print hs now b pol ws ds acc c1 = (Ok r, c') ->
  kept (suspension c') = true /\ rests_on t pol b ws c1 (cr_members r) c'.
Proof.
  intros Ev E. destruct (commit_accepted_commits _ _ _ _ _ _ _ _ _ _ _ _ _ _ _ E) as [N K M].
  split; [exact K|]. split; [eapply evaluate_all_windows, Ev|]. now split.
Qed.

Lemma refusal_members x t id print now note f : ends (refuse_commit x t id print false now note f) (fun r _ => cr_members r = []).
Proof. unfold refuse_commit. cbv zeta. apply ends_bind. intros sq c r c' E. injection E as <- _. reflexivity. Qed.

Lemma decide_commit_rests x t id sid print hs now note pol b ws c r c' :
  decide_commit x t id sid print false hs now note pol b ws c = (Ok r, c') ->
  cr_members r = [] \/
  (kept (suspension c') = true /\ exists c1, narrows c c1 /\ rests_on t pol b ws c1 (cr_members r) c').
Proof.
  unfold decide_commit. cbv zeta. cbn iota. unfold bind at 1. pose proof (narrows_suspend_holds x hs c) as N.
  destruct (suspend_holds x hs c) as [[u|e] c1]; [|discriminate]. cbn [snd] in N. unfold bind at 1, gets at 1.
  destruct (evaluate_all c1 t b pol 0 ws) as [evs|[failure i]] eqn:Ev.
  - intros E. right. destruct (accepted_rests _ _ _ _ _ _ _ _ _ _ _ _ _ _ _ _ _ Ev E) as [K R]. eauto.
  - unfold bind. destruct (plan_preemption_planned t b pol id now ws i c1) as [N2 E2].
    destruct (plan_preemption t b pol id now ws i c1) as [[[vs [evs|]]|e] c2]; [| |discriminate]; cbn [fst snd] in *.
    + intros E. right. specialize (E2 _ _ eq_refl).
      destruct (accepted_rests _ _ _ _ _ _ _ _ _ _ _ _ _ _ _ _ _ E2 E) as [K R].
      split; [exact K|]. exists c2. split; [etransitivity; eassumption | exact R].
    + intros E. left. eapply refusal_members, E.
Qed.

(** One operation in front of the rest. *)
Lemma bind_inv {A B} (m : co A) (k : A -> co B) c b c' :
  bind m k c = (Ok b, c') -> exists a c1, m c = (Ok a, c1) /\ k a c1 = (Ok b, c').
Proof. unfold bind. intros E. destruct (m c) as [[a|e] c1]; [eauto | discriminate]. Qed.

Lemma keeps_step {A} R (m : co A) c a c1 : keeps R m -> m c = (Ok a, c1) -> R c c1.
Proof. intros K E. specialize (K c). now rewrite E in K. Qed.

Lemma lift_inv {A} (r : Result A) c a c' : lift r c = (Ok a, c') -> r = Ok a /\ c' = c.
Proof. unfold lift. intros [= -> <-]. auto. Qed.

Lemma replay_replayed x a n : ends (replay_commit x a n) (fun r _ => cr_replayed r = true).
Proof.
  unfold replay_commit. cbv zeta. do 2 (apply ends_bind; intros ?). case_match_goal.
  - apply ends_bind. intros [s ms] c0 r0 c1 E. now injection E as <- _.
  - intros c0 r0 c1 E. now injection E as <- _.
Qed.

(** Nothing but the index, the suspension and the book changes. *)
Definition outside (c c' : Coordinator) : Prop := (env c', tables c', sessions c') = (env c, tables c, sessions c).

Lemma scope_inv {A} (m : co A) c a c' :
  with_suspension m c = (Ok a, c') ->
  exists c0 c1, (index c0 = index c /\ book c0 = book c /\ outside c c0) /\ m c0 = (Ok a, c1) /\
    (kept (suspension c1) = true -> index c' = index c1 /\ tables c' = tables c1).
Proof.
  unfold with_suspension. set (c0 := set_suspension _ c). destruct (m c0) as [r c1] eqn:M. intros E. injection E as -> <-.
  exists c0, c1. split; [repeat split|]. split; [exact M|]. intros ->. split; reflexivity.
Qed.

Lemma rests_on_same t pol b ws c1 rs c' c'' :
  index c'' = index c' -> tables c'' = tables c' -> rests_on t pol b ws c1 rs c' -> rests_on t pol b ws c1 rs c''.
Proof.
  intros I T (C & [N1 N2] & M). split; [exact C|]. split; [split; [now rewrite I | congruence] | exact M].
Qed.

(** What [create_locked] does before it looks at policy and capacity. *)
Definition commit_prelude (context : RequestContext) (t : ReservationTerms) : co Timestamp :=
  let* now := now_locked in
  check_context context true ;;
  lift (validate_terms t) ;;
  reject_if negb (is_nil (rq_claimant context)) && negb (beq (rq_claimant context) (claimant t))
    with kAuthorityRequired in
  ensure_claimant_locked (claimant t) (claimant_generation t) now ;;
  reconcile_locked now ;;
  ret now.

Ltac step_to E c1 :=
  let a := fresh "a" in let S := fresh "Step" in apply bind_inv in E as (a & c1 & S & E).
Ltac pass_lift E :=
  let a := fresh "a" in let c := fresh "c" in let L := fresh "Passed" in
  apply bind_inv in E as (a & c & L & E); apply lift_inv in L as [L ->].

Lemma create_rests x t rid hs c r c' :
  create_locked x t rid false hs c = (Ok r, c') -> cr_replayed r = false ->
  let c0 := (commit_prelude x t c).2 in
  validate_terms t = Ok tt /\
  (cr_members r = [] \/
   exists c1 pol b ws, narrows c0 c1 /\ pol = (policy_for_locked c1 (policy t)).1 /\
     expand_series (interval t) (recurrence t) (max_series_members pol) = Ok ws /\ rests_on t pol b ws c1 (cr_members r) c').
Proof.
  intros E F c0. unfold create_locked in E. step_to E c1. step_to E c2. pass_lift E. destruct a1. step_to E c4. step_to E c5. step_to E c6.
  assert (c0 = c6) as C0.
  { unfold c0, commit_prelude. unfold bind at 1. rewrite Step. unfold bind at 1. rewrite Step0. unfold bind at 1, lift at 1.
    rewrite Passed. unfold bind at 1. rewrite Step1. unfold bind at 1. rewrite Step2. unfold bind at 1. rewrite Step3. reflexivity. }
  rewrite C0. clear C0 c0. split; [exact Passed|].
  unfold bind at 1, gets at 1 in E. destruct (policy_for_locked c6 (policy t)) as [pol note] eqn:P. pass_lift E. cbv zeta in E.
  unfold bind at 1, gets at 1 in E. destruct (find_attempt_locked c6 _) as [previous|].
  { step_to E c8. apply replay_replayed in E. congruence. }
  unfold bind at 1, gets at 1 in E. do 2 pass_lift E. step_to E c8. injection Step4 as _ <-. pass_lift E.
  apply scope_inv in E as (c7 & c8 & (I7 & _ & O7) & E & K). pose proof O7 as [= _ T7 _]. apply decide_commit_rests in E as [E|(Kc & c9 & N & R)]; [now left|].
  right. specialize (K Kc) as [I T]. eexists c9, pol, _, _.
  split; [etransitivity; [|exact N]; now apply narrows_same|].
  split; [unfold policy_for_locked in *; rewrite (tk_tables _ _ _ N), T7, P; reflexivity|].
  split; [eassumption|]. eapply rests_on_same; eassumption.
Qed.

(** ** Commits close *)
Lemma committable_inv c t b pol :
  as_outcome (assess c t b pol) = ao_kCommittable ->
  forall ref, In ref (rb_resources b) -> exists cap, live_on c ref = Some cap /\ short_on c t pol ref cap = false.
Proof.
  unfold assess. rewrite assess_outcome. cbv zeta. repeat (case_if; [discriminate|]). intros _ ref I.
  match goal with H : existsb (not_live c) _ = false |- _ => rewrite not_live_spec in H; destruct (H ref I) as [cap L] end.
  exists cap. split; [exact L|].
  match goal with H : existsb (on_live c (short_on c t pol)) _ = false |- _ => rewrite on_live_spec in H; now apply (H ref cap) end.
Qed.

Lemma closes_below es t pol name cap p :
  closes es t pol name cap -> limit t pol cap < kMaxBandwidthBps ->
  ns (start (interval t)) <= p < ns (end_ (interval t)) ->
  occupancy (holdings (entries_on name es)) p + bps (amount t) <= limit t pol cap.
Proof. intros C L R. specialize (C p R). lia. Qed.

(** The entries of such records: two of them on a resource do not meet. *)
Lemma entries_apart t b pol ws rs :
  validate_terms t = Ok tt -> expand_series (interval t) (recurrence t) (max_series_members pol) = Ok ws ->
  records_of t b ws rs ->
  let joined := flat_map record_entries rs in
  (forall e e' p, In e joined -> In e' joined -> ie_resource e = ie_resource e' ->
     covers_at p e = true -> covers_at p e' = true -> e = e') /\
  (forall e, In e joined -> bps (ie_amount e) = bps (amount t)).
Proof.
  intros V X (f & Fin & Ff) joined. destruct (validate_terms_core t V) as (Vi & _ & Vr).
  destruct (expand_series_windows _ _ _ _ Vr Vi X) as [_ Win].
  assert (forall e, In e joined -> exists i w ref, ws !! i = Some w /\ e = reservation_entry (f i w) w (resource ref)) as Of.
  { intros e I. apply in_flat_map in I as (m & Im & I). destruct (Fin _ Im) as (i & w & L & ->).
    unfold record_entries in I. apply in_map_iff in I as (ref & <- & _). destruct (Ff i w) as (_ & _ & ->). eauto. }
  split.
  - intros e e' p I I' R C C'. destruct (Of e I) as (i & w & ref & L & ->), (Of e' I') as (i' & w' & ref' & L' & ->).
    cbn [reservation_entry ie_resource] in R. unfold covers_at, in_query in C, C'. cbn [reservation_entry ie_interval] in C, C'.
    destruct (Win i w L) as [_ D]. assert (i = i') as <- by (eapply (D i' w' p); [exact L' | lia | lia]).
    assert (w = w') as <- by congruence. now rewrite R.
  - intros e I. destruct (Of e I) as (i & w & ref & _ & ->). cbn [reservation_entry ie_amount].
    destruct (Ff i w) as (_ & -> & _). reflexivity.
Qed.

(** The bound generation of a resource is live, and within the interval of the
    terms all entries [es] together keep the limit. *)
Definition stays_within (c : Coordinator) (pol : PolicyRecord) (es : list IndexEntry) (t : ReservationTerms)
    (ref : ResourceRef) : Prop :=
  exists cap, live_on c ref = Some cap /\
    (limit t pol cap < kMaxBandwidthBps ->
     forall p, ns (start (interval t)) <= p < ns (end_ (interval t)) ->
       occupancy (holdings (entries_on (resource ref) es)) p <= limit t pol cap).

(** On the bound resources of a record the limit holds in the index [es]. *)
Definition within_limits (c : Coordinator) (pol : PolicyRecord) (es : list IndexEntry) (record : ReservationRecord) : Prop :=
  forall ref, In ref (av_resources (authority record)) -> stays_within c pol es (terms record) ref.

Lemma committable_stays t b pol c1 c' n es es' :
  index_ok n (index c1) es -> validate_interval (interval t) = Ok tt -> tables c' = tables c1 ->
  as_outcome (assess c1 t b pol) = ao_kCommittable ->
  (forall name p, occupancy (holdings (entries_on name es')) p <= occupancy (holdings (entries_on name es)) p + bps (amount t)) ->
  forall ref, In ref (rb_resources b) -> stays_within c' pol es' t ref.
Proof.
  intros O V T Com Occ ref I. destruct (committable_inv _ _ _ _ Com ref I) as (cap & Lv & Sh). exists cap.
  split; [unfold live_on in *; now rewrite T|]. intros Lim p Rp.
  apply (short_on_closes c1 _ es O t V) in Sh. etransitivity; [apply Occ|]. eapply closes_below; eassumption.
Qed.

(** ** The occupancy after a decision *)

(** Entries [joined] of amount [a], two of which never meet on a resource, join
    an index in which the request closes. *)
Section closing.
Context (joined : list IndexEntry) (a : Z) (Positive : 0 < a).
Context (Apart : forall e e' p, In e joined -> In e' joined -> ie_resource e = ie_resource e' ->
           covers_at p e = true -> covers_at p e' = true -> e = e').
Context (Amounts : forall e, In e joined -> bps (ie_amount e) = a).
Context (c1 c' : Coordinator) (Takes : takes joined c1 c').
Context (log es : list IndexEntry) (Logged : logged log es (index c1)) (Moderate : moderate (joined ++ log)).

Lemma taken :
  exists n es', index_ok (updates log es) (index c1) es /\ index_ok n (index c') es' /\
    (forall e, In e es' -> In e es \/ In e joined) /\
    forall name p, occupancy (holdings (entries_on name es')) p <= occupancy (holdings (entries_on name es)) p + a.
Proof.
  destruct Takes as [Mv _]. destruct (Mv _ _ Logged) as (more & es' & Sm & L' & Sub).
  assert (forall e, In e (joined ++ log) -> 0 <= bps (ie_amount e)) as Pos.
  { intros e I. apply in_app_or in I as [I|I]; [rewrite (Amounts e I); lia|]. destruct (logged_wf _ _ _ Logged e I) as (_ & P & _). lia. }
  assert (moderate log) as Mod1 by (eapply (moderate_less log (joined ++ log)); [now apply submseteq_inserts_l | exact Pos | exact Moderate]).
  assert (moderate (more ++ log)) as Mod2 by (eapply (moderate_less _ (joined ++ log)); [now apply submseteq_skips_r | exact Pos | exact Moderate]).
  pose proof (logged_ok _ _ _ Logged Mod1) as O1. pose proof (logged_ok _ _ _ L' Mod2) as O'.
  assert (forall e, In e es' -> In e es \/ In e joined) as Sub'.
  { intros e I. destruct (Sub e I) as [J|J]; [now left | right]. rewrite <- list_elem_of_In in *. eapply elem_of_submseteq; eassumption. }
  exists (updates (more ++ log) es'), es'. split; [exact O1|]. split; [exact O'|]. split; [exact Sub'|]. intros name p.
  apply (occupancy_joined es es' joined);
    [apply O1 | apply O' | exact Sub' | lia | intros; apply (Apart e e' p); congruence | intros e I _; now rewrite (Amounts e I)].
Qed.
End closing.

Lemma rests_close t pol b ws c1 rs c' log es :
  validate_terms t = Ok tt -> expand_series (interval t) (recurrence t) (max_series_members pol) = Ok ws ->
  rests_on t pol b ws c1 rs c' -> logged log es (index c1) -> moderate (flat_map record_entries rs ++ log) ->
  exists n es', index_ok n (index c') es' /\
    (forall e, In e es' -> In e es \/ In e (flat_map record_entries rs)) /\
    forall record, In record rs -> within_limits c' pol es' record.
Proof.
  intros Valid X (Com & Tk & Of) L1 Mod. destruct (validate_terms_core t Valid) as (Vi & Va & Vr).
  destruct (expand_series_windows _ _ _ _ Vr Vi X) as [One Win]. specialize (Of One).
  destruct (entries_apart t b pol ws rs Valid X Of) as [Apart Amounts].
  destruct (taken _ _ Va Apart Amounts _ _ Tk _ _ L1 Mod) as (n & es' & O1 & O' & Sub & Occ).
  exists n, es'. split; [exact O'|]. split; [exact Sub|]. destruct Of as (f & Fin & Ff).
  intros record Ir ref Iref. destruct (Fin _ Ir) as (i & w & Lw & ->). destruct (Ff i w) as (Au & Te & _).
  rewrite Au in Iref. rewrite Te. destruct (Win i w Lw) as [Vw _].
  pose proof (list_elem_of_lookup_2 _ _ _ Lw) as Iw. rewrite list_elem_of_In in Iw.
  eapply committable_stays; [exact O1 | exact Vw | apply Tk | apply Com, Iw | exact Occ | exact Iref].
Qed.

(** A decision that rests on such an evaluation, from the state before it. *)
Lemma rests_oversell_none t c0 c1 b ws rs c' log es :
  narrows c0 c1 -> validate_terms t = Ok tt ->
  expand_series (interval t) (recurrence t) (max_series_members (policy_for_locked c1 (policy t)).1) = Ok ws ->
  rests_on t (policy_for_locked c1 (policy t)).1 b ws c1 rs c' ->
  logged log es (index c0) -> moderate (flat_map record_entries rs ++ log) ->
  exists n es', index_ok n (index c') es' /\
    (forall e, In e es' -> In e es \/ In e (flat_map record_entries rs)) /\
    forall record, In record rs -> within_limits c' (policy_for_locked c' (policy t)).1 es' record.
Proof.
  intros Nw V X R L M.
  destruct (tk_index _ _ _ Nw _ _ L) as (more & es1 & Sm & L1 & Sub). apply submseteq_nil_r in Sm. subst more.
  destruct (rests_close t _ b ws c1 _ c' log es1 V X R L1 M) as (n & es' & O & Sub' & W).
  exists n, es'. split; [exact O|]. split.
  - intros e I. destruct (Sub' e I) as [J|J]; [left | now right]. now destruct (Sub e J).
  - assert (policy_for_locked c' (policy t) = policy_for_locked c1 (policy t)) as ->; [|exact W].
    destruct R as (_ & [_ T] & _). unfold policy_for_locked. now rewrite T.
Qed.

(** C7. A commit never oversells.  Take any state in which the index, once the
    request has passed the gate and time is reconciled, was built by the
    insertions of a log (as it is after every run), and a commit the coordinator
    accepts there, be it a series, displace weaker reservations or consume
    holds.  Afterwards the index stands for entries that were in before or
    belong to the records of the answer; and for every such record and every
    resource it is bound to the bound generation is live and at every instant of
    the record's interval all entries in the index together are within the
    ceiling the headrooms leave (and the allowance of a policy that permits
    overcommitment).  The log with the new entries must be moderate (2^23
    entries, 2^62 bit/s together) and the limit below 10^15 bit/s, where the
    closure test saturates. *)
Theorem commits_never_oversell x t rid hs c r c' log es :
  create_locked x t rid false hs c = (Ok r, c') -> cr_replayed r = false -> cr_members r <> [] ->
  logged log es (index (commit_prelude x t c).2) ->
  let joined := flat_map record_entries (cr_members r) in
  moderate (joined ++ log) ->
  exists n es', index_ok n (index c') es' /\
    (forall e, In e es' -> In e es \/ In e joined) /\
    forall record, In record (cr_members r) ->
      within_limits c' (policy_for_locked c' (policy t)).1 es' record.
Proof.
  intros E F A L joined M. destruct (create_rests _ _ _ _ _ _ _ E F) as [V [N|(c1 & pol & b & ws & Nw & -> & X & R)]]; [contradiction|].
  eapply rests_oversell_none; eassumption.
Qed.

(** Such a log exists after every run of a fabric opened on any directory. *)
Lemma reachable_logged cfg k d how i fresh boot c d' qs x t :
  open_coordinator cfg k d how i fresh boot = (Ok c, d') ->
  exists log es, logged log es (index (commit_prelude x t (run qs c)).2).
Proof.
  intros O. destruct (run_logged _ _ _ _ _ _ _ _ _ qs O) as (log & es & L).
  assert (keeps indexes (commit_prelude x t)) as K by (unfold commit_prelude; frame).
  destruct (logged_moves _ _ _ _ (K (run qs c)) L) as (more & es' & L'). eauto.
Qed.

Lemma result_of_ok {A} (default_ : A) (m : co A) c :
  match (m c).1 with Ok _ => true | Err _ => false end = true -> m c = (Ok (Sample.result_of default_ m c), (m c).2).
Proof. unfold Sample.result_of. destruct (m c) as [[a|e] c']; [reflexivity | discriminate]. Qed.

Definition first_entry : IndexEntry :=
  mkIndexEntry kReservation (Sample.id_of 21) 1 Sample.link
    (mkInterval (Sample.second 2000) (Sample.second 3000)) (mkBandwidth 600) kProtected kCommitted.

Definition second_terms : ReservationTerms := Sample.terms_on 2500 3500 300 kProtected.

(** 300 bit/s more on the link that carries 600 of its 900. *)
Lemma commits_never_oversell_witness :
  let m := create_locked (Sample.context (Sample.id_of 22)) second_terms (Sample.id_of 23) false [] in
  let r := Sample.result_of Sample.no_commit m Sample.committed in
  let c' := (m Sample.committed).2 in
  length (cr_members r) = 1%nat /\
  exists n es', index_ok n (index c') es' /\
    (forall e, In e es' -> In e [first_entry] \/ In e (flat_map record_entries (cr_members r))) /\
    forall record, In record (cr_members r) ->
      within_limits c' (policy_for_locked c' (policy second_terms)).1 es' record.
Proof.
  cbv zeta. split; [vm_compute; reflexivity|].
  apply (commits_never_oversell (Sample.context (Sample.id_of 22)) second_terms (Sample.id_of 23) [] Sample.committed
           _ _ [first_entry] [first_entry]).
  - apply result_of_ok. vm_compute. reflexivity.
  - vm_compute. reflexivity.
  - vm_compute. discriminate.
  - eapply logged_insert; [apply logged_empty|]. vm_compute. reflexivity.
  - split; vm_compute; discriminate.
Defined.
