(* ===== verification/CoordRenewal.v ===== *)
(** * Coordinator: amendments and holds close

    What CoordCapacity shows of commits, for the two other operations that take
    capacity: an amendment, which is evaluated with the entries of what it
    supersedes out of the index, and a provisional hold. *)
From stdpp Require Import relations.
From S2P Require Import Prelude Errors Containers Identity Hash Bandwidth Time Authority Wire Policy Capacity Reservation Outcome SegTree Index IndexLog Durable CodecBase Codec Store Coordinator CoordRecords CoordPersist CoordAssess CoordLifecycle CoordCommit CoordOps CoordQuery CoordSample CoordSteps CoordGate CoordClosure CoordBook CoordSound CoordLife CoordLifeOps CoordCapacity.

#[local] Hint Extern 1 (keeps _ (modify _)) => (apply narrows_modify; intros; split; reflexivity) : frame.
#[local] Hint Resolve narrows_append_predicted narrows_set_live_series narrows_remember narrows_keep narrows_bump
  narrows_housekeeping narrows_register narrows_sync_queues narrows_set_state narrows_index_erase narrows_suspend : frame.

(** ** What is superseded leaves the index *)

(** The entry is one of the record's generation. *)
Definition held_by (r : ReservationRecord) (e : IndexEntry) : Prop :=
  ie_kind e = kReservation /\ ie_id e = rr_id r /\ holder_generation e = value (rr_generation r).

(** The entries [es1] are those of [es] that are not [out]. *)
Definition without (out : IndexEntry -> Prop) (es es1 : list IndexEntry) : Prop :=
  forall e, In e es1 <-> In e es /\ ~ out e.

Lemma without_step (out out' : IndexEntry -> Prop) es es1 es2 :
  without out es es1 -> without out' es1 es2 -> without (fun e => out e \/ out' e) es es2.
Proof. intros A B e. rewrite (B e), (A e). tauto. Qed.

Lemma without_iff (out out' : IndexEntry -> Prop) es es1 :
  (forall e, In e es -> out e <-> out' e) -> without out es es1 -> without out' es es1.
Proof. intros H W e. rewrite (W e). split; intros [I N]; (split; [exact I | now rewrite (H e I) in *]). Qed.

(** Taking out the entries of a list that have the generation [g]. *)
Lemma suspended_each g l c c1 log es :
  for_each l (fun e => if holder_generation e =? g then suspend_entry kReservation e else ret tt) c = (Ok tt, c1) ->
  logged log es (index c) ->
  exists es1, logged log es1 (index c1) /\
    without (fun e => exists e0, In e0 l /\ holder_generation e0 = g /\ identity_of e = (kReservation, (ie_id e0, ie_resource e0))) es es1.
Proof.
  revert c es. induction l as [|a l IH]; intros c es E L; cbn [for_each] in E.
  - injection E as <-. exists es. split; [exact L|]. intros e. split; [intros I; split; [exact I|]|tauto]. now intros (e0 & [] & _).
  - apply bind_inv in E as ([] & c2 & A & E).
    assert (exists es2, logged log es2 (index c2) /\
      without (fun e => holder_generation a = g /\ identity_of e = (kReservation, (ie_id a, ie_resource a))) es es2) as (es2 & L2 & W2).
    { destruct (holder_generation a =? g) eqn:G; bool_prop; [|injection A as <-; exists es; split; [exact L|]; intros e; tauto].
      unfold suspend_entry in A. apply bind_inv in A as (u & c3 & M & A). injection M as _ <-.
      unfold on_index in A. cbn [index set_suspension] in A. destruct (index_erase _ _ _ _ _) as [x'|] eqn:Er; [|discriminate]. injection A as <-.
      eexists. split; [eapply logged_erase; [exact L | exact Er]|]. intros e. rewrite filter_In, negb_true_iff.
      split; intros [I N]; (split; [exact I|]); [intros [_ B]; rewrite B, beq_refl in N; discriminate|].
      apply not_true_is_false. intros B. apply beq_true in B. tauto. }
    destruct (IH c2 es2 E L2) as (es1 & L1 & W1). exists es1. split; [exact L1|].
    eapply without_iff; [|exact (without_step _ _ _ _ _ W2 W1)]. intros e _. cbn [In]. split.
    + intros [[G B]|(e0 & I & H)]; [exists a; auto | exists e0; tauto].
    + intros (e0 & [<-|I] & H); [now left | right; now exists e0].
Qed.

Lemma suspended_out r c c1 log es :
  suspend r c = (Ok tt, c1) -> logged log es (index c) -> moderate log ->
  exists es1, logged log es1 (index c1) /\ without (held_by r) es es1.
Proof.
  unfold suspend, bind, gets. intros E L M. destruct (suspended_each _ _ _ _ _ _ E L) as (es1 & L1 & W). exists es1. split; [exact L1|].
  pose proof (logged_ok _ _ _ L M) as O. pose proof (index_find_all_perm _ _ _ kReservation (rr_id r) O) as P.
  eapply without_iff; [|exact W]. intros e I. split.
  - intros (e0 & I0 & G & Id). rewrite P, filter_In, same_holder_true in I0. destruct I0 as [I0 [K0 D0]].
    assert (e = e0) as -> by (apply (NoDup_map_inj identity_of es); [apply O | exact I | exact I0 | rewrite Id; unfold identity_of; now rewrite K0]).
    now repeat split.
  - intros (K & D & G). exists e. split; [|split; [exact G | unfold identity_of; now rewrite K]].
    rewrite P, filter_In, same_holder_true. auto.
Qed.

Lemma suspended_all rs : forall c c1 log es,
  for_each rs suspend c = (Ok tt, c1) -> logged log es (index c) -> moderate log ->
  exists es1, logged log es1 (index c1) /\ without (fun e => Exists (fun r => held_by r e) rs) es es1.
Proof.
  induction rs as [|r rs IH]; intros c c1 log es E L M; cbn [for_each] in E.
  - injection E as <-. exists es. split; [exact L|]. intros e. rewrite Exists_nil. tauto.
  - apply bind_inv in E as ([] & c2 & A & E). destruct (suspended_out _ _ _ _ _ A L M) as (es2 & L2 & W2).
    destruct (IH _ _ _ _ E L2 M) as (es1 & L1 & W1). exists es1. split; [exact L1|].
    eapply without_iff; [|exact (without_step _ _ _ _ _ W2 W1)]. intros e _. rewrite Exists_cons. reflexivity.
Qed.

(** What an amendment of [pd] supersedes: the reservation, or the live members of
    its series. *)
Definition superseded_by (pd : ReservationRecord) (c : Coordinator) : list ReservationRecord :=
  if series_member pd then
    let generation := default (mkCounter 0) (om_find (current_series (book c)) (rr_series pd)) in
    match om_find (series_records (book c)) (rr_series pd, generation) with
    | Some s => live_members c s
    | None => []
    end
  else [pd].

Lemma superseded_same pd c c' : book c' = book c -> superseded_by pd c' = superseded_by pd c.
Proof. destruct c, c'. cbn. now intros ->. Qed.

Lemma superseded_out pd c gone s c1 log es :
  suspend_superseded pd c = (Ok (gone, s), c1) -> logged log es (index c) -> moderate log ->
  exists es1, logged log es1 (index c1) /\ without (fun e => Exists (fun r => held_by r e) (superseded_by pd c)) es es1.
Proof.
  unfold suspend_superseded, superseded_by. intros E L M. destruct (series_member pd).
  - apply bind_inv in E as (o & c2 & F & E). destruct o as [s'|]; [|discriminate].
    unfold bind at 1, gets at 1 in E. apply bind_inv in E as ([] & c3 & A & E). injection E as _ _ <-.
    unfold current_series_record in F. apply bind_inv in F as (g & c4 & Cu & F). injection F as F <-.
    assert (g = default (mkCounter 0) (om_find (current_series (book c)) (rr_series pd)) /\ index c4 = index c /\
      series_records (book c4) = series_records (book c) /\ live_members c4 s' = live_members c s') as (-> & I4 & S4 & Lm).
    { unfold current_series_at, bind, gets in Cu. destruct (om_find (current_series (book c)) _); injection Cu as <- <-. all: split; [reflexivity|]; split; [reflexivity|]; split; reflexivity. }
    rewrite S4 in F. rewrite F, <- Lm. apply suspended_all with (c := c4); [exact A | now rewrite I4 | exact M].
  - apply bind_inv in E as ([] & c2 & A & E). injection E as _ _ <-. apply suspended_all with (c := c); [|exact L | exact M].
    cbn [for_each]. unfold bind. now rewrite A.
Qed.

#[export] Instance outside_PreOrder : PreOrder outside.
Proof. split; [intros c; reflexivity | intros c c' c'' A B; unfold outside in *; congruence]. Qed.

Lemma outside_modify f : (forall c, outside c (f c)) -> keeps outside (modify f).
Proof. intros F c. apply F. Qed.

Lemma outside_on_index f : keeps outside (on_index f).
Proof. intros c. unfold on_index. now destruct (f (index c)). Qed.
#[local] Hint Resolve outside_on_index : frame.
#[local] Hint Extern 1 (keeps outside (modify _)) => (apply outside_modify; intros; reflexivity) : frame.

Lemma outside_superseded pd : keeps outside (suspend_superseded pd).
Proof. unfold suspend_superseded, current_series_record, current_series_at, suspend, suspend_entry. frame. Qed.

(** An evaluation reads the index, the tables, the overcommits and the configuration. *)
Lemma assess_outside c c1 t b pol : outside c c1 -> assess c1 t b pol = assess (set_index (fun _ => index c1) c) t b pol.
Proof. destruct c, c1. unfold outside. cbn. intros [= -> -> ->]. reflexivity. Qed.

Lemma evaluate_all_fails c t b pol ws : forall i f, evaluate_all c t b pol i ws = inr f ->
  exists w, In w ws /\ as_outcome (assess c (with_interval t w) b pol) <> ao_kCommittable.
Proof.
  induction ws as [|w ws IH]; intros i f E; cbn [evaluate_all] in E; [discriminate|].
  destruct (negb (beq (as_outcome _) ao_kCommittable)) eqn:B.
  - exists w. split; [now left|]. intros C. rewrite C in B. discriminate.
  - destruct (evaluate_all c t b pol (S i) ws) as [evs|f'] eqn:E'; [discriminate|]. destruct (IH _ _ E') as (w' & I & N). exists w'. split; [now right | exact N].
Qed.

(** ** What an amendment leaves *)
Lemma narrows_superseded p : keeps narrows (suspend_superseded p).
Proof. unfold suspend_superseded, current_series_record, current_series_at. frame. Qed.

Lemma narrows_supersede now p r : keeps narrows (supersede now p r).
Proof. unfold supersede. frame. Qed.
#[local] Hint Resolve narrows_superseded narrows_supersede : frame.

Lemma takes_successor r : keeps (takes (record_entries r)) (enter_successor r).
Proof.
  unfold enter_successor, update_index_locked. apply narrows_then; [frame | intros _].
  apply takes_then; [|frame]. apply narrows_then; [frame | intros indexed].
  apply narrows_then; [frame | intros _; apply takes_sync_index].
Qed.

Lemma successors_of t auth now p seq why pd sup s b ws m rs :
  amendment_mutation t auth now p seq why pd sup s ws = Ok (m, rs) -> windows_of t ws ->
  av_resources auth = rb_resources b -> records_of t b ws rs /\ rs <> [].
Proof.
  unfold amendment_mutation. intros E [Ne One] A.
  assert (forall prev w, av_resources (authority (make_successor t auth now p seq prev w)) = rb_resources b) as Au by (intros; exact A).
  destruct s as [s|].
  - destruct (position _ _) as [target|]; [|discriminate]. destruct (nth_error _ target) as [record|]; [|discriminate].
    injection E as <- <-. split; [|destruct ws; [contradiction | discriminate]]. apply records_of_imap. intros i w. unfold series_successor. destruct (nth_error sup i); auto.
  - injection E as <- <-. split; [|discriminate]. exists (fun _ w => make_successor t auth now p seq pd w). split; [|auto].
    intros r [<-|[]]. destruct ws as [|w ws]; [contradiction|]. exists O, w. auto.
Qed.

Lemma amend_accepted_takes x pd t pr now b pol ws sup s acc c r c' :
  amend_accepted x pd t pr now b pol ws sup s acc c = (Ok r, c') ->
  takes (flat_map record_entries (am_members r)) c c' /\ kept (suspension c') = true /\
  (windows_of t ws -> records_of t b ws (am_members r) /\ am_members r <> []).
Proof.
  unfold amend_accepted. do 3 (unfold bind at 1, gets at 1). cbv zeta.
  match goal with |- context [commit_authority c t b pol ?g] =>
    assert (av_resources (commit_authority c t b pol g) = rb_resources b) as Au by reflexivity;
    generalize dependent (commit_authority c t b pol g) end.
  intros auth Au. unfold bind at 1. unfold lift at 1.
  destruct (amendment_mutation _ _ _ _ _ _ _ _ _ _) as [[m rs]|e] eqn:Am; [|discriminate].
  match goal with |- ?n c = _ -> _ => set (rest := n) end. intros E.
  assert (ends rest (fun a c' => am_members a = rs /\ kept (suspension c') = true)) as En.
  { unfold rest. do 6 (apply ends_bind; intros ?). intros c1 r1 c2 E1.
    apply bind_inv in E1 as (u & c3 & K & E1). injection K as _ <-.
    assert (keeps unsuspended (bump n_amendments)) as B by (intros c3; reflexivity).
    apply bind_inv in E1 as (u' & c4 & S4 & E1). pose proof (keeps_step _ _ _ _ _ B S4) as U4.
    apply bind_inv in E1 as (pd' & c5 & S5 & E1). injection S5 as _ <-.
    apply bind_inv in E1 as (u5 & c6 & S6 & E1).
    pose proof (keeps_step _ _ _ _ _ (unsuspended_housekeeping now) S6) as U6. injection E1 as <- <-.
    split; [reflexivity|]. unfold unsuspended in *. now rewrite U6, U4. }
  destruct (En _ _ _ E) as [M K]. rewrite M. split; [|split; [exact K|]].
  - assert (keeps (takes (flat_map record_entries rs)) rest) as N.
    { unfold rest. do 3 (apply narrows_then; [frame | intros _]).
      apply takes_then; [apply takes_each, takes_successor | intros _; frame]. }
    specialize (N c). now rewrite E in N.
  - intros W. eapply successors_of; eassumption.
Qed.

Lemma decide_amendment_rests x pd t pr now note pol b ws c r c' :
  decide_amendment x pd t pr false now note pol b ws c = (Ok r, c') -> windows_of t ws ->
  exists gone s c1, suspend_superseded pd c = (Ok (gone, s), c1) /\
    (am_members r = [] /\ (exists w, In w ws /\ as_outcome (assess c1 (with_interval t w) b pol) <> ao_kCommittable) \/
     am_members r <> [] /\ kept (suspension c') = true /\ rests_on t pol b ws c1 (am_members r) c').
Proof.
  unfold decide_amendment. intros E Wi. apply bind_inv in E as ([sup s] & c1 & S & E). exists sup, s, c1. split; [exact S|].
  unfold bind at 1, gets at 1 in E. destruct (evaluate_all c1 t b pol 0 ws) as [evs|[failure i]] eqn:Ev; cbv zeta in E; cbn iota in E.
  - right. destruct (amend_accepted_takes _ _ _ _ _ _ _ _ _ _ _ _ _ _ E) as (T & K & M). destruct (M Wi) as [Ro Ne].
    split; [exact Ne|]. split; [exact K|]. split; [eapply evaluate_all_windows, Ev | now split].
  - left. split; [|eapply evaluate_all_fails, Ev]. unfold refuse_amendment in E. cbv zeta in E. cbn iota in E.
    apply bind_inv in E as (sq & c2 & _ & E). injection E as <- _. reflexivity.
Qed.

Lemma replay_amendment_replayed p a : ends (replay_amendment p a) (fun r _ => am_replayed r = true).
Proof.
  unfold replay_amendment. cbv zeta. do 2 (apply ends_bind; intros ?). case_match_goal.
  - apply ends_bind. intros [s ms] c0 r0 c1 E. now injection E as <- _.
  - intros c0 r0 c1 E. now injection E as <- _.
Qed.

(** What [amend_locked] does before it looks at policy and capacity. *)
Definition amend_prelude (context : RequestContext) (target : Identity128)
    (target_generation : ReservationGeneration) (t : ReservationTerms) : co ReservationRecord :=
  let* now := now_locked in
  check_context context true ;;
  lift (validate_terms t) ;;
  let* predecessor := named_record target target_generation in
  ensure_claimant_locked (claimant t) (claimant_generation t) now ;;
  reconcile_then now predecessor.

Lemma named_record_same id g c r c' : named_record id g c = (Ok r, c') -> c' = c.
Proof.
  unfold named_record. unfold bind at 1, gets at 1. destruct (find_record_locked c id g); [|discriminate].
  intros E. now injection E as _ <-.
Qed.

(** A decided amendment: an evaluation in [c1], the state with what is superseded
    taken out of the index, that does not close, or that closes and then the
    entries of the successors. *)
Lemma amend_rests x id g t c r c' :
  amend_locked x id g t false c = (Ok r, c') -> am_replayed r = false ->
  let c0 := (amend_prelude x id g t c).2 in
  validate_terms t = Ok tt /\ exists pd b ws gone s c8 c1, let pol := (policy_for_locked c0 (policy t)).1 in
    (amend_prelude x id g t c).1 = Ok pd /\ resolve_binding (tables c0) t = Ok b /\
    expand_series (interval t) (recurrence t) (max_series_members pol) = Ok ws /\
    (index c8 = index c0 /\ book c8 = book c0 /\ outside c0 c8) /\ suspend_superseded pd c8 = (Ok (gone, s), c1) /\
    (am_members r = [] /\ (exists w, In w ws /\ as_outcome (assess c1 (with_interval t w) b pol) <> ao_kCommittable) \/
     am_members r <> [] /\ rests_on t pol b ws c1 (am_members r) c').
Proof.
  intros E F c0. unfold amend_locked in E.
  apply bind_inv in E as (now & c1 & S1 & E). apply bind_inv in E as (u2 & c2 & S2 & E).
  apply bind_inv in E as (u3 & c3 & V & E). pose proof V as V'. apply lift_inv in V as [V ->]. destruct u3.
  apply bind_inv in E as (pd & c4 & S4 & E). pose proof S4 as Same. apply named_record_same in Same as ->. cbv zeta in E.
  unfold bind at 1, gets at 1 in E. destruct (find_attempt_locked c2 _) as [previous|].
  { apply bind_inv in E as (u & c5 & _ & E). apply replay_amendment_replayed in E. congruence. }
  do 3 pass_lift E. apply bind_inv in E as (u5 & c5 & S5 & E). apply bind_inv in E as (pd' & c6 & S6 & E).
  assert (amend_prelude x id g t c = (Ok pd', c6)) as C0.
  { unfold amend_prelude. unfold bind at 1. rewrite S1. unfold bind at 1. rewrite S2. unfold bind at 1. rewrite V'.
    unfold bind at 1. rewrite S4. unfold bind at 1. rewrite S5, S6. reflexivity. }
  subst c0. rewrite C0. split; [exact V|]. cbn [fst snd].
  unfold bind at 1, gets at 1 in E. destruct (policy_for_locked c6 (policy t)) as [pol note].
  apply bind_inv in E as (b & c7 & S7 & E). injection S7 as Rb <-.
  apply bind_inv in E as (ws & c8 & X & E). apply lift_inv in X as [X ->].
  assert (windows_of t ws) as Wi by (destruct (validate_terms_core t V) as (Vi & _ & Vr); apply (expand_series_windows _ _ _ _ Vr Vi X)).
  apply scope_inv in E as (c8 & c9 & I8 & E & K). apply (fun E => decide_amendment_rests _ _ _ _ _ _ _ _ _ _ _ _ E Wi) in E as (gone & s & c10 & S & D).
  exists pd', b, ws, gone, s, c8, c10. cbv zeta. cbn [fst]. do 3 (split; [assumption || reflexivity|]). split; [exact I8|]. split; [exact S|].
  destruct D as [D|(Ne & Kc & R)]; [left; exact D | right]. split; [exact Ne|]. specialize (K Kc) as [I T]. eapply rests_on_same; eassumption.
Qed.

Lemma rests_moderate t pol b ws c1 rs c' log es x :
  validate_terms t = Ok tt -> expand_series (interval t) (recurrence t) (max_series_members pol) = Ok ws ->
  rests_on t pol b ws c1 rs c' -> logged log es x -> moderate (flat_map record_entries rs ++ log) -> moderate log.
Proof.
  intros V X (_ & _ & Of) L. destruct (validate_terms_core t V) as (Vi & Va & Vr).
  destruct (expand_series_windows _ _ _ _ Vr Vi X) as [One _]. destruct (entries_apart t b pol ws rs V X (Of One)) as [_ Am].
  apply moderate_less; [now apply submseteq_inserts_l|]. intros e I. apply in_app_or in I as [I|I]; [rewrite (Am e I); lia|].
  destruct (logged_wf _ _ _ L e I) as (_ & P & _). lia.
Qed.

(** C8. An amendment takes the place of what it supersedes and never oversells.  Take
    any state [c0] in which the index, once the request has passed the gate and
    time is reconciled, was built by the insertions of a log (as it is after
    every run), and an amendment that is decided there, of one reservation or of
    a series with all its live members.  It is decided as if exactly the entries
    of the superseded generations were not in the index: it is accepted if and
    only if with them taken out of [c0] every window of the request is
    COMMITTABLE.  If it is accepted they stay out: afterwards the index stands for
    entries that were in before and are not of a superseded generation, or that
    belong to the successors of the answer; and for every successor and every
    resource it is bound to the bound generation is live and at every instant of
    its interval all entries together are within the ceiling (and the allowance of
    a policy that permits overcommitment).  The bounds are those of a commit. *)
Theorem amendments_never_oversell x id g t c r c' log es :
  amend_locked x id g t false c = (Ok r, c') -> am_replayed r = false ->
  let c0 := (amend_prelude x id g t c).2 in
  logged log es (index c0) ->
  let joined := flat_map record_entries (am_members r) in
  moderate (joined ++ log) ->
  let pol := (policy_for_locked c0 (policy t)).1 in
  exists pd b ws, (amend_prelude x id g t c).1 = Ok pd /\ resolve_binding (tables c0) t = Ok b /\
    expand_series (interval t) (recurrence t) (max_series_members pol) = Ok ws /\
    let superseded e := Exists (fun s => held_by s e) (superseded_by pd c0) in
    (exists x1 n es1, index_ok n x1 es1 /\ without superseded es es1 /\
      (am_members r <> [] <->
       forall w, In w ws -> as_outcome (assess (set_index (fun _ => x1) c0) (with_interval t w) b pol) = ao_kCommittable)) /\
    (am_members r <> [] -> exists n es', index_ok n (index c') es' /\
      (forall e, In e es' -> In e es /\ ~ superseded e \/ In e joined) /\
      forall record, In record (am_members r) -> within_limits c' (policy_for_locked c' (policy t)).1 es' record).
Proof.
  intros E F c0 L joined M pol. destruct (amend_rests _ _ _ _ _ _ _ E F) as [V (pd & b & ws & gone & s & c8 & c1 & P & Rb & X & (I8 & B8 & O8) & S & D)].
  fold c0 in I8, B8, O8, X, D, Rb. fold pol in X, D. exists pd, b, ws. do 3 (split; [assumption|]). intros superseded.
  assert (moderate log) as Ml.
  { destruct D as [[N _]|[_ R]]; [subst joined; now rewrite N in M | eapply rests_moderate; eassumption]. }
  rewrite <- I8 in L. destruct (superseded_out _ _ _ _ _ _ _ S L Ml) as (es1 & L1 & W). rewrite (superseded_same pd c0 c8 B8) in W. fold superseded in W.
  assert (outside c0 c1) as O1 by (etransitivity; [exact O8 | exact (keeps_step _ _ _ _ _ (outside_superseded pd) S)]).
  split.
  - exists (index c1), (updates log es1), es1. split; [now apply logged_ok|]. split; [exact W|].
    destruct D as [[N (w & I & Nc)]|[Ne R]]; split; try easy.
    + intros C. destruct Nc. rewrite (assess_outside _ _ _ _ _ O1). now apply C.
    + intros _ w I. rewrite <- (assess_outside _ _ _ _ _ O1). now apply R.
  - intros Ne. destruct D as [[N _]|[_ R]]; [contradiction|].
    destruct (rests_close t _ b ws c1 _ c' log es1 V X R L1 M) as (n & es' & O & Sub & Wl). exists n, es'. split; [exact O|]. split.
    + intros e I. destruct (Sub e I) as [J|J]; [left; now apply W | now right].
    + assert (policy_for_locked c' (policy t) = policy_for_locked c0 (policy t)) as ->; [|exact Wl].
      destruct R as (_ & [_ T] & _). injection O1 as _ T1 _. unfold policy_for_locked. now rewrite T, T1.
Qed.

Definition more_terms : ReservationTerms := Sample.terms_on 2000 3000 800 kProtected.
Definition no_amendment : AmendmentResult :=
  mkAmendmentResult default_record default_record None [] (brief_report ao_kInvalidRequest []) false.

(** 800 bit/s instead of 600: more than the 300 that are free, but not with the
    reservation's own. *)
Lemma amendments_never_oversell_witness :
  let m := amend_locked (Sample.context (Sample.id_of 22)) (Sample.id_of 21) (mkCounter 1) more_terms false in
  let prelude := amend_prelude (Sample.context (Sample.id_of 22)) (Sample.id_of 21) (mkCounter 1) more_terms Sample.committed in
  let c0 := prelude.2 in
  let r := Sample.result_of no_amendment m Sample.committed in
  let c' := (m Sample.committed).2 in
  let pol := (policy_for_locked c0 (policy more_terms)).1 in
  length (am_members r) = 1%nat /\
  exists pd b ws, prelude.1 = Ok pd /\ resolve_binding (tables c0) more_terms = Ok b /\
    expand_series (interval more_terms) (recurrence more_terms) (max_series_members pol) = Ok ws /\
    let superseded e := Exists (fun s => held_by s e) (superseded_by pd c0) in
    (exists x1 n es1, index_ok n x1 es1 /\ without superseded [first_entry] es1 /\
      (am_members r <> [] <->
       forall w, In w ws -> as_outcome (assess (set_index (fun _ => x1) c0) (with_interval more_terms w) b pol) = ao_kCommittable)) /\
    (am_members r <> [] -> exists n es', index_ok n (index c') es' /\
      (forall e, In e es' -> In e [first_entry] /\ ~ superseded e \/ In e (flat_map record_entries (am_members r))) /\
      forall record, In record (am_members r) -> within_limits c' (policy_for_locked c' (policy more_terms)).1 es' record).
Proof.
  cbv zeta. split; [vm_compute; reflexivity|].
  apply (amendments_never_oversell (Sample.context (Sample.id_of 22)) (Sample.id_of 21) (mkCounter 1) more_terms
           Sample.committed _ _ [first_entry] [first_entry]).
  - apply result_of_ok. vm_compute. reflexivity.
  - vm_compute. reflexivity.
  - eapply logged_insert; [apply logged_empty|]. vm_compute. reflexivity.
  - split; vm_compute; discriminate.
Defined.

(** ** Holds *)
Definition hold_entries (h : HoldRecord) : list IndexEntry := map (hold_entry h) (hr_resources h).

Lemma takes_insert_hold h c u c' : insert_hold h c = (Ok u, c') -> takes (hold_entries h) c c'.
Proof.
  unfold insert_hold. pose proof (absorbs_insert_loop (index c) (hold_entries h)) as A. unfold hold_entries in *.
  destruct (insert_loop _ _) as [[u'|e] x]; [|discriminate]. intros [= _ <-]. split; [exact A | reflexivity].
Qed.

(** The entries of a hold: two of them on one resource are the same. *)
Lemma hold_apart h e e' :
  In e (hold_entries h) -> In e' (hold_entries h) -> ie_resource e = ie_resource e' -> e = e'.
Proof.
  unfold hold_entries. rewrite !in_map_iff. intros (n & <- & _) (n' & <- & _). cbn [hold_entry ie_resource].
  now intros ->.
Qed.

(** What [acquire_hold] does before it looks at policy and capacity. *)
Definition hold_prelude (context : RequestContext) (t : ReservationTerms) : co unit :=
  let* now := now_locked in
  check_context context true ;;
  lift (validate_terms t) ;;
  ensure_claimant_locked (claimant t) (claimant_generation t) now ;;
  reconcile_locked now.

(** An accepted hold: an evaluation in [c1] that closes, and its entries. *)
Lemma hold_rests x t expires c h c' :
  acquire_hold x t expires c = (Ok h, c') ->
  validate_terms t = Ok tt /\
  exists c1 pol b, narrows (hold_prelude x t c).2 c1 /\ pol = (policy_for_locked c1 (policy t)).1 /\
    as_outcome (assess c1 t b pol) = ao_kCommittable /\ takes (hold_entries h) c1 c' /\
    hr_resources h = map resource (rb_resources b) /\ hr_amount h = amount t.
Proof.
  intros E. unfold acquire_hold in E.
  apply bind_inv in E as (now & c1 & S1 & E). apply bind_inv in E as (u2 & c2 & S2 & E).
  apply bind_inv in E as (u3 & c3 & V & E). pose proof V as V'. apply lift_inv in V as [V ->]. destruct u3.
  apply bind_inv in E as (u5 & c5 & S5 & E). apply bind_inv in E as (u6 & c6 & S6 & E).
  assert ((hold_prelude x t c).2 = c6) as ->.
  { unfold hold_prelude. unfold bind at 1. rewrite S1. unfold bind at 1. rewrite S2. unfold bind at 1. rewrite V'.
    unfold bind at 1. rewrite S5, S6. reflexivity. }
  split; [exact V|]. unfold bind at 1, gets at 1 in E. destruct (policy_for_locked c6 (policy t)) as [pol note] eqn:P.
  apply bind_inv in E as (u7 & c7 & S7 & E). injection S7 as _ <-.
  apply bind_inv in E as (b & c8 & S8 & E). assert (c8 = c6) as -> by now injection S8.
  unfold bind at 1, gets at 1 in E. pass_lift E. unfold bind at 1, gets at 1 in E.
  apply bind_inv in E as (u9 & c9 & S9 & E). apply takes_insert_hold in S9 as T.
  apply bind_inv in E as (u10 & c10 & S10 & E). injection E as <- <-. injection S10 as _ <-.
  exists c6, pol, b. split; [reflexivity|]. split; [now rewrite P|].
  split; [destruct (beq (as_outcome (assess c6 t b pol)) ao_kCommittable) eqn:B; [now apply beq_true | discriminate]|].
  split; [destruct T as [T1 T2]; split; [exact T1 | exact T2]|]. split; reflexivity.
Qed.

(** C25. A hold never oversells.  Take any state in which the index, once the
    request has passed the gate and time is reconciled, was built by the
    insertions of a log, and a hold the coordinator grants there.  Afterwards
    the index stands for entries that were in before or belong to the hold; and
    on every resource the hold names, a generation of which is live, at every
    instant of the interval all entries together are within the ceiling (and the
    allowance of a policy that permits overcommitment).  The bounds are those of
    a commit. *)
Theorem holds_never_oversell x t expires c h c' log es :
  acquire_hold x t expires c = (Ok h, c') ->
  logged log es (index (hold_prelude x t c).2) ->
  moderate (hold_entries h ++ log) ->
  exists n es', index_ok n (index c') es' /\
    (forall e, In e es' -> In e es \/ In e (hold_entries h)) /\
    forall name, In name (hr_resources h) ->
      exists ref, resource ref = name /\ stays_within c' (policy_for_locked c' (policy t)).1 es' t ref.
Proof.
  intros E L M. destruct (hold_rests _ _ _ _ _ _ E) as (V & c1 & pol & b & Nw & -> & Com & T & Rs & Am).
  destruct (validate_terms_core t V) as (Vi & Va & _).
  destruct (tk_index _ _ _ Nw _ _ L) as (more & es1 & Sm & L1 & Sub). apply submseteq_nil_r in Sm. subst more.
  destruct (taken (hold_entries h) (bps (amount t)) Va
              (fun e e' _ I I' R _ _ => hold_apart h e e' I I' R)
              ltac:(intros e I; apply in_map_iff in I as (? & <- & _); cbn [hold_entry ie_amount]; now rewrite Am)
              c1 c' T log es1 L1 M) as (n & es' & O1 & O' & Sub' & Occ).
  exists n, es'. split; [exact O'|]. split; [intros e I; destruct (Sub' e I) as [J|J]; [left; now destruct (Sub e J) | now right]|].
  intros name I. rewrite Rs in I. apply in_map_iff in I as (ref & <- & I). exists ref. split; [reflexivity|].
  assert (policy_for_locked c' (policy t) = policy_for_locked c1 (policy t)) as ->
    by (unfold policy_for_locked; now rewrite (tk_tables _ _ _ T)).
  eapply committable_stays; [exact O1 | exact Vi | apply T | exact Com | exact Occ | exact I].
Qed.

Definition no_hold : HoldRecord :=
  make_hold Sample.committed (Sample.context nil_id) more_terms (mkResolvedBinding kResources empty_name (mkCounter 0) [] []) ts0 ts0.

(** A hold of 300 bit/s next to the 600 of 900. *)
Lemma holds_never_oversell_witness :
  let m := acquire_hold (Sample.context (Sample.id_of 24)) second_terms (Sample.second 1004) in
  let h := Sample.result_of no_hold m Sample.committed in
  let c' := (m Sample.committed).2 in
  hr_resources h = [Sample.link] /\
  exists n es', index_ok n (index c') es' /\
    (forall e, In e es' -> In e [first_entry] \/ In e (hold_entries h)) /\
    forall name, In name (hr_resources h) ->
      exists ref, resource ref = name /\ stays_within c' (policy_for_locked c' (policy second_terms)).1 es' second_terms ref.
Proof.
  cbv zeta. split; [vm_compute; reflexivity|].
  apply (holds_never_oversell (Sample.context (Sample.id_of 24)) second_terms (Sample.second 1004) Sample.committed
           _ _ [first_entry] [first_entry]).
  - apply result_of_ok. vm_compute. reflexivity.
  - eapply logged_insert; [apply logged_empty|]. vm_compute. reflexivity.
  - split; vm_compute; discriminate.
Defined.

(** A retried hold loses its capacity.  100 bit/s are held where 600 of 900
    are committed.  The client repeats the request with the same attempt: the
    entry exists, so the insertion fails, and the error path takes out the
    entries of the live hold.  The answer is an error, the hold is still listed
    and not released, and the link counts 600 again: a commit of 300 bit/s that
    was refused before the retry is accepted after it. *)
Theorem retried_hold_loses_capacity :
  let ask := acquire_hold (Sample.context (Sample.id_of 24)) (Sample.terms_on 2000 3000 100 kProtected) (Sample.second 1004) in
  let held := (ask Sample.committed).2 in
  let retried := (ask held).2 in
  let hold := Sample.result_of no_hold ask Sample.committed in
  let commit := create_locked (Sample.context (Sample.id_of 22)) (Sample.terms_on 2000 3000 300 kProtected) (Sample.id_of 23) false [] in
  let used c := bps (peak_combined (index c) Sample.link (hr_interval hold)) in
  (ask Sample.committed).1 = Ok hold /\ used held = 700 /\
  (ask held).1 = Err kAlreadyExists /\ used retried = 600 /\
  om_find (holds (sessions retried)) (hr_id hold) = Some hold /\ released hold = false /\
  cr_members (Sample.result_of Sample.no_commit commit held) = [] /\
  cr_members (Sample.result_of Sample.no_commit commit retried) <> [] /\
  used (commit retried).2 = 900.
Proof. vm_compute. repeat split; discriminate. Qed.
