(* ===== verification/CoordReconcile.v ===== *)
(** * Coordinator: time reconciliation

    The three time queues stand for the records, and a successful
    [reconcile_locked] does exactly what is due: nothing that is due is left and
    nothing that is not due moves. *)
From stdpp Require Import relations.
From S2P Require Import Prelude Errors Containers Identity Hash Bandwidth Time Authority Wire Policy Capacity Reservation Outcome SegTree Index Durable CodecBase Codec Store Coordinator CoordRecords CoordPersist CoordAssess CoordLifecycle CoordCommit CoordOps CoordQuery CoordSample CoordSteps CoordGate CoordCapacity.

(** ** What the queues stand for *)

(** The instant a record waits for in each queue. *)
Definition awaits_opening (r : ReservationRecord) : option Timestamp :=
  if consumes r && beq (rr_state r) kCommitted then Some (start (interval (terms r))) else None.
Definition awaits_end (r : ReservationRecord) : option Timestamp :=
  if consumes r && negb (empty (consuming_interval r)) then Some (end_ (consuming_interval r)) else None.
Definition awaits_recall (r : ReservationRecord) : option Timestamp :=
  if consumes r && beq (rr_state r) kRecallPending && (ns (rr_recall_effective_at r) >? 0)
  then Some (rr_recall_effective_at r) else None.

Abbreviation Queue := (list (Timestamp * ReservationKey)).
Abbreviation Records := (omap ReservationKey ReservationRecord).

(** The queue is ordered by time and holds for every record the instant it waits
    for, and nothing else. *)
Record queue_exact (awaits : ReservationRecord -> option Timestamp) (rs : Records) (q : Queue) : Prop := {
  qe_sorted : mm_sorted q;
  qe_all : forall t k, In (t, k) q <-> exists r, om_find rs k = Some r /\ awaits r = Some t }.

Record queues_exact (b : Book) : Prop := {
  qx_keyed : forall k r, om_find (records b) k = Some r -> key_of r = k;
  qx_activation : queue_exact awaits_opening (records b) (activation_queue b);
  qx_expiry : queue_exact awaits_end (records b) (expiry_queue b);
  qx_recall : queue_exact awaits_recall (records b) (recall_queue b) }.

(** A record's entries in a queue replaced by what it waits for now. *)
Definition requeue (wanted : option Timestamp) (key : ReservationKey) (q : Queue) : Queue :=
  match wanted with
  | Some t => mm_emplace (without_key key q) t key
  | None => without_key key q
  end.

Definition queues (b : Book) : Queue * Queue * Queue := (activation_queue b, expiry_queue b, recall_queue b).

Lemma queues_sync r b :
  queues (sync_queues r b) =
  (requeue (awaits_opening r) (key_of r) (activation_queue b), requeue (awaits_end r) (key_of r) (expiry_queue b),
   requeue (awaits_recall r) (key_of r) (recall_queue b)).
Proof.
  unfold sync_queues, awaits_opening, awaits_end, awaits_recall. destruct (consumes r); [|reflexivity]. cbn [negb andb].
  unfold queues, requeue. cbn [activation_queue expiry_queue recall_queue set_queues].
  destruct (beq (rr_state r) kCommitted), (empty (consuming_interval r)), (beq (rr_state r) kRecallPending && _); reflexivity.
Qed.

Lemma without_key_In key (q : Queue) t k : In (t, k) (without_key key q) <-> In (t, k) q /\ k <> key.
Proof. unfold without_key. rewrite filter_In, negb_true_iff, keqb_neq. reflexivity. Qed.

Lemma without_key_sorted key (q : Queue) : mm_sorted q -> mm_sorted (without_key key q).
Proof.
  unfold mm_sorted, without_key. induction 1 as [|p q S IH F]; cbn [List.filter]; [constructor|].
  destruct (negb _); [|exact IH]. constructor; [exact IH|]. rewrite List.Forall_forall in *.
  intros p' I. apply F. now apply filter_In in I as [I _].
Qed.

Lemma requeue_In wanted key (q : Queue) t k :
  In (t, k) (requeue wanted key q) <-> (k = key /\ wanted = Some t) \/ (In (t, k) q /\ k <> key).
Proof.
  unfold requeue. destruct wanted as [t'|]; [|rewrite without_key_In; intuition discriminate].
  rewrite mm_emplace_perm. cbn [In]. rewrite without_key_In. split; intros [E|E]; auto; left; [injection E as -> -> | destruct E as [-> [= ->]]]; auto.
Qed.

Lemma requeue_sorted wanted key (q : Queue) : mm_sorted q -> mm_sorted (requeue wanted key q).
Proof.
  intros S. unfold requeue. destruct wanted; [apply mm_emplace_sorted|]; now apply without_key_sorted.
Qed.

(** The records of a book with [r] under its key. *)
Definition replaces (r : ReservationRecord) (rs rs' : Records) : Prop :=
  om_find rs' (key_of r) = Some r /\ forall k, k <> key_of r -> om_find rs' k = om_find rs k.

Lemma queue_exact_requeue awaits rs rs' q r :
  queue_exact awaits rs q -> replaces r rs rs' -> queue_exact awaits rs' (requeue (awaits r) (key_of r) q).
Proof.
  intros [S A] [H O]. split; [now apply requeue_sorted|]. intros t k. rewrite requeue_In. split.
  - intros [[-> W]|[I N]]; [eauto|]. apply A in I as (r' & F & W). rewrite <- O in F by exact N. eauto.
  - intros (r' & F & W). destruct (decide (k = key_of r)) as [->|N]; [left; split; congruence|].
    right. rewrite O in F by exact N. split; [apply A; eauto | exact N].
Qed.

(** ** A record that is filed and its queues brought up to date *)
Record filed (r : ReservationRecord) (b b' : Book) : Prop := {
  fl_records : replaces r (records b) (records b');
  fl_queues : queues b' = queues (sync_queues r b) }.

Lemma filed_exact r b b' : queues_exact b -> filed r b b' -> queues_exact b'.
Proof.
  intros [K A E R] [[H O] Q]. rewrite queues_sync in Q. unfold queues in Q. injection Q as Qa Qe Qr.
  split; [|rewrite Qa; eapply queue_exact_requeue; [exact A | now split]
          |rewrite Qe; eapply queue_exact_requeue; [exact E | now split]
          |rewrite Qr; eapply queue_exact_requeue; [exact R | now split]].
  intros k r' F. destruct (decide (k = key_of r)) as [->|N]; [congruence|]. rewrite O in F by exact N. auto.
Qed.

Lemma replaces_trans r r' rs rs1 rs2 :
  key_of r' = key_of r -> replaces r rs rs1 -> replaces r' rs1 rs2 -> replaces r' rs rs2.
Proof.
  intros K [_ O] [H' O']. split; [exact H'|]. intros k N. rewrite O' by exact N. apply O. congruence.
Qed.

(** The book is left alone, and the sessions. *)
Definition aside (c c' : Coordinator) : Prop := book c' = book c /\ sessions c' = sessions c.

#[export] Instance aside_PreOrder : PreOrder aside.
Proof. split; [intros c; now split | intros c c' c'' [A A'] [B B']; split; congruence]. Qed.

Lemma aside_append r : keeps aside (append_locked r).
Proof. intros c. destruct (append_moves r c) as [(_ & B & S & _) _ _]. now split. Qed.
Lemma aside_on_index f : keeps aside (on_index f).
Proof. intros c. unfold on_index. destruct (f (index c)). now split. Qed.
Lemma aside_bump k : keeps aside (bump k).
Proof. intros c. now split. Qed.
#[local] Hint Resolve aside_append aside_on_index aside_bump : frame.

Lemma aside_sync_index r : keeps aside (sync_index_locked r).
Proof. unfold sync_index_locked, index_insert_locked, index_erase_locked. frame. Qed.
Lemma aside_update_index r : keeps aside (update_index_locked r).
Proof.
  pose proof (aside_sync_index r). unfold update_index_locked, index_erase_locked. frame.
Qed.

Lemma filed_put r r1 b b0 :
  key_of r1 = key_of r -> records b0 = records b -> queues b0 = queues b ->
  filed r b (sync_queues r (put_record r (put_record r1 b0))).
Proof.
  intros K R Q. split.
  - assert (records (sync_queues r (put_record r (put_record r1 b0))) = om_set (om_set (records b0) (key_of r1) r1) (key_of r) r) as ->
      by (unfold sync_queues; case_if; reflexivity).
    rewrite K, R. split; [apply om_find_set_eq|]. intros k N. rewrite !om_find_set_ne by congruence. reflexivity.
  - rewrite !queues_sync. unfold queues in Q. injection Q as Qa Qe Qr.
    cbn [activation_queue expiry_queue recall_queue put_record set_records]. now rewrite Qa, Qe, Qr.
Qed.

(** A transition files the record in its new state. *)
Lemma transition_files r st t why x c r' a c' :
  transition_locked r st t why x ts0 c = (Ok (r', a), c') ->
  key_of r' = key_of r /\ rr_state r' = st /\ terms r' = terms r /\ consuming_interval r' = consuming_interval r /\
  rr_applicability r' = rr_applicability r /\
  filed r' (book c) (book c') /\ sessions c' = sessions c.
Proof.
  unfold transition_locked. intros E. apply bind_inv in E as (sq & c1 & S1 & E).
  pose proof (keeps_step _ _ _ _ _ (aside_append _) S1) as [B1 Se1]. unfold bind at 1, gets at 1 in E. cbv zeta in E.
  replace (if ns ts0 >? 0 then with_recall r ts0 else r) with r in E by reflexivity.
  unfold set_state_locked in E. cbv zeta in E. apply bind_inv in E as (r1 & c2 & S2 & E).
  apply bind_inv in S2 as (u & c3 & S3 & S2). injection S3 as _ <-. injection S2 as <- <-.
  apply bind_inv in E as (u1 & c4 & S4 & E). injection S4 as _ <-. apply bind_inv in E as (u2 & c5 & S5 & E).
  match type of S5 with ?m _ = _ => assert (keeps aside m) as K by (case_if; [apply aside_update_index | apply aside_sync_index]) end.
  apply (keeps_step _ _ _ _ _ K) in S5 as [B5 Se5]. apply bind_inv in E as (u3 & c6 & S6 & E). injection S6 as _ <-.
  injection E as <- _ <-. repeat (split; [reflexivity|]). split; [|cbn; rewrite Se5; exact Se1].
  cbn [book set_book]. rewrite B5. cbn [book set_book]. rewrite B1.
  apply filed_put; [reflexivity | unfold recount; repeat case_if; reflexivity..].
Qed.

(** ** What time does to a record *)
Definition reached (now : Timestamp) (awaited : option Timestamp) : bool :=
  match awaited with Some t => negb (ts_lt now t) | None => false end.

(** One of the instants the record waits for is there. *)
Definition due (now : Timestamp) (r : ReservationRecord) : bool :=
  reached now (awaits_opening r) || reached now (awaits_end r) || reached now (awaits_recall r).

(** Where time takes a record: a recall that takes effect revokes it, the end of
    its interval expires it (or revokes it, if its recall is pending), the
    opening of its interval activates it. *)
Definition next_state (now : Timestamp) (r : ReservationRecord) : ReservationState :=
  if recall_due now r then kRevoked
  else if consumes r && (empty (consuming_interval r) || negb (ts_lt now (end_ (consuming_interval r)))) then
    if beq (rr_state r) kRecallPending then kRevoked else kExpired
  else if beq (rr_state r) kCommitted && commits_as_active now (interval (terms r)) then kActive
  else rr_state r.

(** The record [r] becomes [r'], in state [st], and nothing else changes. *)
Record moves_to (r : ReservationRecord) (st : ReservationState) (r' : ReservationRecord) (c c' : Coordinator) : Prop := {
  mt_key : key_of r' = key_of r;
  mt_state : rr_state r' = st;
  mt_terms : terms r' = terms r /\ consuming_interval r' = consuming_interval r;
  mt_applicability : rr_applicability r' = rr_applicability r;
  mt_records : replaces r' (records (book c)) (records (book c'));
  mt_exact : queues_exact (book c) -> queues_exact (book c');
  mt_sessions : sessions c' = sessions c }.

Lemma moves_aside r st r' c c1 c2 : moves_to r st r' c c1 -> aside c1 c2 -> moves_to r st r' c c2.
Proof. intros [K S T A R X Se] [B Se']. split; auto; [now rewrite B | now rewrite B | congruence]. Qed.

Lemma moves_nowhere r c : om_find (records (book c)) (key_of r) = Some r -> moves_to r (rr_state r) r c c.
Proof. intros F. split; auto. split; auto. Qed.

Lemma moves_twice r st r' st' r'' c c1 c2 :
  moves_to r st r' c c1 -> moves_to r' st' r'' c1 c2 -> moves_to r st' r'' c c2.
Proof.
  intros [K S [T1 T2] A R X Se] [K' S' [T1' T2'] A' R' X' Se']. split; try congruence; auto; [split; congruence|].
  eapply replaces_trans; eassumption.
Qed.

Lemma transition_moves r st t why x c r' a c' :
  transition_locked r st t why x ts0 c = (Ok (r', a), c') -> moves_to r st r' c c'.
Proof.
  intros E. apply transition_files in E as (K & S & T & I & A & F & Se). split; auto; [apply F|].
  intros X. eapply filed_exact; eassumption.
Qed.

Lemma transition_then {B} (m : co B) r st t why x c u c' :
  keeps aside m -> (transition_locked r st t why x ts0 ;; m) c = (Ok u, c') -> exists r', moves_to r st r' c c'.
Proof.
  intros K E. apply bind_inv in E as ([r' a] & c1 & S & E). apply transition_moves in S.
  exists r'. eapply moves_aside; [exact S | eapply keeps_step; eassumption].
Qed.

Definition at_end (now : Timestamp) (r : ReservationRecord) : bool :=
  consumes r && (empty (consuming_interval r) || negb (ts_lt now (end_ (consuming_interval r)))).

Lemma expire_moves now x r c u c' :
  expire_record now x r c = (Ok u, c') -> om_find (records (book c)) (key_of r) = Some r ->
  exists r', moves_to r (if at_end now r then if beq (rr_state r) kRecallPending then kRevoked else kExpired else rr_state r) r' c c' /\
             (at_end now r = false -> r' = r).
Proof.
  intros E F. unfold expire_record in E. cbv zeta in E. fold (at_end now r) in E. destruct (at_end now r).
  - assert (keeps aside count_revocation) as K by (unfold count_revocation; frame).
    destruct (beq (rr_state r) kRecallPending); (eapply transition_then in E; [|frame; apply K]); destruct E as [r' M];
      exists r'; (split; [exact M | discriminate]).
  - injection E as _ <-. exists r. split; [now apply moves_nowhere | auto].
Qed.

Lemma settle_moves now x k c u c' :
  settle_record now x k c = (Ok u, c') ->
  match om_find (records (book c)) k with
  | None => c' = c
  | Some r => key_of r = k -> exists r', moves_to r (next_state now r) r' c c' /\ (next_state now r = rr_state r -> r' = r)
  end.
Proof.
  intros E. unfold settle_record in E. unfold bind at 1, gets at 1 in E.
  destruct (om_find (records (book c)) k) as [r|] eqn:F; [|now injection E as _ <-]. intros <-. unfold next_state. fold (at_end now r).
  destruct (recall_due now r) eqn:D.
  { assert (keeps aside count_revocation) as K by (unfold count_revocation; frame).
    eapply transition_then in E; [|exact K]. destruct E as [r' M]. exists r'. split; [exact M|]. intros S.
    unfold recall_due in D. rewrite <- S in D. discriminate. }
  destruct (beq (rr_state r) kCommitted && commits_as_active now (interval (terms r))) eqn:O.
  - apply bind_inv in E as (r1 & c1 & S & E). apply bind_inv in S as ([r2 a] & c2 & S & S2). injection S2 as <- <-.
    apply transition_moves in S as M. apply andb_true_iff in O as [O _]. apply beq_true in O.
    apply expire_moves in E; [|destruct M as [_ _ _ _ [H _] _ _]; exact H].
    destruct E as (r' & M' & Same). exists r'.
    assert (at_end now r2 = at_end now r) as G.
    { unfold at_end, consumes. destruct M as [_ -> [_ ->] -> _ _ _]. rewrite O. reflexivity. }
    rewrite G, (mt_state _ _ _ _ _ M) in M'. rewrite O. cbn [beq] in *.
    pose proof (moves_twice _ _ _ _ _ _ _ _ M M') as M2. split; [destruct (at_end now r); exact M2|].
    destruct (at_end now r); discriminate.
  - apply bind_inv in E as (r1 & c1 & S & E). injection S as <- <-. apply expire_moves in E; [|exact F].
    destruct E as (r' & M & Same). exists r'. split; [exact M|].
    intros S. apply Same. destruct (at_end now r) eqn:G; [|reflexivity].
    unfold at_end, consumes in G. destruct (rr_state r); discriminate.
Qed.

(** ** The step of time is complete: nothing is due after it *)
Lemma terminal_idle now r :
  is_terminal (rr_state r) = true -> due now r = false /\ next_state now r = rr_state r.
Proof.
  intros T. unfold due, next_state, recall_due, awaits_opening, awaits_end, awaits_recall, consumes.
  destruct (rr_state r); (discriminate T || now split).
Qed.

Lemma consuming_end r :
  empty (consuming_interval r) = false -> ns (end_ (consuming_interval r)) <= ns (end_ (interval (terms r))).
Proof.
  unfold consuming_interval, empty, ts_lt. cbv zeta. repeat case_if; cbn [start end_ ns]; intros E; bool_prop; lia.
Qed.

Lemma reached_end now r : at_end now r = false -> reached now (awaits_end r) = false.
Proof.
  unfold at_end, awaits_end, reached. destruct (consumes r); [|reflexivity]. cbn [andb].
  destruct (empty _); [discriminate | auto].
Qed.

Lemma reached_recall now r : recall_due now r = false -> reached now (awaits_recall r) = false.
Proof.
  unfold recall_due, awaits_recall, reached. destruct (consumes r), (beq _ _), (_ >? _); cbn [andb]; auto.
Qed.

Lemma reached_opening now r :
  at_end now r = false -> beq (rr_state r) kCommitted && commits_as_active now (interval (terms r)) = false ->
  reached now (awaits_opening r) = false.
Proof.
  unfold at_end, awaits_opening, reached, commits_as_active. destruct (consumes r); [|reflexivity]. cbn [andb].
  destruct (beq _ _); [|reflexivity]. cbn [andb]. intros E O. apply orb_false_iff in E as [E L]. apply consuming_end in E.
  destruct (ts_lt now (start _)); [reflexivity|]. cbn [negb andb] in *. unfold ts_lt in *. bool_prop. lia.
Qed.

Lemma stepped_idle now r r' c c' :
  moves_to r (next_state now r) r' c c' -> (next_state now r = rr_state r -> r' = r) ->
  due now r' = false /\ next_state now r' = rr_state r'.
Proof.
  intros M Same. destruct (is_terminal (rr_state r')) eqn:T; [now apply terminal_idle|].
  pose proof (mt_state _ _ _ _ _ M) as S. unfold next_state in S, Same. fold (at_end now r) in S, Same.
  destruct (recall_due now r) eqn:D; [rewrite S in T; discriminate|].
  destruct (at_end now r) eqn:G; [rewrite S in T; destruct (beq _ _); discriminate|].
  destruct (beq (rr_state r) kCommitted && commits_as_active now (interval (terms r))) eqn:O.
  - apply andb_true_iff in O as [O _]. apply beq_true in O.
    assert (at_end now r' = false) as G'.
    { revert G. unfold at_end, consumes. destruct M as [_ _ [_ ->] -> _ _ _]. now rewrite O, S. }
    assert (recall_due now r' = false) as D' by (unfold recall_due; now rewrite S).
    unfold due, next_state. fold (at_end now r'). rewrite D', G', reached_end, reached_recall by assumption.
    rewrite reached_opening by (auto; now rewrite S). rewrite S. now split.
  - rewrite (Same eq_refl). unfold due, next_state. fold (at_end now r). rewrite D, G, O.
    rewrite reached_end, reached_recall, reached_opening by assumption. now split.
Qed.

(** A record and what time made of it. *)
Record advanced (now : Timestamp) (r r' : ReservationRecord) : Prop := {
  ad_state : rr_state r' = next_state now r;
  ad_terms : terms r' = terms r /\ consuming_interval r' = consuming_interval r;
  ad_idle : due now r' = false }.

(** The walk over the due keys: a key visited has taken its step, the others
    are as they were. *)
Lemma walk_advances now x l : forall c u c',
  for_each l (settle_record now x) c = (Ok u, c') -> queues_exact (book c) ->
  queues_exact (book c') /\ sessions c' = sessions c /\
  (forall k, om_find (records (book c)) k = None -> om_find (records (book c')) k = None) /\
  forall k r, om_find (records (book c)) k = Some r -> exists r', om_find (records (book c')) k = Some r' /\
    (next_state now r = rr_state r -> r' = r) /\ (In k l -> advanced now r r') /\ (~ In k l -> r' = r).
Proof.
  induction l as [|a l IH]; intros c u c' E X; cbn [for_each] in E.
  { injection E as _ <-. split; [exact X|]. split; [reflexivity|]. split; [auto|]. intros k r F. exists r. cbn [In]. tauto. }
  apply bind_inv in E as (u1 & c1 & S & E). apply settle_moves in S.
  destruct (om_find (records (book c)) a) as [ra|] eqn:Fa.
  - destruct (S (qx_keyed _ X _ _ Fa)) as (r1 & M & Same). destruct (stepped_idle _ _ _ _ _ M Same) as [Idle Still].
    destruct (IH _ _ _ E (mt_exact _ _ _ _ _ M X)) as (X' & Se & N & A). split; [exact X'|].
    split; [rewrite Se; apply M|]. pose proof (mt_key _ _ _ _ _ M) as Key. rewrite (qx_keyed _ X _ _ Fa) in Key.
    destruct (mt_records _ _ _ _ _ M) as [H O]. rewrite Key in H, O. split.
    + intros k Fk. apply N. rewrite O; [exact Fk | congruence].
    + intros k r F. destruct (decide (k = a)) as [->|Ne].
      * assert (ra = r) as -> by congruence. destruct (A a r1 H) as (r' & F' & S' & _ & _). rewrite (S' Still) in F'.
        exists r1. split; [exact F'|]. split; [exact Same|]. split; [intros _ | now intros []; left].
        split; [apply M | apply M | exact Idle].
      * destruct (A k r) as (r' & F' & S' & I & O'); [now rewrite O|]. exists r'. split; [exact F'|]. split; [exact S'|].
        split; [intros [<-|J]; [contradiction | auto] | intros J; apply O'; intros J'; apply J; now right].
  - subst c1. destruct (IH _ _ _ E X) as (X' & Se & N & A). split; [exact X'|]. split; [exact Se|]. split; [exact N|].
    intros k r F. destruct (A k r F) as (r' & F' & S' & I & O'). exists r'. split; [exact F'|]. split; [exact S'|].
    split; [intros [<-|J]; [congruence | auto] | intros J; apply O'; intros J'; apply J; now right].
Qed.

(** ** The queues name what is due *)
Lemma due_keys_In now (q : Queue) k :
  mm_sorted q -> (In k (due_keys now q) <-> exists t, In (t, k) q /\ ts_lt now t = false).
Proof.
  induction q as [|[t0 k0] q IH]; intros S; cbn [due_keys]; [firstorder|].
  apply StronglySorted_inv in S as [S F]. rewrite List.Forall_forall in F. specialize (IH S).
  destruct (ts_lt now t0) eqn:L.
  - split; [contradiction|]. intros (t & [[= <- <-]|I] & Le); [congruence|]. specialize (F _ I).
    rewrite kleb_negb, negb_true_iff in F. cbn [fst] in F. unfold ts_lt in *. apply not_true_iff_false in F.
    rewrite kltb_Lt in F. change (kcmp t t0) with (Z.compare (ns t) (ns t0)) in F. rewrite Z.compare_lt_iff in F. lia.
  - cbn [In]. rewrite IH. split.
    + intros [<-|(t & I & Le)]; eauto.
    + intros (t & [[= <- <-]|I] & Le); eauto.
Qed.

Lemma queue_due awaits now (rs : Records) q k :
  queue_exact awaits rs q ->
  (In k (due_keys now q) <-> exists r, om_find rs k = Some r /\ reached now (awaits r) = true).
Proof.
  intros [S A]. rewrite due_keys_In by exact S. split.
  - intros (t & I & L). apply A in I as (r & F & W). exists r. split; [exact F|]. rewrite W. cbn [reached]. now rewrite L.
  - intros (r & F & R). destruct (awaits r) as [t|] eqn:W; [|discriminate]. exists t. split; [apply A; eauto|].
    now apply negb_true_iff in R.
Qed.

Lemma due_work_In now b k :
  queues_exact b -> (In k (due_work now b) <-> exists r, om_find (records b) k = Some r /\ due now r = true).
Proof.
  intros [_ A E R]. unfold due_work. rewrite unique_by_In by (intros; now apply keqb_eq). unfold sort_keys. rewrite sort_In, !in_app_iff.
  rewrite (queue_due _ now _ _ k A), (queue_due _ now _ _ k E), (queue_due _ now _ _ k R). unfold due. split.
  - intros [(r & F & D)|[(r & F & D)|(r & F & D)]]; exists r; (split; [exact F|]); rewrite D, ?orb_true_r; reflexivity.
  - intros (r & F & D). rewrite !orb_true_iff in D. destruct D as [[D|D]|D]; eauto 6.
Qed.

(** ** Holds past their deadline *)
Lemma release_releases id why f c u c' :
  release_hold_locked id why f c = (Ok u, c') ->
  book c' = book c /\ (exists h, om_find (holds (sessions c')) id = Some h /\ released h = true) /\
  forall k, k <> id -> om_find (holds (sessions c')) k = om_find (holds (sessions c)) k.
Proof.
  unfold release_hold_locked, now_locked, erase_holder. unfold bind at 1, gets at 1.
  destruct (om_find (holds (sessions c)) id) as [h|] eqn:F; [|discriminate].
  destruct (released h) eqn:Re; [intros E; injection E as _ <-; eauto|].
  unfold bind at 1. destruct (clock_read _) as [now k]. intros E.
  apply bind_inv in E as (u1 & c1 & S1 & E). injection S1 as _ <-. unfold bind at 1, gets at 1 in E.
  apply bind_inv in E as (u2 & c2 & S2 & E).
  match type of S2 with ?m _ = _ => assert (keeps aside m) as K by (unfold when; case_if; intros c0; now split) end.
  apply (keeps_step _ _ _ _ _ K) in S2 as [B2 Se2]. apply bind_inv in E as (u3 & c3 & S3 & E).
  match type of S3 with ?m _ = _ => assert (keeps aside m) as K3 by (unfold when; case_if; intros c0; now split) end.
  apply (keeps_step _ _ _ _ _ K3) in S3 as [B3 Se3]. injection E as _ <-.
  cbn [book set_sessions sessions holds set_released_holds]. rewrite B3, B2, Se3, Se2. split; [reflexivity|].
  cbn [sessions set_sessions holds set_holds set_env]. split.
  - eexists. split; [apply om_find_set_eq | reflexivity].
  - intros k' N. apply om_find_set_ne. congruence.
Qed.

Lemma releases_all why f l : forall c u c',
  for_each l (fun id => release_hold_locked id why f) c = (Ok u, c') ->
  book c' = book c /\ forall id h', om_find (holds (sessions c')) id = Some h' ->
    released h' = true \/ (~ In id l /\ om_find (holds (sessions c)) id = Some h').
Proof.
  induction l as [|a l IH]; intros c u c' E; cbn [for_each] in E; [injection E as _ <-; cbn; auto|].
  apply bind_inv in E as (u1 & c1 & S & E). apply release_releases in S as (B & (h & F & Re) & O).
  destruct (IH _ _ _ E) as [B' A]. split; [congruence|]. intros id h' F'. destruct (A id h' F') as [?|[N G]]; [now left|].
  destruct (decide (id = a)) as [->|Ne]; [left; congruence|]. right. rewrite <- O by exact Ne.
  split; [intros [<-|I]; contradiction | exact G].
Qed.

(** What reconciliation at [now] does to a state. *)
Record reconciled (now : Timestamp) (c c' : Coordinator) : Prop := {
  rc_queues : queues_exact (book c');
  rc_records : forall k r, om_find (records (book c)) k = Some r ->
    exists r', om_find (records (book c')) k = Some r' /\
      (due now r = true -> rr_state r' = next_state now r /\ terms r' = terms r) /\
      (due now r = false -> r' = r);
  rc_idle : forall k r', om_find (records (book c')) k = Some r' ->
    due now r' = false /\ om_mem (records (book c)) k = true;
  rc_holds : forall id h, om_find (holds (sessions c')) id = Some h ->
    released h = true \/ ts_lt now (expires_at h) = true }.

(** C9. Time reconciliation does what is due and nothing else.  In a state whose
    three queues stand for the records (as they do after recovery), a
    [reconcile_locked] that succeeds takes every record that is due (its opening,
    the end of its consuming interval or its recall is reached) to the state time
    takes it to, with the same terms, and leaves every other record as it is; no
    record appears or disappears; then nothing is due at that instant any more,
    the queues stand for the records again, and every hold whose deadline is
    reached is released. *)
Theorem reconcile_does_what_is_due now c u c' :
  queues_exact (book c) -> reconcile_locked now c = (Ok u, c') -> reconciled now c c'.
Proof.
  intros X E. unfold reconcile_locked in E. unfold bind at 1, gets at 1 in E. unfold bind at 1, gets at 1 in E.
  apply bind_inv in E as (u1 & c1 & S & E). unfold bind at 1, gets at 1 in E.
  destruct (walk_advances _ _ _ _ _ _ S X) as (X1 & Se1 & N & A). apply releases_all in E as [B H].
  pose proof (due_work_In now (book c)) as W. split; try rewrite B; [exact X1 | ..].
  - intros k r F. destruct (A k r F) as (r' & F' & _ & I & O). exists r'. split; [exact F'|]. split; intros D.
    + destruct I as [St [Te _] _]; [apply W; eauto | now split].
    + apply O. intros I'. apply W in I' as (r0 & F0 & D0); [|exact X]. congruence.
  - intros k r' F'. destruct (om_find (records (book c)) k) as [r|] eqn:F; [|rewrite (N k F) in F'; discriminate].
    split; [|unfold om_mem; now rewrite F]. destruct (A k r F) as (r'' & F'' & _ & I & O). assert (r'' = r') as <- by congruence.
    destruct (due now r) eqn:D; [apply I, W; eauto|]. rewrite O; [exact D|].
    intros I'. apply W in I' as (r0 & F0 & D0); [|exact X]. congruence.
  - intros id h F. destruct (H id h F) as [R|[Ni G]]; [now left|]. destruct (released h) eqn:R; [now left | right].
    apply not_false_iff_true. intros L. apply Ni. unfold expired_holds, om_keys. rewrite in_map_iff. exists (id, h).
    split; [reflexivity|]. apply filter_In. split; [now apply om_find_In|]. cbn [snd]. now rewrite R, L.
Qed.

(** ** Recovery builds the queues *)

(** Records in key order, each under its own key. *)
Definition tidy (b : Book) : Prop :=
  om_sorted (records b) /\ forall k r, om_find (records b) k = Some r -> key_of r = k.
Definition tidies (c c' : Coordinator) : Prop := tidy (book c) -> tidy (book c').

#[export] Instance tidies_PreOrder : PreOrder tidies.
Proof. split; [intros c T; exact T | intros c c' c'' A B T; auto]. Qed.

Lemma tidy_same b b' : records b' = records b -> tidy b -> tidy b'.
Proof. unfold tidy. now intros ->. Qed.

Lemma tidy_put r b : tidy b -> tidy (put_record r b).
Proof.
  intros [S K]. split; [now apply om_set_sorted|]. intros k r'. cbn [put_record records set_records]. rewrite om_find_set.
  destruct (keqb (key_of r) k) eqn:E; [apply keqb_eq in E; congruence | auto].
Qed.

Lemma tidy_register r b : tidy b -> tidy (register_record r b).
Proof.
  intros T. eapply tidy_same; [|exact (tidy_put r b T)]. unfold register_record, count_in. cbv zeta.
  repeat (case_match_goal; try reflexivity).
Qed.

Lemma tidy_retire archive k b : tidy b -> tidy (retire_key archive b k).
Proof.
  intros [S K]. unfold retire_key. destruct (om_find (records b) k); [|now split]. split; [now apply om_erase_sorted|].
  intros k' r'. cbn [records set_counts set_records set_retired]. rewrite om_find_erase. case_if; [discriminate | auto].
Qed.

Lemma tidy_fold {A} (f : Book -> A -> Book) :
  (forall b a, tidy b -> tidy (f b a)) -> forall l b, tidy b -> tidy (fold_left f l b).
Proof. intros F. induction l as [|a l IH]; intros b T; cbn [fold_left]; auto. Qed.

Lemma tidy_enter b r : tidy b -> tidy (enter_record b r).
Proof.
  intros T. eapply tidy_same; [|apply (tidy_register r b T)]. unfold enter_record, sync_queues. case_if; reflexivity.
Qed.

Lemma tidy_series s b : tidy b -> tidy (apply_series s b).
Proof. apply tidy_same. unfold apply_series. repeat (case_match_goal; try reflexivity). Qed.

Create HintDb tidy discriminated.
#[local] Hint Resolve tidy_put tidy_register tidy_retire tidy_enter tidy_series : tidy.

Lemma tidy_step b b' : book_step b b' -> tidy b -> tidy b'.
Proof.
  intros [r b0|r from to b0|b0 b0' M|archive ks b0].
  - apply tidy_put.
  - intros T. apply tidy_put. revert T. apply tidy_same. unfold recount. repeat case_if; reflexivity.
  - apply tidy_same. apply M.
  - apply tidy_fold. auto with tidy.
Qed.

Lemma keeps_tidies_book f : (forall b, tidy b -> tidy (f b)) -> keeps tidies (modify (set_book f)).
Proof. intros F c T. now apply F. Qed.

#[export] Instance Calm_tidies : Calm tidies.
Proof.
  apply Calm_intro; [exact _ | ..]; intros; intros T; try exact T.
  - eapply tidy_step; eassumption.
  - match goal with M : store_moves _ _ |- _ => destruct M as [(_ & -> & _) _ _] end. exact T.
Qed.

#[export] Instance Framed_tidies : Framed tidies.
Proof. apply Framed_intro; [exact _ | intros f c T; exact T | intros r c T; now apply tidy_register | intros a c T; exact T]. Qed.
#[local] Hint Resolve Calm_tidies Framed_tidies : frame.

Lemma tidy_reservation edge rs series b :
  tidy b ->
  tidy (let b := match edge with Some e => set_edges (edges b ++ [e]) b | None => b end in
        let b := fold_left enter_record rs b in
        match series with Some s => apply_series s b | None => b end).
Proof.
  intros T. assert (tidy (fold_left enter_record rs (match edge with Some e => set_edges (edges b ++ [e]) b | None => b end))) as F.
  { apply tidy_fold; [auto with tidy|]. destruct edge; exact T. }
  destruct series; [now apply tidy_series | exact F].
Qed.

Lemma keeps_tidies_replay r : keeps tidies (apply_replay_locked r).
Proof.
  assert (forall f, keeps tidies (on_ledger f)) as L by (intros f c; unfold on_ledger; destruct (f _); intros T; exact T).
  assert (forall a, keeps tidies (replay_attempt a)) as A by (intros [a|]; unfold replay_attempt; frame).
  destruct r; cbn [apply_replay_locked];
    unfold replay_capacity, replay_paths, replay_policy, replay_reservation, replay_state, replay_applicability;
    frame; auto; try (intros c; cbn; case_match_goal; intros T; exact T);
    try (apply keeps_tidies_book; intros b; apply tidy_reservation).
  apply (keeps_sessions tidies). intros s. unfold apply_claimant. repeat case_match_goal; constructor.
Qed.

Lemma tidy_snapshot state b : tidy b -> tidy (apply_snapshot_book state b).
Proof.
  intros T. unfold apply_snapshot_book. apply tidy_fold.
  { intros b0 r T0. apply tidy_register. exact T0. }
  assert (tidy (fold_left (fun b s => apply_series s b) (ss_series state) (fold_left enter_record (ss_reservations state) b))) as T1.
  { apply tidy_fold; [auto with tidy|]. apply tidy_fold; auto with tidy. }
  exact T1.
Qed.

Lemma replaces_snoc r k (done : Records) :
  key_of r = k -> (forall r0, ~ In (k, r0) done) -> replaces r done (done ++ [(k, r)]).
Proof.
  intros <- N. induction done as [|[k0 r0] done IH].
  - split; [cbn; now rewrite keqb_refl|]. intros k' Ne. cbn. destruct (keqb (key_of r) k') eqn:E; [|reflexivity].
    apply keqb_eq in E. congruence.
  - destruct IH as [H O]; [intros r1 I; apply (N r1); now right|]. split; cbn [app om_find].
    + destruct (keqb k0 (key_of r)) eqn:E; [|exact H]. apply keqb_eq in E. subst k0. exfalso. apply (N r0). now left.
    + intros k' Ne. case_if; [reflexivity | now apply O].
Qed.

Lemma aside_rebuild : keeps aside rebuild_index_locked.
Proof.
  pose proof aside_sync_index. unfold rebuild_index_locked.
  assert (forall f, keeps aside (modify (set_index f))) by (intros f c; now split). frame.
Qed.

(** The rebuild: record after record, the queues stand for those entered. *)
Lemma rebuild_exact b : tidy b -> queues_exact (rebuild_queues b).
Proof.
  intros [S K]. assert (NoDup (map fst (records b))) as N by now apply om_sorted_NoDup.
  assert (forall k r, In (k, r) (records b) -> key_of r = k) as K' by (intros k r I; apply K; now apply om_In_find).
  assert (forall rest done b0, records b = done ++ rest -> records b0 = records b ->
    queue_exact awaits_opening done (activation_queue b0) -> queue_exact awaits_end done (expiry_queue b0) ->
    queue_exact awaits_recall done (recall_queue b0) ->
    queues_exact (fold_left (fun b p => sync_queues p.2 b) rest b0)) as Go.
  { induction rest as [|[k r] rest IH]; intros done b0 E R A Ex Re; cbn [fold_left].
    - rewrite app_nil_r in E. subst done. split; rewrite ?R; auto.
    - assert (key_of r = k) as Kr by (apply K'; rewrite E, in_app_iff; right; now left).
      assert (replaces r done (done ++ [(k, r)])) as P.
      { rewrite E, map_app in N. cbn [map fst] in N. apply NoDup_app in N as (_ & N & _).
        apply replaces_snoc; [exact Kr|]. intros r0 I. apply (N k); [|now left].
        apply list_elem_of_In, in_map_iff. now exists (k, r0). }
      pose proof (queues_sync r b0) as Q. unfold queues in Q. injection Q as Qa Qe Qr. cbn [snd].
      apply (IH (done ++ [(k, r)])); [now rewrite <- app_assoc | | rewrite Qa | rewrite Qe | rewrite Qr];
        [unfold sync_queues; case_if; exact R | eapply queue_exact_requeue; eassumption..]. }
  apply (Go (records b) []); [reflexivity..| | |]; (split; [constructor|]; intros t k; split; [contradiction | now intros (r & F & _)]).
Qed.

Lemma recovered_exact st c c' : recover st c = Ok c' -> tidy (book c) -> queues_exact (book c').
Proof.
  unfold recover. intros E T. apply rbind_Ok in E as (c1 & L & E).
  assert (tidy (book c1)) as T1.
  { unfold load_state in L. destruct (snapshot_payload_ st); [now injection L as <-|].
    destruct (decode_SnapshotState _) as [[state rest]|]; [|discriminate]. destruct (r_exhausted rest); [|discriminate].
    injection L as <-. now apply tidy_snapshot. }
  assert (keeps tidies (for_each (records_ st) replay_record)) as K.
  { apply keeps_for_each; [exact _|]. intros r. unfold replay_record.
    destruct (decode_record _ _); [apply keeps_tidies_replay | apply keeps_fail; exact _]. }
  specialize (K c1 T1). destruct (for_each _ _ c1) as [[u|e] c2]; [|discriminate]. cbn [snd] in K.
  pose proof (aside_rebuild (set_book rebuild_queues c2)) as [B _].
  destruct (rebuild_index_locked _) as [[u'|e] c3]; [|discriminate]. injection E as <-. cbn [snd] in B. rewrite B.
  now apply rebuild_exact.
Qed.

(** The directory of the sample fabric opened again: the store and what recovery
    makes of it. *)
Definition reopened : Store * Disk :=
  let default_ r := match r with (Ok st, d) => (st, d) | (Err _, d) => (store (env Sample.opened), d) end in
  default_ (open (disk (env Sample.committed)) default_options open_io_ok (str "store")).
Definition blank_again : Coordinator :=
  blank_coordinator (Sample.config_of 1000 1000 1000) (mkClock (Sample.second 2500) []) reopened.1 reopened.2 io_ok
    (Sample.id_of 2).
Definition recovered : Coordinator :=
  let default_ r := match r with Ok c => c | Err _ => blank_again end in
  default_ (recover reopened.1 blank_again).

Lemma recover_recovered : recover reopened.1 blank_again = Ok recovered.
Proof.
  unfold recovered. cbv zeta beta. assert ((match recover reopened.1 blank_again with Ok _ => true | Err _ => false end) = true) as E
    by (vm_compute; reflexivity).
  destruct (recover reopened.1 blank_again); [reflexivity | discriminate].
Qed.

Lemma ran {A} (m : co A) c a : (m c).1 = Ok a -> m c = (Ok a, (m c).2).
Proof. destruct (m c). cbn. now intros ->. Qed.

(** The reservation for the seconds 2000 to 3000 is found COMMITTED at second
    2500 and becomes ACTIVE. *)
Lemma reconcile_does_what_is_due_witness :
  let now := Sample.second 2500 in
  let c' := (reconcile_locked now recovered).2 in
  map (fun p => (due now p.2, rr_state p.2)) (records (book recovered)) = [(true, kCommitted)] /\
  map (fun p => rr_state p.2) (records (book c')) = [kActive] /\
  reconciled now recovered c'.
Proof.
  cbv zeta. split; [vm_compute; reflexivity|]. split; [vm_compute; reflexivity|].
  apply (reconcile_does_what_is_due (Sample.second 2500) recovered tt).
  - apply (recovered_exact _ _ _ recover_recovered). split; [constructor | discriminate].
  - apply ran. vm_compute. reflexivity.
Defined.
