(* ===== verification/CoordMirror.v ===== *)
(** * Coordinator: states that mirror each other, and replay

    When two states hold the same durable facts, up to the details a replay does
    not reproduce; every change of the books, sessions and tables respects that,
    and so does the replay of every durable record. *)
From stdpp Require Import relations.
From S2P Require Import Prelude Errors Containers Identity Hash Bandwidth Time Authority Wire Policy Capacity Reservation Outcome SegTree Index Durable CodecBase Codec Store Coordinator CoordRecords CoordPersist CoordAssess CoordLifecycle CoordCommit CoordOps CoordSteps CoordSound CoordCapacity.

(** ** Maps with the same keys and alike values *)
Section alike.
Context {K V W : Type} `{OrdKey K} (f : V -> W).

Definition alike (m m' : omap K V) : Prop :=
  forall k, option_map f (om_find m k) = option_map f (om_find m' k).

#[export] Instance alike_Equivalence : Equivalence alike.
Proof. split; [intros m k; reflexivity | intros m m' A k; now rewrite A | intros m m' m'' A B k; now rewrite A]. Qed.

Lemma alike_set m m' k v v' : alike m m' -> f v = f v' -> alike (om_set m k v) (om_set m' k v').
Proof. intros A E k'. rewrite !om_find_set. case_if; [cbn; now rewrite E | apply A]. Qed.

Lemma alike_erase m m' k : alike m m' -> alike (om_erase m k) (om_erase m' k).
Proof. intros A k'. rewrite !om_find_erase. case_if; [reflexivity | apply A]. Qed.

Lemma alike_mem m m' k : alike m m' -> om_mem m' k = om_mem m k.
Proof. intros A. specialize (A k). unfold om_mem. now destruct (om_find m k), (om_find m' k). Qed.

Lemma alike_find m m' k v :
  alike m m' -> om_find m k = Some v -> exists v', om_find m' k = Some v' /\ f v' = f v.
Proof. intros A F. specialize (A k). rewrite F in A. destruct (om_find m' k) as [v'|]; [|discriminate]. injection A as A. eauto. Qed.

Lemma alike_none m m' k : alike m m' -> om_find m k = None -> om_find m' k = None.
Proof. intros A F. specialize (A k). rewrite F in A. now destruct (om_find m' k). Qed.

(** Two settings of different keys commute. *)
Lemma alike_swap m k k' v v' :
  k <> k' -> alike (om_set (om_set m k v) k' v') (om_set (om_set m k' v') k v).
Proof.
  intros N k0. rewrite !om_find_set. destruct (keqb k' k0) eqn:E, (keqb k k0) eqn:E'; try reflexivity.
  apply keqb_eq in E, E'. congruence.
Qed.
End alike.

(** ** What a replay reproduces of a record

    The reason, the last provenance and the sequence of a record are journalled
    for its creation only, the grace of a recall is not journalled, and the
    instant a superseded generation ended is not always that of its successor's
    journal record. *)
Definition essence (r : ReservationRecord) : ReservationRecord :=
  let superseded := beq (rr_state r) kSuperseded in
  mkReservationRecord (rr_id r) (rr_generation r) (series_member r) (rr_series r) (series_index r)
    (terms r) (authority r) (rr_state r) (rr_applicability r) (rr_applicability_reason r) (declared_at r)
    (committed_at r) (activated_at r) (if superseded then ts0 else rr_state_changed_at r)
    (rr_recall_effective_at r) (mkDur 0)
    (if superseded || negb (is_terminal (rr_state r)) then ts0 else terminated_at r) (rr_predecessor r)
    (rr_predecessor_generation r) [] default_provenance (mkCounter 0).

Definition same_essence (r r' : ReservationRecord) : Prop := essence r = essence r'.

#[export] Instance same_essence_Equivalence : Equivalence same_essence.
Proof. split; unfold same_essence; [intros r; reflexivity | intros r r'; congruence | intros r r' r''; congruence]. Qed.

(** The members a record shares with its alikes. *)
Lemma essence_members r r' :
  essence r = essence r' ->
  key_of r = key_of r' /\ rr_state r = rr_state r' /\ terms r = terms r' /\ authority r = authority r' /\
  rr_applicability r = rr_applicability r' /\ rr_recall_effective_at r = rr_recall_effective_at r'.
Proof.
  intros E. split; [exact (f_equal key_of E) | split; [exact (f_equal rr_state E)|]].
  split; [exact (f_equal terms E) | split; [exact (f_equal authority E)|]].
  split; [exact (f_equal rr_applicability E) | exact (f_equal rr_recall_effective_at E)].
Qed.

(** A change that reads of a record no more than its essence respects it. *)
Lemma respects_essence (f : ReservationRecord -> ReservationRecord) :
  (forall r, essence (f r) = essence (f (essence r))) -> forall r r', essence r = essence r' -> essence (f r) = essence (f r').
Proof. intros F r r' E. now rewrite F, E, <- F. Qed.

Lemma essence_state r r' st at_ why why' p p' :
  essence r = essence r' -> essence (with_state r st at_ why p) = essence (with_state r' st at_ why' p').
Proof.
  intros E. etransitivity; [|apply (respects_essence (fun r => with_state r st at_ why' p')); [|exact E]];
    [reflexivity | intros r0; destruct st; reflexivity].
Qed.

(** Of a superseded record only that it is superseded. *)
Lemma essence_superseded r r' at_ at' why why' p p' :
  essence r = essence r' -> essence (with_state r kSuperseded at_ why p) = essence (with_state r' kSuperseded at' why' p').
Proof.
  intros E. etransitivity; [|apply (respects_essence (fun r => with_state r kSuperseded at' why' p')); [|exact E]]; reflexivity.
Qed.

Lemma essence_superseded_again r at_ at' why why' p p' :
  essence (with_state (with_state r kSuperseded at_ why p) kSuperseded at' why' p') = essence (with_state r kSuperseded at_ why p).
Proof. reflexivity. Qed.

Lemma essence_recall r r' t : essence r = essence r' -> essence (with_recall r t) = essence (with_recall r' t).
Proof. apply (respects_essence (fun r => with_recall r t)). intros r0. unfold essence. cbn. now destruct (rr_state r0). Qed.

Lemma essence_applicability r r' a why t :
  essence r = essence r' -> essence (with_applicability r a why t) = essence (with_applicability r' a why t).
Proof.
  apply (respects_essence (fun r => with_applicability r a why t)). intros r0. unfold essence. cbn. now destruct (rr_state r0).
Qed.

Lemma essence_sequence r s : essence (with_sequence r s) = essence r.
Proof. reflexivity. Qed.
Lemma essence_grace r g : essence (with_grace r g) = essence r.
Proof. reflexivity. Qed.

(** ** Books *)
Definition lineage (b : Book) := (generations b, current b, edges b, series_records b).
(** What a retired record is remembered for. *)
Definition filed_as (r : ReservationRecord) := (key_of r, terms r, authority r).

Record book_mirrors (a b : Book) : Prop := {
  bm_records : alike essence (records a) (records b);
  bm_retired : alike filed_as (retired a) (retired b);
  bm_lineage : lineage a = lineage b }.

#[export] Instance book_mirrors_Equivalence : Equivalence book_mirrors.
Proof.
  split.
  - intros b. now split.
  - intros a b [R A L]. split; now symmetry.
  - intros a b d [R A L] [R' A' L']. split; etransitivity; eassumption.
Qed.

Lemma lineage_fields a b :
  lineage a = lineage b ->
  generations a = generations b /\ current a = current b /\ edges a = edges b /\ series_records a = series_records b.
Proof. unfold lineage. intros [= -> -> -> ->]. auto. Qed.

(** Changes that the relation does not see. *)
Lemma book_mirrors_same a b : records b = records a -> retired b = retired a -> lineage b = lineage a -> book_mirrors a b.
Proof. intros R A L. split; [now rewrite R | now rewrite A | now rewrite L]. Qed.

Lemma sync_queues_mirrors r b : book_mirrors b (sync_queues r b).
Proof. unfold sync_queues. case_if; now apply book_mirrors_same. Qed.
Lemma recount_mirrors from to b : book_mirrors b (recount from to b).
Proof. unfold recount. repeat case_if; now apply book_mirrors_same. Qed.
Lemma counts_mirrors l h b : book_mirrors b (set_counts l h b).
Proof. now apply book_mirrors_same. Qed.
Lemma current_series_mirrors m b : book_mirrors b (set_current_series m b).
Proof. now apply book_mirrors_same. Qed.

(** Changes that respect it. *)
Lemma put_mirrors r r' a b : essence r = essence r' -> book_mirrors a b -> book_mirrors (put_record r a) (put_record r' b).
Proof.
  intros E [R A L]. destruct (essence_members _ _ E) as [K _]. split; [|exact A | exact L].
  unfold put_record. rewrite K. now apply alike_set.
Qed.

Lemma edges_mirrors l a b : book_mirrors a b -> book_mirrors (set_edges (edges a ++ l) a) (set_edges (edges b ++ l) b).
Proof.
  intros [R A L]. split; [exact R | exact A|]. apply lineage_fields in L as (G & C & E & S).
  unfold lineage. cbn. now rewrite G, C, E, S.
Qed.

Lemma series_mirrors k s a b :
  book_mirrors a b -> book_mirrors (set_series (om_set (series_records a) k s) a) (set_series (om_set (series_records b) k s) b).
Proof.
  intros [R A L]. split; [exact R | exact A|]. apply lineage_fields in L as (G & C & E & S).
  unfold lineage. cbn. now rewrite G, C, E, S.
Qed.

(** What registration makes of the lineage. *)
Definition registered (k : ReservationKey) (l : omap Identity128 (list ReservationGeneration) * omap Identity128 ReservationGeneration) :=
  (om_set l.1 k.1 (add_generation (default [] (om_find l.1 k.1)) k.2),
   match om_find l.2 k.1 with
   | Some known => if value k.2 >? value known then om_set l.2 k.1 k.2 else l.2
   | None => om_set l.2 k.1 k.2
   end).

Lemma register_fields r b :
  let b' := register_record r b in
  records b' = om_set (records b) (key_of r) r /\ retired b' = retired b /\ edges b' = edges b /\
  series_records b' = series_records b /\ (generations b', current b') = registered (key_of r) (generations b, current b).
Proof.
  cbv zeta. unfold register_record, registered, count_in. cbv zeta. cbn [fst snd key_of].
  cbn [current generations records set_generations set_records].
  destruct (om_find (current b) (rr_id r)) as [g|]; repeat case_if; auto.
Qed.

Lemma register_mirrors r r' a b :
  essence r = essence r' -> book_mirrors a b -> book_mirrors (register_record r a) (register_record r' b).
Proof.
  intros E [R A L]. destruct (essence_members _ _ E) as [K _]. apply lineage_fields in L as (G & C & Ed & S).
  pose proof (register_fields r a) as (Ra & Aa & Ea & Sa & Ga). pose proof (register_fields r' b) as (Rb & Ab & Eb & Sb & Gb).
  rewrite <- K, <- G, <- C in Gb. rewrite <- Ga in Gb. injection Gb as Gb Cb. split.
  - rewrite Ra, Rb, K. now apply alike_set.
  - now rewrite Aa, Ab.
  - unfold lineage. congruence.
Qed.

Lemma retire_mirrors (f g : ReservationRecord -> ReservationRecord) k a b :
  (forall r, filed_as (f r) = filed_as r) -> (forall r, filed_as (g r) = filed_as r) ->
  book_mirrors a b -> book_mirrors (retire_key f a k) (retire_key g b k).
Proof.
  intros F G M. pose proof M as [R A L]. unfold retire_key. destruct (om_find (records a) k) as [r|] eqn:Fa.
  - destruct (alike_find essence _ _ _ _ R Fa) as (r' & Fb & E). rewrite Fb. split.
    + cbn. now apply alike_erase.
    + cbn. apply alike_set; [exact A|]. rewrite F, G. apply essence_members in E as (K & _ & T & Au & _). unfold filed_as. congruence.
    + exact L.
  - now rewrite (alike_none essence _ _ _ R Fa).
Qed.

Lemma fold_mirrors {A} (f g : Book -> A -> Book) :
  (forall x a b, book_mirrors a b -> book_mirrors (f a x) (g b x)) ->
  forall l a b, book_mirrors a b -> book_mirrors (fold_left f l a) (fold_left g l b).
Proof. intros F. induction l as [|x l IH]; intros a b M; cbn [fold_left]; auto. Qed.

(** Registering a record and filing one under another identity commute. *)
Lemma put_register_mirrors r x b :
  rr_id x <> rr_id r -> book_mirrors (register_record r (put_record x b)) (put_record x (register_record r b)).
Proof.
  intros N. pose proof (register_fields r (put_record x b)) as (Ra & Aa & Ea & Sa & Ga).
  pose proof (register_fields r b) as (Rb & Ab & Eb & Sb & Gb). split.
  - rewrite Ra. cbn [records put_record set_records]. rewrite Rb. apply alike_swap. unfold key_of. congruence.
  - cbn [retired put_record set_records]. rewrite Aa, Ab. reflexivity.
  - cbn [generations current put_record set_records] in Ga. rewrite <- Gb in Ga. injection Ga as Ga Ca.
    unfold lineage. cbn [generations current edges series_records put_record set_records]. rewrite Ga, Ca, Ea, Sa, Eb, Sb. reflexivity.
Qed.

#[export] Instance put_Proper r : Proper (book_mirrors ==> book_mirrors) (put_record r).
Proof. intros a b. now apply put_mirrors. Qed.
#[export] Instance register_Proper r : Proper (book_mirrors ==> book_mirrors) (register_record r).
Proof. intros a b. now apply register_mirrors. Qed.
#[export] Instance sync_queues_Proper r : Proper (book_mirrors ==> book_mirrors) (sync_queues r).
Proof. intros a b M. now rewrite <- (sync_queues_mirrors r a), <- (sync_queues_mirrors r b). Qed.
#[export] Instance recount_Proper s t : Proper (book_mirrors ==> book_mirrors) (recount s t).
Proof. intros a b M. now rewrite <- (recount_mirrors s t a), <- (recount_mirrors s t b). Qed.

Lemma enter_mirrors r r' a b :
  essence r = essence r' -> book_mirrors a b -> book_mirrors (enter_record a r) (enter_record b r').
Proof.
  intros E M. unfold enter_record. rewrite <- (sync_queues_mirrors r), <- (sync_queues_mirrors r'). now apply register_mirrors.
Qed.

Lemma apply_series_sets s b : book_mirrors (set_series (om_set (series_records b) (rs_id s, rs_generation s) s) b) (apply_series s b).
Proof. unfold apply_series. cbv zeta. repeat case_match_goal; first [reflexivity | apply current_series_mirrors]. Qed.

Lemma apply_series_mirrors s a b : book_mirrors a b -> book_mirrors (apply_series s a) (apply_series s b).
Proof. intros M. rewrite <- (apply_series_sets s a), <- (apply_series_sets s b). now apply series_mirrors. Qed.

(** ** Sessions *)

(** An attempt up to the sequence of its outcome, which a replay does not fill in. *)
Definition decided (a : AttemptRecord) : AttemptRecord := with_result_sequence a (mkCounter 0).
Definition guards (s : Sessions) := (attempt_order s, claimants s, fenced_boots s, fenced_claimants s, overcommit s).

Record sessions_mirror (a b : Sessions) : Prop := {
  sm_attempts : alike decided (attempts a) (attempts b);
  sm_guards : guards a = guards b }.

#[export] Instance sessions_mirror_Equivalence : Equivalence sessions_mirror.
Proof.
  split; [intros s; now split | intros a b [A G]; split; now symmetry | intros a b d [A G] [A' G']; split; etransitivity; eassumption].
Qed.

Lemma guards_fields a b :
  guards a = guards b ->
  attempt_order a = attempt_order b /\ claimants a = claimants b /\ fenced_boots a = fenced_boots b /\
  fenced_claimants a = fenced_claimants b /\ overcommit a = overcommit b.
Proof. unfold guards. intros [= -> -> -> -> ->]. auto. Qed.

Lemma evict_alike bound order : forall m m', alike decided m m' ->
  alike decided (evict_attempts bound m order).1 (evict_attempts bound m' order).1 /\
  (evict_attempts bound m order).2 = (evict_attempts bound m' order).2.
Proof.
  induction order as [|o order IH]; intros m m' A; cbn [evict_attempts]; [now split|].
  case_if; [apply IH; now apply alike_erase | now split].
Qed.

Lemma remember_mirrors bound x y a b :
  decided x = decided y -> sessions_mirror a b -> sessions_mirror (remember_attempt bound x a) (remember_attempt bound y b).
Proof.
  intros E [A G]. unfold remember_attempt. cbv zeta. apply guards_fields in G as (O & C & B & Fc & Oc).
  pose proof (f_equal at_attempt E) as I. cbn in I. rewrite <- I, <- O, (alike_mem _ _ _ _ A).
  destruct (evict_alike bound (if om_mem (attempts a) (at_attempt x) then attempt_order a else attempt_order a ++ [at_attempt x])
    (om_set (attempts a) (at_attempt x) x) (om_set (attempts b) (at_attempt x) y)) as [A' O']; [now apply alike_set|].
  destruct (evict_attempts bound (om_set (attempts a) _ _) _) as [m o], (evict_attempts bound (om_set (attempts b) _ _) _) as [m' o'].
  split; [exact A'|]. cbn in O'. unfold guards. cbn. congruence.
Qed.

(** A change that keeps the attempts and reads the guards only. *)
Lemma guards_mirror f a b :
  (forall s, attempts (f s) = attempts s) -> (forall s s', guards s = guards s' -> guards (f s) = guards (f s')) ->
  sessions_mirror a b -> sessions_mirror (f a) (f b).
Proof. intros A G [M E]. split; [now rewrite !A | now apply G]. Qed.

Lemma apply_fence_guards x s s' : guards s = guards s' -> guards (apply_fence x s) = guards (apply_fence x s').
Proof.
  intros G. apply guards_fields in G as (O & C & B & Fc & Oc). unfold apply_fence, guards. cbv zeta.
  repeat case_if; cbn; congruence.
Qed.
Lemma apply_claimant_guards x s s' : guards s = guards s' -> guards (apply_claimant x s) = guards (apply_claimant x s').
Proof.
  intros G. apply guards_fields in G as (O & C & B & Fc & Oc). unfold apply_claimant, guards. rewrite C.
  destruct (om_find (claimants s') (cm_claimant x)); [case_if|]; cbn; congruence.
Qed.
Lemma apply_overcommit_guards x s s' : guards s = guards s' -> guards (apply_overcommit x s) = guards (apply_overcommit x s').
Proof.
  intros G. apply guards_fields in G as (O & C & B & Fc & Oc). unfold apply_overcommit, guards. cbn. congruence.
Qed.

Lemma apply_fence_mirrors x a b : sessions_mirror a b -> sessions_mirror (apply_fence x a) (apply_fence x b).
Proof. apply guards_mirror; [intros s; unfold apply_fence; cbv zeta; repeat case_if; reflexivity | apply apply_fence_guards]. Qed.
Lemma apply_claimant_mirrors x a b : sessions_mirror a b -> sessions_mirror (apply_claimant x a) (apply_claimant x b).
Proof.
  apply guards_mirror; [intros s; unfold apply_claimant; repeat (case_match_goal; try reflexivity) | apply apply_claimant_guards].
Qed.
Lemma apply_overcommit_mirrors x a b : sessions_mirror a b -> sessions_mirror (apply_overcommit x a) (apply_overcommit x b).
Proof. apply guards_mirror; [reflexivity | apply apply_overcommit_guards]. Qed.

(** ** Tables *)

(** A policy up to the instant it was ingested, which is journalled but not kept. *)
Definition undated (e : PolicyEntry) : PolicyEntry :=
  mkPolicyEntry (stamp_policy (pe_record e) ts0) (pe_prior_generations e) ts0.

Record tables_mirror (a b : Tables) : Prop := {
  tm_ledger : ledger a = ledger b;
  tm_paths : paths a = paths b;
  tm_policies : alike undated (policies a) (policies b) }.

#[export] Instance tables_mirror_Equivalence : Equivalence tables_mirror.
Proof.
  split; [intros s; now split | intros a b [L P Q]; split; now symmetry |
          intros a b d [L P Q] [L' P' Q']; split; etransitivity; eassumption].
Qed.

Lemma validate_stamped r t : validate_policy (stamp_policy r t) = validate_policy r.
Proof. reflexivity. Qed.
Lemma eqb_stamped r r' t t' : PolicyRecord_eqb (stamp_policy r t) (stamp_policy r' t') = PolicyRecord_eqb r r'.
Proof. reflexivity. Qed.

Lemma policy_apply_mirrors r r' p p' x q :
  stamp_policy r ts0 = stamp_policy r' ts0 -> alike undated p p' -> PolicyRegistry_apply p r = Ok (x, q) ->
  exists q', PolicyRegistry_apply p' r' = Ok (x, q') /\ alike undated q q'.
Proof.
  intros E A. unfold PolicyRegistry_apply.
  rewrite <- (validate_stamped r ts0), <- (validate_stamped r' ts0), E.
  pose proof (f_equal pr_name E) as N. pose proof (f_equal pr_generation E) as G. cbn in N, G. rewrite <- N, <- G.
  destruct (validate_policy (stamp_policy r' ts0)); [|discriminate]. cbn [rbind].
  destruct (om_find p (pr_name r)) as [e|] eqn:F.
  - destruct (alike_find _ _ _ _ _ A F) as (e' & F' & U). rewrite F'.
    pose proof (f_equal pe_record U) as Ur. pose proof (f_equal pe_prior_generations U) as Up. cbn in Ur, Up.
    pose proof (f_equal pr_generation Ur) as Ug. cbn in Ug. rewrite Ug.
    rewrite <- (eqb_stamped r' (pe_record e') ts0 ts0), <- E, Ur, eqb_stamped.
    case_if.
    + destruct (PolicyRecord_eqb r (pe_record e)); [|discriminate]. cbn. intros [= <- <-]. eauto.
    + destruct (_ <? _); [discriminate|]. cbn. intros [= <- <-]. eexists. split; [reflexivity|].
      apply alike_set; [exact A|]. unfold undated. cbn. congruence.
  - rewrite (alike_none _ _ _ _ A F). intros [= <- <-]. eexists. split; [reflexivity|].
    apply alike_set; [exact A|]. unfold undated. cbn. congruence.
Qed.

(** ** Coordinators *)
Record mirrors (a b : Coordinator) : Prop := {
  mi_bound : max_attempts (config (env a)) = max_attempts (config (env b));
  mi_epoch : ci_epoch (incarnation (env a)) = ci_epoch (incarnation (env b));
  mi_tables : tables_mirror (tables a) (tables b);
  mi_book : book_mirrors (book a) (book b);
  mi_sessions : sessions_mirror (sessions a) (sessions b) }.

#[export] Instance mirrors_Equivalence : Equivalence mirrors.
Proof.
  split; [intros s; now split | intros a b [B E T K S]; split; now symmetry |
          intros a b d [B E T K S] [B' E' T' K' S']; split; etransitivity; eassumption].
Qed.

Lemma mirrors_book f g a b : (book_mirrors (book a) (book b) -> book_mirrors (f (book a)) (g (book b))) -> mirrors a b ->
  mirrors (set_book f a) (set_book g b).
Proof. intros F [B E T K S]. split; auto. Qed.
Lemma mirrors_sessions f g a b : (sessions_mirror (sessions a) (sessions b) -> sessions_mirror (f (sessions a)) (g (sessions b))) ->
  mirrors a b -> mirrors (set_sessions f a) (set_sessions g b).
Proof. intros F [B E T K S]. split; auto. Qed.
Lemma mirrors_tables f g a b : (tables_mirror (tables a) (tables b) -> tables_mirror (f (tables a)) (g (tables b))) ->
  mirrors a b -> mirrors (set_tables f a) (set_tables g b).
Proof. intros F [B E T K S]. split; auto. Qed.

Lemma mirrors_change f c : book_mirrors (book c) (f (book c)) -> mirrors c (set_book f c).
Proof. intros F. now split. Qed.

(** A record that is filed again. *)
Lemma put_again r r' c c' :
  essence r = essence r' -> mirrors (set_book (put_record r) c) c' -> mirrors (set_book (put_record r) c) (set_book (put_record r') c').
Proof.
  intros E M. transitivity (set_book (put_record r') (set_book (put_record r) c)).
  - apply mirrors_change. cbn [book set_book]. destruct (essence_members _ _ E) as [K _]. split; [|reflexivity..].
    intros k. cbn [records put_record set_records]. rewrite K, !om_find_set. case_if; [cbn; now rewrite E | reflexivity].
  - revert M. apply mirrors_book, put_mirrors. reflexivity.
Qed.

(** ** Replay respects the relation *)

(** From mirroring states the two computations end in mirroring states, with
    related results. *)
Definition sim {A B} (P : A -> B -> Prop) (m : co A) (n : co B) : Prop := forall a b x a',
  mirrors a b -> m a = (Ok x, a') -> exists y b', n b = (Ok y, b') /\ P x y /\ mirrors a' b'.

Abbreviation respects m := (sim eq m m).

Section sim.
Context {A B A' B' : Type}.

Lemma sim_bind (P : A -> A' -> Prop) (Q : B -> B' -> Prop) (m : co A) (n : co A') (k : A -> co B) (l : A' -> co B') :
  sim P m n -> (forall x y, P x y -> sim Q (k x) (l y)) -> sim Q (bind m k) (bind n l).
Proof.
  intros M K a b z a' R E. apply bind_inv in E as (x & a1 & E1 & E2).
  destruct (M _ _ _ _ R E1) as (y & b1 & F1 & Pxy & R1). destruct (K _ _ Pxy _ _ _ _ R1 E2) as (w & b' & F2 & Q' & R2).
  exists w, b'. split; [|now split]. unfold bind. now rewrite F1.
Qed.

Lemma sim_ret (P : A -> A' -> Prop) x y : P x y -> sim P (ret x) (ret y).
Proof. intros H a b z a' R E. injection E as <- <-. exists y, b. split; [reflexivity | now split]. Qed.

Lemma sim_fail (P : A -> A' -> Prop) e (n : co A') : sim P (fail e) n.
Proof. intros a b z a' R E. discriminate. Qed.

Lemma sim_gets (P : A -> A' -> Prop) f g : (forall a b, mirrors a b -> P (f a) (g b)) -> sim P (gets f) (gets g).
Proof. intros F a b x a' R E. injection E as <- <-. exists (g b), b. split; [reflexivity | split; [now apply F | exact R]]. Qed.

Lemma sim_modify f g : (forall a b, mirrors a b -> mirrors (f a) (g b)) -> sim eq (modify f) (modify g).
Proof. intros F a b x a' R E. injection E as <- <-. exists tt, (g b). split; [reflexivity | split; [reflexivity | now apply F]]. Qed.

End sim.

Lemma sim_for_each {A} (l : list A) (f g : A -> co unit) :
  (forall x, sim eq (f x) (g x)) -> sim eq (for_each l f) (for_each l g).
Proof.
  intros F. induction l as [|x l IH]; cbn [for_each]; [now apply sim_ret|].
  apply (sim_bind eq); [apply F | intros _ _ _; exact IH].
Qed.

Lemma sim_when b m n : sim eq m n -> sim eq (when b m) (when b n).
Proof. intros M. destruct b; [exact M | now apply sim_ret]. Qed.

Lemma sim_book f g : (forall a b, book_mirrors a b -> book_mirrors (f a) (g b)) -> sim eq (modify (set_book f)) (modify (set_book g)).
Proof. intros F. apply sim_modify. intros a b. apply mirrors_book, F. Qed.
Lemma sim_sessions f g :
  (forall a b, sessions_mirror a b -> sessions_mirror (f a) (g b)) -> sim eq (modify (set_sessions f)) (modify (set_sessions g)).
Proof. intros F. apply sim_modify. intros a b. apply mirrors_sessions, F. Qed.

(** A table that an operation updates. *)
Lemma sim_table {X} (set : X -> Tables -> Tables) (f g : Coordinator -> Result X) :
  (forall a b t, mirrors a b -> f a = Ok t -> exists t', g b = Ok t' /\ tables_mirror (set t (tables a)) (set t' (tables b))) ->
  sim eq (fun c => match f c with Ok t => (Ok tt, set_tables (set t) c) | Err e => (Err e, c) end)
         (fun c => match g c with Ok t => (Ok tt, set_tables (set t) c) | Err e => (Err e, c) end).
Proof.
  intros F a b x a' R E. destruct (f a) as [t|] eqn:Fa; [|discriminate]. injection E as <- <-.
  destruct (F _ _ _ R Fa) as (t' & Gb & T). rewrite Gb. exists tt, (set_tables (set t') b). split; [reflexivity|].
  split; [reflexivity|]. revert R. now apply mirrors_tables.
Qed.

Lemma sim_find id g : sim (fun o o' => option_map essence o = option_map essence o')
  (gets (fun c => find_record_locked c id g)) (gets (fun c => find_record_locked c id g)).
Proof. apply sim_gets. intros a b [_ _ _ [R _ _] _]. apply R. Qed.

Lemma option_essence_inv o o' : option_map essence o = option_map essence o' ->
  (o = None /\ o' = None) \/ exists r r', o = Some r /\ o' = Some r' /\ essence r = essence r'.
Proof. destruct o as [r|], o' as [r'|]; intros E; try discriminate; [right; exists r, r'; repeat split; cbn in E; congruence | auto]. Qed.

Lemma sim_set_state r r' st at_ why why' p p' :
  essence r = essence r' -> sim same_essence (set_state_locked r st at_ why p) (set_state_locked r' st at_ why' p').
Proof.
  intros E. unfold set_state_locked. cbv zeta. apply (sim_bind eq); [|intros _ _ _; apply sim_ret; now apply essence_state].
  apply sim_book. intros a b M. apply put_mirrors; [now apply essence_state|].
  now rewrite <- (recount_mirrors (rr_state r) st), <- (recount_mirrors (rr_state r') st).
Qed.

Lemma sim_sync_queues r r' : sim eq (sync_queues_locked r) (sync_queues_locked r').
Proof. apply sim_book. intros a b M. now rewrite <- (sync_queues_mirrors r), <- (sync_queues_mirrors r'). Qed.

Lemma sim_remember x y : decided x = decided y -> sim eq (remember_attempt_locked x) (remember_attempt_locked y).
Proof.
  intros E. apply sim_modify. intros a b M. rewrite <- (mi_bound _ _ M). revert M. apply mirrors_sessions. now apply remember_mirrors.
Qed.

Lemma sim_replay_state id g recall st at_ why why' pr pr' :
  sim eq (replay_state id g recall st at_ why pr) (replay_state id g recall st at_ why' pr').
Proof.
  unfold replay_state. apply (sim_bind _ _ _ _ _ _ (sim_find id g)). intros o o' O.
  apply option_essence_inv in O as [[-> ->]|(r & r' & -> & -> & E)]; [apply sim_fail|]. cbv zeta.
  apply (sim_bind same_essence); [|intros; apply sim_sync_queues]. apply sim_set_state. case_if; [now apply essence_recall | exact E].
Qed.

Lemma respects_replay_state id g recall st at_ why pr : respects (replay_state id g recall st at_ why pr).
Proof. apply sim_replay_state. Qed.

Lemma respects_replay_attempt a : respects (replay_attempt a).
Proof. destruct a; [now apply sim_remember | now apply sim_ret]. Qed.

(** ** Every kind of durable record *)
Lemma respects_ledger f : respects (on_ledger f).
Proof.
  apply (sim_table set_ledger). intros a b l M E. destruct (mi_tables _ _ M) as [L P Q]. exists l. rewrite <- L.
  split; [exact E | now split].
Qed.

Lemma respects_last (f : Tables -> Tables) :
  (forall t, ledger (f t) = ledger t /\ paths (f t) = paths t /\ policies (f t) = policies t) -> respects (modify (set_tables f)).
Proof.
  intros F. apply sim_modify. intros a b. apply mirrors_tables. intros [L P Q].
  destruct (F (tables a)) as (La & Pa & Qa), (F (tables b)) as (Lb & Pb & Qb). split; [congruence.. | now rewrite Qa, Qb].
Qed.

Lemma respects_path snapshot p : respects (fun c =>
  match drop_changed (PathAuthorityTable_apply (paths (tables c)) p (ps_id snapshot) (ps_ingested_at snapshot)) with
  | Ok t => (Ok tt, set_tables (set_paths t) c)
  | Err e => (Err e, c)
  end).
Proof.
  apply (sim_table set_paths). intros a b l M E. destruct (mi_tables _ _ M) as [L P Q]. exists l. rewrite <- P.
  split; [exact E | now split].
Qed.

Lemma sim_policy r r' : stamp_policy r ts0 = stamp_policy r' ts0 -> sim eq (replay_policy r) (replay_policy r').
Proof.
  intros S. apply (sim_table set_policies). intros a b q M E. destruct (mi_tables _ _ M) as [L P Q].
  unfold drop_changed in E. apply rbind_Ok in E as ([x q0] & E & E'). injection E' as ->.
  destruct (policy_apply_mirrors _ _ _ _ _ _ S Q E) as (q' & E' & Q'). exists q'. unfold drop_changed. rewrite E'.
  split; [reflexivity | now split].
Qed.

Lemma respects_capacity m : respects (replay_capacity m).
Proof.
  unfold replay_capacity. cbv zeta. apply (sim_bind eq); [apply sim_for_each; intros; apply respects_ledger | intros _ _ _].
  apply (sim_bind eq); [apply sim_for_each; intros; apply respects_ledger | intros _ _ _]. now apply respects_last.
Qed.

Lemma respects_paths s : respects (replay_paths s).
Proof.
  unfold replay_paths. apply (sim_bind eq); [apply sim_for_each; intros; apply respects_path | intros _ _ _]. now apply respects_last.
Qed.

Lemma respects_reservation m : respects (replay_reservation m).
Proof.
  unfold replay_reservation. cbv zeta. apply (sim_bind eq); [apply sim_when, respects_replay_state | intros _ _ _].
  apply (sim_bind eq); [|intros _ _ _; apply (sim_bind eq); [apply sim_for_each; intros; apply respects_replay_state | intros _ _ _]].
  - apply sim_book. intros a b M.
    assert (book_mirrors (match rm_edge m with Some e => set_edges (edges a ++ [e]) a | None => a end)
                         (match rm_edge m with Some e => set_edges (edges b ++ [e]) b | None => b end)) as M1
      by (destruct (rm_edge m); [now apply edges_mirrors | exact M]).
    apply (fold_mirrors enter_record enter_record (fun r a b => enter_mirrors r r a b eq_refl) (rm_record m :: rm_members m)) in M1.
    destruct (rm_series m); [now apply apply_series_mirrors | exact M1].
  - apply respects_replay_attempt.
Qed.

Lemma respects_applicability m : respects (replay_applicability m).
Proof.
  unfold replay_applicability. apply (sim_bind _ _ _ _ _ _ (sim_find _ _)). intros o o' O.
  apply option_essence_inv in O as [[-> ->]|(r & r' & -> & -> & E)]; [apply sim_fail|].
  apply sim_book. intros a b. apply put_mirrors. now apply essence_applicability.
Qed.

Lemma respects_boot m : respects (apply_replay_locked (DFabricBoot m)).
Proof.
  intros a b x a' M E. cbn in E. injection E as <- <-. destruct M as [Bo Ep T K S].
  exists tt. eexists. split; [reflexivity|]. split; [reflexivity|]. rewrite Ep. case_if; now split.
Qed.

(** Replay from a mirroring state takes the same course. *)
Lemma replay_respects r : respects (apply_replay_locked r).
Proof.
  destruct r; cbn [apply_replay_locked].
  - apply respects_boot.
  - apply respects_capacity.
  - apply respects_paths.
  - now apply sim_policy.
  - apply respects_reservation.
  - apply respects_reservation.
  - apply respects_reservation.
  - apply (sim_bind eq); [apply respects_replay_state | intros _ _ _; apply respects_replay_attempt].
  - apply respects_applicability.
  - now apply sim_remember.
  - apply sim_sessions, apply_overcommit_mirrors.
  - apply sim_book. apply fold_mirrors. intros x a b. now apply retire_mirrors.
  - apply sim_sessions, apply_fence_mirrors.
  - apply sim_sessions, apply_claimant_mirrors.
Qed.

(** The records one after the other. *)
Definition replays (rs : list DurableRecord) : co unit := for_each rs apply_replay_locked.

Lemma replays_respects rs : respects (replays rs).
Proof. apply sim_for_each, replay_respects. Qed.

Lemma for_each_app {A} (l l' : list A) (f : A -> co unit) c : for_each (l ++ l') f c = (for_each l f ;; for_each l' f) c.
Proof.
  revert c. induction l as [|a l IH]; intros c; [reflexivity|]. cbn [app for_each]. unfold bind at 1 2 3.
  destruct (f a c) as [[u|e] c1]; [|reflexivity]. exact (IH c1).
Qed.
