(* ===== verification/CoordLogged.v ===== *)
(** * Coordinator: the journal explains the state, the rules

    A successful computation is logged when replaying the records it journalled
    from the state it started in ends in a state that mirrors the one it left.
    The rules by which that is shown, and the operations that journal nothing. *)
From stdpp Require Import relations.
From S2P Require Import Prelude Errors Containers Identity Hash Bandwidth Time Authority Wire Policy Capacity Reservation Outcome SegTree Index Durable CodecBase Codec Store Coordinator CoordRecords CoordPersist CoordAssess CoordLifecycle CoordCommit CoordOps CoordQuery CoordSteps CoordJournal CoordSound CoordCapacity CoordMirror.

(** ** Journalled records *)

(** The journal record [j] is the durable record [r]. *)
Definition journals_as (j : JournalRecord) (r : DurableRecord) : Prop :=
  payload j = encode_record r /\ jr_kind j = record_kind r.

(** Between the two states records were appended whose replay leads from the
    first to the second. *)
Definition logged (c c' : Coordinator) : Prop :=
  exists js rs, appended c js c' /\ Forall2 journals_as js rs /\
    exists m, replays rs c = (Ok tt, m) /\ mirrors m c'.

Lemma replays_from rs a b m :
  mirrors a b -> replays rs a = (Ok tt, m) -> exists m', replays rs b = (Ok tt, m') /\ mirrors m m'.
Proof. intros M E. destruct (replays_respects rs _ _ _ _ M E) as ([] & m' & E' & _ & M'). eauto. Qed.

#[export] Instance logged_PreOrder : PreOrder logged.
Proof.
  split.
  - intros c. exists [], []. split; [apply appended_refl|]. split; [constructor|]. exists c. now split.
  - intros c c' c'' (js & rs & A & J & m & E & M) (js' & rs' & A' & J' & m' & E' & M').
    exists (js ++ js'), (rs ++ rs'). split; [eapply appended_trans; eassumption|]. split; [now apply Forall2_app|].
    destruct (replays_from _ _ _ _ (symmetry M) E') as (m2 & E2 & M2). exists m2. split.
    + unfold replays in *. rewrite for_each_app. unfold bind. rewrite E. exact E2.
    + etransitivity; [symmetry; exact M2 | exact M'].
Qed.

(** ** The facts a replay reproduces, exactly *)
Definition facts (c : Coordinator) :=
  (max_attempts (config (env c)), ci_epoch (incarnation (env c)),
   (ledger (tables c), paths (tables c), policies (tables c)),
   (records (book c), retired (book c), lineage (book c)), (attempts (sessions c), guards (sessions c))).

Lemma facts_mirrors c c' : facts c' = facts c -> mirrors c c'.
Proof.
  unfold facts. intros [= B E L P Q R A Ge Cu Ed Se At G1 G2 G3 G4 G5]. split; [now symmetry | now symmetry | split | split | split].
  all: try (now symmetry).
  - now rewrite Q.
  - now rewrite R.
  - now rewrite A.
  - unfold lineage. congruence.
  - now rewrite At.
  - unfold guards. congruence.
Qed.

(** Nothing is journalled and no fact changes. *)
Definition idle (c c' : Coordinator) : Prop := appended c [] c' /\ facts c' = facts c.

#[export] Instance idle_PreOrder : PreOrder idle.
Proof.
  split; [intros c; split; [apply appended_refl | reflexivity]|].
  intros c c' c'' [A F] [A' F']. split; [exact (appended_trans _ _ _ _ _ A A') | congruence].
Qed.

Lemma idle_mirrors c c' : idle c c' -> mirrors c c'.
Proof. intros [_ F]. now apply facts_mirrors. Qed.

Lemma idle_logged c c' : idle c c' -> logged c c'.
Proof.
  intros I. exists [], []. split; [apply I|]. split; [constructor|]. exists c. split; [reflexivity | now apply idle_mirrors].
Qed.

Lemma append_spec r c s c' :
  append_locked r c = (Ok s, c') -> facts c' = facts c /\ exists j, appended c [j] c' /\ journals_as j r.
Proof.
  intros E. split.
  - pose proof (append_moves r c) as [(T & B & S & _) (Cf & _) (Ep & _)]. rewrite E in *. cbn [snd] in *. unfold facts. congruence.
  - revert E. unfold append_locked. destruct (next_io append_ok (io_append (io (env c)))) as [how later].
    unfold append. destruct (negb (journal_open (store (env c)))); [discriminate|]. case_if; [discriminate|].
    destruct how; try discriminate. intros [= _ <-].
    eexists (mkJournalRecord (record_kind r) (mkCounter (next_seq (seq_of c))) (encode_record r) _). split; [|now split].
    split; [split; reflexivity|]. split; [auto|]. exists []. split; [reflexivity | now intros []].
Qed.

(** One record is appended in the middle, or at the end, of what it records. *)
Lemma logged_unit r c c1 s c2 c3 m :
  appended c [] c1 -> append_locked r c1 = (Ok s, c2) -> appended c2 [] c3 ->
  apply_replay_locked r c = (Ok tt, m) -> mirrors m c3 -> logged c c3.
Proof.
  intros A E A' R M. destruct (append_spec _ _ _ _ E) as (_ & j & Aj & J). exists [j], [r].
  split; [exact (appended_trans _ _ _ _ _ (appended_trans _ _ _ _ _ A Aj) A')|]. split; [constructor; [exact J | constructor]|].
  exists m. split; [|exact M]. unfold replays. cbn [for_each]. unfold bind. now rewrite R.
Qed.

(** ** The books the operations rely on *)

(** Records under their own keys, of identities that are known. *)
Definition filed_ok (b : Book) : Prop := forall k r, om_find (records b) k = Some r ->
  key_of r = k /\ om_mem (current b) k.1 = true.

(** The book has the record, up to what a replay does not reproduce. *)
Definition has (c : Coordinator) (r : ReservationRecord) : Prop :=
  option_map essence (om_find (records (book c)) (key_of r)) = Some (essence r).

Lemma filed_ok_mirrors a b : book_mirrors a b -> filed_ok a -> filed_ok b.
Proof.
  intros [R _ L] F k r Fb. apply lineage_fields in L as (_ & C & _).
  destruct (alike_find essence _ _ _ _ (symmetry R) Fb) as (r' & Fa & E). destruct (F _ _ Fa) as [K M].
  apply essence_members in E as [E _]. split; [congruence | now rewrite <- C].
Qed.

Lemma has_mirrors a b r : mirrors a b -> has a r -> has b r.
Proof. intros [_ _ _ [R _ _] _]. unfold has. now rewrite R. Qed.

Lemma stored_has c r : stored c r -> has c r.
Proof. unfold stored, has. now intros ->. Qed.

Lemma found_has c k r : filed_ok (book c) -> om_find (records (book c)) k = Some r -> has c r /\ key_of r = k.
Proof. intros F E. destruct (F _ _ E) as [K _]. split; [apply stored_has; unfold stored; now rewrite K | exact K]. Qed.

Lemma has_essence c r r' : essence r = essence r' -> has c r -> has c r'.
Proof. intros E. unfold has. destruct (essence_members _ _ E) as [<- _]. now rewrite E. Qed.

Lemma filed_ok_put c r r' : has c r -> key_of r' = key_of r -> filed_ok (book c) -> filed_ok (put_record r' (book c)).
Proof.
  intros H K F k x. cbn [put_record records current set_records]. rewrite om_find_set. rewrite K.
  destruct (keqb (key_of r) k) eqn:E; [|apply F]. apply keqb_eq in E. intros [= <-]. split; [congruence|].
  unfold has in H. rewrite E in H. destruct (om_find (records (book c)) k) as [y|] eqn:Y; [|discriminate]. now apply (F _ _ Y).
Qed.

Lemma registered_mem k l id : om_mem l.2 id = true \/ id = k.1 -> om_mem (registered k l).2 id = true.
Proof.
  assert (om_mem l.2 id = true \/ id = k.1 -> om_mem (om_set l.2 k.1 k.2) id = true) as S.
  { unfold om_mem. rewrite om_find_set. intros [H| ->]; [destruct (keqb _ _); [reflexivity | exact H] | now rewrite keqb_refl]. }
  unfold registered. cbn [snd]. intros H. destruct (om_find l.2 k.1) as [g|] eqn:G; [case_if|]; auto.
  destruct H as [H| ->]; [exact H | unfold om_mem; now rewrite G].
Qed.

Lemma filed_ok_register r b : filed_ok b -> filed_ok (register_record r b).
Proof.
  intros F k x. destruct (register_fields r b) as (R & _ & _ & _ & G). rewrite R, om_find_set.
  apply (f_equal snd) in G. cbn [snd] in G. rewrite G. destruct (keqb (key_of r) k) eqn:E.
  - apply keqb_eq in E. intros [= <-]. split; [exact E|]. apply registered_mem. right. now subst k.
  - intros H. destruct (F _ _ H) as [K M]. split; [exact K|]. apply registered_mem. now left.
Qed.

(** ** Judgements on successful computations *)
Definition logs {A} (m : co A) (c : Coordinator) (Q : A -> Coordinator -> Prop) : Prop :=
  forall a c', m c = (Ok a, c') -> filed_ok (book c) -> filed_ok (book c') /\ logged c c' /\ Q a c'.

(** A computation on memory: it journals nothing. *)
Definition recalls {A} (m : co A) (c : Coordinator) (Q : A -> Coordinator -> Prop) : Prop :=
  forall a c', m c = (Ok a, c') -> appended c [] c' /\ Q a c'.

Definition done {A} (_ : A) (_ : Coordinator) : Prop := True.

Lemma logs_weaken {A} (m : co A) c (P Q : A -> Coordinator -> Prop) :
  logs m c P -> (forall a c', P a c' -> Q a c') -> logs m c Q.
Proof. intros L I a c' E F. destruct (L a c' E F) as (F' & Lo & H). auto. Qed.

Lemma logs_bind {A B} (m : co A) (k : A -> co B) c Q :
  logs m c (fun a c1 => logs (k a) c1 Q) -> logs (bind m k) c Q.
Proof.
  intros L b c' E F. apply bind_inv in E as (a & c1 & E1 & E2). destruct (L a c1 E1 F) as (F1 & L1 & K).
  destruct (K b c' E2 F1) as (F2 & L2 & H). split; [exact F2 | split; [etransitivity; eassumption | exact H]].
Qed.

Lemma logs_ok {A} (m : co A) c Q : (filed_ok (book c) -> logs m c Q) -> logs m c Q.
Proof. intros H a c' E F. now apply H. Qed.

Lemma logs_ret {A} (x : A) c (Q : A -> Coordinator -> Prop) : Q x c -> logs (ret x) c Q.
Proof. intros H a c' E F. injection E as <- <-. split; [exact F | split; [reflexivity | exact H]]. Qed.
Lemma logs_fail {A} e c (Q : A -> Coordinator -> Prop) : logs (fail e) c Q.
Proof. intros a c' E. discriminate. Qed.
Lemma logs_gets {A B} (f : Coordinator -> A) (k : A -> co B) c Q : logs (k (f c)) c Q -> logs (bind (gets f) k) c Q.
Proof. intros H. apply logs_bind. intros a c' E F. injection E as <- <-. split; [exact F | split; [reflexivity | exact H]]. Qed.
Lemma logs_look {A} (f : Coordinator -> Result A) c (Q : A -> Coordinator -> Prop) :
  (forall a, f c = Ok a -> Q a c) -> logs (fun c => (f c, c)) c Q.
Proof. intros H a c' E F. injection E as E <-. split; [exact F | split; [reflexivity | now apply H]]. Qed.
Lemma logs_lift {A} (r : Result A) c (Q : A -> Coordinator -> Prop) : (forall a, r = Ok a -> Q a c) -> logs (lift r) c Q.
Proof. apply (logs_look (fun _ => r)). Qed.

Lemma idle_filed c c' : idle c c' -> filed_ok (book c) -> filed_ok (book c').
Proof. intros I. apply filed_ok_mirrors. apply (idle_mirrors _ _ I). Qed.

Lemma logs_idle {A} (m : co A) c (Q : A -> Coordinator -> Prop) :
  keeps idle m -> (forall a c', idle c c' -> Q a c') -> logs m c Q.
Proof.
  intros K H a c' E F. pose proof (keeps_step _ _ _ _ _ K E) as I.
  split; [eapply idle_filed; eassumption | split; [now apply idle_logged | now apply H]].
Qed.

Lemma logs_when b m c (Q : unit -> Coordinator -> Prop) :
  (b = true -> logs m c Q) -> (b = false -> Q tt c) -> logs (when b m) c Q.
Proof. intros M S. destruct b; [now apply M | now apply logs_ret, S]. Qed.

(** What a relation kept besides adds. *)
Lemma logs_keeps {A} R (m : co A) c (P Q : A -> Coordinator -> Prop) :
  keeps R m -> logs m c P -> (forall a c', R c c' -> P a c' -> Q a c') -> logs m c Q.
Proof.
  intros K L H a c' E F. destruct (L a c' E F) as (F' & Lo & Pa). split; [exact F' | split; [exact Lo|]].
  apply H; [eapply keeps_step; eassumption | exact Pa].
Qed.

Lemma logs_done {A B} (m : co A) (k : A -> co B) c :
  logs m c done -> (forall a c', logs (k a) c' done) -> logs (bind m k) c done.
Proof. intros M K. apply logs_bind. eapply logs_weaken; [exact M|]. intros a c' _. apply K. Qed.

Lemma logs_for_each {A} (l : list A) (f : A -> co unit) (I : list A -> Coordinator -> Prop) c :
  I l c -> (forall a l c, I (a :: l) c -> logs (f a) c (fun _ c' => I l c')) ->
  logs (for_each l f) c (fun _ c' => I [] c').
Proof.
  intros H F. revert c H. induction l as [|a l IH]; intros c H; cbn [for_each]; [now apply logs_ret|].
  apply logs_bind. eapply logs_weaken; [apply (F _ l), H|]. intros u c'. apply IH.
Qed.

Lemma logs_loop {A} (l : list A) (f : A -> co unit) c :
  (forall a c, logs (f a) c done) -> logs (for_each l f) c done.
Proof. intros F. apply (logs_for_each _ _ (fun _ _ => True)); [exact I|]. intros a l' c' _. apply F. Qed.

Lemma idle_scope c c' f l : idle c c' -> idle c (set_suspension f (set_index (restore_entries l) c')).
Proof. intros [A F]. split; [exact A | exact F]. Qed.

Lemma logs_scope {A} (m : co A) c (Q : A -> Coordinator -> Prop) :
  (forall a c1 c2, idle c1 c2 -> Q a c1 -> Q a c2) ->
  (forall c0, idle c c0 -> logs m c0 Q) -> logs (with_suspension m) c Q.
Proof.
  intros S H a c' E F. unfold with_suspension in E. set (c0 := set_suspension _ c) in E.
  assert (idle c c0) as I0 by (split; [now apply appended_same_store | reflexivity]).
  destruct (m c0) as [r c1] eqn:M. injection E as -> <-.
  destruct (H c0 I0 a c1 M) as (F1 & L1 & Q1); [eapply idle_filed; eassumption|].
  set (entries := if kept _ then _ else _). pose proof (idle_scope c1 c1 (fun _ => mkSuspension [] false) entries (reflexivity _)) as I1.
  split; [eapply idle_filed; eassumption|]. split; [|eapply S; eassumption].
  transitivity c0; [now apply idle_logged|]. transitivity c1; [exact L1 | now apply idle_logged].
Qed.

(** ** Computations on memory *)
Lemma recalls_bind {A B} (m : co A) (k : A -> co B) c Q :
  recalls m c (fun a c1 => recalls (k a) c1 Q) -> recalls (bind m k) c Q.
Proof.
  intros R b c' E. apply bind_inv in E as (a & c1 & E1 & E2). destruct (R a c1 E1) as (A1 & K).
  destruct (K b c' E2) as (A2 & H). split; [exact (appended_trans _ _ _ _ _ A1 A2) | exact H].
Qed.

Lemma recalls_ret {A} (x : A) c (Q : A -> Coordinator -> Prop) : Q x c -> recalls (ret x) c Q.
Proof. intros H a c' E. injection E as <- <-. split; [apply appended_refl | exact H]. Qed.
Lemma recalls_gets {A B} (f : Coordinator -> A) (k : A -> co B) c Q : recalls (k (f c)) c Q -> recalls (bind (gets f) k) c Q.
Proof. intros H. apply recalls_bind. intros a c' E. injection E as <- <-. split; [apply appended_refl | exact H]. Qed.
Lemma recalls_lift {A} (r : Result A) c (Q : A -> Coordinator -> Prop) : (forall a, r = Ok a -> Q a c) -> recalls (lift r) c Q.
Proof. intros H a c' E. injection E as E <-. split; [apply appended_refl | now apply H]. Qed.

Lemma recalls_weaken {A} (m : co A) c (P Q : A -> Coordinator -> Prop) :
  recalls m c P -> (forall a c', P a c' -> Q a c') -> recalls m c Q.
Proof. intros L I a c' E. destruct (L a c' E) as (A' & H). auto. Qed.

Lemma recalls_idle {A} (m : co A) x c (Q : A -> Coordinator -> Prop) :
  keeps idle m -> mirrors x c -> (forall a c', mirrors x c' -> Q a c') -> recalls m c Q.
Proof.
  intros K M H a c' E. pose proof (keeps_step _ _ _ _ _ K E) as I. split; [apply I|]. apply H.
  etransitivity; [exact M | now apply idle_mirrors].
Qed.

Lemma recalls_modify f c (Q : unit -> Coordinator -> Prop) :
  store (env (f c)) = store (env c) -> Q tt (f c) -> recalls (modify f) c Q.
Proof. intros S H a c' E. injection E as <- <-. split; [now apply appended_same_store | exact H]. Qed.

(** The record that is appended and what follows it in memory are one unit. *)
Lemma logs_unit {A} r x (k : DurableSequence -> co A) c (Q : A -> Coordinator -> Prop) :
  (exists m, apply_replay_locked r c = (Ok tt, m) /\ mirrors x m) ->
  (filed_ok (book c) -> filed_ok (book x)) ->
  (forall s c1, facts c1 = facts c -> recalls (k s) c1 (fun a c' => mirrors x c' /\ Q a c')) ->
  logs (bind (append_locked r) k) c Q.
Proof.
  intros (m & R & X) F K a c' E Fc. apply bind_inv in E as (s & c1 & E1 & E2).
  destruct (append_spec _ _ _ _ E1) as (Fa & _). destruct (K s c1 Fa a c' E2) as (A2 & M & H).
  split; [|split; [|exact H]].
  - eapply filed_ok_mirrors; [apply M | now apply F].
  - eapply (logged_unit r c c s c1 c'); [apply appended_refl | exact E1 | exact A2 | exact R|].
    etransitivity; [symmetry; exact X | exact M].
Qed.

(** ** Operations that journal nothing and change no fact *)
Lemma idle_same c c' : store (env c') = store (env c) -> facts c' = facts c -> idle c c'.
Proof. intros S F. split; [now apply appended_same_store | exact F]. Qed.

Lemma idle_modify f : (forall c, store (env (f c)) = store (env c) /\ facts (f c) = facts c) -> keeps idle (modify f).
Proof. intros F c. apply idle_same; apply F. Qed.
#[export] Hint Extern 3 (keeps idle (modify _)) => (apply idle_modify; intros; split; reflexivity) : frame.

Lemma idle_on_index f : keeps idle (on_index f).
Proof. intros c. unfold on_index. destruct (f (index c)). now apply idle_same. Qed.
Lemma idle_now : keeps idle now_locked.
Proof. intros c. unfold now_locked. destruct (clock_read _). now apply idle_same. Qed.
Lemma idle_check x b : keeps idle (check_context x b).
Proof. intros c. reflexivity. Qed.
Lemma idle_sync_queues r : keeps idle (sync_queues_locked r).
Proof. apply idle_modify. intros c. split; [reflexivity|]. unfold facts. cbn. unfold sync_queues. case_if; reflexivity. Qed.
#[export] Hint Resolve idle_on_index idle_now idle_check idle_sync_queues : frame.

Lemma idle_bump k : keeps idle (bump k).
Proof. unfold bump. frame. Qed.
Lemma idle_erase_holder k id g : keeps idle (erase_holder k id g).
Proof. unfold erase_holder. frame. Qed.
Lemma idle_keep : keeps idle keep_suspension.
Proof. unfold keep_suspension. frame. Qed.
#[export] Hint Resolve idle_bump idle_erase_holder idle_keep : frame.
Lemma idle_release_hold id why b : keeps idle (release_hold_locked id why b).
Proof. unfold release_hold_locked. frame. Qed.
#[export] Hint Resolve idle_release_hold : frame.
Lemma idle_release_holds_where P why b : keeps idle (release_holds_where P why b).
Proof. unfold release_holds_where. frame. Qed.
#[export] Hint Resolve idle_release_holds_where : frame.
Lemma idle_fence_claimant cl g why : keeps idle (fence_holds_for_claimant_locked cl g why).
Proof. unfold fence_holds_for_claimant_locked. frame. Qed.
Lemma idle_fence_boot b why : keeps idle (fence_holds_for_boot_locked b why).
Proof. unfold fence_holds_for_boot_locked. frame. Qed.
Lemma idle_fence_session s why : keeps idle (fence_holds_for_session_locked s why).
Proof. unfold fence_holds_for_session_locked. frame. Qed.
#[export] Hint Resolve idle_fence_claimant idle_fence_boot idle_fence_session : frame.

Lemma idle_index_insert r : keeps idle (index_insert_locked r).
Proof. unfold index_insert_locked. frame. Qed.
Lemma idle_index_erase r : keeps idle (index_erase_locked r).
Proof. unfold index_erase_locked. frame. Qed.
#[export] Hint Resolve idle_index_insert idle_index_erase : frame.
Lemma idle_sync_index r : keeps idle (sync_index_locked r).
Proof. unfold sync_index_locked. frame. Qed.
#[export] Hint Resolve idle_sync_index : frame.
Lemma idle_update_index r : keeps idle (update_index_locked r).
Proof. unfold update_index_locked. frame. Qed.
Lemma idle_suspend_entry k e : keeps idle (suspend_entry k e).
Proof. unfold suspend_entry. frame. Qed.
#[export] Hint Resolve idle_update_index idle_suspend_entry : frame.
Lemma idle_suspend r : keeps idle (suspend r).
Proof. unfold suspend. frame. Qed.
Lemma idle_suspend_hold id : keeps idle (suspend_hold id).
Proof. unfold suspend_hold. frame. Qed.
#[export] Hint Resolve idle_suspend idle_suspend_hold : frame.
Lemma idle_suspend_holds x ids : keeps idle (suspend_holds x ids).
Proof. unfold suspend_holds. frame. Qed.
#[export] Hint Resolve idle_suspend_holds : frame.

Lemma idle_compact : keeps idle compact_locked.
Proof.
  intros c. split; [apply compact_appends_nothing|].
  assert (keeps store_moves (write_snapshot_locked (encode_SnapshotState (snapshot_state_locked c)))) as W by apply snapshot_moves.
  unfold compact_locked, bind, gets. specialize (W c). pose proof rotate_moves as Ro.
  destruct (write_snapshot_locked _ c) as [[u|e] c1]; cbn [snd] in W |- *; destruct W as [(T & B & S & _) (Cf & _) (Ep & _)];
    [|unfold facts; now rewrite T, B, S, Cf, Ep].
  specialize (Ro c1). destruct (rotate_journal_locked c1) as [[u'|e] c2]; cbn [snd] in Ro |- *;
    destruct Ro as [(T' & B' & S' & _) (Cf' & _) (Ep' & _)]; unfold facts; cbn; now rewrite T', B', S', Cf', Ep', T, B, S, Cf, Ep.
Qed.
#[export] Hint Resolve idle_compact : frame.
Lemma idle_compact_if_due : keeps idle compact_if_due.
Proof. unfold compact_if_due. frame. Qed.
Lemma idle_count_revocation : keeps idle count_revocation.
Proof. unfold count_revocation. frame. Qed.
Lemma idle_resolve t : keeps idle (resolve_binding_locked t).
Proof. intros c. reflexivity. Qed.
Lemma idle_named id g : keeps idle (named_record id g).
Proof. unfold named_record. frame. Qed.
Lemma idle_insert_hold h : keeps idle (insert_hold h).
Proof. intros c. unfold insert_hold. destruct (insert_loop _ _) as [[u|e] x]; now apply idle_same. Qed.
Lemma idle_consume_hold id now by_ : keeps idle (consume_hold id now by_).
Proof.
  apply idle_modify. intros c. split; [reflexivity|]. unfold facts. cbn. destruct (om_find (holds (sessions c)) id); reflexivity.
Qed.
#[export] Hint Resolve idle_compact_if_due idle_count_revocation idle_resolve idle_named idle_insert_hold idle_consume_hold : frame.

Lemma idle_suspending {A} (m : co A) : keeps idle m -> keeps idle (with_suspension m).
Proof. apply keeps_with_suspension; [exact _ | intros; now apply idle_same..]. Qed.
#[export] Hint Extern 3 (keeps idle (with_suspension _)) => apply idle_suspending; frame : frame.

Lemma idle_current_series id : keeps idle (current_series_at id).
Proof. unfold current_series_at. frame. Qed.
#[export] Hint Resolve idle_current_series : frame.
Lemma idle_current_series_record id : keeps idle (current_series_record id).
Proof. unfold current_series_record. frame. Qed.
#[export] Hint Resolve idle_current_series_record : frame.
Lemma idle_replayed_series r : keeps idle (replayed_series r).
Proof. unfold replayed_series. frame. Qed.
#[export] Hint Resolve idle_replayed_series : frame.
Lemma idle_replay_commit x a n : keeps idle (replay_commit x a n).
Proof. unfold replay_commit. frame. Qed.
Lemma idle_replay_amendment r a : keeps idle (replay_amendment r a).
Proof. unfold replay_amendment. frame. Qed.
#[export] Hint Resolve idle_replay_commit idle_replay_amendment : frame.

Lemma idle_plan_candidates t b p ws cs vs : keeps idle (plan_candidates t b p ws cs vs).
Proof.
  revert vs. induction cs as [|e cs IH]; intros vs; cbn [plan_candidates]; frame.
  intros c. pose proof (idle_suspend r c) as S. destruct (suspend r c) as [[u|err] c']; cbn [snd] in S.
  - destruct (evaluate_all c' t b p 0 ws); [exact S|]. etransitivity; [exact S | apply IH].
  - etransitivity; [exact S | apply IH].
Qed.
#[export] Hint Resolve idle_plan_candidates : frame.
Lemma idle_plan_resources t b p self ws w refs vs : keeps idle (plan_resources t b p self ws w refs vs).
Proof. revert vs. induction refs as [|r refs IH]; intros vs; cbn [plan_resources]; frame. Qed.
#[export] Hint Resolve idle_plan_resources : frame.
Lemma idle_plan t b p self now ws i : keeps idle (plan_preemption t b p self now ws i).
Proof. unfold plan_preemption. frame. Qed.
Lemma idle_suspend_superseded r : keeps idle (suspend_superseded r).
Proof. unfold suspend_superseded. frame. Qed.
#[export] Hint Resolve idle_plan idle_suspend_superseded : frame.

(** In the middle of a unit that appended [r] in the state [c0]: what is left
    brings the memory in line with the record and may go on journalling. *)
Definition amid {A} (c0 : Coordinator) (r : DurableRecord) (m : co A) (c : Coordinator) (Q : A -> Coordinator -> Prop) : Prop :=
  forall a c', m c = (Ok a, c') -> filed_ok (book c0) ->
    filed_ok (book c') /\
    (exists c1 m1, appended c [] c1 /\ apply_replay_locked r c0 = (Ok tt, m1) /\ mirrors m1 c1 /\ logged c1 c') /\ Q a c'.

Lemma amid_recalls {A B} c0 r (m : co A) (k : A -> co B) c Q :
  recalls m c (fun a c1 => amid c0 r (k a) c1 Q) -> amid c0 r (bind m k) c Q.
Proof.
  intros R b c' E F. apply bind_inv in E as (a & c1 & E1 & E2). destruct (R a c1 E1) as (A1 & K).
  destruct (K b c' E2 F) as (F2 & (c2 & m2 & A2 & Re & M & L) & H). split; [exact F2|]. split; [|exact H].
  exists c2, m2. split; [exact (appended_trans _ _ _ _ _ A1 A2) | auto].
Qed.

Lemma amid_close {A} c0 r (m : co A) c (Q : A -> Coordinator -> Prop) :
  (exists m1, apply_replay_locked r c0 = (Ok tt, m1) /\ mirrors m1 c) -> (filed_ok (book c0) -> filed_ok (book c)) ->
  logs m c Q -> amid c0 r m c Q.
Proof.
  intros (m1 & R & M) F L a c' E F0. destruct (L a c' E (F F0)) as (F' & Lo & H). split; [exact F'|]. split; [|exact H].
  exists c, m1. split; [apply appended_refl | auto].
Qed.

(** Before a unit the memory may be prepared for the record to come. *)
Definition opens {A} (c0 : Coordinator) (m : co A) (c : Coordinator) (Q : A -> Coordinator -> Prop) : Prop :=
  appended c0 [] c -> forall a c', m c = (Ok a, c') -> filed_ok (book c0) -> filed_ok (book c') /\ logged c0 c' /\ Q a c'.

Lemma logs_opens {A} (m : co A) c Q : opens c m c Q -> logs m c Q.
Proof. intros O. exact (O (appended_refl c)). Qed.

Lemma opens_recalls {A B} c0 (m : co A) (k : A -> co B) c Q :
  recalls m c (fun a c1 => opens c0 (k a) c1 Q) -> opens c0 (bind m k) c Q.
Proof.
  intros R A0 b c' E F. apply bind_inv in E as (a & c1 & E1 & E2). destruct (R a c1 E1) as (A1 & K).
  exact (K (appended_trans _ _ _ _ _ A0 A1) b c' E2 F).
Qed.

Lemma opens_logs {A} c0 (m : co A) c (Q : A -> Coordinator -> Prop) : facts c = facts c0 -> logs m c Q -> opens c0 m c Q.
Proof.
  intros E L A0 a c' Em F. assert (idle c0 c) as I by now split. destruct (L a c' Em (idle_filed _ _ I F)) as (F' & Lo & H).
  split; [exact F'|]. split; [|exact H]. transitivity c; [now apply idle_logged | exact Lo].
Qed.

Lemma opens_append {A} c0 r (k : DurableSequence -> co A) c (Q : A -> Coordinator -> Prop) :
  (forall s c1, facts c1 = facts c -> amid c0 r (k s) c1 Q) -> opens c0 (bind (append_locked r) k) c Q.
Proof.
  intros K A0 a c' E F. apply bind_inv in E as (s & c1 & E1 & E2). destruct (append_spec _ _ _ _ E1) as (Fa & _).
  destruct (K s c1 Fa a c' E2 F) as (F' & (c2 & m & A2 & R & M & L) & H). split; [exact F'|]. split; [|exact H].
  transitivity c2; [|exact L]. eapply (logged_unit r c0 c s c1 c2); eassumption.
Qed.

Lemma logs_amid {A} r (k : DurableSequence -> co A) c (Q : A -> Coordinator -> Prop) :
  (forall s c1, facts c1 = facts c -> amid c r (k s) c1 Q) -> logs (bind (append_locked r) k) c Q.
Proof. intros K. apply logs_opens. now apply opens_append. Qed.
