(* ===== verification/CoordRestart.v ===== *)
(** * Coordinator: the journal explains the state

    Every operation that succeeds is logged: replaying the records it journalled
    from the state it found leads to a state that mirrors the one it left. *)
From stdpp Require Import relations.
From S2P Require Import Prelude Errors Containers Identity Hash Bandwidth Time Authority Wire Policy Capacity Reservation Outcome SegTree Index Durable CodecBase Codec Store Coordinator CoordRecords CoordPersist CoordAssess CoordLifecycle CoordCommit CoordOps CoordQuery CoordSteps CoordJournal CoordBook CoordSound CoordLife CoordLifeOps CoordCapacity CoordMirror CoordLogged.

(** Pass over a computation that is idle; over a read; over a check. *)
Ltac hush := apply logs_bind; apply logs_idle; [solve [frame] | intros ? ? ?].
Ltac hush_to c1 := apply logs_bind; apply logs_idle; [solve [frame] | intros ? c1 ?].
Ltac peek := apply logs_gets.
Ltac pass := apply logs_bind; apply logs_look; intros ? ?.
Ltac recall := apply recalls_bind; eapply recalls_idle; [solve [frame] | eassumption | intros ? ? ?].
Ltac nothing := apply logs_idle; [solve [frame] | now intros].

(** ** One record moves *)

(** The record a transition moves, and the state it leads to. *)
Definition effective_from (recall_at : Timestamp) (r : ReservationRecord) : ReservationRecord :=
  if ns recall_at >? 0 then with_recall r recall_at else r.
Definition landing (r : ReservationRecord) (st : ReservationState) (at_ recall_at : Timestamp) (c : Coordinator) : Coordinator :=
  set_book (put_record (with_state (effective_from recall_at r) st at_ [] default_provenance)) c.

Lemma key_effective t r : key_of (effective_from t r) = key_of r.
Proof. unfold effective_from. now case_if. Qed.

Lemma essence_effective t r r' : essence r = essence r' -> essence (effective_from t r) = essence (effective_from t r').
Proof. intros E. unfold effective_from. case_if; [now apply essence_recall | exact E]. Qed.

Lemma has_inv c r : has c r ->
  exists r0, find_record_locked c (rr_id r) (rr_generation r) = Some r0 /\ essence r0 = essence r.
Proof.
  unfold has, find_record_locked, find_record. change (rr_id r, rr_generation r) with (key_of r).
  destruct (om_find _ _) as [r0|]; intros E; [|discriminate]. exists r0. split; [reflexivity | cbn in E; congruence].
Qed.

Lemma has_put c r : has (set_book (put_record r) c) r.
Proof. unfold has. cbn. now rewrite om_find_set_eq. Qed.

Lemma landing_filed r st t at_ c : has c r -> filed_ok (book c) -> filed_ok (book (landing r st t at_ c)).
Proof. intros H. apply filed_ok_put with r; [exact H | apply (key_effective at_ r)]. Qed.

Lemma landing_mirrors r r' st t at_ a b :
  essence r = essence r' -> mirrors a b -> mirrors (landing r st t at_ a) (landing r' st t at_ b).
Proof. intros E. apply mirrors_book. intros M. apply put_mirrors; [|exact M]. now apply essence_state, essence_effective. Qed.

Lemma set_state_lands r r0 st t at_ why p c x r' c' :
  essence r0 = essence (effective_from at_ r) -> mirrors x c ->
  set_state_locked r0 st t why p c = (Ok r', c') ->
  r' = with_state r0 st t why p /\ mirrors (landing r st t at_ x) c' /\ store (env c') = store (env c).
Proof.
  intros E M S. unfold set_state_locked in S. cbv zeta in S. injection S as <- <-. split; [reflexivity|]. split; [|reflexivity].
  unfold landing. revert M. apply mirrors_book. intros M. apply put_mirrors; [symmetry; now apply essence_state|].
  now rewrite <- recount_mirrors.
Qed.

Lemma replay_state_lands r at_ st t why pr c :
  has c r -> exists m, replay_state (rr_id r) (rr_generation r) at_ st t why pr c = (Ok tt, m) /\ mirrors (landing r st t at_ c) m.
Proof.
  intros H. destruct (has_inv _ _ H) as (r0 & F & E). unfold replay_state. unfold bind at 1, gets at 1. rewrite F. cbv zeta.
  fold (effective_from at_ r0). destruct (set_state_locked (effective_from at_ r0) st t why (pr (effective_from at_ r0)) c) as [[r'|e] c'] eqn:S; [|discriminate].
  destruct (set_state_lands r _ _ _ at_ _ _ _ c _ _ (essence_effective at_ _ _ E) (reflexivity c) S) as (_ & M & _).
  eexists. split; [unfold bind; rewrite S; reflexivity|]. etransitivity; [exact M|].
  apply mirrors_change, sync_queues_mirrors.
Qed.

(** The attempt a transition is journalled with, and the state it leaves. *)
Definition journalled_attempt (x : RequestContext) (r : ReservationRecord) (st : ReservationState) (t : Timestamp) :=
  if is_nil (rq_attempt x) then None else Some (state_attempt x r st t).
Definition with_attempt_known (a : option AttemptMutation) (c : Coordinator) : Coordinator :=
  match a with Some a => set_sessions (remember_attempt (max_attempts (config (env c))) a) c | None => c end.

Lemma replay_attempt_known a c : replay_attempt a c = (Ok tt, with_attempt_known a c).
Proof. now destruct a. Qed.

Lemma known_mirrors a b x y :
  option_map decided a = option_map decided b -> mirrors x y -> mirrors (with_attempt_known a x) (with_attempt_known b y).
Proof.
  intros E M. destruct a as [a|], b as [b|]; try discriminate; [|exact M]. cbn [with_attempt_known]. rewrite <- (mi_bound _ _ M).
  revert M. apply mirrors_sessions, remember_mirrors. cbn in E. unfold decided, with_result_sequence in *. congruence.
Qed.

(** A transition and what its caller does in memory are one unit. *)
Lemma logs_transition {A} r st t why x at_ (k : ReservationRecord * AttemptRecord -> co A) c (Q : A -> Coordinator -> Prop) :
  has c r ->
  (forall r' a c', essence r' = essence (with_state (effective_from at_ r) st t [] default_provenance) ->
     decided a = decided (state_attempt x r st t) -> mirrors (landing r st t at_ c) c' ->
     recalls (k (r', a)) c' (fun b c'' =>
       mirrors (with_attempt_known (journalled_attempt x r st t) (landing r st t at_ c)) c'' /\ Q b c'')) ->
  logs (bind (transition_locked r st t why x at_) k) c Q.
Proof.
  intros H K. unfold transition_locked.
  set (k' := fun sq => bind (let* provenance := gets (fun c => make_provenance_locked c x sq t) in
    let moved := if ns at_ >? 0 then with_recall r at_ else r in
    let* after := set_state_locked moved st t why provenance in
    let after := with_sequence after sq in
    modify (set_book (put_record after)) ;;
    (if beq st kRecallPending then update_index_locked after else sync_index_locked after) ;;
    sync_queues_locked after ;;
    ret (after, with_result_sequence (state_attempt x r st t) sq)) k).
  cut (logs (bind (append_locked (DReservationState (state_mutation x r st t why at_))) k') c Q).
  { intros L a c' E. apply L. rewrite <- E. unfold bind, k'. destruct (append_locked _ c) as [[s|e] c1]; reflexivity. }
  apply (logs_unit _ (with_attempt_known (journalled_attempt x r st t) (landing r st t at_ c))).
  - cbn [apply_replay_locked]. destruct (replay_state_lands r at_ st t (sanitize_reason why) (fun _ => default_provenance) c H) as (m & E & M).
    eexists. split; [|apply known_mirrors; [reflexivity | exact M]].
    unfold bind. cbn [sm_id sm_generation sm_recall_effective_at to_state sm_at sm_reason sm_provenance sm_attempt state_mutation].
    rewrite E. apply replay_attempt_known.
  - intros F. unfold with_attempt_known. destruct (journalled_attempt x r st t); now apply (landing_filed r).
  - intros s c1 Fc. apply facts_mirrors in Fc. unfold k'. apply recalls_bind, recalls_gets. cbv zeta. apply recalls_bind.
    intros r' c2 S. destruct (set_state_lands r _ _ _ at_ _ _ _ c _ _ eq_refl Fc S) as (-> & M & St).
    split; [now apply appended_same_store|]. apply recalls_bind. apply recalls_modify; [reflexivity|].
    assert (mirrors (landing r st t at_ c) (set_book (put_record (with_sequence (with_state (effective_from at_ r) st t why (make_provenance_locked c1 x s t)) s)) c2)) as M2.
    { now apply put_again. }
    apply recalls_bind. eapply recalls_idle; [case_if; frame | exact M2 | intros u c3 M3]. recall.
    apply recalls_ret. apply K; [reflexivity | reflexivity | assumption].
Qed.

Lemma logs_bind_ret {A} (m : co A) c Q : logs (bind m ret) c Q -> logs m c Q.
Proof. intros L a c' E. apply L. unfold bind. now rewrite E. Qed.

(** A transition without an attempt. *)
Lemma logs_internal r st t why x at_ c (Q : ReservationRecord * AttemptRecord -> Coordinator -> Prop) :
  has c r -> is_nil (rq_attempt x) = true ->
  (forall r' a c', essence r' = essence (with_state (effective_from at_ r) st t [] default_provenance) -> has c' r' -> Q (r', a) c') ->
  logs (transition_locked r st t why x at_) c Q.
Proof.
  intros H N K. apply logs_bind_ret. apply logs_transition; [exact H|]. intros r' a c' E _ M. apply recalls_ret.
  unfold journalled_attempt. rewrite N. split; [exact M|]. apply K; [exact E|].
  eapply has_mirrors; [exact M|]. eapply has_essence; [symmetry; exact E | apply has_put].
Qed.

(** ** Time *)
Lemma logs_then {A B} (m : co A) (k : A -> co B) c :
  (forall a, keeps idle (k a)) -> logs m c done -> logs (bind m k) c done.
Proof. intros K M. apply logs_done; [exact M|]. intros a c'. now apply logs_idle. Qed.

Lemma logs_expire now x r c : has c r -> is_nil (rq_attempt x) = true -> logs (expire_record now x r) c done.
Proof.
  intros H N. unfold expire_record. cbv zeta. case_if; [|now apply logs_ret].
  case_if; (apply logs_then; [intros; frame | now apply logs_internal]).
Qed.

Lemma logs_settle now x k c : is_nil (rq_attempt x) = true -> logs (settle_record now x k) c done.
Proof.
  intros N. apply logs_ok. intros F. unfold settle_record. peek.
  destruct (om_find (records (book c)) k) as [r|] eqn:E; [|now apply logs_ret].
  destruct (found_has _ _ _ F E) as [H _]. case_if; [apply logs_then; [intros; frame | now apply logs_internal]|].
  apply logs_bind. case_if; [|apply logs_ret; now apply logs_expire].
  apply logs_bind. apply logs_internal; [exact H | exact N|]. intros r' a c' _ H'. apply logs_ret. now apply logs_expire.
Qed.

Lemma internal_silent c why : is_nil (rq_attempt (internal_context c why)) = true.
Proof. reflexivity. Qed.
#[local] Hint Resolve internal_silent : frame.

Lemma logs_reconcile now c : logs (reconcile_locked now) c done.
Proof.
  unfold reconcile_locked. peek. peek. apply logs_then; [intros; frame|]. apply logs_loop. intros k c1. now apply logs_settle.
Qed.

(** ** No record leaves the book *)
Lemma stays_same c c' : records (book c') = records (book c) -> stays c c'.
Proof. unfold stays. now intros ->. Qed.

#[export] Instance Mute_stays : Mute stays.
Proof.
  apply Mute_intro; [exact _ | ..]; intros; try (now apply stays_same).
  - apply stays_same. match goal with M : meta_step _ _ |- _ => apply M end.
  - match goal with M : store_moves _ _ |- _ => destruct M as [(_ & B & _) _ _] end. apply stays_same. now rewrite B.
Qed.

Lemma stays_book f : (forall b, exists r, records (f b) = om_set (records b) (key_of r) r) -> keeps stays (modify (set_book f)).
Proof.
  intros F c k M. cbn. destruct (F (book c)) as (r & ->). unfold om_mem. rewrite om_find_set. destruct (keqb _ _); [reflexivity | exact M].
Qed.

Lemma stays_put r : keeps stays (modify (set_book (put_record r))).
Proof. apply stays_book. intros b. now exists r. Qed.
Lemma stays_set_state r st t why p : keeps stays (set_state_locked r st t why p).
Proof.
  apply keeps_bind; [exact _ | | intros; frame]. apply stays_book. intros b. exists (with_state r st t why p).
  unfold recount. repeat case_if; reflexivity.
Qed.
Lemma stays_register r : keeps stays (register_record_locked r).
Proof. apply stays_book. intros b. exists r. apply register_records. Qed.
#[export] Hint Resolve Mute_stays stays_put stays_set_state stays_register : frame.

Lemma stays_transition r st t why x at_ : keeps stays (transition_locked r st t why x at_).
Proof. unfold transition_locked. frame. Qed.
#[local] Hint Resolve stays_transition : frame.
Lemma stays_reconcile now : keeps stays (reconcile_locked now).
Proof. unfold reconcile_locked, settle_record, expire_record. frame. Qed.
Lemma stays_auto_revalidate r now x : keeps stays (auto_revalidate_record_locked r now x).
Proof. unfold auto_revalidate_record_locked, revalidate_commit. frame. Qed.

(** The generation a record was read from is still there. *)
Definition kept (c : Coordinator) (r : ReservationRecord) : Prop := om_mem (records (book c)) (key_of r) = true.

Lemma has_kept c r : has c r -> kept c r.
Proof. unfold has, kept, om_mem. now destruct (om_find _ _). Qed.
Lemma kept_stays c c' r : stays c c' -> kept c r -> kept c' r.
Proof. intros S. apply S. Qed.

Lemma kept_deref c r : kept c r -> filed_ok (book c) -> has c (deref c r) /\ key_of (deref c r) = key_of r.
Proof.
  unfold kept, deref, find_record_locked, find_record, om_mem. change (rr_id r, rr_generation r) with (key_of r). intros M F.
  destruct (om_find (records (book c)) (key_of r)) as [x|] eqn:X; [|discriminate]. now apply found_has.
Qed.

Lemma logs_reconcile_then now r c (Q : ReservationRecord -> Coordinator -> Prop) :
  kept c r -> (forall r' c', has c' r' -> key_of r' = key_of r -> Q r' c') -> logs (reconcile_then now r) c Q.
Proof.
  intros H K. unfold reconcile_then. apply logs_bind.
  eapply (logs_keeps stays); [apply stays_reconcile | apply logs_reconcile|]. intros u c1 S _.
  apply logs_ok. intros F. destruct (kept_deref _ _ (kept_stays _ _ _ S H) F) as [H1 E1].
  apply (logs_look (fun c => Ok (deref c r))). intros a [= <-]. now apply K.
Qed.

Lemma logs_named id g c (Q : ReservationRecord -> Coordinator -> Prop) :
  (forall r, has c r -> key_of r = (id, g) -> Q r c) -> logs (named_record id g) c Q.
Proof.
  intros H. apply logs_ok. intros F. unfold named_record. peek. unfold find_record_locked, find_record.
  destruct (om_find _ (id, g)) as [r|] eqn:E; [|apply logs_fail]. destruct (found_has _ _ _ F E) as [Hr K].
  apply logs_ret. now apply H.
Qed.

(** ** Applicability, history, overcommit, claimants *)
Lemma logs_mark r a why t c (Q : ReservationRecord -> Coordinator -> Prop) :
  has c r -> (forall r' c', has c' r' -> key_of r' = key_of r -> Q r' c') -> logs (mark_applicability_locked r a why t) c Q.
Proof.
  intros H K. unfold mark_applicability_locked. case_if; [apply logs_ret; now apply K|].
  apply (logs_unit _ (set_book (put_record (with_applicability r a why t)) c)).
  - cbn [apply_replay_locked]. unfold replay_applicability. destruct (has_inv _ _ H) as (r0 & F & E).
    eexists. unfold bind at 1, gets at 1. cbn [apm_id apm_generation]. rewrite F. split; [reflexivity|].
    apply mirrors_book; [|reflexivity]. apply put_mirrors. symmetry. now apply essence_applicability.
  - intros F. now apply (filed_ok_put c r).
  - intros s c1 Fc. apply facts_mirrors in Fc. apply recalls_bind, recalls_modify; [reflexivity|].
    assert (mirrors (set_book (put_record (with_applicability r a why t)) c)
                    (set_book (put_record (with_sequence (with_applicability r a why t) s)) c1)) as M
      by (revert Fc; apply mirrors_book, put_mirrors; reflexivity).
    recall. recall. apply recalls_ret. split; [assumption|]. apply K; [|reflexivity].
    eapply has_mirrors; [eassumption|]. eapply has_essence; [|apply has_put]. reflexivity.
Qed.

Lemma retire_all_filed (f : ReservationRecord -> ReservationRecord) ks : forall b, filed_ok b -> filed_ok (fold_left (retire_key f) ks b).
Proof.
  induction ks as [|k ks IH]; intros b F; [exact F|]. apply IH. unfold retire_key. destruct (om_find (records b) k); [|exact F].
  intros k' r'. cbn [records current set_counts set_records set_retired]. rewrite om_find_erase. case_if; [discriminate | apply F].
Qed.

Lemma logs_history now c : logs (release_terminal_history_locked now) c done.
Proof.
  unfold release_terminal_history_locked. peek. peek. cbv zeta. set (victims := firstn _ _). case_if; [now apply logs_ret|].
  apply (logs_unit _ (set_book (fun b => fold_left (retire_key (archived now)) victims b) c)).
  - cbn [apply_replay_locked rt_ids rt_generations]. eexists. split; [reflexivity|]. apply mirrors_book; [|reflexivity].
    replace (combine (map fst victims) (map snd victims)) with victims
      by (clear; induction victims as [|[i g] l IH]; [reflexivity | cbn; now rewrite <- IH]).
    apply fold_mirrors. intros k a b. now apply retire_mirrors.
  - apply retire_all_filed.
  - intros s c1 Fc. apply facts_mirrors in Fc. apply recalls_modify; [reflexivity|]. split; [|exact I].
    revert Fc. apply mirrors_book, fold_mirrors. intros k a b. now apply retire_mirrors.
Qed.

Lemma logs_housekeeping now c : logs (housekeeping now) c done.
Proof. unfold housekeeping. apply logs_then; [intros; frame | apply logs_history]. Qed.

(** A record that changes the sessions only. *)
Lemma logs_sessions {A} r f (k : DurableSequence -> co A) c (Q : A -> Coordinator -> Prop) :
  apply_replay_locked r c = (Ok tt, set_sessions f c) ->
  (forall s c1, facts c1 = facts c -> recalls (k s) c1 (fun a c' => mirrors (set_sessions f c) c' /\ Q a c')) ->
  logs (bind (append_locked r) k) c Q.
Proof. intros R. apply logs_unit; [eexists; split; [exact R | reflexivity] | auto]. Qed.

Lemma logs_record_overcommit m c : logs (record_overcommit m) c done.
Proof.
  apply (logs_sessions (DOvercommit m) (apply_overcommit m)); [reflexivity|]. intros s c1 Fc. apply recalls_modify; [reflexivity|].
  split; [|exact I]. apply facts_mirrors in Fc. revert Fc. apply mirrors_sessions, apply_overcommit_mirrors.
Qed.

Lemma logs_detect n now c : logs (detect_overcommit_locked n now) c done.
Proof.
  unfold detect_overcommit_locked. peek. destruct (CapacityLedger_find _ _); [|now apply logs_ret]. cbv zeta. peek. peek.
  case_if; [apply logs_when; [intros; apply logs_record_overcommit | now intros]|].
  case_if; [now apply logs_ret|]. apply logs_then; [intros; frame | apply logs_record_overcommit].
Qed.

Lemma logs_register_generation cl g now c :
  match om_find (claimants (sessions c)) cl with Some known => value g >? value known | None => true end = true ->
  logs (register_generation cl g now) c done.
Proof.
  intros G. set (f := fun s => set_claimants (om_set (claimants s) cl g) s).
  assert (apply_claimant (mkClaimantMutation cl g now) (sessions c) = f (sessions c)) as E.
  { unfold apply_claimant. cbn [cm_claimant cm_generation]. destruct (om_find (claimants (sessions c)) cl); [|reflexivity]. now rewrite G. }
  apply (logs_sessions (DClaimantRegistration (mkClaimantMutation cl g now)) f).
  - cbn [apply_replay_locked]. unfold modify, set_sessions. now rewrite E.
  - intros s c1 Fc. apply recalls_modify; [reflexivity|]. split; [|exact I]. apply facts_mirrors in Fc. revert Fc.
    apply (mirrors_sessions f f). apply (guards_mirror f); [reflexivity|]. intros a b Gu. apply guards_fields in Gu as (O & C & B & Fc & Oc).
    unfold f, guards. cbn. congruence.
Qed.

Lemma logs_ensure cl g now c : logs (ensure_claimant_locked cl g now) c done.
Proof.
  unfold ensure_claimant_locked. hush. peek. destruct (om_find _ cl) as [known|] eqn:F; [|apply logs_register_generation; now rewrite F].
  hush_to c1. case_if; [|now apply logs_ret]. apply logs_then; [intros; frame|]. apply logs_register_generation.
  assert (claimants (sessions c1) = claimants (sessions c')) as -> by
    (match goal with I : idle c' c1 |- _ => destruct (idle_mirrors _ _ I) as [_ _ _ _ [_ Gu]] end; symmetry; apply (guards_fields _ _ Gu)).
  rewrite F. assumption.
Qed.

(** ** Successor generations *)
Lemma logs_predicted {A} r x p (k : unit -> co A) c (Q : A -> Coordinator -> Prop) :
  (exists m, apply_replay_locked r c = (Ok tt, m) /\ mirrors x m) ->
  (filed_ok (book c) -> filed_ok (book x)) ->
  (forall c1, mirrors c c1 -> recalls (k tt) c1 (fun a c' => mirrors x c' /\ Q a c')) ->
  logs (bind (append_predicted r p) k) c Q.
Proof.
  intros R F K. set (k' := fun s : DurableSequence => bind (lift (refuse (negb (beq s p)) kInternal)) k).
  cut (logs (bind (append_locked r) k') c Q).
  { intros L a c' E. apply L. rewrite <- E. unfold bind, append_predicted, bind, k'. destruct (append_locked r c) as [[s|e] c1]; reflexivity. }
  apply (logs_unit _ x); [exact R | exact F|]. intros s c1 Fc. apply recalls_bind, recalls_lift. intros [] _. apply K.
  now apply facts_mirrors.
Qed.

(** What replaying a reservation record does between superseding the
    predecessor and applying the companions. *)
Definition entering (m : ReservationMutation) (b : Book) : Book :=
  let b := match rm_edge m with Some edge => set_edges (edges b ++ [edge]) b | None => b end in
  let b := fold_left enter_record (rm_record m :: rm_members m) b in
  match rm_series m with Some s => apply_series s b | None => b end.

Definition replay_companion (s : StateMutation) : co unit :=
  replay_state (sm_id s) (sm_generation s) (mkTs 0) (to_state s) (sm_at s) (sm_reason s) (fun _ => sm_provenance s).

Lemma entering_mirrors m a b : book_mirrors a b -> book_mirrors (entering m a) (entering m b).
Proof.
  intros M. unfold entering. cbv zeta.
  assert (book_mirrors (match rm_edge m with Some e => set_edges (edges a ++ [e]) a | None => a end)
                       (match rm_edge m with Some e => set_edges (edges b ++ [e]) b | None => b end)) as M1
    by (destruct (rm_edge m); [now apply edges_mirrors | exact M]).
  apply (fold_mirrors enter_record enter_record (fun r a b => enter_mirrors r r a b eq_refl) (rm_record m :: rm_members m)) in M1.
  destruct (rm_series m); [now apply apply_series_mirrors | exact M1].
Qed.

(** Replay of a commit, and of an amendment whose predecessor is there. *)
Lemma replay_commit_course m c : supersede_record m = false ->
  replay_reservation m c =
  (for_each (companions m) replay_companion ;; replay_attempt (rm_attempt m)) (set_book (entering m) c).
Proof. intros S. unfold replay_reservation, bind at 1. rewrite S. reflexivity. Qed.

Lemma replay_amend_course m r c :
  supersede_record m = true -> rr_predecessor (rm_record m) = rr_id r ->
  rr_predecessor_generation (rm_record m) = rr_generation r -> has c r ->
  exists c1, mirrors (landing r kSuperseded ts0 ts0 c) c1 /\
    replay_reservation m c =
    (for_each (companions m) replay_companion ;; replay_attempt (rm_attempt m)) (set_book (entering m) c1).
Proof.
  intros S I G H.
  destruct (replay_state_lands r ts0 kSuperseded (committed_at (rm_record m)) (str "superseded by a later generation") rr_last_provenance c H)
    as (c1 & E & M).
  exists c1. split; [etransitivity; [|exact M]; apply mirrors_book; [|reflexivity]; apply put_mirrors; now apply essence_superseded|].
  unfold replay_reservation. unfold bind at 1. rewrite S, I, G. cbn [when]. change (mkTs 0) with ts0. rewrite E. reflexivity.
Qed.

Lemma enter_register b r : book_mirrors (register_record r b) (enter_record b r).
Proof. apply sync_queues_mirrors. Qed.

Lemma landing_superseded r t t' at_ c c' : mirrors c c' -> mirrors (landing r kSuperseded t at_ c) (landing r kSuperseded t' at_ c').
Proof. apply mirrors_book. intros M. apply put_mirrors; [now apply essence_superseded | exact M]. Qed.

Lemma logs_revalidate_commit r b p now x c : has c r -> logs (revalidate_commit r b p now x) c done.
Proof.
  intros H. unfold revalidate_commit. do 3 peek. cbv zeta. set (s := revalidated c r b p now _ _). set (edge := edge_to r s now _ _).
  set (m := mkReservationMutation s None [] (Some edge) true [] None).
  apply (logs_predicted _ (set_book (fun b => register_record s (set_edges (edges b ++ [edge]) b)) (landing r kSuperseded ts0 ts0 c))).
  - destruct (replay_amend_course m r c) as (c1 & M & E); [reflexivity.. | exact H|]. cbn [apply_replay_locked].
    eexists. split; [rewrite E; reflexivity|]. revert M. apply mirrors_book. intros M. unfold entering. cbn [rm_edge rm_record rm_members rm_series fold_left].
    etransitivity; [|apply enter_register]. apply register_mirrors; [reflexivity|]. now apply edges_mirrors.
  - intros F. apply filed_ok_register. now apply (landing_filed r).
  - intros c1 M. apply recalls_bind. intros r' c2 S.
    destruct (set_state_lands r _ _ _ ts0 _ _ _ c _ _ eq_refl M S) as (-> & M2 & St). split; [now apply appended_same_store|].
    assert (mirrors (landing r kSuperseded ts0 ts0 c) c2) as M3 by (etransitivity; [now apply landing_superseded | exact M2]).
    recall. recall. apply recalls_bind, recalls_modify; [reflexivity|]. apply recalls_bind, recalls_modify; [reflexivity|].
    match goal with |- recalls _ ?c5 _ => assert (mirrors (set_book (fun b => register_record s (set_edges (edges b ++ [edge]) b)) (landing r kSuperseded ts0 ts0 c)) c5) as M5 end.
    { match goal with M : mirrors (landing _ _ _ _ _) ?c4 |- mirrors _ (set_book _ (set_book _ ?c4)) => revert M end.
      apply (mirrors_book _ (fun b => register_record s (set_edges (edges b ++ [edge]) b))). intros Mb.
      apply register_mirrors; [reflexivity|]. now apply edges_mirrors. }
    recall. recall. recall. eapply recalls_idle; [frame | eassumption|]. intros u c6 M6. now split.
Qed.

Lemma done_idle {A} (a : A) c1 c2 : idle c1 c2 -> done a c1 -> done a c2.
Proof. intros _ _. exact I. Qed.
#[export] Hint Resolve @done_idle : core.

Lemma idle_has c c' r : idle c c' -> has c r -> has c' r.
Proof. intros I. apply has_mirrors. now apply idle_mirrors. Qed.

Lemma logs_auto_revalidate r now x c : has c r -> logs (auto_revalidate_record_locked r now x) c done.
Proof.
  intros H. unfold auto_revalidate_record_locked. peek. destruct (resolve_binding _ _); [|now apply logs_ret].
  peek. destruct (policy_for_locked _ _) as [pol note]. apply logs_scope; [eauto|]. intros c0 I0. hush_to c1. peek.
  case_if; [|now apply logs_ret]. apply logs_revalidate_commit. repeat (eapply idle_has; [eassumption|]). exact H.
Qed.

Lemma logs_refresh_record now auto k c : logs (refresh_record now auto k) c done.
Proof.
  apply logs_ok. intros F. unfold refresh_record. peek. destruct (om_find _ k) as [r|] eqn:E; [|now apply logs_ret].
  destruct (found_has _ _ _ F E) as [H _].
  assert (forall c1 r1 a why t, has c1 r1 -> logs (mark_applicability_locked r1 a why t ;; ret tt) c1 done) as Mark.
  { intros c1 r1 a why t H1. apply logs_then; [intros; frame|]. now apply logs_mark. }
  peek. destruct (staleness _ _) as [why|]; [|apply logs_when; [intros; now apply Mark | now intros]].
  peek. destruct (policy_for_locked _ _) as [pol note]. cbv zeta. peek. apply logs_bind.
  eapply (logs_keeps stays); [apply keeps_when; [exact _ | apply stays_auto_revalidate]
                             |apply logs_when; [intros; now apply logs_auto_revalidate | now intros]|].
  intros u c1 S _. apply logs_ok. intros F1. peek. destruct (kept_deref _ _ (kept_stays _ _ _ S (has_kept _ _ H)) F1) as [H1 _].
  case_if; [now apply logs_ret | now apply Mark].
Qed.

Lemma logs_refresh now auto c : logs (refresh_applicability_locked now auto) c done.
Proof. unfold refresh_applicability_locked. peek. apply logs_loop. intros k c1. apply logs_refresh_record. Qed.

(** ** Requests about one reservation *)
Lemma context_attempt c x u : validate_context_locked c x true = Ok u -> is_nil (rq_attempt x) = false.
Proof.
  unfold validate_context_locked. intros E. do 3 (apply rbind_refuse_Ok in E as [_ E]). apply rbind_refuse_Ok in E as [N _]. exact N.
Qed.

Lemma recalls_remember a b x c (Q : unit -> Coordinator -> Prop) :
  decided a = decided b -> mirrors x c -> (forall c', mirrors (with_attempt_known (Some b) x) c' -> Q tt c') ->
  recalls (remember_attempt_locked a) c Q.
Proof.
  intros E M K. apply recalls_modify; [reflexivity|]. apply K.
  apply (known_mirrors (Some b) (Some a)); [cbn; congruence | exact M].
Qed.

Lemma logs_caller r st t why x at_ c : has c r -> is_nil (rq_attempt x) = false -> logs (caller_transition r st t why x at_) c done.
Proof.
  intros H N. unfold caller_transition. apply logs_transition; [exact H|]. intros r' a c' E D M.
  unfold journalled_attempt. rewrite N. apply recalls_bind. eapply recalls_remember; [exact D | exact M|]. intros c2 M2.
  apply recalls_ret. now split.
Qed.

Lemma logs_pend r now t g x c : has c r -> is_nil (rq_attempt x) = false -> logs (pend_recall r now t g x) c done.
Proof.
  intros H N. unfold pend_recall. apply logs_transition; [exact H|]. intros r' a c' E D M. cbv zeta.
  unfold journalled_attempt. rewrite N. apply recalls_bind, recalls_modify; [reflexivity|].
  assert (mirrors (landing r kRecallPending now t c) (set_book (put_record (with_grace r' g)) c')) as M1.
  { apply put_again; [|exact M]. rewrite essence_grace, E. reflexivity. }
  recall. recall. apply recalls_bind. eapply recalls_remember; [exact D | eassumption|]. intros c2 M2. apply recalls_ret. now split.
Qed.

(** The record a request names is looked up, then time is reconciled. *)
Ltac look_up At r :=
  hush; apply logs_bind; apply logs_look; intros ? At; apply context_attempt in At;
  apply logs_bind, logs_named; intros r ? ?.

Lemma logs_release x id g c : logs (release_locked x id g) c done.
Proof.
  unfold release_locked. look_up At r. hush_to c1. apply logs_bind.
  eapply (logs_keeps stays); [apply keeps_when; [exact _|]; frame | apply logs_when; [intros; apply logs_ensure | now intros]|].
  intros u c2 S _. apply logs_bind, logs_reconcile_then.
  { eapply kept_stays; [exact S|]. eapply has_kept, idle_has; eassumption. }
  intros r' c3 H3 _. case_if; [now apply logs_ret|]. hush. apply logs_then; [intros; frame|]. apply logs_caller; [|exact At].
  eapply idle_has; eassumption.
Qed.

Lemma logs_recall x id g e gr force c : logs (recall_locked x id g e gr force) c done.
Proof.
  unfold recall_locked. look_up At r. peek. destruct (find_attempt_locked _ _); [nothing|].
  apply logs_bind, logs_reconcile_then; [now apply has_kept|]. intros r' c3 H3 _. hush. peek.
  destruct (policy_for_locked _ _) as [pol note]. hush. cbv zeta. hush. case_if; [now apply logs_ret|].
  assert (has c'2 r') as Here by (repeat (eapply idle_has; [eassumption|]); exact H3).
  case_if; (apply logs_then; [intros; frame|]); [now apply logs_caller | now apply logs_pend].
Qed.

Lemma logs_revoke x id g c : logs (revoke_locked x id g) c done.
Proof.
  unfold revoke_locked. look_up At r. apply logs_bind, logs_reconcile_then; [now apply has_kept|]. intros r' c3 H3 _.
  peek. destruct (find_attempt_locked _ _); [nothing|]. case_if; [now apply logs_ret|]. hush_to c4.
  apply logs_then; [intros; frame|]. apply logs_caller; [eapply idle_has; eassumption | exact At].
Qed.

Lemma logs_revalidate x id g stale c : logs (revalidate_locked x id g stale) c done.
Proof.
  unfold revalidate_locked. look_up At r. apply logs_bind, logs_reconcile_then; [now apply has_kept|]. intros r' c3 H3 _.
  hush_to c4. case_if; [now apply logs_ret|]. assert (has c4 r') as Here by (eapply idle_has; eassumption).
  case_if; [apply logs_then; [intros; frame | now apply logs_mark]|].
  apply logs_then; [intros; frame | now apply logs_auto_revalidate].
Qed.

Lemma logs_reconcile_lifecycle x c : logs (reconcile_lifecycle_locked x) c done.
Proof.
  unfold reconcile_lifecycle_locked. hush. hush. peek. apply logs_done; [apply logs_reconcile | intros u c1].
  apply logs_done; [apply logs_refresh | intros u1 c2]. apply logs_then; [intros; frame | apply logs_history].
Qed.

(** ** Commit *)

(** The book has a record under the key. *)
Definition files (c : Coordinator) (k : ReservationKey) : Prop := exists r, has c r /\ key_of r = k.

Lemma files_mirrors a b k : mirrors a b -> files a k -> files b k.
Proof. intros M (r & H & K). exists r. split; [eapply has_mirrors; eassumption | exact K]. Qed.

Lemma files_landing r st t at_ c k : files c k -> files (landing r st t at_ c) k.
Proof.
  intros (r0 & H & K). destruct (decide (key_of r = k)) as [E|N].
  - eexists. split; [apply has_put|]. now rewrite <- E, <- (key_effective at_ r).
  - exists r0. split; [|exact K]. unfold has, landing. cbn. rewrite om_find_set_ne; [exact H|].
    rewrite K, <- (key_effective at_ r) in *. exact N.
Qed.

(** The identities a record brings in. *)
Definition brings (m : ReservationMutation) : list Identity128 := map rr_id (rm_record m :: rm_members m).

Lemma fold_enter_put rs : forall x b, ~ In (rr_id x) (map rr_id rs) ->
  book_mirrors (fold_left enter_record rs (put_record x b)) (put_record x (fold_left enter_record rs b)).
Proof.
  induction rs as [|r rs IH]; intros x b N; [reflexivity|]. cbn [fold_left map] in *.
  etransitivity; [|apply IH; intros I; apply N; now right].
  apply fold_mirrors; [intros y a b0; now apply enter_mirrors|].
  etransitivity; [symmetry; apply enter_register|]. etransitivity; [apply put_register_mirrors; intros E; apply N; now left|].
  apply put_mirrors; [reflexivity | apply enter_register].
Qed.

Lemma entering_put m x b : ~ In (rr_id x) (brings m) -> book_mirrors (entering m (put_record x b)) (put_record x (entering m b)).
Proof.
  intros N. unfold entering. cbv zeta.
  set (b0 := match rm_edge m with Some e => set_edges (edges b ++ [e]) b | None => b end).
  replace (match rm_edge m with Some e => set_edges (edges (put_record x b) ++ [e]) (put_record x b) | None => put_record x b end)
    with (put_record x b0) by (subst b0; now destruct (rm_edge m)).
  pose proof (fold_enter_put (rm_record m :: rm_members m) x b0 N) as F. destruct (rm_series m) as [s|]; [|exact F].
  etransitivity; [apply apply_series_mirrors, F|]. etransitivity; [symmetry; apply apply_series_sets|].
  exact (put_mirrors x x _ _ eq_refl (apply_series_sets s _)).
Qed.

Lemma fold_enter_find rs k : forall b, ~ In k.1 (map rr_id rs) ->
  om_find (records (fold_left enter_record rs b)) k = om_find (records b) k.
Proof.
  induction rs as [|r rs IH]; intros b N; [reflexivity|]. cbn [fold_left map] in *. rewrite IH by (intros I; apply N; now right).
  unfold enter_record. assert (forall b0, records (sync_queues r b0) = records b0) as -> by (intros b0; unfold sync_queues; case_if; reflexivity).
  rewrite register_records. apply om_find_set_ne. intros E. apply N. left. now rewrite <- E.
Qed.

Lemma entering_find m k b : ~ In k.1 (brings m) -> om_find (records (entering m b)) k = om_find (records b) k.
Proof.
  intros N. unfold entering. cbv zeta. transitivity (om_find (records (match rm_edge m with Some e => set_edges (edges b ++ [e]) b | None => b end)) k);
    [|now destruct (rm_edge m)].
  etransitivity; [|now apply (fold_enter_find (rm_record m :: rm_members m))].
  destruct (rm_series m) as [s|]; [|reflexivity]. unfold apply_series. cbv zeta. repeat (case_match_goal; try reflexivity).
Qed.

Lemma has_entering m a b r : mirrors (set_book (entering m) a) b -> ~ In (rr_id r) (brings m) -> has a r -> has b r.
Proof. intros M N H. eapply has_mirrors; [exact M|]. unfold has in *. cbn. rewrite entering_find; [exact H | exact N]. Qed.

Lemma recalls_companion s r c : has c r -> key_of r = (sm_id s, sm_generation s) ->
  recalls (apply_companion s) c (fun _ c' => mirrors (landing r (to_state s) (sm_at s) ts0 c) c').
Proof.
  intros H K. unfold apply_companion. apply recalls_gets. destruct (has_inv _ _ H) as (r0 & F & E).
  injection K as <- <-. rewrite F. apply recalls_bind. intros r' c1 S.
  destruct (set_state_lands r _ _ _ ts0 _ _ _ c _ _ E (reflexivity c) S) as (_ & M & St). split; [now apply appended_same_store|].
  recall. recall. eapply recalls_idle; [frame | eassumption | auto].
Qed.

Lemma companion_lands s r c : has c r -> key_of r = (sm_id s, sm_generation s) ->
  exists c', replay_companion s c = (Ok tt, c') /\ mirrors (landing r (to_state s) (sm_at s) ts0 c) c'.
Proof. intros H K. unfold replay_companion. change (mkTs 0) with ts0. injection K as <- <-. now apply replay_state_lands. Qed.

(** In memory the companions take the course they take in replay. *)
Lemma recalls_companions ms : forall a b,
  (forall s, In s ms -> files a (sm_id s, sm_generation s)) -> mirrors a b ->
  recalls (for_each ms apply_companion) a (fun _ a' =>
    exists b', for_each ms replay_companion b = (Ok tt, b') /\ mirrors a' b' /\ (filed_ok (book a) -> filed_ok (book a'))).
Proof.
  induction ms as [|s ms IH]; intros a b Fs M; cbn [for_each].
  { apply recalls_ret. exists b. split; [reflexivity | split; [exact M | auto]]. }
  destruct (Fs s) as (r & H & K); [now left|]. apply recalls_bind.
  eapply recalls_weaken; [now apply (recalls_companion s r)|]. intros u a1 M1.
  destruct (companion_lands s r b) as (b1 & E1 & L1); [eapply has_mirrors; eassumption | exact K|].
  eapply recalls_weaken; [apply (IH a1 b1)|].
  - intros s' I. eapply files_mirrors; [exact M1|]. apply files_landing, Fs. now right.
  - etransitivity; [symmetry; exact M1|]. etransitivity; [|exact L1]. now apply landing_mirrors.
  - intros u2 a2 (b2 & E2 & M3 & F3). exists b2. split; [|split; [exact M3|]].
    + unfold bind. rewrite E1. exact E2.
    + intros F. apply F3. eapply filed_ok_mirrors; [apply M1|]. now apply (landing_filed r).
Qed.

(** Companions and the records that enter meet in the same state, whichever
    comes first. *)
Lemma companions_commute m ms : forall a b,
  (forall s, In s ms -> files a (sm_id s, sm_generation s) /\ ~ In (sm_id s) (brings m)) ->
  mirrors (set_book (entering m) a) b ->
  exists a' b', for_each ms replay_companion a = (Ok tt, a') /\ for_each ms replay_companion b = (Ok tt, b') /\
    mirrors (set_book (entering m) a') b'.
Proof.
  induction ms as [|s ms IH]; intros a b Fs M; cbn [for_each]; [exists a, b; auto|].
  destruct (Fs s) as [(r & H & K) N]; [now left|]. destruct (companion_lands s r a H K) as (a1 & Ea & La).
  assert (rr_id r = sm_id s) as Ki by now injection K. rewrite <- Ki in N.
  destruct (companion_lands s r b) as (b1 & Eb & Lb); [now apply (has_entering m a) | exact K|].
  destruct (IH a1 b1) as (a2 & b2 & Ea2 & Eb2 & M2).
  - intros s' I. destruct (Fs s') as [Fi Nn]; [now right|]. split; [|exact Nn]. eapply files_mirrors; [exact La|]. now apply files_landing.
  - etransitivity; [|exact Lb]. transitivity (set_book (entering m) (landing r (to_state s) (sm_at s) ts0 a));
      [apply mirrors_book; [apply entering_mirrors | now symmetry]|].
    transitivity (landing r (to_state s) (sm_at s) ts0 (set_book (entering m) a)); [|now apply landing_mirrors].
    apply (mirrors_book (fun b => entering m (put_record _ b)) (fun b => put_record _ (entering m b)) a a); [|reflexivity].
    intros _. now apply entering_put.
  - exists a2, b2. unfold bind. rewrite Ea, Eb. auto.
Qed.

Lemma recalls_enter r c : recalls (enter_committed r) c (fun _ c' => mirrors (set_book (register_record r) c) c').
Proof.
  unfold enter_committed. apply recalls_bind, recalls_modify; [reflexivity|]. assert (mirrors (set_book (register_record r) c) (set_book (register_record r) c)) as M by reflexivity.
  recall. eapply recalls_idle; [frame | eassumption | auto].
Qed.

Lemma recalls_enter_all rs : forall c, recalls (for_each rs enter_committed) c (fun _ c' =>
  mirrors (set_book (fun b => fold_left enter_record rs b) c) c').
Proof.
  induction rs as [|r rs IH]; intros c; cbn [for_each]; [now apply recalls_ret|]. apply recalls_bind.
  eapply recalls_weaken; [apply recalls_enter|]. intros u c1 M. eapply recalls_weaken; [apply IH|]. intros u' c2 M'.
  etransitivity; [|exact M'].
  etransitivity; [|apply (mirrors_book _ (fun b => fold_left enter_record rs b) (set_book (register_record r) c) c1
     (fold_mirrors _ _ (fun y a b => enter_mirrors y y a b eq_refl) rs _ _) M)].
  apply (mirrors_book _ (fun b => fold_left enter_record rs (register_record r b)) c c); [|reflexivity]. intros _. cbn [fold_left].
  apply fold_mirrors; [intros y a b; now apply enter_mirrors | symmetry; apply enter_register].
Qed.

Definition with_series (s : option ReservationSeries) (b : Book) : Book := match s with Some s => apply_series s b | None => b end.

Lemma with_series_mirrors s a b : book_mirrors a b -> book_mirrors (with_series s a) (with_series s b).
Proof. destruct s; [apply apply_series_mirrors | auto]. Qed.

Lemma recalls_series s x c (Q : unit -> Coordinator -> Prop) :
  mirrors x c -> (forall c', mirrors (set_book (with_series s) x) c' -> Q tt c') -> recalls (set_live_series s) c Q.
Proof.
  intros M K. destruct s as [s|]; cbn [set_live_series].
  - apply recalls_modify; [reflexivity|]. apply K. revert M. apply mirrors_book. intros M. cbn [with_series].
    etransitivity; [apply apply_series_mirrors, M|]. etransitivity; [symmetry; apply apply_series_sets|]. apply current_series_mirrors.
  - apply recalls_ret, K. etransitivity; [symmetry; now apply mirrors_change | exact M].
Qed.

Lemma filed_ok_enter_all rs : forall b, filed_ok b -> filed_ok (fold_left enter_record rs b).
Proof.
  induction rs as [|r rs IH]; intros b F; [exact F|]. cbn [fold_left]. apply IH.
  eapply filed_ok_mirrors; [apply enter_register | now apply filed_ok_register].
Qed.

Lemma filed_ok_series s b : filed_ok b -> filed_ok (with_series s b).
Proof.
  intros F. destruct s as [s|]; [|exact F]. eapply filed_ok_mirrors; [apply apply_series_sets|]. exact F.
Qed.

(** The records of a commit are those its mutation brings in, and their
    identities are new. *)
Lemma commit_records_new t auth id sid now p seq ws r c :
  new_ids t id sid (length ws) c -> In r (commit_records t auth id sid now p seq ws) -> om_mem (current (book c)) (rr_id r) = false.
Proof.
  intros [N1 N2]. unfold commit_records, om_mem. destruct (enabled (recurrence t)).
  - rewrite <- list_elem_of_In, elem_of_lookup_imap. intros (i & w & -> & L). cbn [rr_id make_record].
    now rewrite N2 by (auto; eapply lookup_lt_Some; exact L).
  - intros [<-|[]]. cbn [rr_id make_record]. now rewrite N1 by auto.
Qed.

Lemma commit_records_hd t auth id sid now p seq ws :
  (enabled (recurrence t) = true -> ws <> []) ->
  let all := commit_records t auth id sid now p seq ws in hd default_record all :: tl all = all.
Proof.
  intros N. cbv zeta. unfold commit_records. destruct (enabled (recurrence t)); [|reflexivity].
  destruct ws as [|w ws]; [now destruct N | reflexivity].
Qed.

Lemma victims_filed c id now p ds s : filed_ok (book c) -> In s (victim_mutations c id now p ds) ->
  files c (sm_id s, sm_generation s) /\ om_mem (current (book c)) (sm_id s) = true.
Proof.
  intros F. unfold victim_mutations. rewrite <- list_elem_of_In, list_elem_of_omap. intros (v & _ & E).
  destruct (find_record_locked _ _ _) as [r|] eqn:R; [|discriminate]. injection E as <-. cbn [sm_id sm_generation].
  destruct (found_has _ _ _ F R) as [H K]. destruct (F _ _ R) as [_ M]. rewrite <- K in M. split; [|exact M].
  exists r. now split.
Qed.

Lemma logs_append_predicted {A} r p (k : unit -> co A) c (Q : A -> Coordinator -> Prop) :
  (forall c1, mirrors c c1 -> amid c r (k tt) c1 Q) -> logs (bind (append_predicted r p) k) c Q.
Proof.
  intros K. set (k' := fun s : DurableSequence => bind (lift (refuse (negb (beq s p)) kInternal)) k).
  cut (logs (bind (append_locked r) k') c Q).
  { intros L a c' E. apply L. rewrite <- E. unfold bind, append_predicted, bind, k'. destruct (append_locked r c) as [[s|e] c1]; reflexivity. }
  apply logs_amid. intros s c1 Fc. apply amid_recalls, recalls_lift. intros [] _. apply K. now apply facts_mirrors.
Qed.

Ltac recall_to c1 M1 := apply amid_recalls; eapply recalls_idle; [solve [frame] | eassumption | intros ? c1 M1].

Lemma recalls_consume hs now id x c (Q : unit -> Coordinator -> Prop) :
  mirrors x c -> (forall c', mirrors x c' -> Q tt c') -> recalls (for_each hs (fun h => consume_hold h now id)) c Q.
Proof. intros M K. eapply recalls_idle; [frame | exact M | intros []; auto]. Qed.

Lemma logs_commit_accepted x t id sid print hs now b pol ws ds acc c :
  new_ids t id sid (length ws) c -> (enabled (recurrence t) = true -> ws <> []) ->
  logs (commit_accepted x t id sid print hs now b pol ws ds acc) c done.
Proof.
  intros N Ne. apply logs_ok. intros F. unfold commit_accepted. do 4 peek. cbv zeta.
  set (p := make_provenance_locked _ _ _ _). set (seq := predicted_sequence c). set (auth := commit_authority _ _ _ _ _).
  pose proof (commit_records_new t auth id sid now p seq ws) as New.
  pose proof (commit_records_hd t auth id sid now p seq ws Ne) as Hd. cbv zeta in Hd.
  set (all := commit_records _ _ _ _ _ _ _ _) in *. set (s := commit_series _ _ _ _ _ _ _). set (at_ := commit_attempt _ _ _ _ _ _).
  set (m := mkReservationMutation (hd default_record all) s (tl all) None false (victim_mutations c id now p ds) (Some at_)).
  apply logs_append_predicted. intros c1 M1.
  assert (brings m = map rr_id all) as Br by (unfold brings; cbn [rm_record rm_members m]; now rewrite Hd).
  assert (forall s', In s' (companions m) -> files c (sm_id s', sm_generation s') /\ ~ In (sm_id s') (brings m)) as Fs.
  { intros s' I. destruct (victims_filed _ _ _ _ _ _ F I) as [Fi Kn]. split; [exact Fi|].
    rewrite Br. intros J. apply in_map_iff in J as (r & E & J). rewrite <- E, (New r c N J) in Kn. discriminate. }
  destruct (companions_commute m (companions m) c (set_book (entering m) c) Fs (reflexivity _)) as (a2 & b2 & Ra & R2 & Mab).
  apply amid_recalls. eapply recalls_weaken; [apply (recalls_companions (companions m) c1 c)|].
  - intros s' I. eapply files_mirrors; [exact M1 | now apply Fs].
  - now symmetry.
  - intros u c2 (a2' & Ra' & Ma & F2). assert (a2' = a2) as -> by congruence.
    assert (mirrors (set_book (entering m) c2) b2) as M2 by (etransitivity; [|exact Mab]; now apply mirrors_book; [apply entering_mirrors|]).
    apply amid_recalls. eapply recalls_weaken; [apply recalls_enter_all|]. intros u3 c3 M3.
    apply amid_recalls. eapply recalls_series; [exact M3|]. intros c4 M4.
    apply amid_recalls. eapply recalls_remember; [reflexivity | exact M4|]. intros c5 M5.
    apply amid_recalls. eapply recalls_consume; [exact M5|]. intros c6 M6. recall_to c7 M7. recall_to c8 M8.
    assert (mirrors (with_attempt_known (Some at_) b2) c8) as Me.
    { etransitivity; [|exact M8]. apply known_mirrors; [reflexivity|].
      symmetry. etransitivity; [|exact M2]. apply (mirrors_book (fun b => with_series s (fold_left enter_record all b)) (entering m) c2 c2); [|reflexivity]. intros _.
      unfold entering. cbv zeta. cbn [rm_edge rm_record rm_members rm_series m]. rewrite Hd. reflexivity. }
    apply amid_close; [|intros _|].
    + eexists. split; [|exact Me]. cbn [apply_replay_locked]. rewrite replay_commit_course by reflexivity.
      unfold bind. change (companions _) with (companions m); cbn [rm_attempt m]. rewrite R2. apply replay_attempt_known.
    + eapply filed_ok_mirrors; [apply M8|]. apply filed_ok_series, filed_ok_enter_all, F2. eapply filed_ok_mirrors; [apply M1 | exact F].
    + apply logs_then; [intros; frame | apply logs_housekeeping].
Qed.

Lemma logs_record_refusal a c : logs (record_refusal a) c done.
Proof.
  unfold record_refusal. apply logs_amid. intros s c1 Fc. apply facts_mirrors in Fc. apply amid_recalls.
  eapply recalls_remember; [reflexivity | exact Fc|]. intros c2 M2. apply amid_close.
  - eexists. split; [reflexivity|]. etransitivity; [|exact M2]. apply (known_mirrors (Some a) (Some _)); reflexivity.
  - apply filed_ok_mirrors. apply M2.
  - nothing.
Qed.

Lemma logs_refuse_commit x t id pr dry now n a c : logs (refuse_commit x t id pr dry now n a) c done.
Proof.
  unfold refuse_commit. case_if; [now apply logs_ret|]. cbv zeta. apply logs_then; [intros; frame | apply logs_record_refusal].
Qed.

Lemma idle_new_ids t id sid n c c' : idle c c' -> new_ids t id sid n c -> new_ids t id sid n c'.
Proof. intros I. apply new_ids_same. apply idle_mirrors in I as [_ _ _ [_ _ L] _]. apply lineage_fields in L as (_ & C & _). congruence. Qed.

Lemma logs_decide_commit x t id sid print dry hs now note pol b ws c :
  new_ids t id sid (length ws) c -> (enabled (recurrence t) = true -> ws <> []) ->
  logs (decide_commit x t id sid print dry hs now note pol b ws) c done.
Proof.
  intros N Ne. unfold decide_commit. cbv zeta. hush_to c1. peek.
  assert (new_ids t id sid (length ws) c1) as N1 by (eapply idle_new_ids; eassumption).
  destruct (evaluate_all _ _ _ _ _ _) as [evs|[failure i]].
  - case_if; [now apply logs_ret | now apply logs_commit_accepted].
  - apply logs_bind. apply logs_idle; [frame|]. intros [vs evs] c2 I2.
    destruct evs; [|apply logs_refuse_commit]. case_if; [now apply logs_ret|].
    apply logs_commit_accepted; [eapply idle_new_ids; eassumption | exact Ne].
Qed.

Lemma expand_series_nonempty first spec n ws :
  recurrence_wf spec -> expand_series first spec n = Ok ws -> enabled spec = true -> ws <> [].
Proof.
  intros V E En. pose proof (expand_series_length _ _ _ _ E En) as L. specialize (V En).
  intros ->. cbn in L. lia.
Qed.

Lemma logs_create x t rid dry hs c : logs (create_locked x t rid dry hs) c done.
Proof.
  unfold create_locked. do 2 hush. apply logs_bind, logs_lift. intros [] V. hush.
  apply logs_done; [apply logs_ensure | intros u c1]. apply logs_done; [apply logs_reconcile | intros u1 c2].
  peek. destruct (policy_for_locked _ _) as [pol note]. hush_to c3. cbv zeta. peek.
  destruct (find_attempt_locked _ _) as [previous|]; [nothing|]. peek.
  apply logs_bind, logs_lift. intros [] Free. hush_to c4. hush_to c5. apply logs_bind, logs_lift. intros ws X.
  apply logs_scope; [eauto|]. intros c6 I6. apply logs_decide_commit.
  - do 3 (eapply idle_new_ids; [eassumption|]). eapply identities_free_new; eassumption.
  - eapply expand_series_nonempty; [|exact X]. apply validate_terms_core in V. apply V.
Qed.
