(* ===== verification/CoordReplay.v ===== *)
(** * Coordinator: the journal explains the state, every request

    Amendments, ingestion and the other requests that succeed are logged, hence
    whole runs are; and what that means for a coordinator opened again. *)
From stdpp Require Import relations.
From S2P Require Import Prelude Errors Containers Identity Hash Bandwidth Time Authority Wire Policy Capacity Reservation Outcome SegTree Index Durable CodecBase Codec Store StoreContract Coordinator CoordRecords CoordPersist CoordAssess CoordLifecycle CoordCommit CoordOps CoordQuery CoordSample CoordSteps CoordJournal CoordGate CoordBook CoordSound CoordLife CoordLifeOps CoordLifetime CoordCapacity CoordReconcile CoordMirror CoordLogged CoordRestart.

(** ** Generations superseded together *)
Definition superseded_record (r : ReservationRecord) : ReservationRecord :=
  with_state r kSuperseded ts0 [] default_provenance.

(** The records under the keys are superseded; everything else is as it was. *)
Record swept (ks : list ReservationKey) (a b : Book) : Prop := {
  sw_records : forall k, option_map essence (om_find (records b) k) =
    option_map (fun r => essence (if decide (k ∈ ks) then superseded_record r else r)) (om_find (records a) k);
  sw_retired : alike filed_as (retired a) (retired b);
  sw_lineage : lineage a = lineage b }.

Lemma swept_unique ks ks' a b b' : (forall k, k ∈ ks <-> k ∈ ks') -> swept ks a b -> swept ks' a b' -> book_mirrors b b'.
Proof.
  intros E [R A L] [R' A' L']. split.
  - intros k. rewrite R, R'. destruct (decide (k ∈ ks)) as [I|I], (decide (k ∈ ks')) as [I'|I']; try reflexivity; apply E in I || apply E in I'; contradiction.
  - etransitivity; [symmetry; exact A | exact A'].
  - congruence.
Qed.

Lemma swept_nothing a b : book_mirrors a b -> swept [] a b.
Proof. intros [R A L]. split; [|exact A | exact L]. intros k. rewrite <- R. cbn. reflexivity. Qed.

Lemma swept_mirrors ks a b b' : swept ks a b -> book_mirrors b b' -> swept ks a b'.
Proof.
  intros [R A L] [R' A' L']. split; [intros k; rewrite <- R'; apply R | etransitivity; eassumption | congruence].
Qed.

Lemma essence_superseded_of r r' : essence r = essence r' -> essence (superseded_record r) = essence (superseded_record r').
Proof. apply essence_superseded. Qed.

(** One more. *)
Lemma swept_step ks a b k x y :
  swept ks a b -> om_find (records b) k = Some x -> key_of y = k -> essence y = essence (superseded_record x) ->
  swept (k :: ks) a (put_record y b).
Proof.
  intros [R A L] F K E. split; [|exact A | exact L]. intros k'. cbn [records put_record set_records]. rewrite om_find_set, K.
  destruct (keqb k k') eqn:Ek.
  - apply keqb_eq in Ek. subst k'. specialize (R k). rewrite F in R. cbn [option_map] in R |- *. rewrite E.
    destruct (om_find (records a) k) as [z|]; [|discriminate]. cbn [option_map] in R |- *. rewrite decide_True by now left.
    assert (essence x = essence (if decide (k ∈ ks) then superseded_record z else z)) as Ex by congruence. clear R.
    destruct (decide (k ∈ ks)); [rewrite (essence_superseded_of _ _ Ex) | rewrite (essence_superseded_of _ _ Ex)]; reflexivity.
  - rewrite R. apply keqb_neq in Ek. destruct (om_find (records a) k') as [z|]; [|reflexivity]. cbn [option_map].
    destruct (decide (k' ∈ ks)), (decide (k' ∈ k :: ks)) as [I|I]; try reflexivity.
    + exfalso. apply I. now right.
    + apply elem_of_cons in I as [->|I]; contradiction.
Qed.

Lemma swept_find ks a b k r : swept ks a b -> om_find (records a) k = Some r -> exists x, om_find (records b) k = Some x.
Proof. intros [R _ _] F. specialize (R k). rewrite F in R. destruct (om_find (records b) k); [eauto | discriminate]. Qed.

Lemma swept_filed ks a b : swept ks a b -> filed_ok a -> filed_ok b.
Proof.
  intros [R _ L] F k y Fb. specialize (R k). rewrite Fb in R. destruct (om_find (records a) k) as [z|] eqn:Fa; [|discriminate].
  destruct (F _ _ Fa) as [K M]. apply lineage_fields in L as (_ & C & _). rewrite <- C. split; [|exact M]. cbn [option_map] in R.
  assert (essence y = essence (if decide (k ∈ ks) then superseded_record z else z)) as E by congruence.
  apply essence_members in E as [E _]. transitivity (key_of z); [rewrite E; clear; now destruct (decide _) | exact K].
Qed.

(** The same of a coordinator, whose other parts stay. *)
Record sweeps (ks : list ReservationKey) (c c' : Coordinator) : Prop := {
  ss_beside : mirrors (set_book (fun _ => book c') c) c';
  ss_book : swept ks (book c) (book c') }.

Lemma sweeps_nothing c c' : mirrors c c' -> sweeps [] c c'.
Proof. intros M. split; [destruct M; now split | now apply swept_nothing, mi_book]. Qed.

Lemma sweeps_mirrors ks c c1 c2 : sweeps ks c c1 -> mirrors c1 c2 -> sweeps ks c c2.
Proof.
  intros [[B E T _ S] W] [B' E' T' K' S']. split; [split; cbn in *; try congruence; try reflexivity; etransitivity; eassumption|].
  eapply swept_mirrors; eassumption.
Qed.

Lemma sweeps_unique ks ks' c a b : (forall k, k ∈ ks <-> k ∈ ks') -> sweeps ks c a -> sweeps ks' c b -> mirrors a b.
Proof.
  intros E [[B1 E1 T1 _ S1] W1] [[B2 E2 T2 _ S2] W2]. cbn in *.
  split; [congruence | congruence | etransitivity; [symmetry; exact T1 | exact T2] | eapply swept_unique; eassumption |
          etransitivity; [symmetry; exact S1 | exact S2]].
Qed.

Lemma sweeps_landing ks c c1 r t :
  sweeps ks c c1 -> has c1 r -> sweeps (key_of r :: ks) c (landing r kSuperseded t ts0 c1).
Proof.
  intros [[B E T _ S] W] H. destruct (has_inv _ _ H) as (x & F & Ex). split; [now split|].
  unfold landing. cbn [book set_book]. eapply swept_step; [exact W | exact F | reflexivity|].
  apply essence_superseded. now symmetry.
Qed.

Lemma sweeps_has ks c c1 r : sweeps ks c c1 -> files c (key_of r) -> filed_ok (book c) ->
  exists x, om_find (records (book c1)) (key_of r) = Some x /\ has c1 x /\ key_of x = key_of r.
Proof.
  intros [_ W] (r0 & H & K) F. destruct (has_inv _ _ H) as (r1 & F1 & _). unfold find_record_locked, find_record in F1.
  change (rr_id r0, rr_generation r0) with (key_of r0) in F1. rewrite K in F1.
  destruct (swept_find _ _ _ _ _ W F1) as (x & Fx). exists x. split; [exact Fx|]. apply found_has; [|exact Fx].
  now apply (swept_filed ks (book c)).
Qed.

(** ** Amendment *)
Lemma eq_comm {A} (x y : A) : x = y <-> y = x.
Proof. split; congruence. Qed.

Lemma recalls_supersede now p r ks c c1 :
  sweeps ks c c1 -> files c (key_of r) -> filed_ok (book c) ->
  recalls (supersede now p r) c1 (fun _ c' => sweeps (key_of r :: ks) c c').
Proof.
  intros S Fi F. destruct (sweeps_has _ _ _ _ S Fi F) as (x & Fx & H & K). unfold supersede. apply recalls_gets.
  unfold find_record_locked, find_record. change (rr_id r, rr_generation r) with (key_of r). rewrite Fx.
  apply recalls_bind. intros x' c2 St. destruct (set_state_lands x _ _ _ ts0 _ _ _ c1 _ _ eq_refl (reflexivity c1) St) as (_ & M & Sto).
  split; [now apply appended_same_store|]. recall. eapply recalls_idle; [frame | eassumption|]. intros u c3 M3.
  rewrite <- K. eapply sweeps_mirrors; [|exact M3]. now apply sweeps_landing.
Qed.

Lemma recalls_supersede_all now p l c : filed_ok (book c) -> forall ks c1,
  (forall r, In r l -> files c (key_of r)) -> sweeps ks c c1 ->
  recalls (for_each l (supersede now p)) c1 (fun _ c' =>
    exists ks', (forall k, k ∈ ks' <-> k ∈ ks \/ In k (map key_of l)) /\ sweeps ks' c c').
Proof.
  intros F. induction l as [|r l IH]; intros ks c1 Fi S; cbn [for_each].
  { apply recalls_ret. exists ks. split; [intros k; cbn [map In]; tauto | exact S]. }
  apply recalls_bind. eapply recalls_weaken; [eapply recalls_supersede; [exact S | apply Fi; now left | exact F]|].
  intros u c2 S2. eapply recalls_weaken; [apply (IH (key_of r :: ks)); [intros r' I; apply Fi; now right | exact S2]|].
  intros u' c3 (ks' & E & S3). exists ks'. split; [|exact S3]. intros k. rewrite E, elem_of_cons, (eq_comm k). cbn [map In]. tauto.
Qed.

(** Companions that supersede, replayed. *)
Lemma companions_sweep c ms : filed_ok (book c) -> forall ks c1,
  (forall s, In s ms -> to_state s = kSuperseded /\ files c (sm_id s, sm_generation s)) -> sweeps ks c c1 ->
  exists c', for_each ms replay_companion c1 = (Ok tt, c') /\
    exists ks', (forall k, k ∈ ks' <-> k ∈ ks \/ In k (map (fun s => (sm_id s, sm_generation s)) ms)) /\ sweeps ks' c c'.
Proof.
  intros F. induction ms as [|s ms IH]; intros ks c1 Fi S; cbn [for_each].
  { exists c1. split; [reflexivity|]. exists ks. split; [intros k; cbn [map In]; tauto | exact S]. }
  destruct (Fi s) as [T (r & H & K)]; [now left|].
  destruct (sweeps_has _ _ _ r S) as (x & _ & Hx & Kx); [exists r; now split | exact F|].
  destruct (companion_lands s x c1 Hx) as (c2 & E2 & M2); [congruence|]. rewrite T in M2.
  destruct (IH (key_of x :: ks) c2) as (c3 & E3 & ks' & Eq & S3).
  - intros s' I. apply Fi. now right.
  - eapply sweeps_mirrors; [|exact M2]. now apply sweeps_landing.
  - exists c3. split; [unfold bind; rewrite E2; exact E3|]. exists ks'. split; [|exact S3].
    intros k. rewrite Eq, elem_of_cons, (eq_comm k), Kx, K. cbn [map In]. tauto.
Qed.

(** What an amendment supersedes: records the book has, one to an identity. *)
Record superseding (c : Coordinator) (pd : ReservationRecord) (l : list ReservationRecord) (s : option ReservationSeries) : Prop := {
  su_has : forall r, In r l -> has c r;
  su_one : forall r r', In r l -> In r' l -> rr_id r = rr_id r' -> key_of r = key_of r';
  su_alone : s = None -> l = [pd] }.

Lemma current_record_has c id r : filed_ok (book c) -> current_record_locked c id = Some r ->
  has c r /\ om_find (current (book c)) (rr_id r) = Some (rr_generation r).
Proof.
  intros F. unfold current_record_locked, find_record_locked, find_record. destruct (om_find (current (book c)) id) as [g|] eqn:C; [|discriminate].
  intros E. destruct (found_has _ _ _ F E) as [H K]. injection K as <- <-. now split.
Qed.

Lemma logs_suspend_superseded pd c : has c pd ->
  logs (suspend_superseded pd) c (fun p c' => superseding c' pd p.1 p.2).
Proof.
  intros H. unfold suspend_superseded. case_if.
  - hush_to c1. destruct a as [s|]; [|apply logs_fail]. apply logs_ok. intros F. peek. hush_to c2. apply logs_ret. cbn [fst snd].
    assert (forall r, In r (live_members c1 s) -> has c1 r /\ om_find (current (book c1)) (rr_id r) = Some (rr_generation r)) as L.
    { intros r I. apply filter_In in I as [I _]. unfold current_members in I. rewrite <- list_elem_of_In, list_elem_of_omap in I.
      destruct I as (id & _ & E). now apply (current_record_has _ id). }
    split; [|intros r r' I I' E|discriminate].
    + intros r I. eapply idle_has; [eassumption | now apply L].
    + destruct (L _ I) as [_ C], (L _ I') as [_ C']. rewrite E, C' in C. injection C as C. unfold key_of. congruence.
  - hush_to c1. apply logs_ret. cbn [fst snd]. split; [|intros r r' [<-|[]] [<-|[]]; reflexivity | reflexivity].
    intros r [<-|[]]. eapply idle_has; eassumption.
Qed.

(** The mutation of an amendment with one window. *)
Record amends (pd : ReservationRecord) (sup : list ReservationRecord) (now : Timestamp) (p : Provenance)
    (m : ReservationMutation) (lead : ReservationRecord) : Prop := {
  am_lead : In lead sup;
  am_members : rm_members m = [];
  am_edge : exists e, rm_edge m = Some e;
  am_supersede : supersede_record m = true;
  am_record : rr_id (rm_record m) = rr_id lead /\ rr_predecessor (rm_record m) = rr_id lead /\
              rr_predecessor_generation (rm_record m) = rr_generation lead;
  am_companions : companions m =
    map (series_companion pd now p) (List.filter (fun r => negb (beq (rr_id r) (rr_id lead))) sup) }.

Lemma amendment_amends t auth now p seq why pd sup s w m succ :
  amendment_mutation t auth now p seq why pd sup s [w] = Ok (m, succ) -> (s = None -> sup = [pd]) ->
  succ = [rm_record m] /\ exists lead, amends pd sup now p m lead.
Proof.
  unfold amendment_mutation. intros E A. destruct s as [s|].
  - destruct (position (rr_id pd) sup) as [n|] eqn:P; [|discriminate].
    destruct sup as [|r0 sup]; [discriminate|]. cbn [imap] in E. destruct n as [|n]; [|now destruct n].
    cbn [nth_error] in E. injection E as <- <-. split; [reflexivity|]. exists r0.
    assert (rr_id r0 = rr_id pd) as I.
    { cbn [position] in P. destruct (beq (rr_id r0) (rr_id pd)) eqn:B; [now apply beq_true in B|]. now destruct (position (rr_id pd) sup). }
    split; try reflexivity; [now left | eexists; reflexivity | repeat split; reflexivity | cbn [companions List.filter]; rewrite I; reflexivity].
  - rewrite (A eq_refl). injection E as <- <-. split; [reflexivity|]. exists pd.
    split; try reflexivity; [now left | eexists; reflexivity | repeat split; reflexivity | cbn; now rewrite beq_refl].
Qed.

Lemma amends_keys pd sup s now p m lead c k :
  superseding c pd sup s -> amends pd sup now p m lead ->
  In k (map key_of sup) <-> k = key_of lead \/ In k (map (fun x => (sm_id x, sm_generation x)) (companions m)).
Proof.
  intros [_ One _] [L _ _ _ _ C]. rewrite C, map_map. cbn [sm_id sm_generation series_companion].
  change (fun x : ReservationRecord => (rr_id x, rr_generation x)) with key_of. rewrite !in_map_iff. split.
  - intros (r & <- & I). destruct (beq (rr_id r) (rr_id lead)) eqn:B; [left; apply One; auto; now apply beq_true|].
    right. exists r. split; [reflexivity|]. apply filter_In. now rewrite B.
  - intros [->|(r & <- & I)]; [eauto|]. apply filter_In in I as [I _]. eauto.
Qed.

Lemma recalls_successor r c : recalls (enter_successor r) c (fun _ c' => mirrors (set_book (register_record r) c) c').
Proof.
  unfold enter_successor. apply recalls_bind, recalls_modify; [reflexivity|].
  assert (mirrors (set_book (register_record r) c) (set_book (register_record r) c)) as M by reflexivity.
  recall. eapply recalls_idle; [frame | eassumption | auto].
Qed.

(** The replay of an amendment supersedes what memory supersedes. *)
Lemma replay_amendment_course m m' pd sup s now p lead c a :
  superseding c pd sup s -> amends pd sup now p m lead -> m' = with_attempt m a -> filed_ok (book c) ->
  exists c2 b2 ks, sweeps ks c c2 /\ (forall k, k ∈ ks <-> In k (map key_of sup)) /\
    replay_reservation m' c = (Ok tt, with_attempt_known (Some a) b2) /\ mirrors (set_book (entering m) c2) b2.
Proof.
  intros Su Am -> F. pose proof Am as [L Me _ Sp (Ri & Rp & Rg) Co].
  assert (has c lead) as H by now apply (su_has _ _ _ _ Su).
  destruct (replay_amend_course (with_attempt m a) lead c Sp Rp Rg H) as (c1 & M1 & E1).
  assert (sweeps [key_of lead] c c1) as S1 by
    (eapply sweeps_mirrors; [|exact M1]; apply sweeps_landing; [now apply sweeps_nothing | exact H]).
  assert (forall x, In x (companions m) -> to_state x = kSuperseded /\ files c (sm_id x, sm_generation x) /\ sm_id x <> rr_id lead) as Cs.
  { intros x I. rewrite Co in I. apply in_map_iff in I as (r & <- & I). apply filter_In in I as [I N]. split; [reflexivity|].
    split; [exists r; split; [now apply (su_has _ _ _ _ Su) | reflexivity]|]. cbn [sm_id series_companion]. intros E.
    rewrite E, beq_refl in N. discriminate. }
  destruct (companions_sweep c (companions m) F [key_of lead] c1) as (c2 & E2 & ks & Ek & S2); [intros x I; destruct (Cs x I) as (? & ? & _); auto | exact S1|].
  destruct (companions_commute (with_attempt m a) (companions m) c1 (set_book (entering (with_attempt m a)) c1)) as (c2' & b2 & E2' & Eb & M2);
    [|reflexivity|].
  { intros x I. destruct (Cs x I) as (_ & Fi & N). split.
    - destruct Fi as (r & Hr & K). destruct (sweeps_has _ _ _ r S1) as (y & _ & Hy & Ky); [exists r; now split | exact F|].
      exists y. split; [exact Hy | congruence].
    - unfold brings. cbn [rm_record rm_members with_attempt]. rewrite Me. cbn [map In]. rewrite Ri. intros [E|[]]. now apply N. }
  assert (c2' = c2) as -> by congruence. exists c2, b2, ks. split; [exact S2|]. split.
  - intros k. rewrite Ek, (amends_keys _ _ _ _ _ _ _ _ k Su Am), elem_of_cons. split; [intros [[E|E]|E]; auto; now apply elem_of_nil in E | tauto].
  - split; [|exact M2]. rewrite E1. unfold bind. change (companions (with_attempt m a)) with (companions m). rewrite Eb. reflexivity.
Qed.

Lemma logs_amend_accepted x pd t print now b pol w sup s acc c :
  superseding c pd sup s -> logs (amend_accepted x pd t print now b pol [w] sup s acc) c done.
Proof.
  intros Su. apply logs_ok. intros F. unfold amend_accepted. do 3 peek. cbv zeta. apply logs_bind, logs_lift. intros [m succ] E.
  destruct (amendment_amends _ _ _ _ _ _ _ _ _ _ _ _ E (su_alone _ _ _ _ Su)) as [-> (lead & Am)].
  set (at_ := commit_attempt _ _ _ _ _ _). set (p := make_provenance_locked _ _ _ _) in *.
  destruct (replay_amendment_course m _ _ _ _ _ _ _ c at_ Su Am eq_refl F) as (c2 & b2 & ks & S2 & Ek & Re & M2).
  apply logs_append_predicted. intros c1 M1.
  apply amid_recalls. eapply recalls_weaken; [apply (recalls_supersede_all now p sup c F [] c1); [|now apply sweeps_nothing]|].
  { intros r I. exists r. split; [now apply (su_has _ _ _ _ Su) | reflexivity]. }
  intros u c3 (ks' & Ek' & S3). assert (mirrors c3 c2) as M3.
  { eapply sweeps_unique; [|exact S3 | exact S2]. intros k. rewrite Ek, Ek'. split; [intros [I|I]; [now apply elem_of_nil in I | exact I] | auto]. }
  apply amid_recalls, recalls_modify; [reflexivity|]. cbn [for_each]. apply amid_recalls, recalls_bind.
  eapply recalls_weaken; [apply recalls_successor|]. intros u2 c4 M4. apply recalls_ret.
  apply amid_recalls. eapply recalls_series; [exact M4|]. intros c5 M5.
  apply amid_recalls. eapply recalls_remember; [reflexivity | exact M5|]. intros c6 M6. recall_to c7 M7. recall_to c8 M8.
  apply amid_close.
  - eexists. split; [exact Re|]. etransitivity; [|exact M8]. apply known_mirrors; [reflexivity|]. symmetry.
    etransitivity; [|exact M2]. destruct (am_edge _ _ _ _ _ _ Am) as (e & Ee).
    apply (mirrors_book (fun b => with_series (rm_series m) (register_record (rm_record m) (set_edges (edges b ++ option_list (rm_edge m)) b))) (entering m) c3 c2);
      [|exact M3]. intros Mb. etransitivity; [|apply entering_mirrors, Mb]. unfold entering. cbv zeta.
    rewrite Ee, (am_members _ _ _ _ _ _ Am). apply with_series_mirrors, enter_register.
  - intros _. eapply filed_ok_mirrors; [apply M8|]. apply filed_ok_series, filed_ok_register.
    exact (swept_filed ks' (book c) (book c3) (ss_book _ _ _ S3) F).
  - peek. apply logs_then; [intros; frame | apply logs_housekeeping].
Qed.

Lemma logs_refuse_amendment x pd t pr dry now a c : logs (refuse_amendment x pd t pr dry now a) c done.
Proof.
  unfold refuse_amendment. cbv zeta. case_if; [now apply logs_ret|]. apply logs_then; [intros; frame | apply logs_record_refusal].
Qed.

Lemma logs_decide_amendment x pd t print dry now note pol b w c :
  has c pd -> logs (decide_amendment x pd t print dry now note pol b [w]) c done.
Proof.
  intros H. unfold decide_amendment. apply logs_bind. eapply logs_weaken; [now apply logs_suspend_superseded|].
  intros [sup s] c1 Su. peek. destruct (evaluate_all _ _ _ _ _ _) as [evs|[failure i]]; [|apply logs_refuse_amendment].
  cbv zeta. case_if; [now apply logs_ret | now apply logs_amend_accepted].
Qed.

Lemma logs_amend x id g t dry c : enabled (recurrence t) = false -> logs (amend_locked x id g t dry) c done.
Proof.
  intros One. unfold amend_locked. do 2 hush. hush. apply logs_bind, logs_named. intros r Hr _. cbv zeta. peek.
  destruct (find_attempt_locked _ _) as [previous|]; [nothing|]. do 3 hush. apply logs_bind.
  eapply (logs_keeps stays); [frame | apply logs_ensure|]. intros u c1 S _. apply logs_bind, logs_reconcile_then.
  { eapply kept_stays; [exact S|]. eapply has_kept. do 3 (eapply idle_has; [eassumption|]). exact Hr. }
  intros r' c2 Hr' _. peek. destruct (policy_for_locked _ _) as [pol note]. hush_to c3. apply logs_bind, logs_lift. intros ws X.
  unfold expand_series in X. rewrite One in X. injection X as <-.
  apply logs_scope; [eauto|]. intros c4 I4. apply logs_decide_amendment. do 2 (eapply idle_has; [eassumption|]). exact Hr'.
Qed.

(** ** Fences, holds and claimants *)
Lemma logs_fence x cl g b s wide c : logs (fence_locked x cl g b s wide) c done.
Proof.
  unfold fence_locked. do 3 hush. cbv zeta. set (f := mkFenceMutation _ _ _ _ _ _ _). apply logs_amid. intros sq c1 Fc.
  apply amid_recalls, recalls_modify; [reflexivity|]. apply amid_close; [|intros F | nothing].
  - eexists. split; [reflexivity|]. apply facts_mirrors in Fc. revert Fc. apply mirrors_sessions, apply_fence_mirrors.
  - apply facts_mirrors in Fc. revert F. apply filed_ok_mirrors, Fc.
Qed.

Lemma logs_register_claimant cl g x c : logs (register_claimant_locked cl g x) c done.
Proof. unfold register_claimant_locked. do 3 hush. apply logs_ensure. Qed.

Lemma logs_acquire x t e c : logs (acquire_hold x t e) c done.
Proof.
  unfold acquire_hold. do 3 hush. apply logs_done; [apply logs_ensure | intros u c1].
  apply logs_then; [|apply logs_reconcile]. intros u1. frame.
Qed.

Lemma logs_release_session x c : logs (release_session x) c done.
Proof. unfold release_session. do 2 hush. apply logs_then; [intros; frame | apply logs_reconcile]. Qed.

Lemma logs_retain x n c : logs (resolve_overcommit x n kRetain) c done.
Proof.
  unfold resolve_overcommit. do 2 hush. peek. hush. peek. destruct (CapacityLedger_find _ _); [|apply logs_fail]. cbv zeta.
  apply logs_bind, logs_ret. peek. apply logs_record_overcommit.
Qed.

(** ** Ingestion *)
Definition replay_path (snapshot : Identity128) (at_ : Timestamp) (p : PathAuthority) : co unit := fun c =>
  match drop_changed (PathAuthorityTable_apply (paths (tables c)) p snapshot at_) with
  | Ok t => (Ok tt, set_tables (set_paths t) c)
  | Err e => (Err e, c)
  end.

Lemma PathAuthorityTable_unchanged t p s now t' : PathAuthorityTable_apply t p s now = Ok (false, t') -> t' = t.
Proof.
  unfold PathAuthorityTable_apply. intros E. apply rbind_Ok in E as (u & _ & E). destruct (om_find t (pa_path p)) as [e|]; [|discriminate].
  case_if_in E; apply rbind_refuse_Ok in E as [_ E]; [|discriminate]. case_if_in E; [discriminate|]. now injection E as <-.
Qed.

(** Memory ingests paths as replay does; nothing changed is nothing done. *)
Lemma ingest_paths_replays s now ps : forall acc c, recalls (co_fold (ingest_path s now) ps acc) c (fun out c' =>
  for_each ps (replay_path s now) c = (Ok tt, c') /\
  (filed_ok (book c) -> filed_ok (book c')) /\ exists more, out = acc ++ more /\ (more = [] -> facts c' = facts c)).
Proof.
  induction ps as [|p ps IH]; intros acc c; cbn [co_fold for_each].
  { apply recalls_ret. split; [reflexivity | split; [auto|]]. exists []. now rewrite app_nil_r. }
  apply recalls_bind. unfold ingest_path at 1. apply recalls_gets, recalls_bind, recalls_lift. intros [ch t] E.
  apply recalls_bind, recalls_modify; [reflexivity|]. apply recalls_ret.
  eapply recalls_weaken; [apply IH|]. intros out c' (R & F & more & -> & Same). split; [|split; [exact F|]].
  - unfold bind, replay_path at 1, drop_changed. rewrite E. exact R.
  - destruct ch; [exists (pa_path p :: more); split; [now rewrite <- app_assoc | discriminate]|]. exists more. split; [reflexivity|].
    intros N. rewrite (Same N). apply PathAuthorityTable_unchanged in E. subst t. unfold facts. reflexivity.
Qed.

Lemma set_last_mirrors f a b :
  (forall t, ledger (f t) = ledger t /\ paths (f t) = paths t /\ policies (f t) = policies t) ->
  mirrors a b -> mirrors (set_tables f a) (set_tables f b).
Proof.
  intros F. apply mirrors_tables. intros [L P Q]. destruct (F (tables a)) as (La & Pa & Qa), (F (tables b)) as (Lb & Pb & Qb).
  split; [congruence.. | now rewrite Qa, Qb].
Qed.

Lemma logs_ingest_paths s x c : logs (ingest_paths_locked s x) c done.
Proof.
  unfold ingest_paths_locked. do 2 hush. hush_to c0. apply logs_opens, opens_recalls.
  eapply recalls_weaken; [apply ingest_paths_replays|]. intros changed c1 (R & F & more & -> & Same). cbn [app].
  destruct more as [|n more]; [apply opens_logs; [now apply Same | now apply logs_ret]|].
  apply opens_append. intros sq c2 Fc. apply facts_mirrors in Fc. apply amid_recalls, recalls_modify; [reflexivity|]. apply amid_close.
  - exists (set_tables (set_last_path (ps_id s) (ps_generation s)) c1). split; [|now apply set_last_mirrors].
    cbn [apply_replay_locked]. unfold replay_paths, bind. cbn [ps_paths ps_id ps_ingested_at ps_generation stamp_paths].
    fold (replay_path (ps_id s) a). change (fun p : PathAuthority => _) with (replay_path (ps_id s) a). rewrite R. reflexivity.
  - intros F0. apply F in F0. revert F0. apply filed_ok_mirrors, Fc.
  - apply logs_then; [intros; frame | apply logs_refresh].
Qed.

Definition replay_resource (s : Identity128) (at_ : Timestamp) (capacity : ResourceCapacity) : co unit :=
  on_ledger (fun l => drop_changed (CapacityLedger_apply l capacity s at_)).
Definition replay_withdrawal (at_ : Timestamp) (name : ResourceName) : co unit :=
  on_ledger (fun l => match CapacityLedger_withdraw l name at_ with
    | Err e => if beq e kNotFound then Ok l else Err e
    | Ok l => Ok l
    end).

Lemma CapacityLedger_unchanged l cap s now l' : CapacityLedger_apply l cap s now = Ok (false, l') -> l' = l.
Proof.
  unfold CapacityLedger_apply. intros E. apply rbind_Ok in E as (u & _ & E). destruct (om_find l (rc_resource cap)) as [e|]; [|discriminate].
  case_if_in E; apply rbind_refuse_Ok in E as [_ E]; [|discriminate]. case_if_in E; [discriminate|]. now injection E as <-.
Qed.

(** Memory prepared like replay's [b]: the book as it was, and no fact changed
    where nothing was. *)
Record prepares {A} (c c' b' : Coordinator) (more : list A) : Prop := {
  pp_mirrors : mirrors b' c';
  pp_book : book c' = book c;
  pp_same : more = [] -> facts c' = facts c }.

Lemma set_ledger_mirrors l a b : mirrors a b -> mirrors (set_tables (set_ledger l) a) (set_tables (set_ledger l) b).
Proof. apply mirrors_tables. intros [L P Q]. now split. Qed.

Lemma ingest_resources_replays s now caps : forall acc c b, mirrors b c ->
  recalls (co_fold (ingest_resource s now) caps acc) c (fun out c' =>
    exists b' more, for_each caps (replay_resource s now) b = (Ok tt, b') /\ out = acc ++ more /\ prepares c c' b' more).
Proof.
  induction caps as [|cap caps IH]; intros acc c b M; cbn [co_fold for_each].
  { apply recalls_ret. exists b, []. rewrite app_nil_r. repeat split; auto; apply M. }
  apply recalls_bind. unfold ingest_resource at 1. apply recalls_gets. cbv zeta. apply recalls_gets, recalls_bind, recalls_lift.
  intros [ch l] E. assert (ledger (tables b) = ledger (tables c)) as Lb by apply M.
  apply recalls_bind, recalls_modify; [reflexivity|].
  apply recalls_bind. set (c1 := set_tables (set_ledger l) c). set (bumped := when _ _).
  assert (keeps idle bumped) as K by (subst bumped; frame). intros u c2 E2. pose proof (keeps_step _ _ _ _ _ K E2) as I2. split; [apply I2|].
  assert (book c2 = book c) as B2 by (subst bumped; unfold when in E2; case_if_in E2; injection E2 as _ <-; reflexivity).
  apply recalls_ret. eapply recalls_weaken; [apply (IH _ c2 (set_tables (set_ledger l) b))|].
  { etransitivity; [apply set_ledger_mirrors, M | now apply idle_mirrors]. }
  intros out c' (b' & more & R & -> & [Mi Bo Sa]).
  assert (for_each (cap :: caps) (replay_resource s now) b = (Ok tt, b')) as R'.
  { cbn [for_each]. unfold bind, replay_resource at 1, on_ledger, drop_changed. rewrite Lb, E. exact R. }
  destruct ch.
  - exists b', (rc_resource cap :: more). rewrite <- app_assoc. split; [exact R' | split; [reflexivity|]].
    split; [exact Mi | now rewrite Bo | discriminate].
  - exists b', more. split; [exact R' | split; [reflexivity|]]. split; [exact Mi | now rewrite Bo|]. intros N.
    rewrite (Sa N). destruct I2 as [_ ->]. apply CapacityLedger_unchanged in E. subst l. reflexivity.
Qed.

Lemma ingest_withdrawals_replays now names : forall acc c b, mirrors b c ->
  recalls (co_fold (ingest_withdrawal now) names acc) c (fun out c' =>
    exists b' more, for_each more (replay_withdrawal now) b = (Ok tt, b') /\ out = acc ++ more /\ prepares c c' b' more).
Proof.
  induction names as [|n names IH]; intros acc c b M; cbn [co_fold].
  { apply recalls_ret. exists b, []. rewrite app_nil_r. repeat split; auto; apply M. }
  apply recalls_bind. unfold ingest_withdrawal at 1. apply recalls_gets. assert (ledger (tables b) = ledger (tables c)) as Lb by apply M.
  destruct (CapacityLedger_withdraw (ledger (tables c)) n now) as [l|e] eqn:E.
  - apply recalls_bind, recalls_modify; [reflexivity|]. apply recalls_ret.
    eapply recalls_weaken; [apply (IH _ _ (set_tables (set_ledger l) b)), set_ledger_mirrors, M|].
    intros out c' (b' & more & R & -> & [Mi Bo Sa]). exists b', (n :: more). rewrite <- app_assoc.
    split; [|split; [reflexivity | split; [exact Mi | exact Bo | discriminate]]].
    cbn [for_each]. unfold bind, replay_withdrawal at 1, on_ledger. rewrite Lb, E. exact R.
  - case_if; [|intros a c' D; discriminate]. apply recalls_ret. now apply IH.
Qed.

Lemma logs_ingest_capacity s names x c : logs (ingest_capacity_locked s names x) c done.
Proof.
  unfold ingest_capacity_locked. do 2 hush. hush_to c0. case_if; [now apply logs_ret|].
  apply logs_opens, opens_recalls. eapply recalls_weaken; [apply (ingest_resources_replays _ _ _ _ c0 c0); reflexivity|].
  intros applied c1 (b1 & more1 & R1 & -> & [M1 B1 S1]). cbn [app].
  apply opens_recalls. eapply recalls_weaken; [apply (ingest_withdrawals_replays _ _ _ c1 b1 M1)|].
  intros withdrawn c2 (b2 & more2 & R2 & -> & [M2 B2 S2]). cbn [app]. cbv zeta. case_if.
  - apply Z.eqb_eq in Heqb0. destruct more1 as [|? ?]; [|discriminate]. destruct more2 as [|? ?]; [|discriminate].
    apply opens_logs; [rewrite S2, S1; reflexivity | nothing].
  - apply opens_append. intros sq c3 Fc. apply facts_mirrors in Fc. apply amid_recalls, recalls_modify; [reflexivity|].
    match goal with |- amid _ _ _ ?x _ => set (settled := x) end. assert (mirrors settled settled) as Ms by reflexivity.
    recall_to c4 M4. apply amid_close.
    + exists (set_tables (set_last_capacity (cs_id s) (cs_generation s)) b2).
      split; [|etransitivity; [apply set_last_mirrors; [easy | etransitivity; eassumption] | exact M4]].
      cbn [apply_replay_locked]. unfold replay_capacity, bind. cbn [cpm_snapshot withdrawals cs_resources cs_id cs_ingested_at cs_generation stamp_capacity].
      change (for_each (cs_resources s) _ c0) with (for_each (cs_resources s) (replay_resource (cs_id s) a) c0). rewrite R1.
      change (for_each more2 _ b1) with (for_each more2 (replay_withdrawal a) b1). rewrite R2. reflexivity.
    + intros F. assert (filed_ok (book c2)) as F2 by now rewrite B2, B1. revert F2. apply filed_ok_mirrors.
      etransitivity; [apply Fc | apply M4].
    + apply logs_done; [apply logs_refresh | intros u1 c5]. hush. apply logs_done; [apply logs_loop; intros; apply logs_detect | intros u2 c6].
      apply logs_done; [apply logs_loop; intros; apply logs_detect | intros u3 c7]. apply logs_history.
Qed.

Lemma PolicyRegistry_unchanged t r t' : PolicyRegistry_apply t r = Ok (false, t') -> t' = t.
Proof.
  unfold PolicyRegistry_apply. intros E. apply rbind_Ok in E as (u & _ & E). destruct (om_find t (pr_name r)) as [e|]; [|discriminate].
  case_if_in E; apply rbind_refuse_Ok in E as [_ E]; [|discriminate]. now injection E as <-.
Qed.

Lemma logs_mark_policy now k c : logs (mark_policy_change now k) c done.
Proof.
  apply logs_ok. intros F. unfold mark_policy_change. peek. destruct (om_find _ k) as [r|] eqn:E; [|now apply logs_ret].
  destruct (found_has _ _ _ F E) as [H _]. apply logs_then; [intros; frame | now apply logs_mark].
Qed.

Lemma logs_ingest_policy r x c : logs (ingest_policy_locked r x) c done.
Proof.
  unfold ingest_policy_locked. do 2 hush. peek. peek. apply logs_opens, opens_recalls, recalls_lift. intros [ch t] E.
  apply opens_recalls, recalls_modify; [reflexivity|]. destruct ch; cbn [negb].
  - apply opens_append. intros sq c1 Fc. apply facts_mirrors in Fc. apply amid_close.
    + cbn [apply_replay_locked]. destruct (policy_apply_mirrors r (stamp_policy r a) _ _ _ _ eq_refl (reflexivity _) E) as (t' & E' & A).
      exists (set_tables (set_policies t') c'0). unfold replay_policy, drop_changed. rewrite E'. split; [reflexivity|].
      etransitivity; [|exact Fc]. apply (mirrors_tables (set_policies t') (set_policies t) c'0 c'0); [|reflexivity]. intros _. split; try reflexivity.
      now symmetry.
    + apply filed_ok_mirrors, (mi_book _ _ Fc).
    + cbv zeta. case_if; [now apply logs_ret|]. peek. apply logs_loop. intros k c2. apply logs_mark_policy.
  - apply opens_logs; [|now apply logs_ret]. apply PolicyRegistry_unchanged in E. now subst t.
Qed.

(** ** Every request *)
Lemma logs_query {A} (m : co A) c : keeps idle m -> logs (reconcile_now ;; m) c done.
Proof.
  intros K. unfold reconcile_now. apply logs_done; [|intros u c1; now apply logs_idle]. hush.
  apply logs_then; [intros; frame | apply logs_reconcile].
Qed.

(** The requests whose journal does not explain what they do to memory: an
    amendment that asks for a recurrence, and a resolution that revokes. *)
Definition plain (q : Request) : bool :=
  match q with
  | QAmend _ _ _ t _ => negb (enabled (recurrence t))
  | QResolveOvercommit _ _ kRevoke => false
  | _ => true
  end.

Lemma logs_handle q c : plain q = true -> logs (handle q) c done.
Proof.
  intros P. assert (forall A (m : co A), logs m c done -> logs (drop m) c done) as D.
  { intros A m L. unfold drop. apply logs_then; [intros; frame | exact L]. }
  destruct q; cbn [handle]; try apply D.
  - apply logs_ingest_capacity.
  - apply logs_ingest_paths.
  - apply logs_ingest_policy.
  - apply logs_register_claimant.
  - apply logs_fence.
  - apply logs_create.
  - apply logs_amend. now apply negb_true_iff in P.
  - apply logs_release.
  - apply logs_recall.
  - apply logs_revoke.
  - apply logs_revalidate.
  - unfold reconcile_attempt_locked. nothing.
  - apply logs_reconcile_lifecycle.
  - apply logs_acquire.
  - unfold release_hold. nothing.
  - apply logs_release_session.
  - destruct resolution; [apply logs_retain | discriminate].
  - nothing.
  - unfold begin_shutdown. nothing.
  - unfold get_reservation. now apply logs_query; frame.
  - unfold query_claimant. now apply logs_query; frame.
  - unfold query_resource. now apply logs_query; frame.
  - unfold query_remaining. now apply logs_query; frame.
  - unfold query_timeline. now apply logs_query; frame.
  - unfold explain_conflicts. do 2 hush. apply logs_then; [intros; frame | apply logs_reconcile].
Qed.

(** ** Boot *)
Lemma logs_boot b c : logs (boot_coordinator b) c done.
Proof.
  unfold boot_coordinator. peek. hush_to c1. cbv zeta. peek. hush_to c2. apply logs_amid. intros s c3 Fc. apply facts_mirrors in Fc.
  apply amid_recalls, recalls_modify; [reflexivity|]. set (e := mkCounter (value (ci_epoch (incarnation (env c))) + 1)).
  apply amid_close.
  - assert (ci_epoch (incarnation (env c2)) = ci_epoch (incarnation (env c))) as E2.
    { transitivity (ci_epoch (incarnation (env c1))); symmetry; apply mi_epoch; now apply idle_mirrors. }
    cbn [apply_replay_locked em_epoch]. rewrite E2. replace (value e >? value (ci_epoch (incarnation (env c)))) with true
      by (symmetry; apply Z.gtb_lt; cbn; lia).
    eexists. split; [reflexivity|]. destruct Fc as [Bo Ep T K S]. split; assumption || reflexivity.
  - apply filed_ok_mirrors, (mi_book _ _ Fc).
  - apply logs_done; [apply logs_reconcile | intros u c4]. apply logs_done; [apply logs_refresh | intros u1 c5]. apply logs_history.
Qed.

(** ** Runs *)

(** The request is turned away at the gate. *)
Definition gated (q : Request) (c : Coordinator) : bool :=
  match request_context q with
  | Some (x, b) => negb (has_value (validate_context_locked c x b))
  | None => false
  end.

(** Every request of the run is answered, turned away at the gate or refused
    before it journalled anything; an ingestion is answered or turned away. *)
Definition tended (q : Request) (c : Coordinator) : bool :=
  has_value (handle q c).1 || gated q c ||
  negb (ingests q) && (length (journal_of (handle q c).2) =? length (journal_of c))%nat.

Fixpoint served (qs : list Request) (c : Coordinator) : bool :=
  match qs with
  | [] => true
  | q :: qs => tended q c && served qs (handle q c).2
  end.

Lemma gated_idle q c : gated q c = true -> idle c (handle q c).2.
Proof.
  unfold gated. destruct (request_context q) as [[x b]|] eqn:Q; [|discriminate].
  destruct (validate_context_locked c x b) as [u|e] eqn:V; [discriminate|]. intros _.
  destruct (handle_refused _ _ _ _ _ Q V) as [-> | ->]; [reflexivity|]. now apply idle_same.
Qed.

(** The facts that are not in the journal discipline: no request but an
    ingestion touches the tables. *)
Definition static (c : Coordinator) := (max_attempts (config (env c)), ci_epoch (incarnation (env c)), tables c).
Definition same_static (c c' : Coordinator) : Prop := static c' = static c.

#[export] Instance same_static_PreOrder : PreOrder same_static.
Proof. split; [intros c; reflexivity | intros c c' c'' A B; unfold same_static in *; congruence]. Qed.

#[export] Instance Calm_same_static : Calm same_static.
Proof.
  apply Calm_intro; [exact _ | intros; try reflexivity..].
  - destruct H as [C _ [E _] _]. unfold same_static, static. cbn. congruence.
  - destruct H as [(T & _) (C & _) (E & _)]. unfold same_static, static. congruence.
Qed.

#[export] Instance Booked_same_static : Booked same_static.
Proof. split; [exact _ | reflexivity | intros a c; reflexivity]. Qed.

(** Whatever a request that appended nothing returned, it changed no fact. *)
Lemma silent_idle q c :
  ingests q = false -> length (journal_of (handle q c).2) = length (journal_of c) -> ~ snapshotted (handle q c).2 ->
  idle c (handle q c).2.
Proof.
  intros I L N. destruct (accounts_handle q c) as (rs & A & D). pose proof A as (_ & _ & gone & G & W).
  destruct gone as [|g gone]; [|destruct N; now apply W]. cbn [app] in G. rewrite G, length_app in L.
  destruct rs as [|r rs]; [|cbn [length] in L; lia]. split; [exact A|]. specialize (D eq_refl).
  pose proof (keeps_handle_booked same_static q I c) as T. revert D T. unfold durable, durable_book, durable_sessions, same_static, static, facts, lineage, guards.
  intros D T. congruence.
Qed.

Lemma tended_logged q c : plain q = true -> tended q c = true -> ~ snapshotted (handle q c).2 -> filed_ok (book c) ->
  filed_ok (book (handle q c).2) /\ logged c (handle q c).2.
Proof.
  intros P T N F. assert (idle c (handle q c).2 -> filed_ok (book (handle q c).2) /\ logged c (handle q c).2) as Idle.
  { intros I. split; [eapply idle_filed; eassumption | now apply idle_logged]. }
  unfold tended in T. apply orb_true_iff in T as [T|T]; [apply orb_true_iff in T as [T|T]|].
  - pose proof (logs_handle q c P) as L. unfold logs in L. destruct (handle q c) as [[u|e] c1]; [|discriminate].
    destruct (L u c1 eq_refl F) as (F1 & L1 & _). now split.
  - now apply Idle, gated_idle.
  - apply andb_true_iff in T as [I L]. apply negb_true_iff in I. apply Nat.eqb_eq in L. now apply Idle, silent_idle.
Qed.

Lemma snapshotted_run qs c : snapshotted c -> snapshotted (run qs c).
Proof. intros S. assert (advances c (run qs c)) as (rs & _ & K & _) by (apply (keeps_run advances); intros; frame). auto. Qed.

Lemma run_is_logged qs : forall c, forallb plain qs = true -> served qs c = true -> ~ snapshotted (run qs c) -> filed_ok (book c) ->
  filed_ok (book (run qs c)) /\ logged c (run qs c).
Proof.
  induction qs as [|q qs IH]; intros c P S N F; [split; [exact F | reflexivity]|].
  cbn [forallb served] in *. apply andb_true_iff in P as [Pq P], S as [Sq S].
  change (run (q :: qs) c) with (run qs (handle q c).2) in *.
  destruct (tended_logged q c Pq Sq) as [F1 L1]; [intros A; apply N; now apply snapshotted_run | exact F|].
  destruct (IH _ P S N F1) as [F2 L2]. split; [exact F2 | etransitivity; eassumption].
Qed.
