(* ===== verification/CoordReopen.v ===== *)
(** * Coordinator: reopening gives the state back

    A fabric that never compacted keeps its directory in step with memory, and
    opening that directory again replays the journal to a state that mirrors
    the one the process stopped in. *)
From stdpp Require Import relations.
From S2P Require Import Prelude Errors Containers Identity Hash Bandwidth Time Authority Wire Policy Capacity Reservation Outcome SegTree Index Durable CodecBase Codec Store StoreContract Coordinator CoordRecords CoordPersist CoordAssess CoordLifecycle CoordCommit CoordOps CoordQuery CoordSample CoordSteps CoordJournal CoordGate CoordBook CoordSound CoordLife CoordLifeOps CoordLifetime CoordCapacity CoordReconcile CoordMirror CoordLogged CoordRestart CoordReplay.

(** ** The store and its directory *)

(** The journal could still be read back: its file is not too long, and no
    snapshot took part of it over. *)
Definition journal_size (c : Coordinator) : Z := size (journal_file (journal_of c)).
Definition uncompacted (c : Coordinator) : Prop := ~ snapshotted c /\ journal_size c <= kMaxJournalFile.

(** The directory holds the journal of the store object, from the first record
    on, and every file operation succeeds. *)
Record on_disk (c : Coordinator) : Prop := {
  od_store : store_ok (store (env c)) (disk (env c)) (journal_of c);
  od_options : options_ (store (env c)) = default_options;
  od_floor : value (snapshot_sequence_ (store (env c))) = 0;
  od_payload : snapshot_payload_ (store (env c)) = [];
  od_records : effective 0 (journal_of c) = journal_of c;
  od_last : seq_of c = Z.of_nat (length (journal_of c));
  od_io : io (env c) = io_ok }.

(** The files beside the journal. *)
Definition side_files (c : Coordinator) :=
  let d := disk (env c) in (dk_store_id d, dk_snapshot d, dk_snapshot_tmp d).

Definition in_step (c c' : Coordinator) : Prop :=
  uncompacted c' -> uncompacted c /\ (on_disk c -> on_disk c' /\ side_files c' = side_files c).

#[export] Instance in_step_PreOrder : PreOrder in_step.
Proof.
  split; [intros c U; auto|]. intros c c' c'' A B U. destruct (B U) as [U' F]. destruct (A U') as [U0 G]. split; [exact U0|].
  intros D. destruct (G D) as [D1 S1]. destruct (F D1) as [D2 S2]. split; [exact D2 | congruence].
Qed.

Lemma in_step_files c c' :
  store (env c') = store (env c) /\ disk (env c') = disk (env c) /\ io (env c') = io (env c) -> in_step c c'.
Proof.
  intros (S & D & I) U. unfold uncompacted, journal_size, journal_of, snapshotted in *. rewrite S in U. split; [exact U|].
  intros [A B C P Q L O]. split; [|unfold side_files; now rewrite D]. unfold seq_of, journal_of in *. split; unfold seq_of, journal_of; rewrite ?S, ?D, ?I; assumption.
Qed.

Lemma length_journal_file js : 22 * Z.of_nat (length js) <= size (journal_file js).
Proof.
  induction js as [|r js IH]; [reflexivity|]. cbn [journal_file flat_map length]. rewrite length_app, !Nat2Z.inj_add, size_journal_frame.
  change (flat_map journal_frame js) with (journal_file js). pose proof (frame_size_pos r). lia.
Qed.

Lemma append_extends st d how kind p : exists more, records_ (append st d how kind p).1.2 = records_ st ++ more.
Proof.
  unfold append. destruct (negb (journal_open st)); [exists []; symmetry; apply app_nil_r|].
  destruct (_ >? _); [exists []; symmetry; apply app_nil_r|].
  destruct how; first [exists []; symmetry; apply app_nil_r | eexists; reflexivity].
Qed.

Lemma append_locked_extends r c : exists more, journal_of (append_locked r c).2 = journal_of c ++ more.
Proof.
  unfold append_locked. cbv zeta. destruct (next_io _ _) as [how later].
  destruct (append_extends (store (env c)) (disk (env c)) how (record_kind r) (encode_record r)) as [more G].
  exists more. destruct (append _ _ _ _ _) as [[[s|e] st] d]; exact G.
Qed.

Lemma uncompacted_append r c : uncompacted (append_locked r c).2 -> uncompacted c.
Proof.
  destruct (append_locked_extends r c) as [more J]. pose proof (append_locked_spec r c) as S.
  assert (snapshotted c -> snapshotted (append_locked r c).2) as K.
  { destruct (append_locked r c) as [[s|e] c']; [destruct S as (j & A & _) | destruct S as [A _]]; apply A. }
  intros [N B]. split; [auto|]. unfold journal_size in *. rewrite J in B. unfold journal_file in *.
  rewrite flat_map_app, length_app in B. lia.
Qed.

Lemma append_fits r c s c' : append_locked r c = (Ok s, c') -> uncompacted c' ->
  journal_size c + kJournalHeaderBytes + size (encode_record r) <= kMaxJournalFile.
Proof.
  intros E [N B]. destruct (append_spec _ _ _ _ E) as (_ & j & (_ & _ & gone & G & W) & P & _).
  destruct gone as [|g gone]; [|destruct N; now apply W]. cbn [app] in G.
  unfold journal_size in *. rewrite G, journal_file_snoc, length_app, Nat2Z.inj_add, size_journal_frame in B.
  unfold frame_size in B. rewrite P in B. lia.
Qed.

Lemma in_step_append r : keeps in_step (append_locked r).
Proof.
  intros c U. pose proof (uncompacted_append r c U) as Uc. split; [exact Uc|]. intros [A O F P Q L I].
  pose proof (append_fits r c) as Fits. destruct (append_locked r c) as [x c'] eqn:E. cbn [snd] in *.
  unfold append_locked in E. rewrite I in E. cbn [next_io io_append io_ok] in E. cbv zeta in E.
  set (p := encode_record r) in *. set (st := store (env c)) in *. set (d := disk (env c)) in *.
  destruct (size p >? max_record_payload (options_ st)) eqn:Big.
  { unfold append in E. rewrite (so_open _ _ _ A), Big in E. cbn [negb] in E. injection E as _ <-. split; [split; assumption || reflexivity | reflexivity]. }
  rewrite Z.gtb_ltb in Big. apply Z.ltb_ge in Big. pose proof (length_journal_file (journal_of c)) as Len.
  assert (journal_size c + kJournalHeaderBytes + size p <= kMaxJournalFile) as Fit.
  { destruct x as [s|e]; [exact (Fits s c' eq_refl U)|]. unfold append in E. rewrite (so_open _ _ _ A) in E.
    replace (size p >? max_record_payload (options_ st)) with false in E by (symmetry; rewrite Z.gtb_ltb; now apply Z.ltb_ge). discriminate. }
  unfold journal_size in Fit. assert (value (last_sequence_ st) < u64_max) as Lt.
  { change (value (last_sequence_ st)) with (seq_of c). rewrite L. unfold kMaxJournalFile, kJournalHeaderBytes, u64_max in *. lia. }
  rewrite (append_writes st d (journal_of c) A (record_kind r) p Big Lt Fit append_ok) in E. injection E as _ <-.
  split; [|reflexivity]. split; try assumption; try reflexivity.
  - exact (append_store_ok st d (journal_of c) A (record_kind r) p Big Lt Fit).
  - destruct (last_sequence_snoc 0 (journal_of c) (next_record st (journal_of c) (record_kind r) p)) as [_ K].
    { cbn. change (value (last_sequence_ st)) with (seq_of c). lia. }
    etransitivity; [exact K|]. rewrite Q. reflexivity.
  - transitivity (seq_of c + 1); [reflexivity|]. rewrite L. unfold journal_of. cbn. rewrite length_app. cbn [length]. subst st. lia.
Qed.

(** A compaction that succeeds leaves a snapshot, and one that is refused leaves
    the files alone. *)
Lemma in_step_compact : keeps in_step compact_locked.
Proof.
  intros c U. destruct (compact_appends_nothing c) as [(_ & K & gone & G & W) _].
  destruct gone as [|g gone]; [|destruct U as [N _]; destruct N; now apply W]. rewrite app_nil_r in G. cbn [app] in G. split.
  { destruct U as [N B]. split; [auto|]. unfold journal_size in *. now rewrite <- G. }
  intros D. destruct U as [N _]. revert N. unfold compact_locked, bind, gets, write_snapshot_locked. cbv beta iota zeta.
  set (p := encode_SnapshotState _). assert (p <> []) as Pn by (intros E; apply (f_equal (@length _)) in E; discriminate E).
  rewrite (od_io _ D). cbn [next_io io_snapshot io_append io_rotate io_ok]. unfold write_snapshot.
  destruct (_ >? _); [intros _; split; [destruct D; now split | reflexivity]|]. cbn [write_all].
  intros N. exfalso. apply N. clear N. revert Pn. unfold rotate_journal_locked, rotate_journal, snapshotted. cbn [rbind env set_env].
  cbn [next_io io_rotate]. cbn [store set_store journal_open]. now destruct (journal_open (store (env c))).
Qed.

#[export] Instance Mute_in_step : Mute in_step.
Proof.
  split; try (intros; now apply in_step_files).
  - exact _.
  - intros f c F. apply in_step_files, F.
  - apply in_step_append.
  - apply in_step_compact.
Qed.

#[export] Instance Calm_in_step : Calm in_step.
Proof. split; [exact _ |]. intros f c _. now apply in_step_files. Qed.

#[export] Instance Framed_in_step : Framed in_step.
Proof. apply Framed_intro; [exact _ | ..]; intros; try intros c; now apply in_step_files. Qed.
#[export] Hint Resolve Mute_in_step Calm_in_step Framed_in_step : frame.

(** ** Opening a directory for the first time *)
Lemma hex_digit_printed b : let d := hex_digit (Z.land (b2z b) 15) in byte_eqb d x0a || byte_eqb d x0d = false.
Proof. destruct b; vm_compute; reflexivity. Qed.

Lemma strip_written_id i : strip_newlines (to_hex i ++ [x0a]) = to_hex i.
Proof.
  unfold strip_newlines. rewrite rev_app_distr. cbn [rev app]. change (byte_eqb x0a x0a || byte_eqb x0a x0d) with true. cbv iota.
  destruct i as [l]. destruct (rev l) as [|b l'] eqn:E.
  - apply (f_equal (@rev _)) in E. rewrite rev_involutive in E. now rewrite E.
  - apply (f_equal (@rev _)) in E. rewrite rev_involutive in E. cbn [rev] in E. subst l. unfold to_hex. cbn [id_bytes].
    rewrite flat_map_app, rev_app_distr. cbn [flat_map app rev]. rewrite hex_digit_printed.
    cbn [rev]. rewrite rev_involutive, <- app_assoc. reflexivity.
Qed.

Lemma store_id_fresh fresh : store_id_valid (to_hex (fingerprint128 fresh) ++ [x0a]) = true.
Proof.
  pose proof (fingerprint128_ok fresh) as I. unfold store_id_valid. rewrite strip_written_id, from_hex_to_hex by exact I.
  rewrite length_app, length_to_hex. unfold id_ok, kByteCount in I. cbn [length has_value]. bool_prop. bool_goal; lia.
Qed.

(** The identity file is valid once it was checked. *)
Lemma checked_id d fresh d1 : check_store_id d open_io_ok fresh = (Ok tt, d1) ->
  dk_snapshot d1 = dk_snapshot d /\ dk_journal d1 = dk_journal d /\
  exists text, dk_store_id d1 = Some text /\ store_id_valid text = true.
Proof.
  unfold check_store_id. destruct (dk_store_id d) as [text|] eqn:T.
  - intros [= R <-]. do 2 (split; [reflexivity|]). exists text. split; [exact T|]. apply rbind_Ok in R as (x & E & R).
    unfold read_all in E. apply rbind_refuse_Ok in E as [B E]. injection E as <-. unfold store_id_valid.
    rewrite Z.gtb_ltb in B. destruct (from_hex _); [|discriminate]. bool_prop. bool_goal; lia || reflexivity.
  - cbn [write_all store_id_write open_io_ok]. intros [= <-]. do 2 (split; [reflexivity|]). eexists. split; [reflexivity | apply store_id_fresh].
Qed.

(** A new directory: no records, and the store in step with what was written. *)
Lemma open_starts d fresh st d1 : new_directory d -> open d default_options open_io_ok fresh = (Ok st, d1) ->
  store_ok st d1 [] /\ options_ st = default_options /\ value (snapshot_sequence_ st) = 0 /\
  snapshot_payload_ st = [] /\ records_ st = [] /\ value (last_sequence_ st) = 0.
Proof.
  intros [S J] E. unfold open in E. cbn [directories_created open_io_ok negb] in E.
  destruct (check_store_id d open_io_ok fresh) as [[[]|e] d2] eqn:C; [|discriminate].
  apply checked_id in C as (S2 & J2 & text & I & V). rewrite S in S2. rewrite J in J2.
  assert (load_snapshot d2 = Ok ([], 0, false)) as L by (unfold load_snapshot; now rewrite S2).
  assert (load_journal d2 default_options = Ok ([], empty_report)) as M by (unfold load_journal; now rewrite J2).
  rewrite L, M in E. cbn [torn_tail_truncated empty_report andb journal_opened open_io_ok negb] in E. rewrite J2 in E.
  injection E as <- <-. split; [|repeat split]. constructor; try reflexivity. constructor; try reflexivity.
  - exists text. split; assumption.
  - now left.
  - vm_compute. discriminate.
  - exists false. unfold load_snapshot in *. cbn [dk_snapshot]. rewrite S2. reflexivity.
Qed.

Lemma mirrors_blank cfg k st d i id k' st' d' i' id' :
  mirrors (blank_coordinator cfg k st d i id) (blank_coordinator cfg k' st' d' i' id').
Proof. now split. Qed.

Lemma idle_rebuild : keeps idle rebuild_index_locked.
Proof. unfold rebuild_index_locked. frame. Qed.
Lemma in_step_rebuild : keeps in_step rebuild_index_locked.
Proof. unfold rebuild_index_locked. frame. intros c. now apply in_step_files. Qed.
Lemma in_step_boot b : keeps in_step (boot_coordinator b).
Proof. unfold boot_coordinator. frame. intros c. now apply in_step_files. Qed.

Lemma rebuild_queues_mirrors b : book_mirrors b (rebuild_queues b).
Proof.
  assert (forall (l : omap ReservationKey ReservationRecord) b0, book_mirrors b b0 ->
            book_mirrors b (fold_left (fun b p => sync_queues p.2 b) l b0)) as F.
  { induction l as [|p l IH]; intros b0 B; [exact B|]. apply IH. now rewrite <- sync_queues_mirrors. }
  apply F. now apply book_mirrors_same.
Qed.

(** What recovery makes of a blank state is the replay of the journal, up to
    structures that mirroring does not look at. *)
Lemma recover_mirrors st b m c :
  load_state st b = Ok b -> for_each (records_ st) replay_record b = (Ok tt, m) -> recover st b = Ok c -> mirrors m c.
Proof.
  intros L R E. unfold recover in E. rewrite L in E. cbn [rbind] in E. rewrite R in E.
  pose proof (idle_rebuild (set_book rebuild_queues m)) as I. destruct (rebuild_index_locked _) as [[u|e] c3]; [|discriminate].
  injection E as <-. etransitivity; [|exact (idle_mirrors _ _ I)]. apply mirrors_change.
  apply rebuild_queues_mirrors.
Qed.

(** The journal of the state, read from the first record on, explains it. *)
Definition journal_explains (cfg : CoordinatorConfig) (c : Coordinator) : Prop :=
  exists rs, Forall2 journals_as (journal_of c) rs /\
    forall k st d i id, exists m, replays rs (blank_coordinator cfg k st d i id) = (Ok tt, m) /\ mirrors m c.

Lemma logged_explains cfg c c' : logged c c' -> uncompacted c' -> journal_explains cfg c -> journal_explains cfg c'.
Proof.
  intros (js & rs & (_ & _ & gone & G & W) & J & m & E & M) [N _] (rs0 & J0 & X).
  destruct gone as [|g gone]; [|destruct N; now apply W]. exists (rs0 ++ rs). cbn [app] in G. rewrite G.
  split; [now apply Forall2_app|]. intros k st d i id. destruct (X k st d i id) as (m0 & E0 & M0).
  destruct (replays_from _ _ _ _ (symmetry M0) E) as (m1 & E1 & M1). exists m1. split.
  - unfold replays in *. rewrite for_each_app. unfold bind. now rewrite E0.
  - etransitivity; [symmetry; exact M1 | exact M].
Qed.

Lemma opened_explains cfg k d fresh boot c d' :
  new_directory d -> open_coordinator cfg k d open_io_ok io_ok fresh boot = (Ok c, d') ->
  filed_ok (book c) /\ (uncompacted c -> on_disk c /\ journal_explains cfg c).
Proof.
  intros N E. unfold open_coordinator in E. destruct (_ || _); [discriminate|].
  destruct (open d default_options open_io_ok fresh) as [[st|e] d1] eqn:O; [|discriminate].
  destruct (open_starts _ _ _ _ N O) as (A & Op & F & P & R & L).
  destruct (read_store_identity d1) as [id|]; [|discriminate]. cbn [rbind] in E.
  set (b := blank_coordinator cfg k st d1 io_ok id) in *. unfold recover, load_state in E. rewrite P in E. cbn [rbind] in E. rewrite R in E.
  change (for_each [] replay_record b) with (@Ok unit tt, b) in E. cbv iota in E. 
  pose proof (idle_rebuild (set_book rebuild_queues b)) as I. pose proof (in_step_rebuild (set_book rebuild_queues b)) as D.
  destruct (rebuild_index_locked _) as [[u|e] c1]; [|discriminate]. cbn [snd] in I, D.
  pose proof (logs_boot boot c1) as B. pose proof (in_step_boot boot c1) as D1. unfold logs in B.
  destruct (boot_coordinator boot c1) as [[u1|e] c2]; [|discriminate]. injection E as <- _. cbn [snd] in D1.
  assert (filed_ok (book c1)) as F1 by (eapply idle_filed; [exact I | intros k0 r0; discriminate]).
  destruct (B u1 c2 eq_refl F1) as (F2 & L2 & _). split; [exact F2|]. intros U.
  destruct (D1 U) as [U1 K1]. destruct (D U1) as [_ K0]. split.
  - apply K1. apply K0. split; unfold journal_of, seq_of; cbn; rewrite ?R; auto; try reflexivity.
  - apply (logged_explains cfg _ _ L2 U). exists []. destruct I as [(_ & _ & gone & G & W) Fa].
    assert (journal_of c1 = []) as J.
    { destruct gone as [|g gone]; [|destruct U1 as [V _]; destruct V; now apply W].
      cbn [app] in G. rewrite G, app_nil_r. exact R. }
    rewrite J. split; [constructor|]. intros k0 st0 d0 i0 id0. eexists. split; [reflexivity|].
    etransitivity; [apply (mirrors_blank cfg _ _ _ _ _ k st d1 io_ok id) | exact (facts_mirrors _ _ Fa)].
Qed.

(** The journal of a directory in step, read back record by record. *)
Lemma replay_decoded js rs c : Forall2 journals_as js rs -> forallb wf_DurableRecord rs = true ->
  for_each js replay_record c = replays rs c.
Proof.
  intros J. revert c. induction J as [|j r js rs [P K] J IH]; intros c W; [reflexivity|].
  cbn [forallb] in W. apply andb_true_iff in W as [Wr W]. unfold replays. cbn [for_each]. unfold replay_record at 1.
  assert (decode_record (payload j) (jr_kind j) = Ok r) as ->.
  { rewrite P, K. now apply decode_record_enc. }
  unfold bind. destruct (apply_replay_locked r c) as [[u|e] c1]; [exact (IH c1 W) | reflexivity].
Qed.

(** From a blank coordinator on the store the journal is accepted, record by
    record, and leads to a state that mirrors [c]. *)
Definition restores (cfg : CoordinatorConfig) (k : Clock) (st : Store) (d : Disk) (i : Io) (id : Identity128) (c : Coordinator) : Prop :=
  let blank := blank_coordinator cfg k st d i id in
  exists m, load_state st blank = Ok blank /\ for_each (records_ st) replay_record blank = (Ok tt, m) /\ mirrors m c.

Lemma restart_mirrors cfg c :
  on_disk c -> journal_explains cfg c ->
  exists rs, Forall2 journals_as (journal_of c) rs /\ (forallb wf_DurableRecord rs = true ->
    forall fresh, exists st d', open (disk (env c)) default_options open_io_ok fresh = (Ok st, d') /\
      records_ st = journal_of c /\ forall k i id, restores cfg k st d' i id c).
Proof.
  intros [A Op F P Q L I] (rs & J & X). exists rs. split; [exact J|]. intros W fresh.
  pose proof (so_directory _ _ _ A) as D. rewrite Op, P, F in D.
  destruct (open_directory _ _ _ _ _ _ fresh D) as (st & E & K & _ & Ps & _ & R & _). eexists st, _. split; [exact E|].
  split; [now rewrite R, Q|]. intros k i id. unfold restores. cbv zeta. match goal with |- context [blank_coordinator cfg k st ?d i id] => destruct (X k st d i id) as (m & Em & M) end.
  exists m. split; [unfold load_state; now rewrite Ps|].
  split; [rewrite R, Q; etransitivity; [apply (replay_decoded _ _ _ J W) | exact Em]|]. exact M.
Qed.


(** A client that is served, mistaken once and served again. *)
Definition eventful : list Request :=
  released_run ++
  [QCreate (Sample.context (Sample.id_of 24)) (Sample.terms_on 2000 3000 0 kProtected) (Sample.id_of 25) false [];
   QCreate (Sample.context (Sample.id_of 28)) (Sample.terms_on 2000 3000 500 kProtected) (Sample.id_of 27) false [];
   QRecall (Sample.context (Sample.id_of 26)) (Sample.id_of 27) (mkCounter 1) (Sample.second 2500) (mkDur 0) true;
   QFence (Sample.context nil_id) (Sample.id_of 6) (mkCounter 1) nil_id nil_id true].

Definition stopped : Coordinator := run eventful Sample.opened.
Definition opened_again : Result Store * Disk := open (disk (env stopped)) default_options open_io_ok (str "again").
Definition store_again : Store :=
  let default_ r := match r with Ok st => st | Err _ => store (env Sample.opened) end in default_ opened_again.1.
Definition blank_after : Coordinator :=
  blank_coordinator (Sample.config_of 1000 1000 1000) (mkClock (Sample.second 2000) []) store_again opened_again.2 io_ok (Sample.id_of 2).


(** ** What a restart changes

    The cases [restart_restores] leaves out do differ. *)

(** The directory the process left, opened again under the same configuration
    and the same identity of the boot. *)
Definition restarted (c : Coordinator) : Result Coordinator :=
  (open_coordinator (config (env c)) (clock (env c)) (disk (env c)) open_io_ok io_ok (str "again") (ci_boot (incarnation (env c)))).1.

Definition state_at (k : ReservationKey) (c : Coordinator) : option ReservationState :=
  option_map rr_state (find_record_locked c k.1 k.2).

(** What can be seen of the fabric before and after the restart. *)
Definition around_restart {A} (see : Coordinator -> A) (c : Coordinator) : A * option A :=
  (see c, match restarted c with Ok c' => Some (see c') | Err _ => None end).

(** A series of three, the first released, the second amended with the same
    recurrence. *)
Definition remade_run : list Request :=
  let terms_of amount_ :=
    let t := series_terms amount_ in
    mkReservationTerms (claimant t) (claimant_generation t) (binding_kind t) (resources t) (path t)
      (required_path_generation t) (interval t) (amount t) (minimum_amount t) (maximum_amount t) (guarantee t)
      (priority t) (preemptible t) (recall_permitted t) (grace t) (headroom_requirement t) (policy t)
      (policy_labels t) (mkRecurrenceSpec true (period (recurrence t)) 3) in
  [QIngestCapacity (Sample.snapshot 1 (Sample.link_capacity 1 1000)) [] (Sample.context nil_id);
   QCreate (Sample.context (Sample.id_of 20)) (terms_of 300) (Sample.id_of 21) false [];
   QRelease (Sample.context (Sample.id_of 22)) (member 0) (mkCounter 1);
   QAmend (Sample.context (Sample.id_of 23)) (member 1) (mkCounter 1) (terms_of 400) false].

(** 600 bit/s on a link that shrinks to 500, resolved by revocation. *)
Definition shrunk_run : list Request :=
  [QIngestCapacity (Sample.snapshot 1 (Sample.link_capacity 1 1000)) [] (Sample.context nil_id);
   QCreate (Sample.context (Sample.id_of 20)) (Sample.terms_on 2000 3000 600 kProtected) (Sample.id_of 21) false [];
   QIngestCapacity (Sample.snapshot 2 (Sample.link_capacity 2 500)) [] (Sample.context nil_id);
   QResolveOvercommit (Sample.context (Sample.id_of 30)) Sample.link kRevoke].

(** A client in the current epoch of the fabric. *)
Definition caller (c : Coordinator) (attempt claimant_ : Identity128) : RequestContext :=
  mkRequestContext (mkName (str "client")) (Sample.id_of 3) (Sample.id_of 4) (Sample.id_of 5) attempt claimant_ (mkCounter 1)
    (ci_epoch (incarnation (env c))) (str "why").

(** What it is told when it uses an attempt for a small reservation. *)
Definition told (attempt : Identity128) (c : Coordinator) : Result bool :=
  ((  let* r := create_locked (caller c attempt nil_id) (Sample.terms_on 2000 3000 100 kProtected) (Sample.id_of 41) false [] in
  ret (cr_replayed r)) c).1.

(** C23. Where a restart does change the state.  First, a series is amended from a
    member behind the first one: the new reservation for its last window takes
    the identity and generation of a member the amendment supersedes, so while
    the process runs it is COMMITTED; replay enters the new members before it
    supersedes the old ones, so after a restart the reservation the client was
    given is SUPERSEDED.  Second, an overcommit is resolved by revocation: the
    process journals the attempt but does not remember it, so the client can use
    it for another reservation; after a restart it is known, and the same call
    is a conflict. *)
Theorem restart_differs :
  around_restart (state_at (member 2, mkCounter 1)) (run remade_run Sample.opened) = (Some kCommitted, Some (Some kSuperseded)) /\
  around_restart (fun c => (om_mem (attempts (sessions c)) (Sample.id_of 30), told (Sample.id_of 30) c)) (run shrunk_run Sample.opened) =
    ((false, Ok false), Some (true, Err kConflict)).
Proof. split; vm_compute; reflexivity. Qed.

(** A claimant is fenced at large, then the journal is compacted. *)
Definition fenced_run : list Request :=
  [QFence (Sample.context nil_id) (Sample.id_of 7) (mkCounter 1) nil_id nil_id true; QCompact].

(** A compaction and a restart lift a fence.  A fence of a whole claimant is
    acknowledged and the claimant's next request is refused as fenced; the
    journal is compacted, and once the process is restarted on the directory the
    same claimant is admitted: the snapshot holds the fences of boots only. *)
Theorem compaction_lifts_fence :
  map (fun n => has_value (handle (nth n fenced_run QShutdown) (run (firstn n fenced_run) Sample.opened)).1) (seq 0 2) = [true; true] /\
  around_restart (fun c => validate_context_locked c (caller c (Sample.id_of 50) (Sample.id_of 7)) true) (run fenced_run Sample.opened) =
    (Err kFencedClaimant, Some (Ok tt)).
Proof. split; vm_compute; reflexivity. Qed.
