(* ===== verification/CoordTorn.v ===== *)
(** * Coordinator: a restart from a journal that was cut short

    A process that is killed inside a request leaves the journal with a part of
    what the request would have appended, the last record perhaps torn.  Between
    two states of a run the journal file only grows and no other file changes, so
    the directories a kill can leave are the later one with its journal cut
    anywhere behind the end of the earlier one.  Such a directory restores the
    earlier state, advanced by the records that are complete. *)
From S2P Require Import Prelude Errors Containers Identity Hash Bandwidth Time Authority Wire Policy Capacity Reservation Outcome SegTree Index Durable CodecBase Codec Store StoreContract Coordinator CoordRecords CoordPersist CoordAssess CoordLifecycle CoordCommit CoordOps CoordQuery CoordSteps CoordJournal CoordGate CoordBook CoordSound CoordLife CoordLifetime CoordMirror CoordLogged CoordRestart CoordReplay CoordReopen.

(** ** The records a cut leaves *)
Lemma complete_firstn js : forall n, exists k, (k <= length js)%nat /\ complete n js = firstn k js.
Proof.
  induction js as [|r js IH]; intros n; cbn [complete]; [now exists 0%nat|].
  case_if; [|exists 0%nat; split; [lia | reflexivity]].
  destruct (IH (n - frame_size r)) as (k & L & ->). exists (S k). split; [cbn [length]; lia | reflexivity].
Qed.

Lemma complete_app a b : forall n, size (journal_file a) <= n ->
  complete n (a ++ b) = a ++ complete (n - size (journal_file a)) b.
Proof.
  induction a as [|r a IH]; intros n L; [cbn [app]; f_equal; cbn; lia|].
  cbn [journal_file flat_map app complete] in *. change (flat_map journal_frame a) with (journal_file a) in *.
  rewrite length_app, Nat2Z.inj_add, size_journal_frame in *. case_if; bool_prop; [|lia].
  rewrite IH by lia. do 3 f_equal. lia.
Qed.

Lemma complete_all js n : size (journal_file js) <= n -> complete n js = js.
Proof. intros L. rewrite <- (app_nil_r js) at 1. rewrite complete_app by exact L. apply app_nil_r. Qed.

Lemma effective_firstn floor k js : effective floor js = js -> effective floor (firstn k js) = firstn k js.
Proof.
  unfold effective. set (f := fun r => negb _). intros E. rewrite <- (firstn_skipn k js), List.filter_app in E.
  pose proof (f_equal (@length _) E) as L. rewrite !length_app in L.
  pose proof (List.filter_length_le f (firstn k js)). pose proof (List.filter_length_le f (skipn k js)).
  apply app_inj_1 in E as [E _]; [exact E | lia].
Qed.

(** ** The directory *)
Lemma cut_directory c n : on_disk c ->
  exists tail, directory_ok (crash (disk (env c)) n) default_options [] 0 (complete (Z.of_nat n) (journal_of c)) tail.
Proof.
  intros [A Op F P _ _ _]. pose proof (so_directory _ _ _ A) as D. rewrite Op, P, F in D. destruct D as [B I J K T X U Sn].
  destruct (complete_split _ _ B None 0 n K) as (tail & E & Ta & Ko). exists tail. rewrite app_nil_r in *. constructor; try assumption.
  - cbn [crash dk_journal]. rewrite J. cbn [option_map]. now f_equal.
  - rewrite <- E, length_firstn. lia.
Qed.

(** The directory of a state is the one of a later state, cut. *)
Lemma earlier_directory c c' js : on_disk c -> on_disk c' -> side_files c' = side_files c -> journal_of c' = journal_of c ++ js ->
  disk (env c) = crash (disk (env c')) (Z.to_nat (journal_size c)).
Proof.
  intros D D' S J. pose proof (do_journal _ _ _ _ _ _ (so_directory _ _ _ (od_store _ D))) as F.
  pose proof (do_journal _ _ _ _ _ _ (so_directory _ _ _ (od_store _ D'))) as F'. unfold crash. rewrite F', J. cbn [option_map].
  rewrite app_nil_r in *. unfold journal_file at 1. rewrite flat_map_app. fold (journal_file (journal_of c)).
  rewrite firstn_app_at by (unfold journal_size; lia). unfold side_files in S. injection S as S1 S2 S3. rewrite S1, S2, S3.
  destruct (disk (env c)) as [? ? ? j]. cbn in *. now subst j.
Qed.

(** ** The restart *)
Lemma replays_split l l' c m : replays (l ++ l') c = (Ok tt, m) -> exists m1, replays l c = (Ok tt, m1) /\ replays l' m1 = (Ok tt, m).
Proof.
  unfold replays. rewrite for_each_app. unfold bind. destruct (for_each l apply_replay_locked c) as [[[]|e] m1]; [|discriminate]. eauto.
Qed.

(** What a restart finds when the journal of [c'] was cut at [n], behind the
    journal of the earlier state [c]: the records [rs] of [c] and the first [k] of
    those that were appended after it; the state it ends in mirrors [c] advanced
    by them. *)
Definition torn_restart (cfg : CoordinatorConfig) (c c' : Coordinator) (n : nat) : Prop :=
  exists rs more, Forall2 journals_as (journal_of c) rs /\ Forall2 journals_as (journal_of c') (rs ++ more) /\
    (forallb wf_DurableRecord (rs ++ more) = true ->
     exists k between, (k <= length more)%nat /\
       complete (Z.of_nat n) (journal_of c') = firstn (length rs + k) (journal_of c') /\
       replays (firstn k more) c = (Ok tt, between) /\ (k = length more -> mirrors between c') /\
       forall fresh, exists st d, open (crash (disk (env c')) n) default_options open_io_ok fresh = (Ok st, d) /\
         records_ st = complete (Z.of_nat n) (journal_of c') /\
         forall k' i id, restores cfg k' st d i id between /\
           forall c2, recover st (blank_coordinator cfg k' st d i id) = Ok c2 -> mirrors c2 between).

Lemma torn_restarts cfg c c' n :
  on_disk c' -> uncompacted c' -> journal_explains cfg c -> logged c c' -> journal_size c <= Z.of_nat n ->
  torn_restart cfg c c' n.
Proof.
  intros D U (rs & J & X) (js & more & (_ & _ & gone & G & W) & Jm & m' & Em & M') L.
  destruct gone as [|g gone]; [|destruct U as [N _]; destruct N; now apply W]. cbn [app] in G. clear W.
  exists rs, more. split; [exact J|]. split; [rewrite G; now apply Forall2_app|]. intros W.
  rewrite forallb_app in W. apply andb_true_iff in W as [Wr Wm].
  pose proof (Forall2_length _ _ _ J) as Lj. pose proof (Forall2_length _ _ _ Jm) as Lm.
  destruct (complete_firstn js (Z.of_nat n - journal_size c)) as (k & Lk & Ck). unfold journal_size in *.
  assert (complete (Z.of_nat n) (journal_of c') = journal_of c ++ firstn k js) as C by (rewrite G, complete_app, Ck by exact L; reflexivity).
  rewrite <- (firstn_skipn k more) in Em. destruct (replays_split _ _ _ _ Em) as (between & Eb & Er).
  exists k, between. split; [lia|]. split; [rewrite C, G, <- Lj, firstn_app_2; reflexivity|]. split; [exact Eb|]. split.
  { intros ->. rewrite firstn_all2, skipn_all2 in * by lia. injection Er as <-. exact M'. }
  intros fresh. destruct (cut_directory c' n D) as (tail & Dir). rewrite C in Dir.
  destruct (open_directory _ _ _ _ _ _ fresh Dir) as (st & E & _ & _ & Ps & _ & R & _). eexists st, _. split; [exact E|].
  assert (records_ st = journal_of c ++ firstn k js) as Rs.
  { rewrite R, <- C. destruct (complete_firstn (journal_of c') (Z.of_nat n)) as (h & _ & ->). apply effective_firstn, (od_records _ D). }
  split; [now rewrite C|]. intros k' i id.
  match goal with |- context [blank_coordinator cfg k' st ?d i id] => set (b := blank_coordinator cfg k' st d i id); destruct (X k' st d i id) as (m & Eb0 & M) end.
  fold b in Eb0. destruct (replays_from _ _ _ _ (symmetry M) Eb) as (m1 & E1 & M1).
  assert (load_state st b = Ok b) as Ld by (unfold load_state; now rewrite Ps).
  assert (for_each (records_ st) replay_record b = (Ok tt, m1)) as Rp.
  { rewrite Rs, (replay_decoded _ (rs ++ firstn k more)).
    - unfold replays in *. rewrite for_each_app. unfold bind. rewrite Eb0. exact E1.
    - apply Forall2_app; [exact J | now apply Forall2_take].
    - rewrite forallb_app, Wr. cbn [andb]. rewrite <- (firstn_skipn k more), forallb_app in Wm. now apply andb_true_iff in Wm as [-> _]. }
  split; [exists m1; split; [exact Ld | split; [exact Rp | now symmetry]]|].
  intros c2 Rc. transitivity m1; [symmetry; exact (recover_mirrors _ _ _ _ Ld Rp Rc) | now symmetry].
Qed.

Lemma served_app qs qs' c : served (qs ++ qs') c = served qs c && served qs' (run qs c).
Proof. revert c. induction qs as [|q qs IH]; intros c; cbn [app served]; [reflexivity|]. rewrite IH, andb_assoc. reflexivity. Qed.

(** Two points of a run on a new directory. *)
Lemma torn_spec cfg k d fresh boot c0 d' qs qs' n :
  new_directory d -> open_coordinator cfg k d open_io_ok io_ok fresh boot = (Ok c0, d') ->
  forallb plain (qs ++ qs') = true -> served (qs ++ qs') c0 = true ->
  let c := run qs c0 in let c' := run (qs ++ qs') c0 in
  snapshot_payload_ (store (env c')) = [] -> journal_size c' <= kMaxJournalFile -> journal_size c <= Z.of_nat n ->
  disk (env c) = crash (disk (env c')) (Z.to_nat (journal_size c)) /\ torn_restart cfg c c' n.
Proof.
  intros N O P S c c' Sn B L. assert (uncompacted c') as U' by (split; [intros A; now apply A | exact B]).
  assert (c' = run qs' c) as Ec by (unfold c', c, run; apply fold_left_app).
  rewrite forallb_app in P. apply andb_true_iff in P as [P P']. rewrite served_app in S. apply andb_true_iff in S as [S S']. fold c in S'.
  assert (forall a l, in_step a (run l a)) as K by (intros a l; apply (keeps_run in_step); intros; frame).
  pose proof (K c qs') as Kc. rewrite <- Ec in Kc. destruct (Kc U') as [U Dc]. destruct (K c0 qs U) as [U0 D0]. fold c in D0.
  destruct (opened_explains _ _ _ _ _ _ _ N O) as [F X]. destruct (X U0) as [On X0]. destruct (D0 On) as [Oc _]. destruct (Dc Oc) as [Oc' Sf].
  destruct (run_is_logged qs c0 P S (proj1 U) F) as [Fc Lc]. fold c in Fc, Lc.
  pose proof (proj1 U') as N'. rewrite Ec in N'. destruct (run_is_logged qs' c P' S' N' Fc) as [_ Lo]. rewrite <- Ec in Lo.
  split; [|apply torn_restarts; try assumption; now apply (logged_explains cfg c0)].
  pose proof Lo as (js & _ & (_ & _ & gone & G & W) & _). destruct gone as [|g gone]; [|destruct U' as [Nn _]; destruct Nn; now apply W].
  exact (earlier_directory c c' js Oc Oc' Sf G).
Qed.
