(* ===== verification/CoordTyped.v ===== *)
(** * Coordinator: what it journals can be read back, the rules

    Every durable record the coordinator writes is within the bounds its decoder
    checks.  That is an invariant of types: the tables, the books and the clock
    hold values the codec accepts, and so is whatever is built from them and
    from requests that came off the wire.  The values, the invariant and the
    rules by which an operation keeps it. *)
From stdpp Require Import relations.
From S2P Require Import Prelude Errors Containers Identity Hash Bandwidth Time Authority Wire Policy Capacity Reservation Outcome SegTree Index Durable CodecBase Codec Store Coordinator CoordRecords CoordPersist CoordAssess CoordLifecycle CoordCommit CoordOps CoordQuery CoordSteps CoordJournal CoordSound CoordCapacity CoordMirror CoordLogged.

(** ** Leaves *)
#[local] Arguments id_ok : simpl never.
#[local] Arguments counter_ok : simpl never.
#[local] Arguments ts_ok : simpl never.
#[local] Arguments dur_ok : simpl never.
#[local] Arguments interval_ok : simpl never.
#[local] Arguments bandwidth_ok : simpl never.
#[local] Arguments name_ok : simpl never.
#[local] Arguments text_ok : simpl never.
#[local] Arguments list_ok : simpl never.
#[local] Arguments u_ok : simpl never.
#[local] Arguments sanitize_reason : simpl never.
#[local] Arguments to_u : simpl never.
#[local] Arguments is_nil : simpl never.
#[local] Arguments derive : simpl never.
#[local] Arguments fingerprint128 : simpl never.
#[local] Arguments str : simpl never.

Create HintDb typed discriminated.
#[export] Hint Constants Opaque : typed.

Lemma counter_wraps {t} z : counter_ok (t := t) (mkCounter (to_u 64 z)) = true.
Proof. unfold counter_ok, u_ok. cbn [value]. pose proof (to_u_range 64 z). bool_goal; lia. Qed.
Lemma items_bound : kMaxCollectionItems = 65536.
Proof. reflexivity. Qed.
Lemma counter_small {t} z : 0 <= z <= kMaxCollectionItems -> counter_ok (t := t) (mkCounter z) = true.
Proof. rewrite items_bound. unfold counter_ok, u_ok. cbn [value]. intros L. bool_goal; lia. Qed.
Lemma counter_zero {t} : counter_ok (t := t) (mkCounter 0) = true.
Proof. reflexivity. Qed.
Lemma counter_one {t} : counter_ok (t := t) (mkCounter 1) = true.
Proof. reflexivity. Qed.
Lemma nil_id_ok : id_ok nil_id = true.
Proof. reflexivity. Qed.
Lemma member_id_ok s i : id_ok (derive_member_id s i) = true.
Proof. reflexivity. Qed.
Lemma series_id_ok cl a n : id_ok (derive_series_id cl a n) = true.
Proof. reflexivity. Qed.
Lemma ts0_ok : ts_ok ts0 = true.
Proof. reflexivity. Qed.
Lemma dur0_ok : dur_ok (mkDur 0) = true.
Proof. reflexivity. Qed.
Lemma bw0_ok : bandwidth_ok bw0 = true.
Proof. reflexivity. Qed.
Lemma all_time_ok : interval_ok all_time = true.
Proof. reflexivity. Qed.
Lemma no_name_ok cap : name_ok (@empty_name cap) = true.
Proof. reflexivity. Qed.
Lemma no_text_ok : text_ok kMaxProvenanceReasonBytes [] = true.
Proof. reflexivity. Qed.
Lemma list_ok_nil {A} (wf : A -> bool) : list_ok wf [] = true.
Proof. reflexivity. Qed.
Lemma sanitized_ok why : text_ok kMaxProvenanceReasonBytes (sanitize_reason why) = true.
Proof. unfold text_ok. apply Z.leb_le, sanitize_reason_spec. Qed.
Lemma default_provenance_ok : wf_Provenance default_provenance = true.
Proof. reflexivity. Qed.
Lemma interval_parts i : ts_ok (start i) = true -> ts_ok (end_ i) = true -> interval_ok i = true.
Proof. intros A B. unfold interval_ok. now rewrite A, B. Qed.
Lemma interval_start i : interval_ok i = true -> ts_ok (start i) = true.
Proof. unfold interval_ok. intros I. now split_andb. Qed.
Lemma interval_end i : interval_ok i = true -> ts_ok (end_ i) = true.
Proof. unfold interval_ok. intros I. now split_andb. Qed.
#[export] Hint Resolve counter_wraps counter_zero counter_one nil_id_ok member_id_ok series_id_ok derive_ok fingerprint128_ok ts0_ok dur0_ok bw0_ok
  all_time_ok no_name_ok no_text_ok list_ok_nil sanitized_ok default_provenance_ok interval_start interval_end : typed.

(** ** Lists *)
Lemma list_ok_Forall {A} (wf : A -> bool) l :
  list_ok wf l = true <-> Z.of_nat (length l) <= kMaxCollectionItems /\ Forall (fun a => wf a = true) l.
Proof. unfold list_ok. rewrite andb_true_iff, Z.leb_le, forallb_forall, List.Forall_forall. reflexivity. Qed.

Lemma list_ok_length {A} (wf : A -> bool) l : list_ok wf l = true -> Z.of_nat (length l) <= kMaxCollectionItems.
Proof. intros L. now apply list_ok_Forall in L. Qed.
Lemma list_ok_In {A} (wf : A -> bool) l a : list_ok wf l = true -> In a l -> wf a = true.
Proof. intros L I. apply list_ok_Forall in L as [_ F]. exact (proj1 (List.Forall_forall _ _) F a I). Qed.

(** A value of a map. *)
Definition om_all {K V} (P : V -> Prop) (m : omap K V) : Prop := Forall (fun p => P p.2) m.

Lemma om_all_find {K V} `{OrdKey K} (P : V -> Prop) (m : omap K V) k v : om_all P m -> om_find m k = Some v -> P v.
Proof. intros A F. apply om_find_In in F. exact (proj1 (List.Forall_forall _ _) A _ F). Qed.

Lemma om_all_set {K V} `{OrdKey K} (P : V -> Prop) (m : omap K V) k v : om_all P m -> P v -> om_all P (om_set m k v).
Proof.
  unfold om_all. rewrite !List.Forall_forall. intros A Pv q I. apply om_set_In in I as [->|I]; [exact Pv | now apply A].
Qed.

Lemma om_all_erase {K V} `{OrdKey K} (P : V -> Prop) (m : omap K V) k : om_all P m -> om_all P (om_erase m k).
Proof. unfold om_all. rewrite !List.Forall_forall. intros A q I. apply om_erase_In in I as [I _]. now apply A. Qed.

Lemma om_all_values {K V} (P : V -> Prop) (m : omap K V) : om_all P m -> Forall P (om_values m).
Proof. unfold om_all, om_values. rewrite Forall_fmap. auto. Qed.

(** ** Records *)
#[local] Arguments wf_Provenance : simpl never.
#[local] Arguments wf_AuthorityVector : simpl never.
#[local] Arguments wf_ReservationTerms : simpl never.
#[local] Arguments wf_RecurrenceSpec : simpl never.
#[local] Arguments wf_AttemptMutation : simpl never.
#[local] Arguments wf_StateMutation : simpl never.
#[local] Arguments wf_ReservationRecord : simpl never.
#[local] Arguments wf_ReservationSeries : simpl never.
#[local] Arguments wf_SupersessionEdge : simpl never.
#[local] Arguments optional_ok : simpl never.

(** Open the checks of a structure, in the hypotheses and in the goal. *)
Ltac fields_of wf := repeat match goal with H : wf _ = true |- _ => unfold wf in H end; split_andb.
Ltac andb_goal := repeat lazymatch goal with |- _ && _ = true => apply andb_true_iff; split end.
Ltac typed_by wf := unfold wf; cbn; andb_goal; auto with typed.

Lemma record_parts r : wf_ReservationRecord r = true ->
  id_ok (rr_id r) = true /\ counter_ok (rr_generation r) = true /\ wf_ReservationTerms (terms r) = true /\
  wf_AuthorityVector (authority r) = true /\ id_ok (rr_series r) = true.
Proof. intros W. fields_of wf_ReservationRecord. auto. Qed.
Lemma record_id r : wf_ReservationRecord r = true -> id_ok (rr_id r) = true.
Proof. apply record_parts. Qed.
Lemma record_generation r : wf_ReservationRecord r = true -> counter_ok (rr_generation r) = true.
Proof. apply record_parts. Qed.
Lemma record_terms r : wf_ReservationRecord r = true -> wf_ReservationTerms (terms r) = true.
Proof. apply record_parts. Qed.
Lemma record_series r : wf_ReservationRecord r = true -> id_ok (rr_series r) = true.
Proof. apply record_parts. Qed.
Lemma terms_claimant t : wf_ReservationTerms t = true -> id_ok (claimant t) = true.
Proof. intros W. now fields_of wf_ReservationTerms. Qed.
Lemma terms_generation t : wf_ReservationTerms t = true -> counter_ok (claimant_generation t) = true.
Proof. intros W. now fields_of wf_ReservationTerms. Qed.
Lemma terms_interval t : wf_ReservationTerms t = true -> interval_ok (interval t) = true.
Proof. intros W. now fields_of wf_ReservationTerms. Qed.
Lemma terms_amount t : wf_ReservationTerms t = true -> bandwidth_ok (amount t) = true.
Proof. intros W. now fields_of wf_ReservationTerms. Qed.
Lemma terms_recurrence t : wf_ReservationTerms t = true -> wf_RecurrenceSpec (recurrence t) = true.
Proof. intros W. now fields_of wf_ReservationTerms. Qed.
Lemma terms_policy t : wf_ReservationTerms t = true -> name_ok (policy t) = true.
Proof. intros W. now fields_of wf_ReservationTerms. Qed.
Lemma context_attempt_ok x : wf_RequestContext x = true -> id_ok (rq_attempt x) = true.
Proof. intros W. now fields_of wf_RequestContext. Qed.
Lemma context_claimant_ok x : wf_RequestContext x = true -> id_ok (rq_claimant x) = true.
Proof. intros W. now fields_of wf_RequestContext. Qed.
Lemma context_generation_ok x : wf_RequestContext x = true -> counter_ok (rq_claimant_generation x) = true.
Proof. intros W. now fields_of wf_RequestContext. Qed.
#[export] Hint Resolve record_id record_generation record_terms record_series terms_claimant terms_generation terms_interval terms_amount
  terms_recurrence terms_policy context_attempt_ok context_claimant_ok context_generation_ok : typed.

Lemma with_state_ok r st t why p :
  wf_ReservationRecord r = true -> ts_ok t = true -> wf_Provenance p = true -> wf_ReservationRecord (with_state r st t why p) = true.
Proof. intros W T P. fields_of wf_ReservationRecord. typed_by wf_ReservationRecord. now destruct (is_terminal st). Qed.
Lemma with_recall_ok r t : wf_ReservationRecord r = true -> ts_ok t = true -> wf_ReservationRecord (with_recall r t) = true.
Proof. intros W T. fields_of wf_ReservationRecord. typed_by wf_ReservationRecord. Qed.
Lemma with_grace_ok r g : wf_ReservationRecord r = true -> dur_ok g = true -> wf_ReservationRecord (with_grace r g) = true.
Proof. intros W G. fields_of wf_ReservationRecord. typed_by wf_ReservationRecord. Qed.
Lemma with_sequence_ok r s : wf_ReservationRecord r = true -> counter_ok s = true -> wf_ReservationRecord (with_sequence r s) = true.
Proof. intros W S. fields_of wf_ReservationRecord. typed_by wf_ReservationRecord. Qed.
Lemma with_applicability_ok r a why t :
  wf_ReservationRecord r = true -> ts_ok t = true -> wf_ReservationRecord (with_applicability r a why t) = true.
Proof. intros W T. fields_of wf_ReservationRecord. typed_by wf_ReservationRecord. Qed.
Lemma with_interval_ok t w : wf_ReservationTerms t = true -> interval_ok w = true -> wf_ReservationTerms (with_interval t w) = true.
Proof. intros W I. fields_of wf_ReservationTerms. typed_by wf_ReservationTerms. Qed.
#[export] Hint Resolve with_state_ok with_recall_ok with_grace_ok with_sequence_ok with_applicability_ok with_interval_ok : typed.

(** *** What is journalled of a transition *)
Lemma state_attempt_ok x r st t : wf_RequestContext x = true -> wf_ReservationRecord r = true -> ts_ok t = true ->
  wf_AttemptMutation (state_attempt x r st t) = true.
Proof. intros X R T. typed_by wf_AttemptMutation. Qed.
#[export] Hint Resolve state_attempt_ok : typed.

Lemma state_mutation_ok x r st t why at_ :
  wf_RequestContext x = true -> wf_ReservationRecord r = true -> ts_ok t = true -> ts_ok at_ = true ->
  wf_StateMutation (state_mutation x r st t why at_) = true.
Proof. intros X R T A. typed_by wf_StateMutation. case_if; [reflexivity|]. unfold optional_ok. auto with typed. Qed.
#[export] Hint Resolve state_mutation_ok : typed.

Lemma edge_ok r s now sq why :
  wf_ReservationRecord r = true -> wf_ReservationRecord s = true -> ts_ok now = true -> counter_ok sq = true ->
  text_ok kMaxProvenanceReasonBytes why = true -> wf_SupersessionEdge (edge_to r s now sq why) = true.
Proof. intros R S T Q W. typed_by wf_SupersessionEdge. Qed.
#[export] Hint Resolve edge_ok : typed.

(** ** The state *)

(** A statement of capacity that came off the wire and was accepted. *)
Definition capacity_ok (c : ResourceCapacity) : Prop := wf_ResourceCapacity c = true /\ validate_capacity c = Ok tt.

Definition wf_clock (k : Clock) : Prop := Forall (fun t => ts_ok t = true) (reading k :: upcoming k).

Record typed_tables (t : Tables) : Prop := {
  tt_ledger : om_all (fun e => capacity_ok (ce_capacity e)) (ledger t);
  tt_paths : om_all (fun e => wf_PathAuthority (pt_path e) = true) (paths t);
  tt_policies : om_all (fun e => wf_PolicyRecord (pe_record e) = true) (policies t);
  tt_last : id_ok (last_capacity_snapshot t) = true /\ counter_ok (last_capacity_generation t) = true }.

Record typed_book (b : Book) : Prop := {
  tb_records : om_all (fun r => wf_ReservationRecord r = true) (records b);
  tb_series : om_all (fun s => wf_ReservationSeries s = true) (series_records b) }.

(** The journal record was encoded from a durable record its decoder accepts. *)
Definition readable (j : JournalRecord) : Prop := exists r, journals_as j r /\ wf_DurableRecord r = true.

Record typed (c : Coordinator) : Prop := {
  ty_clock : wf_clock (clock (env c));
  ty_epoch : counter_ok (ci_epoch (incarnation (env c))) = true /\ id_ok (ci_boot (incarnation (env c))) = true;
  ty_tables : typed_tables (tables c);
  ty_book : typed_book (book c);
  ty_journal : Forall readable (journal_of c) }.

(** ** What is built from the state *)
Lemma provenance_ok c x sq t : typed c -> wf_RequestContext x = true -> counter_ok sq = true -> ts_ok t = true ->
  wf_Provenance (make_provenance_locked c x sq t) = true.
Proof. intros [_ [E B] _ _ _] X S T. fields_of wf_RequestContext. typed_by wf_Provenance. Qed.

Lemma policy_locked_ok c n : typed c -> name_ok n = true -> wf_PolicyRecord (policy_for_locked c n).1 = true.
Proof.
  intros [_ _ T _ _] N. unfold policy_for_locked, PolicyRegistry_current. destruct (PolicyRegistry_find _ n) as [e|] eqn:F.
  - exact (om_all_find _ _ _ _ (tt_policies _ T) F).
  - cbn [fst]. unfold wf_PolicyRecord, strict_default. cbn. rewrite N. reflexivity.
Qed.

Record binding_ok (b : ResolvedBinding) : Prop := {
  bo_generation : counter_ok (rb_path_generation b) = true;
  bo_resources : list_ok wf_ResourceRef (rb_resources b) = true;
  bo_domains : list_ok wf_FailureDomainRef (rb_failure_domains b) = true }.

Lemma bind_resources_ok l names out :
  om_all (fun e => capacity_ok (ce_capacity e)) l -> Forall (fun n => name_ok n = true) names ->
  bind_resources l names = Ok out ->
  Forall (fun r => wf_ResourceRef r = true) out.1 /\ Forall (fun d => wf_FailureDomainRef d = true) out.2.
Proof.
  intros L. revert out. induction names as [|n names IH]; intros out N E; cbn [bind_resources] in E; [injection E as <-; split; constructor|].
  destruct (CapacityLedger_find l n) as [e|] eqn:F; [|discriminate]. apply rbind_refuse_Ok in E as [_ E].
  apply rbind_Ok in E as ([refs ds] & B & E). injection E as <-. inversion N as [|? ? Nn Ns]; subst. destruct (IH _ Ns B) as [R D].
  destruct (om_all_find _ _ _ _ L F) as [W _]. fields_of wf_ResourceCapacity. cbn [fst snd]. split.
  - constructor; [|exact R]. typed_by wf_ResourceRef.
  - case_if; [exact D|]. constructor; [|exact D]. typed_by wf_FailureDomainRef.
Qed.

(** Canonical sets are no longer than the bound and hold what they were given. *)
Lemma canonical_list_ok {R N G} `{OrdKey R, OrdKey N, OrdKey G} (name_of : R -> N) (generation_of : R -> G) (wf : R -> bool) refs out :
  (forall a b, kcmp a b = cmp_then (kcmp (name_of a) (name_of b)) (kcmp (generation_of a) (generation_of b))) ->
  Forall (fun r => wf r = true) refs -> canonicalize name_of generation_of refs = Ok out -> list_ok wf out = true.
Proof.
  intros Or F E. pose proof (canonicalize_cases name_of generation_of Or refs) as C. rewrite E in C. destruct C as (L & I & S).
  apply list_ok_Forall. split.
  - assert (NoDup out) as D.
    { unfold strictly_by_name in S. clear -S. induction S as [|a l S IH F]; constructor; [|exact IH]. intros I.
      rewrite List.Forall_forall in F. specialize (F a). rewrite list_elem_of_In in I. specialize (F I). now rewrite kltb_irrefl in F. }
    assert (length out <= length refs)%nat as Le.
    { apply List.NoDup_incl_length; [now apply NoDup_ListNoDup|]. intros a A. now apply I. }
    unfold kMaxBindingResources in L. rewrite items_bound. lia.
  - rewrite !List.Forall_forall in F |- *. intros a A. apply F. now apply I.
Qed.

Lemma resolve_binding_ok t x b : typed_tables t -> wf_ReservationTerms x = true -> resolve_binding t x = Ok b -> binding_ok b.
Proof.
  intros [L P _ _] W E. unfold resolve_binding in E. apply rbind_Ok in E as ([[p g] names] & Pa & E). apply rbind_Ok in E as ([refs ds] & B & E).
  apply rbind_Ok in E as (refs' & R & E). apply rbind_Ok in E as (ds' & D & E). injection E as <-.
  assert (counter_ok g = true /\ Forall (fun n => name_ok n = true) names) as [G N].
  { unfold bind_path in Pa. destruct (binding_kind x).
    - injection Pa as _ <- <-. split; [reflexivity|]. fields_of wf_ReservationTerms. now eapply list_ok_Forall.
    - destruct (PathAuthorityTable_find _ _) as [e|] eqn:F; [|discriminate]. do 2 apply rbind_refuse_Ok in Pa as [_ Pa]. injection Pa as _ <- <-.
      pose proof (om_all_find _ _ _ _ P F) as We. cbn beta in We. fields_of wf_PathAuthority. split; [assumption | now eapply list_ok_Forall]. }
  destruct (bind_resources_ok _ _ _ L N B) as [Fr Fd]. split; [exact G | |].
  - exact (canonical_list_ok resource res_generation _ _ _ (fun _ _ => eq_refl) Fr R).
  - exact (canonical_list_ok domain fd_generation _ _ _ (fun _ _ => eq_refl) Fd D).
Qed.

Lemma authority_vector_ok c t b p g : typed c -> wf_ReservationTerms t = true -> binding_ok b -> wf_PolicyRecord p = true -> counter_ok g = true ->
  wf_AuthorityVector (commit_authority c t b p g) = true.
Proof.
  intros [_ [E _] [_ _ _ [I G]] _ _] T [Bg Br Bd] P Cg. fields_of wf_PolicyRecord. typed_by wf_AuthorityVector.
Qed.

Lemma revalidated_ok c r b p now pr sq : typed c -> wf_ReservationRecord r = true -> binding_ok b -> wf_PolicyRecord p = true ->
  ts_ok now = true -> wf_Provenance pr = true -> counter_ok sq = true -> wf_ReservationRecord (revalidated c r b p now pr sq) = true.
Proof.
  intros [_ [E _] [_ _ _ [I G]] _ _] R [Bg Br Bd] P T Pr Q. pose proof (record_terms r R) as Wt.
  assert (name_ok (pr_name p) = true /\ counter_ok (pr_generation p) = true) as [Pn Pg] by (fields_of wf_PolicyRecord; auto).
  assert (wf_AuthorityVector (authority (revalidated c r b p now pr sq)) = true) as A by (cbn; typed_by wf_AuthorityVector).
  unfold revalidated in *. cbn [authority] in A. fields_of wf_ReservationRecord. unfold wf_ReservationRecord.
  cbn -[wf_AuthorityVector] in *. andb_goal; auto with typed. now case_if.
Qed.
#[export] Hint Resolve authority_vector_ok provenance_ok : typed.

(** ** Windows of a series *)
Lemma expand_loop_ok room : forall i s p span ws, expand_loop room i s p span = Ok ws ->
  (length ws <= room)%nat /\ Forall (fun w => interval_ok w = true) ws.
Proof.
  induction room as [|room IH]; intros i s p span ws E; cbn [expand_loop] in E; [injection E as <-; split; [reflexivity | constructor]|].
  cbv zeta in E. apply rbind_refuse_Ok in E as [B E]. apply rbind_Ok in E as (u & V & E). apply rbind_Ok in E as (rest & R & E).
  injection E as <-. destruct (IH _ _ _ _ _ R) as [L F]. split; [cbn [length]; lia|]. constructor; [|exact F].
  destruct u. rewrite validate_interval_Ok in V. cbn [start end_ ns] in V. unfold kMaxTimestampNs, kNsPerSecond in V.
  apply interval_parts; unfold ts_ok, i64_ok; cbn [start end_ ns]; bool_goal; lia.
Qed.

Lemma expand_series_ok first spec n ws : interval_ok first = true -> wf_RecurrenceSpec spec = true -> expand_series first spec n = Ok ws ->
  list_ok interval_ok ws = true.
Proof.
  intros I W E. apply list_ok_Forall. unfold expand_series in E. destruct (negb (enabled spec)).
  - injection E as <-. split; [rewrite items_bound; cbn; lia | constructor; [exact I | constructor]].
  - do 2 apply rbind_refuse_Ok in E as [_ E]. apply rbind_Ok in E as (u & _ & E). apply rbind_refuse_Ok in E as [_ E]. cbv zeta in E.
    do 2 apply rbind_refuse_Ok in E as [_ E]. apply expand_loop_ok in E as [L F]. split; [|exact F].
    fields_of wf_RecurrenceSpec. unfold u_ok in *. bool_prop. rewrite items_bound. lia.
Qed.

(** ** Commits *)
Lemma make_record_ok t auth sid now p sq id w i m :
  wf_ReservationTerms t = true -> wf_AuthorityVector auth = true -> id_ok sid = true -> ts_ok now = true -> wf_Provenance p = true ->
  counter_ok sq = true -> id_ok id = true -> interval_ok w = true -> 0 <= i <= kMaxCollectionItems ->
  wf_ReservationRecord (make_record t auth sid now p sq id w i m) = true.
Proof.
  intros T A S N P Q I W L. pose proof (counter_small (t := SeriesIndexTag) i L). unfold make_record. typed_by wf_ReservationRecord. now case_if.
Qed.

Lemma imap_list_ok {A B} (wf : A -> bool) (wf' : B -> bool) (f : nat -> A -> B) l : list_ok wf l = true ->
  (forall i a, wf a = true -> (i < length l)%nat -> wf' (f i a) = true) -> list_ok wf' (imap f l) = true.
Proof.
  intros L F. apply list_ok_Forall in L as [B1 B2]. apply list_ok_Forall. split; [now rewrite length_imap|].
  rewrite Forall_lookup. intros i b E. rewrite list_lookup_imap in E. destruct (l !! i) as [a|] eqn:La; [|discriminate]. injection E as <-.
  apply F; [|eapply lookup_lt_Some; exact La]. rewrite Forall_lookup in B2. eapply B2. exact La.
Qed.

Lemma map_list_ok {A B} (wf : A -> bool) (wf' : B -> bool) (f : A -> B) l : list_ok wf l = true ->
  (forall a, wf a = true -> wf' (f a) = true) -> list_ok wf' (map f l) = true.
Proof.
  intros L F. apply list_ok_Forall in L as [B1 B2]. apply list_ok_Forall. split; [now rewrite length_map|]. rewrite List.Forall_map. eapply List.Forall_impl; [|exact B2]. exact F.
Qed.

Lemma hd_interval_ok i ws : interval_ok i = true -> list_ok interval_ok ws = true -> interval_ok (hd i ws) = true.
Proof. intros I W. destruct ws as [|w ws]; [exact I|]. eapply list_ok_In; [exact W | now left]. Qed.
#[export] Hint Resolve hd_interval_ok : typed.

Lemma commit_records_ok t auth id sid now p sq ws :
  wf_ReservationTerms t = true -> wf_AuthorityVector auth = true -> id_ok id = true -> id_ok sid = true -> ts_ok now = true ->
  wf_Provenance p = true -> counter_ok sq = true -> list_ok interval_ok ws = true ->
  list_ok wf_ReservationRecord (commit_records t auth id sid now p sq ws) = true.
Proof.
  intros T A I S N P Q W. unfold commit_records. case_if.
  - eapply imap_list_ok; [exact W|]. intros i w Ww L. apply list_ok_length in W. apply make_record_ok; auto with typed. lia.
  - apply list_ok_Forall. split; [rewrite items_bound; cbn; lia|]. constructor; [|constructor].
    apply make_record_ok; auto with typed. rewrite items_bound. lia.
Qed.

Lemma list_ok_tail {A} (wf : A -> bool) l : list_ok wf l = true -> list_ok wf (tl l) = true.
Proof. intros L. apply list_ok_Forall in L as [B F]. apply list_ok_Forall. destruct l; [now split|]. inversion F. cbn [tl length] in *. split; [lia | assumption]. Qed.
Lemma list_ok_head {A} (wf : A -> bool) d l : wf d = true -> list_ok wf l = true -> wf (hd d l) = true.
Proof. intros D L. destruct l; [exact D|]. eapply list_ok_In; [exact L | now left]. Qed.

Lemma commit_series_ok t sid now p sq ws all : wf_ReservationTerms t = true -> id_ok sid = true -> ts_ok now = true -> wf_Provenance p = true ->
  counter_ok sq = true -> list_ok interval_ok ws = true -> list_ok wf_ReservationRecord all = true ->
  optional_ok wf_ReservationSeries (commit_series t sid now p sq ws all) = true.
Proof.
  intros T S N P Q W A. unfold commit_series. case_if; [|reflexivity]. unfold optional_ok. typed_by wf_ReservationSeries.
  eapply map_list_ok; [exact A | auto with typed].
Qed.

Lemma to_hex_length i : id_ok i = true -> Z.of_nat (length (to_hex i)) = 32.
Proof.
  unfold id_ok, to_hex, kByteCount. intros L. apply Z.eqb_eq in L.
  assert (forall l, length (flat_map (fun b => [hex_digit (Z.land (Z.shiftr (b2z b) 4) 15); hex_digit (Z.land (b2z b) 15)]) l) = (2 * length l)%nat) as D
    by (clear; induction l as [|b l IH]; [reflexivity | cbn [flat_map app length]; rewrite IH; lia]).
  rewrite D. lia.
Qed.

Lemma to_decimal_length v : u_ok 64 v = true -> Z.of_nat (length (to_decimal v)) <= 20.
Proof. intros U. now destruct (to_decimal_spec v U) as (_ & _ & _ & L). Qed.

(** The companions of a commit: as many as there are victims. *)
Lemma victim_mutations_ok c id now p ds :
  typed_book (book c) -> id_ok id = true -> ts_ok now = true -> wf_Provenance p = true -> Z.of_nat (length ds) <= kMaxCollectionItems ->
  list_ok wf_StateMutation (victim_mutations c id now p ds) = true.
Proof.
  intros [R _] I T P L. apply list_ok_Forall. unfold victim_mutations. split.
  - etransitivity; [|exact L]. apply inj_le. clear. induction ds as [|d ds IH]; [reflexivity|]. cbn [base.omap list_omap]. destruct (option_map _ _); cbn [length] in *; [now apply le_n_S | now apply le_S].
  - apply Forall_forall. intros m M. apply list_elem_of_omap in M as (v & _ & E). destruct (find_record_locked _ _ _) as [r|] eqn:F; [|discriminate].
    pose proof (om_all_find _ _ _ _ R F) as W. cbn beta in W.
    assert (mkStateMutation (rr_id r) (rr_generation r) (rr_state r) kRevoked now (str "preempted by reservation " ++ to_hex id) p ts0 None = m) as <-
      by (now injection E). typed_by wf_StateMutation.
    unfold text_ok. rewrite length_app, Nat2Z.inj_add, (to_hex_length id I). reflexivity.
Qed.

Lemma commit_attempt_ok x print r t sq now :
  wf_RequestContext x = true -> id_ok print = true -> wf_ReservationRecord r = true -> wf_ReservationTerms t = true ->
  counter_ok sq = true -> ts_ok now = true -> wf_AttemptMutation (commit_attempt x print r t sq now) = true.
Proof. intros X P R T Q N. typed_by wf_AttemptMutation. Qed.

(** No more victims than the policy allows. *)
Lemma plan_candidates_bound t b p ws cs : forall vs c out c',
  plan_candidates t b p ws cs vs c = (Ok out, c') -> Z.of_nat (length vs) <= max_preemption_victims p ->
  Z.of_nat (length out.1) <= max_preemption_victims p.
Proof.
  induction cs as [|e cs IH]; intros vs c out c' E L; cbn [plan_candidates] in E; [now injection E as <- _|].
  destruct (Z.of_nat (length vs) >=? max_preemption_victims p) eqn:G; [now injection E as <- _|]. rewrite Z.geb_leb in G. apply Z.leb_gt in G.
  unfold bind, gets in E. destruct (find_record_locked _ _ _) as [v|]; [|now apply (IH _ _ _ _ E)].
  assert (Z.of_nat (length (vs ++ [e])) <= max_preemption_victims p) as L' by (rewrite length_app; cbn [length]; lia).
  destruct (suspend v c) as [[u|err] c1]; [|now apply (IH _ _ _ _ E)].
  destruct (evaluate_all c1 t b p 0 ws); [now injection E as <- _ | now apply (IH _ _ _ _ E)].
Qed.

Lemma plan_resources_bound t b p self ws w refs : forall vs c out c',
  plan_resources t b p self ws w refs vs c = (Ok out, c') -> Z.of_nat (length vs) <= max_preemption_victims p ->
  Z.of_nat (length out.1) <= max_preemption_victims p.
Proof.
  induction refs as [|r refs IH]; intros vs c out c' E L; cbn [plan_resources] in E; [now injection E as <- _|].
  destruct (_ >=? _); [now injection E as <- _|]. apply bind_inv in E as (cs & c1 & E1 & E). apply bind_inv in E as ([vs' ev] & c2 & E2 & E).
  apply plan_candidates_bound in E2; [|exact L]. destruct ev; [now injection E as <- _ | now apply (IH _ _ _ _ E)].
Qed.

Lemma plan_bound t b p self now ws i c out c' : wf_PolicyRecord p = true -> plan_preemption t b p self now ws i c = (Ok out, c') ->
  Z.of_nat (length out.1) <= kMaxCollectionItems.
Proof.
  intros W E. fields_of wf_PolicyRecord. bool_prop. unfold u_ok in *. bool_prop. rewrite items_bound.
  unfold plan_preemption in E. apply bind_inv in E as (en & c1 & _ & E). case_if_in E; [|injection E as <- _; cbn; lia].
  apply bind_inv in E as ([vs ev] & c2 & E2 & E). apply plan_resources_bound in E2; [|cbn; lia]. injection E as <- _. cbn [fst] in *.
  destruct ev; [lia | cbn; lia].
Qed.

(** ** Peaks of the index *)
Lemma saturating_range a b : - kIndexSaturation <= a <= kIndexSaturation -> - kIndexSaturation <= saturating_add a b <= kIndexSaturation.
Proof. unfold saturating_add, kIndexSaturation. intros A. repeat case_if; bool_prop; try lia. Qed.

Lemma node_query_range fuel : forall ns k lo hi ql qr carry, - kIndexSaturation <= carry <= kIndexSaturation ->
  let v := node_query fuel ns k lo hi ql qr carry in v = kNoValue \/ - kIndexSaturation <= v <= kIndexSaturation.
Proof.
  induction fuel as [|fuel IH]; intros ns k lo hi ql qr carry C; cbn [node_query]; cbv zeta; [now left|].
  case_if; [now left|]. case_if; [now right|]. case_if; [right; now apply saturating_range|].
  pose proof (saturating_range carry (lazy (node_at ns k)) C) as C'.
  pose proof (IH ns (left (node_at ns k)) lo (lo + Z.quot (hi - lo) 2) ql qr _ C') as L.
  pose proof (IH ns (right (node_at ns k)) (lo + Z.quot (hi - lo) 2) hi ql qr _ C') as R. cbv zeta in *.
  unfold kNoValue, i64_min, kIndexSaturation in *. lia.
Qed.

Lemma ici_peak_ok x w : bandwidth_ok (ici_peak x w) = true.
Proof.
  unfold ici_peak, ici_query. case_if; [reflexivity|]. case_if; [reflexivity|]. cbv zeta.
  pose proof (node_query_range tree_fuel (nodes x) 1 0 kMaxTimestampNs (ns (start w)) (ns (end_ w)) 0) as R. cbv zeta in R.
  case_if; [reflexivity|]. unfold bandwidth_ok, i64_ok. cbn [bps]. unfold kIndexSaturation in R. destruct R as [R|R]; [lia | contradict R; now apply Z.eqb_neq |].
  bool_goal; lia.
Qed.

Lemma peak_committed_ok x n w : bandwidth_ok (peak_committed x n w) = true.
Proof. unfold peak_committed. destruct (state_for x n); [apply ici_peak_ok | reflexivity]. Qed.

Lemma obligation_peak_ok c n : bandwidth_ok (obligation_peak c n) = true.
Proof.
  unfold obligation_peak. cbv zeta. destruct (outstanding_records c n); [apply peak_committed_ok|]. case_if; [apply ici_peak_ok | apply peak_committed_ok].
Qed.

Lemma entry_ceiling_ok e : capacity_ok (ce_capacity e) -> bandwidth_ok (entry_ceiling e) = true.
Proof.
  intros [_ V]. unfold entry_ceiling. case_if; [reflexivity|]. pose proof (committable_ceiling_spec _ V) as [_ R].
  unfold bandwidth_ok, i64_ok. unfold kMaxBandwidthBps in R. bool_goal; lia.
Qed.

(** ** Amendments *)
Section amendment.
Context (t : ReservationTerms) (auth : AuthorityVector) (now : Timestamp) (p : Provenance) (sq : DurableSequence)
  (T : wf_ReservationTerms t = true) (A : wf_AuthorityVector auth = true) (N : ts_ok now = true) (P : wf_Provenance p = true)
  (Q : counter_ok sq = true).

Lemma make_successor_ok r w : wf_ReservationRecord r = true -> interval_ok w = true ->
  wf_ReservationRecord (make_successor t auth now p sq r w) = true.
Proof using All.
  intros R W. fields_of wf_ReservationRecord. unfold make_successor. typed_by wf_ReservationRecord. now case_if.
Qed.

Lemma series_successor_ok r sup i w :
  wf_ReservationRecord r = true -> list_ok wf_ReservationRecord sup = true -> interval_ok w = true -> Z.of_nat i <= kMaxCollectionItems ->
  wf_ReservationRecord (series_successor t auth now p sq r sup i w) = true.
Proof using All.
  intros R S W L. pose proof (counter_small (t := SeriesIndexTag) (Z.of_nat i)) as C. unfold series_successor. cbv zeta.
  destruct (nth_error sup i) as [x|] eqn:E.
  - apply nth_error_In in E. pose proof (make_successor_ok x w (list_ok_In _ _ _ S E) W) as M.
    remember (make_successor t auth now p sq x w) as y. fields_of wf_ReservationRecord. typed_by wf_ReservationRecord. apply C. lia.
  - pose proof (make_successor_ok r w R W) as M. remember (make_successor t auth now p sq r w) as y.
    fields_of wf_ReservationRecord. typed_by wf_ReservationRecord. apply C. lia.
Qed.

Lemma amended_series_ok s ws succ : wf_ReservationSeries s = true -> list_ok interval_ok ws = true -> list_ok wf_ReservationRecord succ = true ->
  wf_ReservationSeries (amended_series s t now p sq ws succ) = true.
Proof using All.
  intros S W R. fields_of wf_ReservationSeries. unfold amended_series. typed_by wf_ReservationSeries. eapply map_list_ok; [exact R | auto with typed].
Qed.

Lemma series_companion_ok pd r : wf_ReservationRecord pd = true -> wf_ReservationRecord r = true -> wf_StateMutation (series_companion pd now p r) = true.
Proof using N P.
  intros Pd R. unfold series_companion. typed_by wf_StateMutation. unfold text_ok. rewrite length_app, Nat2Z.inj_add.
  pose proof (to_decimal_length (to_u 64 (1 + value (rr_generation pd)))) as L. apply Z.leb_le. etransitivity.
  - apply Z.add_le_mono_l, L. exact (counter_wraps (t := ReservationGenerationTag) _).
  - vm_compute. discriminate.
Qed.

Lemma list_ok_sub {X} (wf : X -> bool) l l' :
  (length l' <= length l)%nat -> (forall a, In a l' -> In a l) -> list_ok wf l = true -> list_ok wf l' = true.
Proof using.
  intros Le I L. apply list_ok_Forall in L as [B F]. apply list_ok_Forall. split; [lia|]. rewrite List.Forall_forall in F |- *. auto.
Qed.

Lemma remove_nth_ok {X} (wf : X -> bool) n l : list_ok wf l = true -> list_ok wf (remove_nth n l) = true.
Proof using.
  apply list_ok_sub; unfold remove_nth.
  - rewrite length_app, length_firstn, length_skipn. lia.
  - intros a I. apply in_app_or in I as [I|I]; [rewrite <- (firstn_skipn n l) | rewrite <- (firstn_skipn (S n) l)]; apply in_or_app; auto.
Qed.

Lemma filter_ok {X} (wf f : X -> bool) l : list_ok wf l = true -> list_ok wf (List.filter f l) = true.
Proof using. apply list_ok_sub; [apply List.filter_length_le | intros a I; now apply filter_In in I]. Qed.

Lemma amendment_mutation_ok why pd sup s ws m succ :
  text_ok kMaxProvenanceReasonBytes why = true -> wf_ReservationRecord pd = true -> list_ok wf_ReservationRecord sup = true ->
  optional_ok wf_ReservationSeries s = true -> list_ok interval_ok ws = true ->
  amendment_mutation t auth now p sq why pd sup s ws = Ok (m, succ) ->
  wf_ReservationMutation m = true /\ list_ok wf_ReservationRecord succ = true.
Proof using All.
  intros W Pd S Se Ws E. pose proof (terms_interval t T) as It. unfold amendment_mutation in E. destruct s as [s|].
  - destruct (position _ _) as [n|]; [|discriminate]. cbv zeta in E.
    assert (list_ok wf_ReservationRecord (imap (series_successor t auth now p sq pd sup) ws) = true) as Succ.
    { eapply imap_list_ok; [exact Ws|]. intros i w Iw L. apply series_successor_ok; auto. apply list_ok_length in Ws. lia. }
    remember (imap _ ws) as all. destruct (nth_error all n) as [r|] eqn:R; [|discriminate]. apply nth_error_In in R.
    pose proof (list_ok_In _ _ _ Succ R) as Wr.
    match type of E with Ok (?x, _) = _ => assert (x = m /\ all = succ) as [<- <-] by (now injection E) end.
    split; [|exact Succ]. unfold wf_ReservationMutation. cbn. andb_goal; auto using remove_nth_ok.
    + now apply amended_series_ok.
    + unfold optional_ok. auto with typed.
    + eapply map_list_ok; [apply filter_ok; exact S|]. intros a Wa. now apply series_companion_ok.
  - pose proof (make_successor_ok pd (hd (interval t) ws) Pd (hd_interval_ok _ _ It Ws)) as R. cbv zeta in E.
    match type of E with Ok (?x, ?l) = _ => assert (x = m /\ l = succ) as [<- <-] by (now injection E) end.
    split; [|apply list_ok_Forall; split; [rewrite items_bound; cbn; lia | now constructor]].
    unfold wf_ReservationMutation. cbn. andb_goal; auto. unfold optional_ok. auto with typed.
Qed.
End amendment.

(** ** The judgement *)

(** From a typed state the computation ends in a typed state, in success and
    failure, and what it returns is within [Q]. *)
Definition types {A} (m : co A) (Q : A -> Prop) : Prop :=
  forall c, typed c -> typed (m c).2 /\ forall a, (m c).1 = Ok a -> Q a.

Definition anything {A} (_ : A) : Prop := True.

Lemma types_weaken {A} (m : co A) (P Q : A -> Prop) : types m P -> (forall a, P a -> Q a) -> types m Q.
Proof. intros M I c T. destruct (M c T) as [T' H]. auto. Qed.

Lemma types_also {A} (m : co A) (P R : A -> Prop) :
  types m P -> (forall c a c', m c = (Ok a, c') -> R a) -> types m (fun a => P a /\ R a).
Proof. intros M I c T. destruct (M c T) as [T' H]. split; [exact T'|]. intros a E. split; [auto|]. apply (I c a (m c).2). now rewrite <- E, <- surjective_pairing. Qed.

Lemma types_ret {A} (a : A) (Q : A -> Prop) : Q a -> types (ret a) Q.
Proof. intros H c T. split; [exact T|]. intros b [= <-]. exact H. Qed.
Lemma types_fail {A} e (Q : A -> Prop) : types (fail e) Q.
Proof. intros c T. split; [exact T | discriminate]. Qed.
Lemma types_look {A} (f : Coordinator -> Result A) (Q : A -> Prop) :
  (forall c a, typed c -> f c = Ok a -> Q a) -> types (fun c => (f c, c)) Q.
Proof. intros H c T. split; [exact T|]. intros a. now apply H. Qed.
Lemma types_gets {A} (f : Coordinator -> A) (Q : A -> Prop) : (forall c, typed c -> Q (f c)) -> types (gets f) Q.
Proof. intros H. apply (types_look (fun c => Ok (f c))). intros c a T [= <-]. auto. Qed.
Lemma types_lift {A} (r : Result A) (Q : A -> Prop) : (forall a, r = Ok a -> Q a) -> types (lift r) Q.
Proof. intros H. apply (types_look (fun _ => r)). intros c a _. apply H. Qed.

Lemma types_bind {A B} (m : co A) (k : A -> co B) (P : A -> Prop) (Q : B -> Prop) :
  types m P -> (forall a, P a -> types (k a) Q) -> types (bind m k) Q.
Proof.
  intros M K c T. destruct (M c T) as [T' H]. unfold bind. destruct (m c) as [[a|e] c']; cbn [fst snd] in *; [|now split].
  apply K; auto.
Qed.

Lemma types_modify f : (forall c, typed c -> typed (f c)) -> types (modify f) anything.
Proof. intros F c T. split; [now apply F | easy]. Qed.
Lemma types_ignore {A} (m : co A) (Q : A -> Prop) : types m Q -> types (ignore m) anything.
Proof. intros M c T. split; [apply (M c T) | easy]. Qed.
Lemma types_when b m (Q : unit -> Prop) : types m Q -> types (when b m) anything.
Proof. intros M. destruct b; [|now apply types_ret]. eapply types_weaken; [exact M | easy]. Qed.

Lemma types_for_each {A} (l : list A) (f : A -> co unit) :
  (forall a, In a l -> types (f a) anything) -> types (for_each l f) anything.
Proof.
  induction l as [|a l IH]; intros F; cbn [for_each]; [now apply types_ret|]. eapply types_bind; [apply F; now left|].
  intros u _. apply IH. intros b I. apply F. now right.
Qed.

Lemma types_co_fold {A B} (f : B -> A -> co B) (l : list A) (I : B -> Prop) b :
  I b -> (forall b a, In a l -> I b -> types (f b a) I) -> types (co_fold f l b) I.
Proof.
  revert b. induction l as [|a l IH]; intros b H F; cbn [co_fold]; [now apply types_ret|]. eapply types_bind; [apply F; [now left | exact H]|].
  intros b' H'. apply IH; [exact H'|]. intros b0 a0 J. apply F. now right.
Qed.

(** ** Steps that leave the typed parts alone *)
Lemma typed_same c c' : wf_clock (clock (env c')) -> incarnation (env c') = incarnation (env c) -> tables c' = tables c ->
  records (book c') = records (book c) -> series_records (book c') = series_records (book c) -> journal_of c' = journal_of c -> typed c -> typed c'.
Proof.
  intros K I T R S J [_ Ep Ta [Br Bs] Jo]. split; [exact K | now rewrite I | now rewrite T | split; [now rewrite R | now rewrite S] | now rewrite J].
Qed.

Lemma types_same f :
  (forall c, env (f c) = env c /\ tables (f c) = tables c /\ records (book (f c)) = records (book c) /\
    series_records (book (f c)) = series_records (book c)) -> types (modify f) anything.
Proof.
  intros F. apply types_modify. intros c T. destruct (F c) as (E & Ta & R & S). apply (typed_same c); auto.
  - rewrite E. apply T.
  - now rewrite E.
  - unfold journal_of. now rewrite E.
Qed.

Lemma types_scope {A} (m : co A) (Q : A -> Prop) : types m Q -> types (with_suspension m) Q.
Proof.
  intros M c T. unfold with_suspension. destruct (M (set_suspension (fun _ => mkSuspension [] false) c)) as [T' H].
  { apply (typed_same c); try reflexivity; [apply (ty_clock _ T) | exact T]. }
  destruct (m _) as [r c']. cbn [fst snd] in *. split; [|exact H]. apply (typed_same c'); try reflexivity; [apply (ty_clock _ T') | exact T'].
Qed.

(** Time passes, and neither the boot nor the tables change. *)
Definition timely (c c' : Coordinator) : Prop :=
  (wf_clock (clock (env c)) -> wf_clock (clock (env c'))) /\ ci_boot (incarnation (env c')) = ci_boot (incarnation (env c)) /\
  tables c' = tables c.

#[export] Instance timely_PreOrder : PreOrder timely.
Proof.
  split; [intros c; now repeat split|]. intros c c' c'' (K & B & T) (K' & B' & T'). split; [auto | split; congruence].
Qed.

Lemma clock_read_ok k : wf_clock k -> ts_ok (clock_read k).1 = true /\ wf_clock (clock_read k).2.
Proof. intros W. unfold wf_clock, clock_read in *. inversion W as [|? ? R U]; subst. destruct (upcoming k) as [|t l] eqn:L; cbn; [rewrite L; now split|]. inversion U; subst. now split. Qed.

#[export] Instance Booked_timely : Booked timely.
Proof.
  assert (Calm timely).
  { apply Calm_intro; [exact _ | intros; try (now repeat split)..].
    - destruct H as [_ _ [_ B] K _]. split; [|now split]. intros W. cbn. destruct K as [-> | ->]; [exact W | now apply clock_read_ok].
    - destruct H as [(T & _) (_ & K & _) (_ & B)]. split; [now rewrite K | now split]. }
  split; [exact _ | now repeat split | intros a c; now repeat split].
Qed.

#[export] Hint Resolve Booked_timely : frame.

Lemma timely_fence_claimant cl g why : keeps timely (fence_holds_for_claimant_locked cl g why).
Proof. unfold fence_holds_for_claimant_locked. frame. Qed.
Lemma timely_fence_boot b why : keeps timely (fence_holds_for_boot_locked b why).
Proof. unfold fence_holds_for_boot_locked. frame. Qed.
Lemma timely_fence_session s why : keeps timely (fence_holds_for_session_locked s why).
Proof. unfold fence_holds_for_session_locked. frame. Qed.
Lemma timely_current_series id : keeps timely (current_series_at id).
Proof. unfold current_series_at. frame. Qed.
#[export] Hint Resolve timely_fence_claimant timely_fence_boot timely_fence_session timely_current_series : frame.

Lemma appended_readable c c' : appended c [] c' -> Forall readable (journal_of c) -> Forall readable (journal_of c').
Proof. intros (_ & _ & gone & G & _) F. rewrite app_nil_r in G. rewrite <- G in F. now apply Forall_app in F. Qed.

Lemma typed_quiet c c' : idle c c' -> timely c c' -> typed c -> typed c'.
Proof.
  intros [A F] (K & B & T) [Ck [Ep Bo] Ta [Br Bs] Jo]. unfold facts, lineage in F.
  assert (ci_epoch (incarnation (env c')) = ci_epoch (incarnation (env c)) /\ records (book c') = records (book c) /\
    series_records (book c') = series_records (book c)) as (E & R & S) by now inversion F.
  split; [auto | now rewrite E, B | now rewrite T | split; [now rewrite R | now rewrite S] | eapply appended_readable; eassumption].
Qed.

Lemma types_quiet {A} (m : co A) : keeps idle m -> keeps timely m -> types m anything.
Proof. intros I Ti c T. split; [|easy]. exact (typed_quiet _ _ (I c) (Ti c) T). Qed.

(** ** The primitives *)
Lemma types_now : types now_locked (fun t => ts_ok t = true).
Proof.
  intros c T. unfold now_locked. pose proof (clock_read_ok _ (ty_clock _ T)) as [R U]. destruct (clock_read (clock (env c))) as [t k].
  split; [now apply (typed_same c)|]. intros a [= <-]. exact R.
Qed.

Lemma types_append r : wf_DurableRecord r = true -> types (append_locked r) (fun s => counter_ok s = true).
Proof.
  intros W c T. pose proof (append_locked_spec r c) as Sp. pose proof (append_moves r c) as [(Ta & B & _) (_ & K & _) (E & Bo)].
  assert (Forall readable (journal_of (append_locked r c).2)) as J.
  { destruct (append_locked r c) as [[s|e] c'] eqn:A; cbn [snd] in *.
    - apply append_spec in A as (_ & j & A & Jr). destruct A as (_ & _ & gone & G & _). pose proof (ty_journal _ T) as F.
      assert (Forall readable (journal_of c ++ [j])) as F' by (apply Forall_app; split; [exact F | constructor; [now exists r | constructor]]).
      rewrite <- G in F'. now apply Forall_app in F'.
    - eapply appended_readable; [apply Sp | apply T]. }
  split.
  - destruct T as [Ck [Ep Bt] Tt Tb _]. split; [now rewrite K | rewrite E, Bo; now split | now rewrite Ta | now rewrite B | exact J].
  - clear. intros s. unfold append_locked. destruct (next_io _ _) as [how later]. unfold append. destruct (negb _); [discriminate|]. cbv zeta. case_if; [discriminate|].
    destruct how; try discriminate. intros [= <-]. apply counter_wraps.
Qed.

Lemma types_book f : (forall b, typed_book b -> typed_book (f b)) -> types (modify (set_book f)) anything.
Proof. intros F. apply types_modify. intros c [Ck Ep Ta Bo Jo]. split; try assumption. now apply F. Qed.
Lemma types_tables f : (forall t, typed_tables t -> typed_tables (f t)) -> types (modify (set_tables f)) anything.
Proof. intros F. apply types_modify. intros c [Ck Ep Ta Bo Jo]. split; try assumption. now apply F. Qed.
Lemma types_sessions f : types (modify (set_sessions f)) anything.
Proof. now apply types_same. Qed.

Lemma put_record_typed r b : wf_ReservationRecord r = true -> typed_book b -> typed_book (put_record r b).
Proof. intros W [R S]. split; [now apply om_all_set | exact S]. Qed.
Lemma register_record_typed r b : wf_ReservationRecord r = true -> typed_book b -> typed_book (register_record r b).
Proof.
  intros W [R S]. pose proof (register_fields r b) as (Ra & _ & _ & Sa & _). split; [rewrite Ra; now apply om_all_set | now rewrite Sa].
Qed.
Lemma retire_key_typed f b k : typed_book b -> typed_book (retire_key f b k).
Proof. intros [R S]. unfold retire_key. destruct (om_find (records b) k); [split; [now apply om_all_erase | exact S] | now split]. Qed.

Lemma types_put r : wf_ReservationRecord r = true -> types (modify (set_book (put_record r))) anything.
Proof. intros W. apply types_book. intros b. now apply put_record_typed. Qed.
Lemma types_register r : wf_ReservationRecord r = true -> types (register_record_locked r) anything.
Proof. intros W. apply types_book. intros b. now apply register_record_typed. Qed.

Lemma types_set_state r st t why p : wf_ReservationRecord r = true -> ts_ok t = true -> wf_Provenance p = true ->
  types (set_state_locked r st t why p) (fun r' => wf_ReservationRecord r' = true).
Proof.
  intros R T P. unfold set_state_locked. cbv zeta. eapply types_bind; [|intros u _; apply types_ret; auto with typed].
  apply types_book. intros b [Br Bs]. apply put_record_typed; [auto with typed|]. unfold recount. repeat case_if; now split.
Qed.

Lemma types_attempt a : types (remember_attempt_locked a) anything.
Proof. now apply types_same. Qed.

Lemma types_predicted r s : wf_DurableRecord r = true -> types (append_predicted r s) anything.
Proof. intros W. eapply types_bind; [now apply types_append|]. intros q _. now apply types_lift. Qed.

(** What the book holds under a key. *)
Lemma typed_found c id g r : typed c -> find_record_locked c id g = Some r -> wf_ReservationRecord r = true.
Proof. intros T F. exact (om_all_find _ _ _ _ (tb_records _ (ty_book _ T)) F). Qed.
Lemma typed_deref c r : typed c -> wf_ReservationRecord r = true -> wf_ReservationRecord (deref c r) = true.
Proof. intros T W. unfold deref. destruct (find_record_locked c (rr_id r) (rr_generation r)) as [x|] eqn:F; [exact (typed_found _ _ _ _ T F) | exact W]. Qed.
Lemma typed_current c id r : typed c -> current_record_locked c id = Some r -> wf_ReservationRecord r = true.
Proof. intros T. unfold current_record_locked. destruct (om_find _ id) as [g|]; [apply (typed_found _ _ _ _ T) | discriminate]. Qed.

Lemma context_internal c why : typed c -> text_ok kMaxProvenanceReasonBytes why = true -> wf_RequestContext (internal_context c why) = true.
Proof. intros [_ [E B] _ _ _] W. typed_by wf_RequestContext. Qed.

#[export] Hint Resolve types_now types_append types_put types_register types_set_state types_attempt types_predicted types_sessions : typed.
