(* ===== verification/CoordTypedOps.v ===== *)
(** * Coordinator: what it journals can be read back, every request

    The operations keep the invariant of [CoordTyped]; hence at any point of any
    run, whatever the host did to the writes, every record of the journal is
    accepted by the decoder that recovery uses. *)
From stdpp Require Import relations.
From S2P Require Import Prelude Errors Containers Identity Hash Bandwidth Time Authority Wire Policy Capacity Reservation Outcome SegTree Index Durable CodecBase Codec Store StoreContract Coordinator CoordRecords CoordPersist CoordAssess CoordLifecycle CoordCommit CoordOps CoordQuery CoordSample CoordSteps CoordJournal CoordGate CoordSound CoordLifetime CoordCapacity CoordMirror CoordLogged CoordRestart CoordReplay CoordReopen CoordTyped.

(** Pass over what leaves the typed parts alone; over a step with a known type;
    over a check. *)
Ltac quiet := apply types_quiet; solve [frame].
Ltac still := eapply types_bind; [quiet | intros ? _].
Ltac step := eapply types_bind; [solve [auto with typed] | intros ? ?].
Ltac journal sq Q := eapply types_bind; [apply types_append; cbn [wf_DurableRecord]; auto with typed | intros sq Q].
Ltac look := eapply (types_bind _ _ anything); [apply types_gets; easy | intros ? _].
Ltac check := eapply (types_bind _ _ anything); [apply types_look; easy | intros ? _].

(** ** What is read of the state *)
Lemma types_provenance x sq t : wf_RequestContext x = true -> counter_ok sq = true -> ts_ok t = true ->
  types (gets (fun c => make_provenance_locked c x sq t)) (fun p => wf_Provenance p = true).
Proof. intros X Q T. apply types_gets. auto with typed. Qed.
Lemma types_internal why : text_ok kMaxProvenanceReasonBytes why = true ->
  types (gets (fun c => internal_context c why)) (fun x => wf_RequestContext x = true).
Proof. intros W. apply types_gets. intros c T. now apply context_internal. Qed.
Lemma types_found k : types (gets (fun c => om_find (records (book c)) k)) (fun o => forall r, o = Some r -> wf_ReservationRecord r = true).
Proof. apply types_gets. intros c T r F. exact (om_all_find _ _ _ _ (tb_records _ (ty_book _ T)) F). Qed.
Lemma types_deref r : wf_ReservationRecord r = true -> types (gets (fun c => deref c r)) (fun r' => wf_ReservationRecord r' = true).
Proof. intros R. apply types_gets. intros c T. now apply typed_deref. Qed.
Lemma types_policy n : name_ok n = true -> types (gets (fun c => policy_for_locked c n)) (fun p => wf_PolicyRecord p.1 = true).
Proof. intros N. apply types_gets. intros c T. now apply policy_locked_ok. Qed.
#[export] Hint Resolve types_provenance types_found types_deref types_policy : typed.

(** ** Transitions and time *)
Lemma types_transition r st t why x at_ : wf_ReservationRecord r = true -> ts_ok t = true -> wf_RequestContext x = true -> ts_ok at_ = true ->
  types (transition_locked r st t why x at_) (fun p => wf_ReservationRecord p.1 = true).
Proof.
  intros R T X At. unfold transition_locked. journal sq Q.
  step. cbv zeta.
  eapply types_bind; [apply types_set_state; [case_if; auto with typed | exact T | assumption]|]. intros r' R'.
  step. still. still. apply types_ret. cbn [fst]. auto with typed.
Qed.

Lemma types_mark r a why t : wf_ReservationRecord r = true -> ts_ok t = true ->
  types (mark_applicability_locked r a why t) (fun r' => wf_ReservationRecord r' = true).
Proof.
  intros R T. unfold mark_applicability_locked. case_if; [now apply types_ret|].
  assert (wf_ApplicabilityMutation (mkApplicabilityMutation (rr_id r) (rr_generation r) a why t) = true) by typed_by wf_ApplicabilityMutation.
  journal sq Q. cbv zeta. step. still. still.
  apply types_ret. auto with typed.
Qed.

Lemma types_expire now x r : wf_ReservationRecord r = true -> ts_ok now = true -> wf_RequestContext x = true ->
  types (expire_record now x r) anything.
Proof.
  intros R T X. unfold expire_record. cbv zeta. case_if; [|now apply types_ret].
  case_if; (eapply types_bind; [apply types_transition; auto with typed | intros u _; quiet]).
Qed.

Lemma types_settle now x k : ts_ok now = true -> wf_RequestContext x = true -> types (settle_record now x k) anything.
Proof.
  intros T X. unfold settle_record. eapply types_bind; [apply types_found|].
  intros [r|] F; [|now apply types_ret]. specialize (F r eq_refl). case_if.
  { eapply types_bind; [apply types_transition; auto with typed | intros u _; quiet]. }
  eapply (types_bind _ _ (fun r' => wf_ReservationRecord r' = true)); [|intros r' R'; now apply types_expire].
  case_if; [|now apply types_ret]. eapply types_bind; [apply types_transition; auto with typed|]. intros [r' a] R'. now apply types_ret.
Qed.

Lemma types_reconcile now : ts_ok now = true -> types (reconcile_locked now) anything.
Proof.
  intros T. unfold reconcile_locked. look. eapply types_bind; [now apply types_internal|]. intros x X. eapply types_bind; [apply types_for_each; intros k _; now apply types_settle|]. intros u _. quiet.
Qed.

Lemma types_reconcile_then now r : ts_ok now = true -> wf_ReservationRecord r = true ->
  types (reconcile_then now r) (fun r' => wf_ReservationRecord r' = true).
Proof.
  intros T R. unfold reconcile_then. eapply types_bind; [now apply types_reconcile|]. intros u _. now apply types_deref.
Qed.

Lemma types_named id g : types (named_record id g) (fun r => wf_ReservationRecord r = true).
Proof.
  unfold named_record. eapply types_bind; [apply (types_found (id, g))|].
  intros [r|] F; [apply types_ret; auto | apply types_fail].
Qed.

(** ** History, overcommit, claimants *)
Lemma retire_batch_ok c n : typed c -> n <= kRetireBatch ->
  list_ok id_ok (map fst (firstn (Z.to_nat n) (terminal_keys (book c)))) = true /\
  list_ok counter_ok (map snd (firstn (Z.to_nat n) (terminal_keys (book c)))) = true.
Proof.
  intros T L. assert (list_ok (fun k : ReservationKey => id_ok k.1 && counter_ok k.2) (firstn (Z.to_nat n) (terminal_keys (book c))) = true) as K.
  { apply list_ok_Forall. split; [rewrite items_bound, length_firstn; unfold kRetireBatch in L; lia|]. apply List.Forall_forall. intros k I.
    assert (In k (terminal_keys (book c))) as J by (rewrite <- (firstn_skipn (Z.to_nat n)); apply in_or_app; now left).
    unfold terminal_keys in J. apply in_map_iff in J as (r & <- & J). apply (Permutation_in _ (sort_perm _ _)) in J. apply filter_In in J as [J _].
    pose proof (proj1 (List.Forall_forall _ _) (om_all_values _ _ (tb_records _ (ty_book _ T))) r J) as W. cbn beta in W.
    cbn [fst snd key_of]. andb_goal; auto with typed. }
  split; (eapply map_list_ok; [exact K|]); intros [i g] W; cbn [fst snd] in *; now split_andb.
Qed.

Lemma types_history now : ts_ok now = true -> types (release_terminal_history_locked now) anything.
Proof.
  intros T. unfold release_terminal_history_locked.
  eapply (types_bind _ _ (fun b => forall n, n <= kRetireBatch -> list_ok id_ok (map fst (firstn (Z.to_nat n) (terminal_keys b))) = true /\
    list_ok counter_ok (map snd (firstn (Z.to_nat n) (terminal_keys b))) = true)).
  { apply types_gets. intros c Tc n. now apply retire_batch_ok. }
  intros b K. look. cbv zeta. case_if; [now apply types_ret|].
  destruct (K (Z.min (history_count b - a) kRetireBatch) (Z.le_min_r _ _)) as [I G]. set (victims := firstn _ _) in *.
  assert (wf_RetireMutation (mkRetireMutation (map fst victims) (map snd victims) now) = true).
  { typed_by wf_RetireMutation. rewrite !length_map, Z.eqb_refl. reflexivity. }
  journal sq Q. apply types_book. clear. intros b0 B. revert b0 B. induction victims as [|k ks IH]; intros b0 B; [exact B|]. cbn [fold_left].
  apply IH. now apply retire_key_typed.
Qed.

Lemma types_record_overcommit m : wf_OvercommitMutation m = true -> types (record_overcommit m) anything.
Proof. intros W. unfold record_overcommit. journal sq Q. auto with typed. Qed.

Lemma types_entry n : types (gets (fun c => CapacityLedger_find (ledger (tables c)) n)) (fun o => forall e, o = Some e -> capacity_ok (ce_capacity e)).
Proof. apply types_gets. intros c T e F. exact (om_all_find _ _ _ _ (tt_ledger _ (ty_tables _ T)) F). Qed.

Lemma overcommit_mutation_ok n e peak now b : name_ok n = true -> capacity_ok (ce_capacity e) -> bandwidth_ok peak = true -> ts_ok now = true ->
  wf_OvercommitMutation (mkOvercommitMutation n (rc_generation (ce_capacity e)) peak (entry_ceiling e) all_time now b) = true.
Proof.
  intros N C P T. pose proof (entry_ceiling_ok e C) as Ce. destruct C as [W _]. fields_of wf_ResourceCapacity. typed_by wf_OvercommitMutation.
Qed.

Lemma types_detect n now : name_ok n = true -> ts_ok now = true -> types (detect_overcommit_locked n now) anything.
Proof.
  intros N T. unfold detect_overcommit_locked. eapply types_bind; [apply types_entry|]. intros [e|] C; [|now apply types_ret]. specialize (C e eq_refl).
  cbv zeta. eapply (types_bind _ _ (fun p => bandwidth_ok p = true)); [apply types_gets; intros; apply obligation_peak_ok|]. intros peak P. look.
  case_if; [eapply types_when, types_record_overcommit, overcommit_mutation_ok; auto|]. case_if; [now apply types_ret|].
  eapply types_bind; [apply types_record_overcommit, overcommit_mutation_ok; auto | intros u _; quiet].
Qed.

Lemma types_register_generation cl g now : id_ok cl = true -> counter_ok g = true -> ts_ok now = true ->
  types (register_generation cl g now) anything.
Proof.
  intros I G T. unfold register_generation. assert (wf_ClaimantMutation (mkClaimantMutation cl g now) = true) by typed_by wf_ClaimantMutation.
  journal sq Q. auto with typed.
Qed.

Lemma types_ensure cl g now : id_ok cl = true -> counter_ok g = true -> ts_ok now = true -> types (ensure_claimant_locked cl g now) anything.
Proof.
  intros I G T. unfold ensure_claimant_locked. check. look. destruct a0 as [known|]; [|now apply types_register_generation].
  check. case_if; [|now apply types_ret]. eapply types_bind; [now apply types_register_generation | intros u _; quiet].
Qed.

(** ** Revalidation *)
Lemma types_resolve t : wf_ReservationTerms t = true -> types (gets (fun c => resolve_binding (tables c) t)) (fun r => forall b, r = Ok b -> binding_ok b).
Proof. intros W. apply types_gets. intros c T b E. exact (resolve_binding_ok _ _ _ (ty_tables _ T) W E). Qed.

Lemma types_revalidate_commit r b p now x : wf_ReservationRecord r = true -> binding_ok b -> wf_PolicyRecord p = true -> ts_ok now = true ->
  wf_RequestContext x = true -> types (revalidate_commit r b p now x) anything.
Proof.
  intros R B P T X. unfold revalidate_commit.
  eapply (types_bind _ _ (fun s => counter_ok s = true)); [apply types_gets; intros; apply counter_wraps|]. intros sq Q. step.
  eapply (types_bind _ _ (fun s => wf_ReservationRecord s = true)); [apply types_gets; intros c Tc; now apply revalidated_ok|]. intros s S. cbv zeta.
  assert (wf_ReservationMutation (mkReservationMutation s None [] (Some (edge_to r s now sq (str "revalidated against authoritative generations"))) true [] None) = true).
  { typed_by wf_ReservationMutation. }
  eapply types_bind; [apply types_predicted; assumption | intros u _].
  eapply types_bind; [apply types_set_state; assumption | intros old _]. still. still.
  eapply types_bind; [now apply types_same | intros u3 _]. step. still. still. still. quiet.
Qed.

Lemma types_auto_revalidate r now x : wf_ReservationRecord r = true -> ts_ok now = true -> wf_RequestContext x = true ->
  types (auto_revalidate_record_locked r now x) anything.
Proof.
  intros R T X. unfold auto_revalidate_record_locked. eapply types_bind; [now apply types_resolve, record_terms|]. intros [b|e] B; [|now apply types_ret].
  specialize (B b eq_refl). eapply types_bind; [apply types_policy|intros [pol note] P].
  { case_if; [auto with typed|]. pose proof (record_parts r R) as (_ & _ & _ & A & _). now fields_of wf_AuthorityVector. }
  apply types_scope. still. look. case_if; [now apply types_revalidate_commit | now apply types_ret].
Qed.

Lemma types_refresh_record now auto_ k : ts_ok now = true -> types (refresh_record now auto_ k) anything.
Proof.
  intros T. unfold refresh_record. eapply types_bind; [apply types_found|]. intros [r|] F; [|now apply types_ret]. specialize (F r eq_refl).
  look. destruct a as [why|].
  - look. destruct a as [pol note]. cbv zeta. eapply types_bind; [now apply types_internal|]. intros x X.
    eapply types_bind; [eapply types_when; now apply types_auto_revalidate|]. intros u _. step.
    case_if; [now apply types_ret|]. eapply types_bind; [now apply types_mark | now intros; apply types_ret].
  - apply (types_when _ _ anything). eapply types_bind; [now apply types_mark | intros r' _; apply types_ret; exact I].
Qed.

Lemma types_refresh now auto_ : ts_ok now = true -> types (refresh_applicability_locked now auto_) anything.
Proof. intros T. unfold refresh_applicability_locked. look. apply types_for_each. intros k _. now apply types_refresh_record. Qed.

(** ** Requests about one reservation *)
Lemma types_caller r st t why x at_ : wf_ReservationRecord r = true -> ts_ok t = true -> wf_RequestContext x = true -> ts_ok at_ = true ->
  types (caller_transition r st t why x at_) (fun r' => wf_ReservationRecord r' = true).
Proof.
  intros R T X A. unfold caller_transition. eapply types_bind; [now apply types_transition|]. intros [r' a] R'. step. now apply types_ret.
Qed.

Lemma types_pend r now t g x : wf_ReservationRecord r = true -> ts_ok now = true -> ts_ok t = true -> dur_ok g = true -> wf_RequestContext x = true ->
  types (pend_recall r now t g x) anything.
Proof.
  intros R N T G X. unfold pend_recall. eapply types_bind; [now apply types_transition|]. intros [r' a] R'. cbn [fst] in R'. cbv zeta.
  step. still. still. step. now apply types_ret.
Qed.

Lemma types_release x id g : wf_RequestContext x = true -> types (release_locked x id g) anything.
Proof.
  intros X. unfold release_locked. step. check. eapply types_bind; [apply types_named|]. intros r R. check.
  eapply types_bind; [apply (types_when _ _ anything), types_ensure; auto with typed|]. intros u _.
  eapply types_bind; [now apply types_reconcile_then|]. intros r' R'. case_if; [now apply types_ret|]. check.
  eapply types_bind; [apply types_caller; auto with typed|]. intros r2 _. still. now apply types_ret.
Qed.

Lemma policy_grace p : wf_PolicyRecord p = true -> dur_ok (default_recall_grace p) = true.
Proof. intros W. now fields_of wf_PolicyRecord. Qed.

Lemma governing_name r : wf_ReservationRecord r = true -> name_ok (av_policy (authority r)) = true.
Proof. intros R. pose proof (record_parts r R) as (_ & _ & _ & A & _). now fields_of wf_AuthorityVector. Qed.
#[local] Hint Resolve policy_grace governing_name : typed.

Lemma types_recall x id g e gr force : wf_RequestContext x = true -> ts_ok e = true -> dur_ok gr = true ->
  types (recall_locked x id g e gr force) anything.
Proof.
  intros X E G. unfold recall_locked. step. check. eapply types_bind; [apply types_named|]. intros r R. look.
  destruct a1; [still; now apply types_ret|]. eapply types_bind; [now apply types_reconcile_then|]. intros r' R'. check. step.
  destruct a2 as [pol note]. cbn [fst] in *. check. cbv zeta. check.
  match goal with |- context [ts_lt (end_ _) ?t] => set (first := t) end. assert (ts_ok first = true) by (subst first; now case_if).
  match goal with |- context [pend_recall r' a ?t _ _] => set (effect := t) end.
  assert (ts_ok effect = true) by (subst effect; case_if; auto with typed).
  case_if; [now apply types_ret|]. case_if.
  - eapply types_bind; [apply types_caller; auto with typed|]. intros r2 _. still. now apply types_ret.
  - eapply types_bind; [apply types_pend; auto with typed; case_if; auto with typed|]. intros r2 _. still. now apply types_ret.
Qed.

Lemma types_revoke x id g : wf_RequestContext x = true -> types (revoke_locked x id g) anything.
Proof.
  intros X. unfold revoke_locked. step. check. eapply types_bind; [apply types_named|]. intros r R.
  eapply types_bind; [now apply types_reconcile_then|]. intros r' R'. look. destruct a1; [still; now apply types_ret|].
  case_if; [now apply types_ret|]. check. eapply types_bind; [apply types_caller; auto with typed|]. intros r2 _. still. now apply types_ret.
Qed.

Lemma types_revalidate x id g stale : wf_RequestContext x = true -> types (revalidate_locked x id g stale) anything.
Proof.
  intros X. unfold revalidate_locked. step. check. eapply types_bind; [apply types_named|]. intros r R.
  eapply types_bind; [now apply types_reconcile_then|]. intros r' R'. check. case_if; [now apply types_ret|]. case_if.
  - eapply types_bind; [now apply types_mark|]. intros r2 _. now apply types_ret.
  - eapply types_bind; [now apply types_auto_revalidate|]. intros u _. look. match goal with |- types match ?o with _ => _ end _ => destruct o end; [|apply types_fail]. check. now apply types_ret.
Qed.

Lemma types_reconcile_lifecycle x : types (reconcile_lifecycle_locked x) anything.
Proof.
  unfold reconcile_lifecycle_locked. step. check. look. eapply types_bind; [now apply types_reconcile | intros u1 _].
  eapply types_bind; [now apply types_refresh | intros u2 _]. eapply types_bind; [now apply types_history | intros u3 _]. still. look. now apply types_ret.
Qed.

(** ** Commit *)
Lemma types_companion s : wf_StateMutation s = true -> types (apply_companion s) anything.
Proof.
  intros W. unfold apply_companion. eapply types_bind; [apply (types_found (sm_id s, sm_generation s))|]. intros [r|] F; [|now apply types_ret].
  specialize (F r eq_refl). fields_of wf_StateMutation. step. still. still. quiet.
Qed.

Lemma types_enter r : wf_ReservationRecord r = true -> types (enter_committed r) anything.
Proof. intros R. unfold enter_committed. step. still. quiet. Qed.

Lemma types_live_series s : optional_ok wf_ReservationSeries s = true -> types (set_live_series s) anything.
Proof.
  intros W. destruct s as [s|]; cbn [set_live_series]; [|now apply types_ret]. apply types_book. intros b [R S]. split; [exact R|].
  cbn [series_records set_series set_current_series]. now apply om_all_set.
Qed.

Lemma types_housekeeping now : ts_ok now = true -> types (housekeeping now) anything.
Proof. intros T. unfold housekeeping. eapply types_bind; [now apply types_history | intros u _; quiet]. Qed.

Lemma types_sequence : types (gets predicted_sequence) (fun s => counter_ok s = true).
Proof. apply types_gets. intros. apply counter_wraps. Qed.
Lemma types_authority t b p g : wf_ReservationTerms t = true -> binding_ok b -> wf_PolicyRecord p = true -> counter_ok g = true ->
  types (gets (fun c => commit_authority c t b p g)) (fun v => wf_AuthorityVector v = true).
Proof. intros. apply types_gets. auto with typed. Qed.
#[local] Hint Resolve types_sequence types_authority : typed.

Lemma types_commit_accepted x t id sid print hs now b p ws ds acc :
  wf_RequestContext x = true -> wf_ReservationTerms t = true -> id_ok id = true -> id_ok sid = true -> id_ok print = true -> ts_ok now = true ->
  binding_ok b -> wf_PolicyRecord p = true -> list_ok interval_ok ws = true -> Z.of_nat (length ds) <= kMaxCollectionItems ->
  types (commit_accepted x t id sid print hs now b p ws ds acc) anything.
Proof.
  intros X T I S P N B W Ws D. unfold commit_accepted. step. step. step. rename a into sq, a0 into pr, a1 into auth. cbv zeta.
  assert (list_ok wf_ReservationRecord (commit_records t auth id sid now pr sq ws) = true) as All by now apply commit_records_ok.
  assert (optional_ok wf_ReservationSeries (commit_series t sid now pr sq ws (commit_records t auth id sid now pr sq ws)) = true) as Se by now apply commit_series_ok.
  set (all := commit_records _ _ _ _ _ _ _ _) in *. set (s := commit_series _ _ _ _ _ _ _) in *.
  assert (wf_ReservationRecord (hd default_record all) = true) as Hd by now apply list_ok_head.
  eapply (types_bind _ _ (fun l => list_ok wf_StateMutation l = true)).
  { apply types_gets. intros c Tc. apply victim_mutations_ok; try assumption. apply Tc. }
  intros revoked R. set (at_ := commit_attempt _ _ _ _ _ _).
  assert (wf_AttemptMutation at_ = true) as A by now apply commit_attempt_ok.
  assert (wf_ReservationMutation (mkReservationMutation (hd default_record all) s (tl all) None false revoked (Some at_)) = true).
  { unfold wf_ReservationMutation. cbn [rm_record rm_series rm_members rm_edge companions rm_attempt]. andb_goal; auto using list_ok_tail. }
  eapply types_bind; [apply types_predicted; assumption | intros u _].
  eapply types_bind; [apply types_for_each; intros m M; apply types_companion; eapply list_ok_In; eassumption | intros u1 _].
  eapply types_bind; [apply types_for_each; intros r Ir; apply types_enter; eapply list_ok_In; eassumption | intros u2 _].
  eapply types_bind; [now apply types_live_series | intros u3 _]. step. still. still. still.
  eapply types_bind; [now apply types_housekeeping | intros u4 _]. now apply types_ret.
Qed.

Lemma types_record_refusal a : wf_AttemptMutation a = true -> types (record_refusal a) anything.
Proof. intros W. unfold record_refusal. journal sq Q. step. still. now apply types_ret. Qed.

Lemma types_refuse_commit x t id print dry now n a :
  wf_RequestContext x = true -> wf_ReservationTerms t = true -> id_ok id = true -> id_ok print = true -> ts_ok now = true ->
  types (refuse_commit x t id print dry now n a) anything.
Proof.
  intros X T I P N. unfold refuse_commit. case_if; [now apply types_ret|]. cbv zeta.
  eapply types_bind; [apply types_record_refusal; typed_by wf_AttemptMutation | intros s _; now apply types_ret].
Qed.

Lemma types_decide_commit x t id sid print dry hs now note p b ws :
  wf_RequestContext x = true -> wf_ReservationTerms t = true -> id_ok id = true -> id_ok sid = true -> id_ok print = true -> ts_ok now = true ->
  binding_ok b -> wf_PolicyRecord p = true -> list_ok interval_ok ws = true ->
  types (decide_commit x t id sid print dry hs now note p b ws) anything.
Proof.
  intros X T I S P N B W Ws. unfold decide_commit. cbv zeta. still. look.
  match goal with |- types match ?o with _ => _ end _ => destruct o as [evs|[failure i]] end.
  - case_if; [now apply types_ret|]. apply types_commit_accepted; try assumption. cbn. rewrite items_bound. lia.
  - eapply (types_bind _ _ (fun out : plan => anything out /\ Z.of_nat (length out.1) <= kMaxCollectionItems)).
    { apply types_also; [quiet|]. intros c out c'. now apply plan_bound. }
    intros [vs evs] [_ L]. cbn [fst] in L. destruct evs; [|now apply types_refuse_commit]. case_if; [now apply types_ret|]. now apply types_commit_accepted.
Qed.

Lemma types_create x t rid dry hs : wf_RequestContext x = true -> wf_ReservationTerms t = true -> id_ok rid = true ->
  types (create_locked x t rid dry hs) anything.
Proof.
  intros X T I. unfold create_locked. step. rename a into now. check. check. check.
  eapply types_bind; [apply types_ensure; auto with typed | intros u _]. eapply types_bind; [now apply types_reconcile | intros u1 _].
  step. match goal with H : _ ?a |- types (let (_, _) := ?a in _) _ => destruct a as [pol note]; cbn [fst] in H end.
  check. cbv zeta. look. match goal with |- types match ?o with _ => _ end _ => destruct o end.
  { check. quiet. }
  look. check. check. eapply (types_bind _ _ binding_ok).
  { apply types_look. intros c b Tc E. exact (resolve_binding_ok _ _ _ (ty_tables _ Tc) T E). }
  intros b B. eapply (types_bind _ _ (fun ws => list_ok interval_ok ws = true)).
  { apply types_lift. intros ws E. eapply expand_series_ok; [| |exact E]; auto with typed. }
  intros ws Ws. apply types_scope, types_decide_commit; auto with typed; repeat case_if; auto with typed.
Qed.

(** ** Amendment *)
Lemma types_supersede now p r : ts_ok now = true -> wf_Provenance p = true -> types (supersede now p r) anything.
Proof.
  intros T P. unfold supersede. eapply types_bind; [apply (types_found (rr_id r, rr_generation r))|]. intros [x|] F; [|now apply types_ret].
  specialize (F x eq_refl). step. still. quiet.
Qed.

Lemma types_successor r : wf_ReservationRecord r = true -> types (enter_successor r) anything.
Proof. intros R. unfold enter_successor. step. still. quiet. Qed.

(** The series of a member. *)
Lemma types_series_record id : types (current_series_record id) (fun o => optional_ok wf_ReservationSeries o = true).
Proof.
  unfold current_series_record. still. apply types_gets. intros c T. destruct (om_find _ _) as [s|] eqn:F; [|reflexivity].
  exact (om_all_find _ _ _ _ (tb_series _ (ty_book _ T)) F).
Qed.

Lemma live_members_ok c s : typed c -> wf_ReservationSeries s = true -> list_ok wf_ReservationRecord (live_members c s) = true.
Proof.
  intros T W. unfold live_members. apply filter_ok, list_ok_Forall. fields_of wf_ReservationSeries.
  match goal with H : list_ok id_ok (members s) = true |- _ => apply list_ok_length in H; rename H into L end. split.
  - etransitivity; [|exact L]. apply inj_le. unfold current_members. clear. induction (members s) as [|i l IH]; [reflexivity|].
    cbn [base.omap list_omap]. destruct (current_record_locked c i); cbn [length] in *; [now apply le_n_S | now apply le_S].
  - apply Forall_forall. intros r I. apply list_elem_of_omap in I as (i & _ & E). exact (typed_current _ _ _ T E).
Qed.

Lemma types_suspend_superseded pd : wf_ReservationRecord pd = true ->
  types (suspend_superseded pd) (fun p => list_ok wf_ReservationRecord p.1 = true /\ optional_ok wf_ReservationSeries p.2 = true).
Proof.
  intros R. unfold suspend_superseded. case_if.
  - eapply types_bind; [apply types_series_record|]. intros [s|] S; [|apply types_fail].
    eapply (types_bind _ _ (fun l => list_ok wf_ReservationRecord l = true)); [apply types_gets; intros c T; now apply live_members_ok|].
    intros l L. still. apply types_ret. now split.
  - still. apply types_ret. split; [|reflexivity]. apply list_ok_Forall. split; [rewrite items_bound; cbn; lia | now constructor].
Qed.

Lemma types_amend_accepted x pd t print now b p ws sup s acc :
  wf_RequestContext x = true -> wf_ReservationRecord pd = true -> wf_ReservationTerms t = true -> id_ok print = true -> ts_ok now = true ->
  binding_ok b -> wf_PolicyRecord p = true -> list_ok interval_ok ws = true -> list_ok wf_ReservationRecord sup = true ->
  optional_ok wf_ReservationSeries s = true -> types (amend_accepted x pd t print now b p ws sup s acc) anything.
Proof.
  intros X R T P N B W Ws Su Se. unfold amend_accepted. step. step. step. rename a into sq, a0 into pr, a1 into auth. cbv zeta.
  set (why := sanitize_reason _). assert (text_ok kMaxProvenanceReasonBytes why = true) as Why by apply sanitized_ok.
  eapply (types_bind _ _ (fun p => wf_ReservationMutation p.1 = true /\ list_ok wf_ReservationRecord p.2 = true)).
  { apply types_lift. intros [m succ] E. eapply amendment_mutation_ok; [..|exact E]; assumption. }
  intros [m succ] [M S]. cbn [fst snd] in M, S. set (at_ := commit_attempt _ _ _ _ _ _). pose proof M as M0. fields_of wf_ReservationMutation.
  assert (wf_AttemptMutation at_ = true) as A by now apply commit_attempt_ok.
  assert (wf_ReservationMutation (with_attempt m at_) = true).
  { unfold wf_ReservationMutation. cbn [with_attempt rm_record rm_series rm_members rm_edge companions rm_attempt]. andb_goal; auto. }
  eapply types_bind; [apply types_predicted; assumption | intros u _].
  eapply types_bind; [apply types_for_each; intros r _; now apply types_supersede | intros u1 _].
  eapply types_bind; [now apply types_same | intros u2 _].
  eapply types_bind; [apply types_for_each; intros r I; apply types_successor; exact (list_ok_In _ _ _ S I) | intros u3 _].
  eapply types_bind; [now apply types_live_series | intros u4 _]. step. still. still. look.
  eapply types_bind; [now apply types_housekeeping | intros u5 _]. now apply types_ret.
Qed.

Lemma types_decide_amendment x pd t print dry now note p b ws :
  wf_RequestContext x = true -> wf_ReservationRecord pd = true -> wf_ReservationTerms t = true -> id_ok print = true -> ts_ok now = true ->
  binding_ok b -> wf_PolicyRecord p = true -> list_ok interval_ok ws = true ->
  types (decide_amendment x pd t print dry now note p b ws) anything.
Proof.
  intros X R T P N B W Ws. unfold decide_amendment. eapply types_bind; [now apply types_suspend_superseded|]. intros [sup s] [Su Se]. cbn [fst snd] in Su, Se.
  look. match goal with |- types match ?o with _ => _ end _ => destruct o as [evs|[failure i]] end.
  - cbv zeta. case_if; [now apply types_ret | now apply types_amend_accepted].
  - unfold refuse_amendment. cbv zeta. case_if; [now apply types_ret|].
    eapply types_bind; [apply types_record_refusal; typed_by wf_AttemptMutation | intros q _; now apply types_ret].
Qed.

Lemma types_amend x id g t dry : wf_RequestContext x = true -> wf_ReservationTerms t = true -> types (amend_locked x id g t dry) anything.
Proof.
  intros X T. unfold amend_locked. step. rename a into now. check. check. eapply types_bind; [apply types_named|]. intros r R. cbv zeta. look.
  match goal with |- types match ?o with _ => _ end _ => destruct o end.
  { check. quiet. }
  check. check. check. eapply types_bind; [apply types_ensure; auto with typed | intros u _].
  eapply types_bind; [now apply types_reconcile_then|]. intros r' R'. step.
  match goal with H : _ ?a |- types (let (_, _) := ?a in _) _ => destruct a as [pol note]; cbn [fst] in H end.
  eapply (types_bind _ _ binding_ok).
  { apply types_look. intros c b Tc E. exact (resolve_binding_ok _ _ _ (ty_tables _ Tc) T E). }
  intros b B. eapply (types_bind _ _ (fun ws => list_ok interval_ok ws = true)).
  { apply types_lift. intros ws E. eapply expand_series_ok; [| |exact E]; auto with typed. }
  intros ws Ws. apply types_scope, types_decide_amendment; auto with typed.
Qed.

(** ** Ingestion *)
Lemma capacity_apply_ok l c s now b l' : om_all (fun e => capacity_ok (ce_capacity e)) l -> wf_ResourceCapacity c = true ->
  CapacityLedger_apply l c s now = Ok (b, l') -> om_all (fun e => capacity_ok (ce_capacity e)) l'.
Proof.
  intros L W E. unfold CapacityLedger_apply in E. apply rbind_Ok in E as ([] & V & E).
  assert (capacity_ok c) as C by now split. destruct (om_find l (rc_resource c)) as [e|] eqn:F; [|injection E as _ <-; now apply om_all_set].
  pose proof (om_all_find _ _ _ _ L F) as Ce. cbn beta in Ce. case_if_in E; apply rbind_refuse_Ok in E as [_ E]; [|injection E as _ <-; now apply om_all_set].
  case_if_in E; injection E as _ <-; [now apply om_all_set | exact L].
Qed.

Lemma capacity_withdraw_ok l n now l' : om_all (fun e => capacity_ok (ce_capacity e)) l ->
  CapacityLedger_withdraw l n now = Ok l' -> om_all (fun e => capacity_ok (ce_capacity e)) l'.
Proof.
  intros L E. unfold CapacityLedger_withdraw in E. destruct (om_find l n) as [e|] eqn:F; [|discriminate]. pose proof (om_all_find _ _ _ _ L F) as Ce. cbn beta in Ce.
  case_if_in E; injection E as <-; [exact L | now apply om_all_set].
Qed.

Lemma path_apply_ok t p s now b t' : om_all (fun e => wf_PathAuthority (pt_path e) = true) t -> wf_PathAuthority p = true ->
  PathAuthorityTable_apply t p s now = Ok (b, t') -> om_all (fun e => wf_PathAuthority (pt_path e) = true) t'.
Proof.
  intros L W E. unfold PathAuthorityTable_apply in E. apply rbind_Ok in E as (u & _ & E).
  destruct (om_find t (pa_path p)) as [e|] eqn:F; [|injection E as _ <-; now apply om_all_set].
  pose proof (om_all_find _ _ _ _ L F) as Ce. cbn beta in Ce. case_if_in E; apply rbind_refuse_Ok in E as [_ E]; [|injection E as _ <-; now apply om_all_set].
  case_if_in E; injection E as _ <-; [now apply om_all_set | exact L].
Qed.

Lemma policy_apply_ok t p b t' : om_all (fun e => wf_PolicyRecord (pe_record e) = true) t -> wf_PolicyRecord p = true ->
  PolicyRegistry_apply t p = Ok (b, t') -> om_all (fun e => wf_PolicyRecord (pe_record e) = true) t'.
Proof.
  intros L W E. unfold PolicyRegistry_apply in E. apply rbind_Ok in E as (u & _ & E).
  destruct (om_find t (pr_name p)) as [e|] eqn:F; [|injection E as _ <-; now apply om_all_set].
  case_if_in E; apply rbind_refuse_Ok in E as [_ E]; injection E as _ <-; [exact L | now apply om_all_set].
Qed.

Lemma types_ingest_resource s now acc c : wf_ResourceCapacity c = true -> Forall (fun n => name_ok n = true) acc ->
  types (ingest_resource s now acc c) (Forall (fun n => name_ok n = true)).
Proof.
  intros W F. unfold ingest_resource. look. cbv zeta.
  eapply (types_bind _ _ (om_all (fun e => capacity_ok (ce_capacity e)))); [apply types_gets; intros c0 T; apply T|]. intros l L.
  eapply (types_bind _ _ (fun p => om_all (fun e => capacity_ok (ce_capacity e)) p.2)).
  { apply types_lift. intros [b l'] E. now apply capacity_apply_ok in E. }
  intros [b l'] L'. cbn [snd] in L'. eapply types_bind; [apply types_tables; intros t [_ P Q La]; now split | intros u _]. still. apply types_ret.
  case_if; [|exact F]. apply Forall_app. split; [exact F|]. constructor; [|constructor]. now fields_of wf_ResourceCapacity.
Qed.

Lemma types_ingest_withdrawal now acc n : types (ingest_withdrawal now acc n) (fun out => out = acc \/ out = acc ++ [n]).
Proof.
  unfold ingest_withdrawal. eapply (types_bind _ _ (om_all (fun e => capacity_ok (ce_capacity e)))); [apply types_gets; intros c0 T; apply T|]. intros l L.
  destruct (CapacityLedger_withdraw l n now) as [l'|e] eqn:E.
  - apply capacity_withdraw_ok in E; [|exact L]. eapply types_bind; [apply types_tables; intros t [_ P Q La]; now split | intros u _]. apply types_ret. now right.
  - case_if; [apply types_ret; now left | apply types_fail].
Qed.

(** The names withdrawn are some of those given. *)
Lemma types_withdrawals now names : list_ok name_ok names = true ->
  types (co_fold (ingest_withdrawal now) names []) (fun out => list_ok name_ok out = true).
Proof.
  intros L. apply list_ok_Forall in L as [B F].
  assert (forall names acc, Forall (fun n => name_ok n = true) names -> Forall (fun n => name_ok n = true) acc ->
    types (co_fold (ingest_withdrawal now) names acc) (fun out => Forall (fun n => name_ok n = true) out /\ (length out <= length acc + length names)%nat)) as K.
  { clear. induction names as [|n names IH]; intros acc N A; cbn [co_fold]; [apply types_ret; split; [exact A | cbn; lia]|].
    inversion N; subst. eapply types_bind; [apply types_ingest_withdrawal|]. intros out O.
    assert (Forall (fun n => name_ok n = true) out /\ (length out <= S (length acc))%nat) as [Fo Lo].
    { destruct O as [-> | ->]; [split; [exact A | lia]|]. split; [apply Forall_app; split; [exact A | now constructor]|]. rewrite length_app. cbn. lia. }
    eapply types_weaken; [apply IH; assumption|]. intros out' [F' L']. split; [exact F' | cbn [length]; lia]. }
  eapply types_weaken; [apply (K names []); [exact F | constructor]|]. intros out [Fo Lo]. apply list_ok_Forall. cbn [length] in Lo. split; [lia | exact Fo].
Qed.

Lemma types_ingest_capacity s names x : wf_CapacitySnapshot s = true -> list_ok name_ok names = true ->
  types (ingest_capacity_locked s names x) anything.
Proof.
  intros S L. unfold ingest_capacity_locked. step. rename a into now. check. check. case_if; [now apply types_ret|].
  pose proof S as S0. fields_of wf_CapacitySnapshot.
  eapply types_bind; [apply (types_co_fold _ _ (Forall (fun n => name_ok n = true))); [constructor|]|].
  { intros acc c I F. apply types_ingest_resource; [|exact F]. eapply list_ok_In; eassumption. }
  intros applied A. eapply types_bind; [now apply types_withdrawals|]. intros withdrawn W. cbv zeta.
  assert (types (modify (set_tables (set_last_capacity (cs_id s) (cs_generation s)))) anything) as Settle
    by (apply types_tables; intros t [P1 P2 P3 _]; now split).
  case_if; [exact Settle|].
  assert (wf_CapacityMutation (mkCapacityMutation (stamp_capacity s now) withdrawn) = true).
  { typed_by wf_CapacityMutation. typed_by wf_CapacitySnapshot. }
  journal sq Q. eapply types_bind; [exact Settle | intros u _]. still. eapply types_bind; [now apply types_refresh | intros u1 _]. still.
  pose proof (proj2 (proj1 (list_ok_Forall _ _) W)) as Wf.
  eapply types_bind; [apply types_for_each; intros n I; apply types_detect; [exact (proj1 (List.Forall_forall _ _) A n I) | assumption] | intros u2 _].
  eapply types_bind; [apply types_for_each; intros n I; apply types_detect; [exact (proj1 (List.Forall_forall _ _) Wf n I) | assumption] | intros u3 _].
  now apply types_history.
Qed.

Lemma types_ingest_paths s x : wf_PathAuthoritySnapshot s = true -> types (ingest_paths_locked s x) anything.
Proof.
  intros S. unfold ingest_paths_locked. step. rename a into now. check. check. pose proof S as S0. fields_of wf_PathAuthoritySnapshot.
  eapply (types_bind _ _ anything).
  { eapply types_weaken; [apply (types_co_fold _ _ anything); [exact I|] | easy]. intros acc p Ip _. unfold ingest_path.
    eapply (types_bind _ _ (om_all (fun e => wf_PathAuthority (pt_path e) = true))); [apply types_gets; intros c0 T; apply T|]. intros t Tp.
    eapply (types_bind _ _ (fun q => om_all (fun e => wf_PathAuthority (pt_path e) = true) q.2)).
    { apply types_lift. intros [b t'] E. apply path_apply_ok in E; [exact E | exact Tp | eapply list_ok_In; eassumption]. }
    intros [b t'] T'. cbn [snd] in T'. eapply types_bind; [apply types_tables; intros t0 [P _ Q La]; now split | intros u _]. now apply types_ret. }
  intros changed _. destruct changed; [now apply types_ret|].
  assert (wf_PathAuthoritySnapshot (stamp_paths s now) = true) by typed_by wf_PathAuthoritySnapshot.
  journal sq Q. eapply types_bind; [apply types_tables; intros t0 [P1 P2 P3 La]; now split | intros u _].
  eapply types_bind; [now apply types_refresh | intros u1 _]. quiet.
Qed.

Lemma types_ingest_policy p x : wf_PolicyRecord p = true -> types (ingest_policy_locked p x) anything.
Proof.
  intros W. unfold ingest_policy_locked. step. rename a into now. check. look.
  eapply (types_bind _ _ (om_all (fun e => wf_PolicyRecord (pe_record e) = true))); [apply types_gets; intros c0 T; apply T|]. intros t Tp.
  eapply (types_bind _ _ (fun q => om_all (fun e => wf_PolicyRecord (pe_record e) = true) q.2)).
  { apply types_lift. intros [b t'] E. now apply policy_apply_ok in E. }
  intros [b t'] T'. cbn [snd] in T'. eapply types_bind; [apply types_tables; intros t0 [P Q _ La]; now split | intros u _].
  case_if; [now apply types_ret|]. assert (wf_PolicyRecord (stamp_policy p now) = true).
  { fields_of wf_PolicyRecord. unfold stamp_policy. typed_by wf_PolicyRecord. }
  journal sq Q. cbv zeta. case_if; [now apply types_ret|]. look. apply types_for_each. intros k _. unfold mark_policy_change.
  eapply types_bind; [apply types_found|]. intros [r|] F; [|now apply types_ret]. specialize (F r eq_refl).
  eapply types_bind; [now apply types_mark | intros r' _; now apply types_ret].
Qed.

(** ** The other requests *)
Lemma types_fence x cl g b s wide : id_ok cl = true -> counter_ok g = true -> id_ok b = true -> id_ok s = true ->
  types (fence_locked x cl g b s wide) anything.
Proof.
  intros C G B S. unfold fence_locked. step. rename a into now. check. check. cbv zeta. set (f := mkFenceMutation _ _ _ _ _ _ _).
  assert (wf_FenceMutation f = true) by (subst f; typed_by wf_FenceMutation). journal sq Q. step. still. still. quiet.
Qed.

Lemma types_acquire x t e : wf_RequestContext x = true -> wf_ReservationTerms t = true -> types (acquire_hold x t e) anything.
Proof.
  intros X T. unfold acquire_hold. step. rename a into now. check. check. eapply types_bind; [apply types_ensure; auto with typed | intros u _].
  eapply types_bind; [now apply types_reconcile | intros u1 _]. look. match goal with |- types (let (_, _) := ?a in _) _ => destruct a as [pol note] end.
  check. check. look. check. look. still. step. now apply types_ret.
Qed.

Lemma resource_name_length (n : ResourceName) : name_ok n = true -> Z.of_nat (length (name_view n)) <= 64.
Proof.
  unfold name_ok, name_empty. intros N. apply orb_true_iff in N as [N|N]; [apply Z.eqb_eq in N; lia|].
  destruct (name_from_string (name_view n)) as [m|e] eqn:E; [|discriminate]. pose proof (name_from_string_view _ _ E) as V.
  apply name_from_string_length in E. lia.
Qed.

Lemma with_reason_ok x why : wf_RequestContext x = true -> text_ok kMaxProvenanceReasonBytes why = true -> wf_RequestContext (with_reason x why) = true.
Proof. intros X W. fields_of wf_RequestContext. unfold with_reason. typed_by wf_RequestContext. Qed.

Lemma types_revoke_weakest fuel x n k now : ts_ok now = true -> wf_RequestContext x = true -> forall i, types (revoke_weakest fuel x n k now i) anything.
Proof.
  intros T X. induction fuel as [|fuel IH]; intros i; cbn [revoke_weakest]; [apply types_fail|].
  eapply (types_bind _ _ (fun o => forall r, o = Some r -> wf_ReservationRecord r = true)).
  { apply types_gets. intros c Tc r. unfold next_victim. cbv zeta. destruct (sort _ _) as [|e l]; [discriminate|]. case_if; [discriminate|]. apply (typed_found _ _ _ _ Tc). }
  intros [r|] R; [|now apply types_ret]. specialize (R r eq_refl). eapply types_bind; [apply types_transition; auto with typed | intros u _].
  case_if; [now apply types_ret | apply IH].
Qed.

Lemma types_resolve_overcommit x n how : wf_RequestContext x = true -> name_ok n = true -> types (resolve_overcommit x n how) anything.
Proof.
  intros X N. unfold resolve_overcommit. step. rename a into now. check. look. check. eapply types_bind; [apply types_entry|].
  intros [e|] C; [|apply types_fail]. specialize (C e eq_refl). cbv zeta. eapply (types_bind _ _ anything).
  - destruct how; [now apply types_ret|]. apply types_revoke_weakest; [assumption|]. apply with_reason_ok; [exact X|].
    pose proof (resource_name_length n N) as L. unfold text_ok. rewrite length_app, Nat2Z.inj_add. apply Z.leb_le.
    etransitivity; [apply Z.add_le_mono_l, L|]. vm_compute. discriminate.
  - intros u _. eapply (types_bind _ _ (fun p => bandwidth_ok p = true)); [apply types_gets; intros; apply peak_committed_ok|]. intros p P.
    apply types_record_overcommit, overcommit_mutation_ok; auto.
Qed.

(** ** Every request *)
Definition wf_Request (q : Request) : bool :=
  match q with
  | QIngestCapacity s names x => wf_CapacitySnapshot s && list_ok name_ok names && wf_RequestContext x
  | QIngestPaths s x => wf_PathAuthoritySnapshot s && wf_RequestContext x
  | QIngestPolicy p x => wf_PolicyRecord p && wf_RequestContext x
  | QRegisterClaimant cl g x => id_ok cl && counter_ok g && wf_RequestContext x
  | QFence x cl g b s _ => wf_RequestContext x && id_ok cl && counter_ok g && id_ok b && id_ok s
  | QCreate x t id _ _ => wf_RequestContext x && wf_ReservationTerms t && id_ok id
  | QAmend x _ _ t _ | QAcquireHold x t _ => wf_RequestContext x && wf_ReservationTerms t
  | QRecall x _ _ at_ g _ => wf_RequestContext x && ts_ok at_ && dur_ok g
  | QRelease x _ _ | QRevoke x _ _ | QRevalidate x _ _ _ => wf_RequestContext x
  | QResolveOvercommit x n _ => wf_RequestContext x && name_ok n
  | _ => true
  end.

Lemma types_drop {A} (m : co A) (Q : A -> Prop) : types m Q -> types (drop m) anything.
Proof. intros M. unfold drop. eapply types_bind; [exact M | intros a _; now apply types_ret]. Qed.

Lemma types_query {A} (k : co A) : types k anything -> types (reconcile_now ;; k) anything.
Proof.
  intros K. eapply (types_bind _ _ anything); [|intros t _; exact K]. unfold reconcile_now. step.
  eapply types_bind; [now apply types_reconcile | intros u _; now apply types_ret].
Qed.

Lemma types_handle q : wf_Request q = true -> types (handle q) anything.
Proof.
  intros W. destruct q; cbn [handle wf_Request] in *; split_andb.
  - now apply types_ingest_capacity.
  - now apply types_ingest_paths.
  - now apply types_ingest_policy.
  - unfold register_claimant_locked. check. check. step. now apply types_ensure.
  - now apply types_fence.
  - eapply types_drop. now apply types_create.
  - eapply types_drop. now apply types_amend.
  - eapply types_drop. now apply types_release.
  - eapply types_drop. now apply types_recall.
  - eapply types_drop. now apply types_revoke.
  - eapply types_drop. now apply types_revalidate.
  - eapply types_drop. unfold reconcile_attempt_locked. check. now apply (types_gets _ anything).
  - eapply types_drop. apply types_reconcile_lifecycle.
  - eapply types_drop. now apply types_acquire.
  - eapply (types_drop _ anything). unfold release_hold. check. look. match goal with |- types match ?o with _ => _ end _ => destruct o end; [|apply types_fail].
    check. check. still. now apply types_gets.
  - unfold release_session. step. check. eapply types_bind; [now apply types_reconcile | intros u _; quiet].
  - now apply types_resolve_overcommit.
  - quiet.
  - unfold begin_shutdown. eapply types_bind; [|intros u _; still; quiet]. apply types_modify. intros c T. now apply (typed_same c); try apply (ty_clock _ T).
  - apply (types_drop _ anything). unfold get_reservation. apply types_query. look. match goal with |- types match ?o with _ => _ end _ => destruct o end;
      [now apply types_ret|]. look. match goal with |- types match ?o with _ => _ end _ => destruct o end; [now apply types_ret | apply types_fail].
  - apply (types_drop _ anything). unfold query_claimant. apply types_query. now apply types_gets.
  - apply (types_drop _ anything). unfold query_resource. apply types_query. now apply types_gets.
  - apply (types_drop _ anything). unfold query_remaining. apply types_query. check. look. match goal with |- types match ?o with _ => _ end _ => destruct o end;
      [now apply types_gets | apply types_fail].
  - apply (types_drop _ anything). unfold query_timeline. apply types_query. check. check. now apply types_gets.
  - apply (types_drop _ anything). unfold explain_conflicts. step. check. eapply types_bind; [now apply types_reconcile | intros u _]. look.
    match goal with |- types (let (_, _) := ?a in _) _ => destruct a as [pol note] end. check. apply types_scope. look.
    eapply (types_bind _ _ anything); [match goal with |- types match ?o with _ => _ end _ => destruct o end; [quiet | now apply types_ret]|].
    intros u2 _. look. now apply types_ret.
Qed.

Lemma typed_run qs : forall c, forallb wf_Request qs = true -> typed c -> typed (run qs c).
Proof.
  induction qs as [|q qs IH]; intros c W T; [exact T|]. cbn [forallb] in W. apply andb_true_iff in W as [Wq W].
  apply (IH _ W). now apply types_handle.
Qed.

(** ** Recovery and boot *)
Lemma replay_state_types id g at_ st t why pr : ts_ok at_ = true -> ts_ok t = true ->
  (forall r, wf_ReservationRecord r = true -> wf_Provenance (pr r) = true) -> types (replay_state id g at_ st t why pr) anything.
Proof.
  intros A T P. unfold replay_state. eapply types_bind; [apply (types_found (id, g))|]. intros [r|] F; [|apply types_fail]. specialize (F r eq_refl).
  cbv zeta. assert (wf_ReservationRecord (if ns at_ >? 0 then with_recall r at_ else r) = true) by (case_if; auto with typed).
  eapply types_bind; [apply types_set_state; auto | intros r' _; quiet].
Qed.

Lemma record_provenance r : wf_ReservationRecord r = true -> wf_Provenance (rr_last_provenance r) = true.
Proof. intros W. now fields_of wf_ReservationRecord. Qed.
Lemma record_committed r : wf_ReservationRecord r = true -> ts_ok (committed_at r) = true.
Proof. intros W. now fields_of wf_ReservationRecord. Qed.
#[local] Hint Resolve record_provenance record_committed : typed.

Lemma types_replay_attempt a : types (replay_attempt a) anything.
Proof. destruct a; cbn [replay_attempt]; [apply types_attempt | now apply types_ret]. Qed.

Lemma enter_records_typed rs : forall b, Forall (fun r => wf_ReservationRecord r = true) rs -> typed_book b -> typed_book (fold_left enter_record rs b).
Proof.
  induction rs as [|r rs IH]; intros b F B; [exact B|]. inversion F; subst. cbn [fold_left]. apply IH; [assumption|].
  unfold enter_record, sync_queues. pose proof (register_record_typed r b ltac:(assumption) B) as [R S]. case_if; now split.
Qed.

Lemma apply_series_typed s b : wf_ReservationSeries s = true -> typed_book b -> typed_book (apply_series s b).
Proof.
  intros W [R S]. unfold apply_series. cbv zeta. repeat case_match_goal; (split; [exact R | cbn [series_records set_series set_current_series]; now apply om_all_set]).
Qed.

Lemma types_replay_reservation m : wf_ReservationMutation m = true -> types (replay_reservation m) anything.
Proof.
  intros W. pose proof W as W0. fields_of wf_ReservationMutation. unfold replay_reservation. cbv zeta.
  eapply types_bind; [apply (types_when _ _ anything), replay_state_types; auto with typed | intros u _].
  eapply types_bind; [apply types_book|intros u1 _].
  { intros b B. assert (typed_book (fold_left enter_record (rm_record m :: rm_members m)
      match rm_edge m with Some edge => set_edges (edges b ++ [edge]) b | None => b end)) as B1.
    { apply enter_records_typed; [constructor; [assumption|]; now eapply list_ok_Forall|]. destruct B. destruct (rm_edge m); now split. }
    destruct (rm_series m) as [s|]; [now apply apply_series_typed | exact B1]. }
  eapply types_bind; [apply types_for_each; intros s I; apply replay_state_types|intros u2 _; apply types_replay_attempt].
  - reflexivity.
  - pose proof (list_ok_In _ _ _ ltac:(eassumption) I). now fields_of wf_StateMutation.
  - pose proof (list_ok_In _ _ _ ltac:(eassumption) I). intros r _. now fields_of wf_StateMutation.
Qed.

(** A step that replaces one of the tables, or fails. *)
Lemma types_table_step {T} (f : Coordinator -> Result T) (put : T -> Tables -> Tables) :
  (forall c t, typed c -> f c = Ok t -> typed_tables (put t (tables c))) ->
  types (fun c => match f c with Ok t => (Ok tt, set_tables (put t) c) | Err e => (Err e, c) end) anything.
Proof.
  intros H c T0. destruct (f c) as [t|e] eqn:E; cbn [fst snd]; (split; [|easy]); [|exact T0].
  pose proof (H c t T0 E). destruct T0 as [Ck Ep Ta Bo Jo]. now split.
Qed.

Lemma drop_changed_Ok {A B} (r : Result (A * B)) b : drop_changed r = Ok b -> exists a, r = Ok (a, b).
Proof. unfold drop_changed. intros E. apply rbind_Ok in E as ([a b'] & -> & [= <-]). eauto. Qed.

Lemma types_replay_capacity m : wf_CapacityMutation m = true -> types (replay_capacity m) anything.
Proof.
  intros W. fields_of wf_CapacityMutation. fields_of wf_CapacitySnapshot. unfold replay_capacity. cbv zeta.
  eapply types_bind; [apply types_for_each; intros c I|intros u _].
  { apply types_table_step. intros c0 l [_ _ [L P Q La] _ _] E. apply drop_changed_Ok in E as (b & E). split; try assumption.
    eapply capacity_apply_ok; [exact L | eapply list_ok_In; eassumption | exact E]. }
  eapply types_bind; [apply types_for_each; intros n I|intros u1 _].
  { apply types_table_step. intros c0 l [_ _ [L P Q La] _ _] E. split; try assumption. cbn [ledger set_ledger].
    destruct (CapacityLedger_withdraw _ _ _) as [l'|e] eqn:Wd; [injection E as <-; now apply capacity_withdraw_ok in Wd|].
    case_if_in E; [|discriminate]. now injection E as <-. }
  apply types_tables. intros t [P1 P2 P3 _]. now split.
Qed.

Lemma types_replay r : wf_DurableRecord r = true -> types (apply_replay_locked r) anything.
Proof.
  intros W. destruct r; cbn [apply_replay_locked wf_DurableRecord] in *.
  - apply types_modify. intros c [Ck [Ep Bo] Ta Bk Jo]. case_if; split; auto. split; [|exact Bo]. now fields_of wf_EpochMutation.
  - now apply types_replay_capacity.
  - fields_of wf_PathAuthoritySnapshot. unfold replay_paths. eapply types_bind; [apply types_for_each; intros p I|intros u _].
    + apply types_table_step. intros c t [_ _ [L P Q La] _ _] E. apply drop_changed_Ok in E as (b & E). split; try assumption.
      eapply path_apply_ok; [exact P | eapply list_ok_In; eassumption | exact E].
    + apply types_tables. intros t [P1 P2 P3 La]. now split.
  - unfold replay_policy. apply types_table_step. intros c t [_ _ [L P Q La] _ _] E. apply drop_changed_Ok in E as (b & E). split; try assumption.
    eapply policy_apply_ok; eassumption.
  - now apply types_replay_reservation.
  - now apply types_replay_reservation.
  - now apply types_replay_reservation.
  - fields_of wf_StateMutation. eapply types_bind; [now apply replay_state_types | intros u _; apply types_replay_attempt].
  - fields_of wf_ApplicabilityMutation. unfold replay_applicability. eapply types_bind; [apply (types_found (apm_id _, apm_generation _))|].
    intros [r|] F; [|apply types_fail]. specialize (F r eq_refl). auto with typed.
  - apply types_attempt.
  - apply types_sessions.
  - apply types_book. intros b B. revert b B. generalize (combine (rt_ids retire) (rt_generations retire)). intros ks. induction ks as [|k ks IH]; intros b B; [exact B|].
    cbn [fold_left]. now apply IH, retire_key_typed.
  - apply types_sessions.
  - apply types_sessions.
Qed.

(** A journal that recovery went through is readable. *)
Lemma replayed_readable js : forall c c', for_each js replay_record c = (Ok tt, c') -> Forall readable js.
Proof.
  induction js as [|j js IH]; intros c c' E; [constructor|]. cbn [for_each] in E. apply bind_inv in E as (u & c1 & E1 & E). constructor; [|now apply (IH c1 c')].
  unfold replay_record in E1. destruct (decode_record _ _) as [r|e] eqn:D; [|discriminate]. apply decode_record_inv in D as (P & K & W). exists r. now repeat split.
Qed.

Lemma types_replay_all js : Forall readable js -> types (for_each js replay_record) anything.
Proof.
  intros F. apply types_for_each. intros j I. destruct (proj1 (List.Forall_forall _ _) F j I) as (r & [P K] & W).
  unfold replay_record. rewrite P, K, decode_record_enc by exact W. now apply types_replay.
Qed.

(** The configuration stays. *)
Definition configured (c c' : Coordinator) : Prop := config (env c') = config (env c).

#[export] Instance configured_PreOrder : PreOrder configured.
Proof. split; [intros c; reflexivity | intros c c' c'' A B; unfold configured in *; congruence]. Qed.

#[export] Instance Framed_configured : Framed configured.
Proof.
  apply Framed_intro; [|intros; reflexivity | intros; reflexivity | intros a c; reflexivity].
  apply Calm_intro; [exact _ | intros; try reflexivity..]; [apply H | apply H].
Qed.
#[export] Hint Resolve Framed_configured : frame.

Lemma configured_recover st c c' : snapshot_payload_ st = [] -> recover st c = Ok c' -> configured c c'.
Proof.
  intros Sn E. unfold recover, load_state in E. rewrite Sn in E. cbn [rbind] in E.
  assert (keeps configured (for_each (records_ st) replay_record)) as K.
  { apply keeps_for_each; [exact _|]. intros j. unfold replay_record. destruct (decode_record _ _) as [r|e]; [|frame].
    destruct r; cbn [apply_replay_locked]; unfold replay_capacity, replay_paths, replay_policy, replay_reservation, replay_applicability, replay_state, replay_attempt, on_ledger; frame;
      try (intros c0; repeat case_match_goal; reflexivity). }
  specialize (K c). destruct (for_each _ _ c) as [[u|e] c1]; [|discriminate]. cbn [snd] in K.
  assert (keeps configured rebuild_index_locked) as Rb by (unfold rebuild_index_locked; frame; intros c0; reflexivity).
  specialize (Rb (set_book rebuild_queues c1)). destruct (rebuild_index_locked _) as [[v|e] c2]; [|discriminate]. injection E as <-.
  cbn [snd] in Rb. etransitivity; [exact K|]. exact Rb.
Qed.

Lemma typed_recover cfg k st d i id c : wf_clock k -> snapshot_payload_ st = [] ->
  recover st (blank_coordinator cfg k st d i id) = Ok c -> typed c.
Proof.
  intros K Sn E. unfold recover in E. unfold load_state in E. rewrite Sn in E. cbn [rbind] in E.
  destruct (for_each (records_ st) replay_record _) as [[[]|e] c1] eqn:R; [|discriminate]. pose proof (replayed_readable _ _ _ R) as F.
  assert (typed (blank_coordinator cfg k st d i id)) as T.
  { split; [exact K | now split | split; [constructor | constructor | constructor | now split] | split; constructor | exact F]. }
  pose proof (types_replay_all _ F _ T) as [T1 _]. rewrite R in T1. cbn [snd] in T1.
  assert (typed (set_book rebuild_queues c1)) as T2.
  { destruct T1 as [Ck Ep Ta [Br Bs] Jo]. split; try assumption. cbn [book set_book]. assert (records (rebuild_queues (book c1)) = records (book c1) /\ series_records (rebuild_queues (book c1)) = series_records (book c1)) as [Hr Hs].
    { clear. assert (forall (l : omap ReservationKey ReservationRecord) b, records (fold_left (fun b (p : ReservationKey * ReservationRecord) => sync_queues p.2 b) l b) = records b /\
                        series_records (fold_left (fun b (p : ReservationKey * ReservationRecord) => sync_queues p.2 b) l b) = series_records b) as K.
      { induction l as [|p l IH]; intros b; [now split|]. cbn [fold_left]. destruct (IH (sync_queues p.2 b)) as [-> ->]. unfold sync_queues. cbv zeta. now destruct (negb (consumes p.2)). }
      unfold rebuild_queues. destruct (K (records (book c1)) (set_queues [] [] [] (book c1))) as [-> ->]. now split. }
    split; [now rewrite Hr | now rewrite Hs]. }
  assert (types rebuild_index_locked anything) as Rb.
  { apply types_quiet; [apply idle_rebuild|]. unfold rebuild_index_locked. frame. intros c2. split; [auto | now split]. }
  destruct (Rb _ T2) as [T3 _]. destruct (rebuild_index_locked _) as [[u|e] c2]; [|discriminate]. now injection E as <-.
Qed.

Lemma typed_boot b c : id_ok b = true -> id_ok (boot_identity (config (env c))) = true -> typed c -> typed (boot_coordinator b c).2.
Proof.
  intros B Cf T. assert (id_ok (if is_nil (boot_identity (config (env c))) then b else boot_identity (config (env c))) = true) as Bo by now case_if.
  unfold boot_coordinator. unfold bind at 1, gets at 1. pose proof (proj1 (ty_epoch _ T)) as Ep.
  destruct (value (ci_epoch (incarnation (env c))) =? u64_max) eqn:Mx; unfold bind at 1, lift, refuse; [exact T|]. cbv zeta.
  unfold bind at 1, gets at 1. set (boot := if is_nil _ then _ else _) in *.
  set (e := mkCounter (value (ci_epoch (incarnation (env c))) + 1) : FabricEpoch). assert (counter_ok e = true) as Ec.
  { unfold counter_ok, u_ok in *. subst e. cbn [value]. unfold u64_max in Mx. bool_prop. bool_goal; lia. }
  match goal with |- typed (?m c).2 => cut (types m anything); [intros M; apply (M c T)|] end.
  step. assert (wf_EpochMutation (mkEpochMutation e boot a) = true) by typed_by wf_EpochMutation. journal sq Q.
  eapply types_bind; [apply types_modify; intros c1 [Ck _ Ta Bk Jo]; now split | intros u _].
  eapply types_bind; [now apply types_reconcile | intros u1 _]. eapply types_bind; [now apply types_refresh | intros u2 _]. now apply types_history.
Qed.

(** A directory without a snapshot. *)
Lemma open_snapshotless d o io fresh st d' : dk_snapshot d = None -> open d o io fresh = (Ok st, d') -> snapshot_payload_ st = [].
Proof.
  intros S E. unfold open in E. destruct (negb _); [discriminate|]. destruct (check_store_id d io fresh) as [checked d1] eqn:C. destruct checked; [|discriminate].
  assert (dk_snapshot d1 = None) as S1.
  { unfold check_store_id in C. destruct (dk_store_id d); [injection C as _ <-; auto|]. destruct (write_all _ _ _). injection C as _ <-. auto. }
  assert (load_snapshot d1 = Ok ([], 0, false)) as L by (unfold load_snapshot; now rewrite S1). rewrite L in E.
  destruct (load_journal d1 o) as [[all jr]|]; [|discriminate]. destruct (_ && _); [discriminate|]. cbv zeta in E. destruct (negb _); [discriminate|].
  now injection E as <- _.
Qed.

Lemma typed_open cfg k d how i fresh boot c d' :
  dk_snapshot d = None -> wf_clock k -> id_ok (boot_identity cfg) = true -> id_ok boot = true ->
  open_coordinator cfg k d how i fresh boot = (Ok c, d') -> typed c.
Proof.
  intros S K Cf B E. unfold open_coordinator in E. destruct (_ || _); [discriminate|]. destruct (open d default_options how fresh) as [[st|e] d1] eqn:O; [|discriminate].
  destruct (rbind (read_store_identity d1) _) as [c1|e] eqn:R; [|discriminate]. apply rbind_Ok in R as (id & _ & R).
  pose proof (typed_recover _ _ _ _ _ _ _ K (open_snapshotless _ _ _ _ _ _ S O) R) as T1.
  assert (id_ok (boot_identity (config (env c1))) = true) as Cf1.
  { pose proof (configured_recover _ _ _ (open_snapshotless _ _ _ _ _ _ S O) R) as ->. exact Cf. }
  pose proof (typed_boot boot c1 B Cf1 T1) as T2. destruct (boot_coordinator boot c1) as [[u|e] c2]; [|discriminate]. now injection E as <- _.
Qed.
