(* ===== verification/CoordCompaction.v ===== *)
(** * Coordinator: a compaction the fabric does not come back from

    The lists of a snapshot are written whole and read back only up to 65536
    elements. *)
From S2P Require Import Prelude Errors Containers Identity Hash Bandwidth Time Authority Wire Policy Capacity Reservation Outcome SegTree Index Durable CodecBase Codec Store StoreContract Coordinator CoordRecords CoordPersist CoordAssess CoordLifecycle CoordCommit CoordOps CoordQuery CoordSample CoordSteps CoordJournal CoordGate CoordBook CoordSound CoordLife CoordLifeOps CoordLifetime CoordCapacity CoordReconcile CoordMirror CoordLogged CoordRestart CoordReplay CoordReopen.

(** A list that fits its 32-bit count, of elements inside their bounds. *)
Definition counted {A} (ok : A -> bool) (l : list A) : bool := u_ok 32 (Z.of_nat (length l)) && forallb ok l.
Definition short {A} (l : list A) : bool := Z.of_nat (length l) <=? kMaxCollectionItems.

Section lists.
Context {A B : Type} {enc : A -> bytes} {dec : rd A} {ok : A -> bool} `{!Codec enc dec ok}.

Lemma rd_list (k : list A -> rd B) l rest : counted ok l = true ->
  has_value (rd_bind (decode_list dec) k (encode_list enc l ++ rest)) = short l && has_value (k l rest).
Proof.
  intros C. apply andb_true_iff in C as [U F]. destruct (short l) eqn:S.
  - rewrite rd_bind_enc; [reflexivity|]. unfold list_ok. unfold short in S. now rewrite S, F.
  - unfold rd_bind, decode_list, encode_list, w_count. rewrite to_u_id, <- app_assoc by exact U. unfold rd_bind at 1.
    rewrite codec_roundtrip by exact U. unfold short in S. unfold rd_refuse. rewrite Z.gtb_ltb. apply Z.leb_gt, Z.ltb_lt in S. now rewrite S.
Qed.
End lists.

(** The lists of a snapshot. *)
Definition countable (s : SnapshotState) : bool :=
  counter_ok (ss_epoch s) && id_ok (ss_coordinator_boot s) && counter_ok (ss_sequence s) &&
  counted wf_SnapshotCapacityEntry (ss_capacity s) && counted wf_SnapshotPathEntry (ss_paths s) &&
  counted wf_SnapshotPolicyEntry (ss_policies s) && counted wf_ReservationRecord (ss_reservations s) &&
  counted wf_ReservationSeries (ss_series s) && counted wf_SupersessionEdge (ss_edges s) &&
  counted wf_AttemptMutation (ss_attempts s) && counted wf_FenceMutation (ss_fences s) &&
  counted wf_ClaimantMutation (ss_claimants s) && counted wf_OvercommitMutation (ss_overcommits s) &&
  counted wf_ReservationRecord (ss_retired s).

Definition all_short (s : SnapshotState) : bool :=
  short (ss_capacity s) && short (ss_paths s) && short (ss_policies s) && short (ss_reservations s) &&
  short (ss_series s) && short (ss_edges s) && short (ss_attempts s) && short (ss_fences s) &&
  short (ss_claimants s) && short (ss_overcommits s) && short (ss_retired s).

Lemma snapshot_readable s : countable s = true -> has_value (decode_SnapshotState (encode_SnapshotState s)) = all_short s.
Proof.
  intros C. unfold countable in C. split_andb. unfold decode_SnapshotState, encode_SnapshotState.
  rewrite <- (app_nil_r (encode_list encode_ReservationRecord (ss_retired s))).
  repeat (rewrite rd_bind_enc by assumption). unfold all_short. rewrite <- !andb_assoc.
  repeat (rewrite rd_list by assumption; match goal with |- ?b && _ = ?b && _ => f_equal end).
  rewrite rd_list by assumption. cbn [has_value rret]. apply andb_true_r.
Qed.

Lemma snapshot_loads s b st : countable s = true -> snapshot_payload_ st = encode_SnapshotState s ->
  has_value (load_state st b) = all_short s.
Proof.
  intros C P. pose proof (snapshot_readable s C) as R. unfold load_state. rewrite P.
  assert (exists x p, encode_SnapshotState s = x :: p) as (x & p & E) by (eexists _, _; reflexivity). rewrite E in *.
  destruct (decode_SnapshotState (x :: p)) as [[s' rest]|e] eqn:D; cbn [has_value] in R; [|now rewrite <- R].
  rewrite <- R. assert (wf_SnapshotState s = true) as W.
  { symmetry in R. unfold countable, counted, all_short, short in *. unfold wf_SnapshotState, list_ok. split_andb. bool_goal; first [assumption | now apply Z.leb_le]. }
  rewrite <- E, <- (app_nil_r (encode_SnapshotState s)), (codec_roundtrip (wf := wf_SnapshotState)) in D by exact W.
  injection D as <- <-. reflexivity.
Qed.

Lemma load_state_error st b e : load_state st b = Err e -> e = kCorrupt.
Proof.
  unfold load_state. destruct (snapshot_payload_ st); [discriminate|]. destruct (decode_SnapshotState _) as [[s rest]|]; [|congruence].
  destruct (r_exhausted rest); cbn [negb]; [discriminate | intros [= <-]; reflexivity].
Qed.

Lemma read_identity_error d e : read_store_identity d = Err e -> e = kCorrupt.
Proof. unfold read_store_identity. destruct (dk_store_id d); [|congruence]. destruct (from_hex _); congruence. Qed.

Section compaction.
Context (c : Coordinator) (js : list JournalRecord).
Context (OK : store_ok (store (env c)) (disk (env c)) js) (IO : io (env c) = io_ok) (OP : options_ (store (env c)) = default_options).

Let s := snapshot_state_locked c.
Let p := encode_SnapshotState s.

Lemma compact_files : size p + 40 <= kMaxSnapshotFile ->
  exists c' floor, compact_locked c = (Ok tt, c') /\ directory_ok (disk (env c')) default_options p floor [] [].
Proof.
  intros F. assert (size p <= max_snapshot_payload (options_ (store (env c)))) as P.
  { rewrite OP. change (max_snapshot_payload default_options) with kMaxSnapshotFile. lia. }
  destruct (write_snapshot_ok _ _ _ OK p P F) as [W K]. set (st1 := mkStore _ _ _ _ _ _ _ _) in *. set (d1 := mkDisk _ _ _ _) in *.
  destruct (rotate_journal_ok _ _ _ K rotate_ok) as (st2 & d2 & js2 & R & D & _); [reflexivity | discriminate..|].
  assert (js2 = []) as ->.
  { unfold rotate_journal in R. destruct (journal_open st1); injection R as _ <-; apply do_journal in D; cbn in D;
      rewrite app_nil_r in D; injection D as D; (destruct js2 as [|j js2]; [reflexivity|]);
      apply (f_equal (@length _)) in D; pose proof (size_journal_frame j); pose proof (frame_size_pos j);
      cbn [journal_file flat_map] in D; rewrite length_app in D; cbn [length] in D; lia. }
  eexists _, _. split.
  - unfold compact_locked, bind, gets, write_snapshot_locked. cbv beta iota zeta. fold s p. rewrite IO.
    cbn [next_io io_snapshot io_append io_rotate io_ok]. rewrite W. cbn [rbind]. unfold rotate_journal_locked. cbn [env set_env io set_store].
    cbn [next_io io_rotate]. cbn [store disk set_store]. rewrite R. reflexivity.
  - cbn [env set_env disk set_store set_stats]. change (options_ st1) with (options_ (store (env c))) in D. rewrite OP in D. exact D.
Qed.
End compaction.

(** A directory whose snapshot is that of the state [s]. *)
Lemma snapshot_opens s d floor js fresh :
  countable s = true -> directory_ok d default_options (encode_SnapshotState s) floor js [] ->
  exists st d', open d default_options open_io_ok fresh = (Ok st, d') /\
    (forall blank, has_value (load_state st blank) = all_short s) /\
    (all_short s = false -> forall cfg k i boot, max_live_reservations cfg <> 0 -> max_attempts cfg <> 0 ->
      (open_coordinator cfg k d open_io_ok i fresh boot).1 = Err kCorrupt).
Proof.
  intros C D. destruct (open_directory _ _ _ _ _ _ fresh D) as (st & O & _ & _ & P & _). eexists st, _. split; [exact O|].
  assert (forall blank, has_value (load_state st blank) = all_short s) as L by (intros blank; now apply snapshot_loads).
  split; [exact L|]. intros S cfg k i boot Nl Na. unfold open_coordinator.
  apply Z.eqb_neq in Nl, Na. rewrite Nl, Na, O. cbn [orb]. destruct (read_store_identity _) as [id|e] eqn:I.
  - cbn [rbind]. unfold recover. match goal with |- context [load_state st ?b] => specialize (L b); destruct (load_state st b) as [b'|e] eqn:Ls end.
    + rewrite S in L. discriminate.
    + cbn [rbind fst]. now rewrite (load_state_error _ _ _ Ls).
  - cbn [rbind fst]. now rewrite (read_identity_error _ _ I).
Qed.

(** C22. A compaction is readable exactly when no list of the state is longer
    than 65536.  Take a coordinator in step with its directory, whose values are
    inside the bounds of the codec, whose snapshot takes at most the 256 MiB of a
    snapshot file, and whose file operations succeed, then and at the reopening.
    The compaction succeeds, drops the journal, and the store opens on what it
    left; but the snapshot is read back if and
    only if the state has at most 65536 resources, paths, policies, records,
    series, edges, attempts, fences, claimants, overcommits and archived records
    each, and otherwise the fabric can never be opened again.  The default
    limits admit 262144 records and attempts, and nothing limits claimants. *)
Theorem compaction_readable_iff_short c js :
  store_ok (store (env c)) (disk (env c)) js -> io (env c) = io_ok -> options_ (store (env c)) = default_options ->
  let s := snapshot_state_locked c in
  countable s = true -> size (encode_SnapshotState s) + 40 <= kMaxSnapshotFile ->
  exists c', compact_locked c = (Ok tt, c') /\
    forall fresh, exists st d, open (disk (env c')) default_options open_io_ok fresh = (Ok st, d) /\
      (forall blank, has_value (load_state st blank) = all_short s) /\
      (all_short s = false -> forall cfg k i boot, max_live_reservations cfg <> 0 -> max_attempts cfg <> 0 ->
        (open_coordinator cfg k (disk (env c')) open_io_ok i fresh boot).1 = Err kCorrupt).
Proof.
  intros OK IO OP s C F. destruct (compact_files c js OK IO OP F) as (c' & floor & E & D). exists c'. split; [exact E|].
  intros fresh. eapply snapshot_opens; eassumption.
Qed.

(** The sample fabric with [n] registered claimants. *)
Fixpoint claimants_from (n : nat) (i : Z) : list (Identity128 * ClaimantGeneration) :=
  match n with O => [] | S n => (mkIdentity (be64 0 ++ be64 i), mkCounter 1) :: claimants_from n (i + 1) end.
Definition crowded (n : nat) : Coordinator := set_sessions (set_claimants (claimants_from n 1)) Sample.opened.

Lemma crowded_env n : env (crowded n) = env Sample.opened.
Proof. reflexivity. Qed.

Lemma length_claimants_from n : forall i, length (claimants_from n i) = n.
Proof. induction n as [|n IH]; intros i; [reflexivity|]. cbn [claimants_from length]. now rewrite IH. Qed.

Lemma claimants_counted n : forall i, let l := map (fun p => mkClaimantMutation p.1 p.2 (mkTs 0)) (claimants_from n i) in
  forallb wf_ClaimantMutation l = true /\ size (flat_map encode_ClaimantMutation l) = 32 * Z.of_nat n.
Proof.
  induction n as [|n IH]; intros i; [split; reflexivity|]. cbv zeta. cbn [claimants_from map fst snd forallb flat_map].
  destruct (IH (i + 1)) as [W L]. rewrite W, length_app, Nat2Z.inj_add, L. split; [reflexivity|].
  replace (size (encode_ClaimantMutation _)) with 32 by reflexivity. lia.
Qed.

Lemma length_encode_list {A} (enc : A -> bytes) l : length (encode_list enc l) = (4 + length (flat_map enc l))%nat.
Proof. unfold encode_list. now rewrite length_app. Qed.

(** A snapshot with other claimants. *)
Definition with_claimants (l : list ClaimantMutation) (s : SnapshotState) : SnapshotState :=
  mkSnapshotState (ss_epoch s) (ss_coordinator_boot s) (ss_sequence s) (ss_capacity s) (ss_paths s) (ss_policies s)
    (ss_reservations s) (ss_series s) (ss_edges s) (ss_attempts s) (ss_fences s) l (ss_overcommits s) (ss_retired s).

Lemma with_claimants_spec l s : ss_claimants s = [] -> countable s = true -> all_short s = true -> counted wf_ClaimantMutation l = true ->
  countable (with_claimants l s) = true /\ all_short (with_claimants l s) = short l /\
  size (encode_SnapshotState (with_claimants l s)) = size (encode_SnapshotState s) + size (flat_map encode_ClaimantMutation l).
Proof.
  intros E C S L. unfold countable, all_short in *. split_andb. split; [|split]; cbn [with_claimants ss_epoch ss_coordinator_boot ss_sequence ss_capacity ss_paths ss_policies
    ss_reservations ss_series ss_edges ss_attempts ss_fences ss_claimants ss_overcommits ss_retired].
  - bool_goal; assumption.
  - repeat match goal with H : short ?x = true |- context [short ?x] => rewrite H end. cbn [andb]. now rewrite !andb_true_r.
  - unfold encode_SnapshotState. cbn [with_claimants ss_epoch ss_coordinator_boot ss_sequence ss_capacity ss_paths ss_policies
      ss_reservations ss_series ss_edges ss_attempts ss_fences ss_claimants ss_overcommits ss_retired].
    rewrite E, !length_app, !(length_encode_list encode_ClaimantMutation). cbn [flat_map length]. lia.
Qed.

Lemma crowded_snapshot n : snapshot_state_locked (crowded n) =
  with_claimants (map (fun p => mkClaimantMutation p.1 p.2 (mkTs 0)) (claimants_from n 1)) (snapshot_state_locked Sample.opened).
Proof. reflexivity. Qed.

Lemma opened_on_disk : on_disk Sample.opened.
Proof.
  destruct (opened_explains (Sample.config_of 1000 1000 1000) (mkClock (Sample.second 1000) []) empty_disk (str "store") (Sample.id_of 2) Sample.opened
    (snd (open_coordinator (Sample.config_of 1000 1000 1000) (mkClock (Sample.second 1000) []) empty_disk open_io_ok io_ok (str "store") (Sample.id_of 2)))) as [_ D].
  - split; reflexivity.
  - vm_compute. reflexivity.
  - apply D. split; [intros N; now apply N | vm_compute; discriminate].
Qed.

Lemma crowded_ok n : Z.of_nat n < 2 ^ 20 ->
  countable (snapshot_state_locked (crowded n)) = true /\
  size (encode_SnapshotState (snapshot_state_locked (crowded n))) + 40 <= kMaxSnapshotFile /\
  all_short (snapshot_state_locked (crowded n)) = (Z.of_nat n <=? 65536).
Proof.
  intros N. rewrite crowded_snapshot. destruct (claimants_counted n 1) as [W L]. set (l := map _ _) in *.
  assert (length l = n) as Ln by (subst l; rewrite length_map; apply length_claimants_from).
  destruct (with_claimants_spec l (snapshot_state_locked Sample.opened)) as (C & S & Z); [reflexivity | vm_compute; reflexivity..| |].
  - unfold counted, u_ok. rewrite W, Ln. bool_goal; lia || reflexivity.
  - split; [exact C|]. rewrite S, Z, L. unfold short. rewrite Ln. split; [|reflexivity].
    replace (size (encode_SnapshotState (snapshot_state_locked Sample.opened))) with 76 by (vm_compute; reflexivity).
    unfold kMaxSnapshotFile. lia.
Qed.

(** 65537 claimants are one too many. *)
Lemma compaction_readable_iff_short_witness :
  let c := crowded (Z.to_nat 65537) in
  exists c', compact_locked c = (Ok tt, c') /\
    forall fresh, exists st d, open (disk (env c')) default_options open_io_ok fresh = (Ok st, d) /\
      (forall blank, has_value (load_state st blank) = false) /\
      (forall cfg k i boot, max_live_reservations cfg <> 0 -> max_attempts cfg <> 0 ->
        (open_coordinator cfg k (disk (env c')) open_io_ok i fresh boot).1 = Err kCorrupt).
Proof.
  intros c. destruct (crowded_ok (Z.to_nat 65537)) as (C & F & S); [lia|].
  replace (Z.of_nat (Z.to_nat 65537) <=? 65536) with false in S by (symmetry; apply Z.leb_gt; lia). fold c in C, F, S.
  destruct (compaction_readable_iff_short c (journal_of Sample.opened)) as (c' & E & O); [subst c; rewrite crowded_env; apply opened_on_disk..| exact C | exact F|].
  exists c'. split; [exact E|]. intros fresh. destruct (O fresh) as (st & d & Op & Ld & Bad). rewrite S in Ld.
  exists st, d. auto.
Defined.
