(* ===== verification/CommandLine.v ===== *)
(** * Command lines of the tools

    What [tools/brf_inspect.cpp], [tools/brf_coordinator.cpp] and
    [tools/brf_probe.cpp] share: looking arguments up, the number parsers of the
    C++ library they use, and what a program leaves on its output. *)
From S2P Require Import Prelude Errors Containers Identity Hash Bandwidth Time Policy.

(** ** How a program ends

    With a code, with an exception nothing catches, or by dereferencing an empty
    [std::optional], after which anything may happen. *)
Inductive Ending := exits (code : Z) | throws | undefined.

#[export] Instance Ending_eq_dec : EqDecision Ending.
Proof. solve_decision. Defined.

(** A line of output; [complaint] goes on with the text of the error. *)
Inductive Line := printed (text : bytes) | complaint (text : bytes) (e : ErrorCode).

(** ** Arguments

    [argv] without the name of the program. *)

(** [argument_value]: what follows the first occurrence that something follows. *)
Fixpoint argument_value (args : list bytes) (name fallback : bytes) : bytes :=
  match args with
  | a :: (b :: _ as rest) => if beq a name then b else argument_value rest name fallback
  | _ => fallback
  end.

Definition has_flag (args : list bytes) (name : bytes) : bool := existsb (fun a => beq a name) args.

(** ** [std::stoull], [std::stoll] and [std::stoi]

    Leading white space, a sign, decimal digits; the rest is ignored.  [None] is
    the exception for text without digits or a number out of range. *)
Definition is_space (b : byte) : bool := (b2z b =? 32) || ((9 <=? b2z b) && (b2z b <=? 13)).

Fixpoint drop_spaces (text : bytes) : bytes :=
  match text with
  | [] => []
  | b :: rest => if is_space b then drop_spaces rest else text
  end.

Definition split_sign (text : bytes) : bool * bytes :=
  match text with
  | b :: rest => if byte_eqb b x2d then (true, rest) else if byte_eqb b x2b then (false, rest) else (false, text)
  | [] => (false, [])
  end.

Fixpoint leading_digits (text : bytes) : bytes :=
  match text with
  | b :: rest => if is_digit b then b :: leading_digits rest else []
  | [] => []
  end.

(** The sign and the magnitude. *)
Definition scan_number (text : bytes) : option (bool * Z) :=
  let '(negative, rest) := split_sign (drop_spaces text) in
  match leading_digits rest with
  | [] => None
  | ds => Some (negative, decimal_value ds 0)
  end.

(** A negative magnitude in range wraps around. *)
Definition stoull (text : bytes) : option Z :=
  match scan_number text with
  | Some (negative, v) => if v >? u64_max then None else Some (if negative : bool then to_u 64 (- v) else v)
  | None => None
  end.

Definition signed_number (low high : Z) (text : bytes) : option Z :=
  match scan_number text with
  | Some (negative, v) =>
      let z := if negative : bool then - v else v in
      if (z <? low) || (z >? high) then None else Some z
  | None => None
  end.

Definition stoll : bytes -> option Z := signed_number i64_min i64_max.
Definition stoi : bytes -> option Z := signed_number (- 2 ^ 31) (2 ^ 31 - 1).

(** ** [printf] *)
Definition print_signed (z : Z) : bytes := if z <? 0 then str "-" ++ to_decimal (- z) else to_decimal z.
Definition print_flag (b : bool) : bytes := if b then str "1" else str "0".

(** ** What is printed reads back *)
Lemma leading_digits_all ds : forallb is_digit ds = true -> leading_digits ds = ds.
Proof.
  induction ds as [|d ds IH]; [reflexivity|]. cbn [forallb leading_digits]. intros D. apply andb_true_iff in D as [-> D]. now rewrite IH.
Qed.

Lemma digit_no_space d : is_digit d = true -> is_space d = false /\ byte_eqb d x2d = false /\ byte_eqb d x2b = false.
Proof. destruct d; intros D; try discriminate D; repeat split. Qed.

Lemma scan_decimal v : u_ok 64 v = true -> scan_number (to_decimal v) = Some (false, v).
Proof.
  intros U. destruct (to_decimal_spec v U) as (D & V & L). unfold scan_number. destruct (to_decimal v) as [|d ds] eqn:E; [cbn in L; lia|].
  pose proof D as D'. cbn [forallb] in D'. apply andb_true_iff in D' as [D0 _]. destruct (digit_no_space d D0) as (S & M & P).
  cbn [drop_spaces]. rewrite S. cbn [split_sign]. rewrite M, P, (leading_digits_all _ D). now rewrite V.
Qed.

Lemma stoull_decimal v : u_ok 64 v = true -> stoull (to_decimal v) = Some v.
Proof.
  intros U. unfold stoull. rewrite (scan_decimal v U). unfold u_ok, u64_max in *. bool_prop.
  replace (v >? 2 ^ 64 - 1) with false; [reflexivity|]. symmetry. rewrite Z.gtb_ltb. apply Z.ltb_ge. lia.
Qed.
