(* ===== verification/Inspect.v ===== *)
(** * The inspection tool

    [tools/brf_inspect.cpp]: what it prints of a store directory and the code it
    exits with.  It reads the two files of the directory and changes nothing. *)
From S2P Require Import Prelude Errors Containers Identity Hash Bandwidth Time Authority Wire Policy Capacity Reservation Outcome SegTree Index Durable CodecBase Codec Store StoreContract Coordinator CoordRecords CoordPersist CoordAssess CoordLifecycle CoordCommit CoordOps CoordSample CoordSteps CoordJournal CoordReopen CoordCompaction CommandLine.

(** ** Names *)
Definition RecordKind_to_string (k : RecordKind) : bytes :=
  match k with
  | kFabricBoot => str "FABRIC_BOOT"
  | kCapacitySnapshot => str "CAPACITY_SNAPSHOT"
  | kPathSnapshot => str "PATH_SNAPSHOT"
  | kPolicyRecord => str "POLICY_RECORD"
  | kReservationCommit => str "RESERVATION_COMMIT"
  | kReservationAmend => str "RESERVATION_AMEND"
  | kReservationSeries => str "RESERVATION_SERIES"
  | kReservationState => str "RESERVATION_STATE"
  | kReservationApplicability => str "RESERVATION_APPLICABILITY"
  | kAttemptOutcome => str "ATTEMPT_OUTCOME"
  | kOvercommit => str "OVERCOMMIT"
  | kRetire => str "RETIRE"
  | kFence => str "FENCE"
  | kClaimantRegistration => str "CLAIMANT_REGISTRATION"
  end.

Definition Applicability_to_string (a : Applicability) : bytes :=
  match a with
  | ap_kCurrent => str "CURRENT"
  | ap_kRevalidationRequired => str "REVALIDATION_REQUIRED"
  | ap_kStale => str "STALE"
  end.

(** ** The loop over the records *)
Record Counts := mkCounts {
  by_kind : omap bytes Z;
  counted_records : Z;
  counted_bytes : Z }.

Record Inspection := mkInspection {
  counts : Counts;
  decoded : list DurableRecord;
  problems : Z;
  report_lines : list Line }.

Definition usage_lines : list Line :=
  [printed (str "brf-inspect --store <dir> [--records] [--reservations] [--max <n>]");
   printed (str "  Verifies durable integrity (snapshot seal, record checksums, sequence");
   printed (str "  monotonicity) and prints a bounded summary of the durable state.")].

Definition count_record (r : JournalRecord) (c : Counts) : Counts :=
  let kind := RecordKind_to_string (jr_kind r) in
  mkCounts (om_set (by_kind c) kind (default 0 (om_find (by_kind c) kind) + 1))
    (counted_records c + 1) (counted_bytes c + size (payload r)).

Definition inspect_record (print_records : bool) (limit : Z) (s : Inspection) (r : JournalRecord) : Inspection :=
  match decode_record (payload r) (jr_kind r) with
  | Err e =>
      mkInspection (counts s) (decoded s) (problems s + 1)
        (report_lines s ++ [complaint (str "RECORD " ++ to_decimal (value (jr_sequence r)) ++ str " INVALID ") e])
  | Ok durable =>
      let decoded := decoded s ++ [durable] in
      mkInspection (count_record r (counts s)) decoded (problems s)
        (report_lines s ++
         if print_records && (Z.of_nat (length decoded) <=? limit) then
           [printed (str "RECORD sequence=" ++ to_decimal (value (jr_sequence r)) ++ str " kind=" ++
                     RecordKind_to_string (jr_kind r))]
         else [])
  end.

(** ** The reservations *)
Definition reservation_of (d : DurableRecord) : option ReservationRecord :=
  match d with
  | DReservationCommit m | DReservationAmend m => Some (rm_record m)
  | _ => None
  end.

Definition reservation_line (r : ReservationRecord) : Line :=
  printed (str "RESERVATION sequence=" ++ counter_to_string (rr_sequence r) ++ str " id=" ++ to_hex (rr_id r) ++
    str " generation=" ++ counter_to_string (rr_generation r) ++ str " state=" ++
    ReservationState_to_string (rr_state r) ++ str " applicability=" ++ Applicability_to_string (rr_applicability r) ++
    str " amount=" ++ print_signed (bps (amount (terms r)))).

(** [shown] reservations have been printed. *)
Fixpoint reservation_lines (limit shown : Z) (ds : list DurableRecord) : list Line :=
  match ds with
  | [] => []
  | d :: ds =>
      match reservation_of d with
      | None => reservation_lines limit shown ds
      | Some r =>
          if shown >=? limit then [printed (str "RESERVATIONS truncated at " ++ to_decimal limit)]
          else reservation_line r :: reservation_lines limit (shown + 1) ds
      end
  end.

(** ** [main] *)
Definition snapshot_line (snapshot : option bytes) : Line * Z :=
  match read_snapshot snapshot with
  | Ok (payload, sequence) =>
      (printed (str "SNAPSHOT ok sequence=" ++ to_decimal sequence ++ str " bytes=" ++ to_decimal (size payload)), 0)
  | Err e =>
      if beq e kNotFound then (printed (str "SNAPSHOT absent"), 0)
      else (complaint (str "SNAPSHOT INVALID ") e, 1)
  end.

Definition kind_lines (c : Counts) : list Line :=
  map (fun p => printed (str "KIND " ++ p.1 ++ str " " ++ to_decimal p.2)) (by_kind c).

(** The files found under the directory of [--store]; [args] is [argv] without
    the name of the program. *)
Definition inspect (args : list bytes) (d : Disk) : list Line * Ending :=
  if (match args with [] => true | _ => false end) || has_flag args (str "--help") then
    (usage_lines, exits (match args with [] => 1 | _ => 0 end))
  else
    let directory := argument_value args (str "--store") [] in
    if beq directory [] then (usage_lines, exits 1)
    else
      match stoull (argument_value args (str "--max") (str "32")) with
      | None => ([], throws)
      | Some limit =>
          let '(first, problems0) := snapshot_line (dk_snapshot d) in
          match read_journal (dk_journal d) (4 * 1024 * 1024) with
          | Err e => ([first; complaint (str "JOURNAL INVALID ") e], exits 2)
          | Ok (records, report) =>
              let second := printed (str "JOURNAL ok records=" ++ to_decimal (Z.of_nat (length records)) ++
                str " last_sequence=" ++ to_decimal (rp_last_sequence report) ++ str " torn_tail=" ++
                print_flag (torn_tail_truncated report) ++ str " truncated_bytes=" ++
                to_decimal (truncated_bytes report)) in
              let s := fold_left (inspect_record (has_flag args (str "--records")) limit) records
                         (mkInspection (mkCounts [] 0 0) [] problems0 [first; second]) in
              (report_lines s ++ kind_lines (counts s) ++
               (if has_flag args (str "--reservations") then reservation_lines limit 0 (decoded s) else []) ++
               [printed (str "SUMMARY records=" ++ to_decimal (counted_records (counts s)) ++ str " payload_bytes=" ++
                  to_decimal (counted_bytes (counts s)) ++ str " problems=" ++ to_decimal (problems s))],
               exits (if problems s =? 0 then 0 else 2))
          end
      end.

(** ** What the verdict means *)

(** The record can be decoded: it is the encoding of a durable record of its
    kind within the bounds of the codec. *)
Definition legible (j : JournalRecord) : Prop :=
  exists r, payload j = encode_record r /\ jr_kind j = record_kind r /\ wf_DurableRecord r = true.

Record files_in_order (d : Disk) : Prop := {
  fo_snapshot : dk_snapshot d = None \/ exists reserved sequence p,
    length reserved = 2%nat /\ u_ok 64 sequence = true /\ dk_snapshot d = Some (snapshot_bytes reserved sequence p) /\
    size (snapshot_bytes reserved sequence p) <= kMaxSnapshotFile;
  fo_journal : exists js tail,
    dk_journal d = Some (journal_file js ++ tail) /\ journal_ok (4 * 1024 * 1024) None 0 js = true /\
    tail_ok (4 * 1024 * 1024) tail /\ size (journal_file js ++ tail) <= kMaxJournalFile /\ Forall legible js }.

Lemma legible_decodes j : legible j <-> has_value (decode_record (payload j) (jr_kind j)) = true.
Proof.
  split.
  - intros (r & P & K & W). rewrite P, K, decode_record_enc by exact W. reflexivity.
  - destruct (decode_record _ _) as [r|] eqn:D; [|discriminate]. intros _. apply decode_record_inv in D as (P & K & W). now exists r.
Qed.

Lemma read_snapshot_present file e : read_snapshot (Some file) = Err e -> e <> kNotFound.
Proof.
  unfold read_snapshot, read_all. intros H ->. destruct (_ >? _); [discriminate|]. cbn [refuse rbind] in H.
  assert (forall A (b : bool) x (m : Result A), x <> kNotFound -> (refuse_if b with x in m) = Err kNotFound -> m = Err kNotFound) as Skip.
  { intros A b x m Nx. unfold refuse. destruct b; cbn [rbind]; [intros [= E]; contradiction | auto]. }
  repeat (apply Skip in H; [|discriminate]). discriminate.
Qed.

(** The snapshot is no problem exactly when it is missing or sealed. *)
Lemma snapshot_line_spec d : 0 <= (snapshot_line (dk_snapshot d)).2 /\
  ((snapshot_line (dk_snapshot d)).2 = 0 <-> dk_snapshot d = None \/ exists reserved sequence p,
    length reserved = 2%nat /\ u_ok 64 sequence = true /\ dk_snapshot d = Some (snapshot_bytes reserved sequence p) /\
    size (snapshot_bytes reserved sequence p) <= kMaxSnapshotFile).
Proof.
  unfold snapshot_line. destruct (dk_snapshot d) as [file|]; [|split; [vm_compute; discriminate | split; [now left | intros _; vm_compute; reflexivity]]].
  destruct (read_snapshot (Some file)) as [[p sequence]|e] eqn:R.
  - split; [easy|]. split; [intros _; right | reflexivity].
    destruct (read_snapshot_inv _ _ _ R) as (reserved & L & U & -> & B). now exists reserved, sequence, p.
  - pose proof (read_snapshot_present _ _ R) as N. destruct (beq e kNotFound) eqn:E; [apply beq_true in E; contradiction|].
    split; [easy|]. split; [discriminate|]. intros [X|(reserved & sequence & p & L & U & X & B)]; [discriminate|]. injection X as ->.
    rewrite size_snapshot_bytes in B by exact L.
    rewrite read_snapshot_bytes in R; try assumption; try discriminate; try lia. unfold u_ok, kMaxSnapshotFile in *. bool_goal; lia.
Qed.

Lemma inspect_records_spec print limit js : forall s, 0 <= problems s ->
  let s' := fold_left (inspect_record print limit) js s in
  0 <= problems s' /\ (problems s' = 0 <-> problems s = 0 /\ Forall legible js).
Proof.
  induction js as [|j js IH]; intros s P; cbn [fold_left]; [split; [exact P | now split]|].
  destruct (decode_record (payload j) (jr_kind j)) as [r|e] eqn:D; unfold inspect_record at 2 4; rewrite D;
    (match goal with |- context [fold_left _ js ?s1] => destruct (IH s1) as [P' I]; [cbn; lia|] end); split; try exact P'; rewrite I; cbn [problems].
  - split; intros [Z F]; (split; [exact Z|]); [constructor; [apply legible_decodes; now rewrite D | exact F] | now inversion F].
  - split; [intros [Z _]; lia|]. intros [_ F]. inversion F as [|? ? Lj _]. apply legible_decodes in Lj. rewrite D in Lj. discriminate.
Qed.

Lemma read_journal_present js tail : journal_ok (4 * 1024 * 1024) None 0 js = true -> tail_ok (4 * 1024 * 1024) tail ->
  size (journal_file js ++ tail) <= kMaxJournalFile ->
  read_journal (Some (journal_file js ++ tail)) (4 * 1024 * 1024) =
    Ok (js, scan_report (Z.of_nat (length js)) (last_of None js) tail).
Proof. intros J T B. apply read_journal_file_ok; try assumption. reflexivity. Qed.

Lemma inspect_spec args d limit :
  args <> [] -> has_flag args (str "--help") = false -> argument_value args (str "--store") [] <> [] ->
  stoull (argument_value args (str "--max") (str "32")) = Some limit ->
  ((inspect args d).2 = exits 0 \/ (inspect args d).2 = exits 2) /\
  ((inspect args d).2 = exits 0 <-> files_in_order d).
Proof.
  intros N H S M. destruct args as [|a args]; [contradiction|]. unfold inspect. rewrite H, M. cbn [orb].
  destruct (beq _ []) eqn:E; [apply beq_true in E; contradiction|]. destruct (snapshot_line_spec d) as [P0 S0].
  destruct (snapshot_line (dk_snapshot d)) as [first problems0]. cbn [snd] in P0, S0.
  destruct (read_journal (dk_journal d) (4 * 1024 * 1024)) as [[js report]|e] eqn:R.
  - cbv zeta. match goal with |- context [fold_left ?f js ?s] => set (s0 := s); set (g := f) end.
    destruct (inspect_records_spec (has_flag (a :: args) (str "--records")) limit js s0 P0) as [P I]. fold g in P, I. cbn [snd].
    destruct (Z.eqb_spec (problems (fold_left g js s0)) 0) as [Z|Z].
    + split; [now left|]. split; [intros _ | reflexivity]. apply I in Z as [Z F]. apply S0 in Z. split; [exact Z|].
      destruct (dk_journal d) as [file|] eqn:J; [|discriminate].
      apply read_journal_inv in R as (B & tail & -> & T & O & _). now exists js, tail.
    + split; [now right|]. split; [discriminate|]. intros [Sn (js' & tail & J & O & T & B & F)]. exfalso. apply Z, I.
      rewrite J, (read_journal_present js' tail O T B) in R. injection R as -> _. split; [now apply S0 | exact F].
  - split; [now right|]. split; [discriminate|]. intros [_ (js & tail & J & O & T & B & _)].
    rewrite J, (read_journal_present js tail O T B) in R. discriminate.
Qed.

(** C30. The verdict of an inspection.  Called with a directory and a readable
    bound, and not for help, the tool exits with 0 or 2, and with 0 exactly when
    the files are in order: there is no snapshot or a sealed one, the journal is
    a sequence of checksummed records in ascending sequence with at most a torn
    tail behind it, and every record decodes. *)
Theorem inspection_verdict args d limit :
  args <> [] -> has_flag args (str "--help") = false -> argument_value args (str "--store") [] <> [] ->
  stoull (argument_value args (str "--max") (str "32")) = Some limit ->
  ((inspect args d).2 = exits 0 \/ (inspect args d).2 = exits 2) /\
  ((inspect args d).2 = exits 0 <-> files_in_order d).
Proof. apply inspect_spec. Qed.

(** The sample fabric is in order. *)
Lemma inspection_verdict_witness :
  let args := [str "--store"; str "fabric"; str "--records"; str "--reservations"; str "--max"; str " 5"] in
  let d := disk (env Sample.committed) in
  length (inspect args d).1 = 12%nat /\ files_in_order d.
Proof.
  intros args d. split; [vm_compute; reflexivity|].
  apply (inspection_verdict args d 5); [discriminate | vm_compute; reflexivity | vm_compute; discriminate | vm_compute; reflexivity..].
Defined.

(** The inspection does not look inside the snapshot.  When a state that
    outgrew the bound on collections has been compacted, the files are in order
    and the tool, asked to verify the directory, exits with 0 and no problems,
    while the fabric cannot be opened on it. *)
Theorem inspection_misses_lockout c js :
  store_ok (store (env c)) (disk (env c)) js -> io (env c) = io_ok -> options_ (store (env c)) = default_options ->
  let s := snapshot_state_locked c in
  countable s = true -> size (encode_SnapshotState s) + 40 <= kMaxSnapshotFile -> all_short s = false ->
  exists c', compact_locked c = (Ok tt, c') /\
    (inspect [str "--store"; str "fabric"] (disk (env c'))).2 = exits 0 /\
    forall cfg k i fresh boot, max_live_reservations cfg <> 0 -> max_attempts cfg <> 0 ->
      (open_coordinator cfg k (disk (env c')) open_io_ok i fresh boot).1 = Err kCorrupt.
Proof.
  intros OK IO OP s C F S. destruct (compact_files c js OK IO OP F) as (c' & floor & E & D). exists c'. split; [exact E|]. split.
  - apply (inspect_spec _ _ 32); [discriminate | reflexivity | discriminate | vm_compute; reflexivity|].
    destruct D as [_ _ J _ _ B _ (loaded & L)]. split.
    + right. unfold load_snapshot in L. destruct (read_snapshot (dk_snapshot (disk (env c')))) as [[p q]|e] eqn:R.
      * destruct (dk_snapshot (disk (env c'))) as [file|]; [|discriminate]. apply read_snapshot_inv in R as (reserved & Lr & U & -> & Bs).
        now exists reserved, q, p.
      * destruct (bool_decide (e = kNotFound)); [|discriminate]. injection L as L. apply (f_equal (@length _)) in L. discriminate.
    + exists [], []. split; [exact J | split; [reflexivity | split; [now left | split; [exact B | constructor]]]].
  - intros cfg k i fresh boot Nl Na. destruct (snapshot_opens s _ _ _ fresh C D) as (_ & _ & _ & _ & Bad). now apply Bad.
Qed.

Lemma inspection_misses_lockout_witness :
  let c := crowded (Z.to_nat 65537) in
  exists c', compact_locked c = (Ok tt, c') /\
    (inspect [str "--store"; str "fabric"] (disk (env c'))).2 = exits 0 /\
    forall cfg k i fresh boot, max_live_reservations cfg <> 0 -> max_attempts cfg <> 0 ->
      (open_coordinator cfg k (disk (env c')) open_io_ok i fresh boot).1 = Err kCorrupt.
Proof.
  intros c. destruct (crowded_ok (Z.to_nat 65537)) as (C & F & S); [lia|].
  replace (Z.of_nat (Z.to_nat 65537) <=? 65536) with false in S by (symmetry; apply Z.leb_gt; lia). fold c in C, F, S.
  apply (inspection_misses_lockout c (journal_of Sample.opened)); [subst c; rewrite crowded_env; apply opened_on_disk..| exact C | exact F | exact S].
Defined.
