(* ===== verification/Server.v ===== *)
(** * The session of a client

    [Session] of [tools/brf_coordinator.cpp] over one connection: take a frame off
    the stream, decode the request in it, run it, write the answer.  The text of
    an error is not modelled: [describe] is the text that comes with the error a
    frame runs into in a state. *)
From S2P Require Import Prelude Errors Containers Identity Hash Bandwidth Time Authority Wire Policy Capacity Reservation Outcome SegTree Index Durable CodecBase Codec CodecReports Store Coordinator CoordRecords CoordPersist CoordAssess CoordLifecycle CoordCommit CoordOps CoordQuery CoordSample CoordSteps CoordJournal CoordGate Protocol.

Definition default_hold : HoldRecord :=
  mkHoldRecord nil_id (mkCounter 0) nil_id (mkCounter 0) nil_id nil_id (mkCounter 0) kResources []
    empty_name (mkCounter 0) (mkInterval ts0 ts0) bw0 kGuaranteed ts0 ts0 false ts0 [].

(** ** Answers *)

(** A message type and a payload, as handed to [write_frame]. *)
Definition Reply : Type := MessageType * bytes.

Definition status_of (outcome : AdmissionOutcome) (message : bytes) : StatusResponse :=
  mkStatusResponse outcome message nil_id (mkCounter 0) (mkCounter 0).

Definition send_error (code : ErrorCode) (outcome : AdmissionOutcome) (message : bytes) : Reply :=
  (mt_kError, encode_ErrorResponse (mkErrorResponse code outcome message)).

Definition send_status (message : bytes) : Reply :=
  (mt_kOk, encode_StatusResponse (status_of ao_kCommittable message)).

Definition commit_response (r : CommitResult) : Reply :=
  (mt_kOk, encode_CommitResponse
     (mkCommitResponse (ar_outcome (cr_report r)) (explanation (cr_report r)) r)).

Definition amendment_response (r : AmendmentResult) : Reply :=
  (mt_kOk, encode_AmendmentResponse
     (mkAmendmentResponse (ar_outcome (am_report r)) (explanation (am_report r)) r)).

Definition lifecycle_response (message : bytes) (r : LifecycleResult) : Reply :=
  (mt_kOk, encode_LifecycleResponse (mkLifecycleResponse ao_kCommittable message r)).

(** [release], [revoke] and [recall] answer with the reason of the record. *)
Definition moved_response (r : LifecycleResult) : Reply :=
  lifecycle_response (state_reason (lr_record r)) r.

Definition hold_response (message : bytes) (h : HoldRecord) : Reply :=
  (mt_kOk, encode_HoldResponse (mkHoldResponse ao_kCommittable message h)).

Definition stats_response (c : Coordinator) : Reply :=
  (mt_kOk, encode_StatsResponse (mkStatsResponse ao_kCommittable (coordinator_stats c) (recovery (env c)))).

Section server.
Context (describe : Frame -> Coordinator -> bytes).

(** ** Dispatch *)

(** The answer to an operation of the coordinator. *)
Definition answer {A} (f : Frame) (m : co A) (respond : A -> Reply) (c : Coordinator) : Reply * Coordinator :=
  match m c with
  | (Ok a, c') => (respond a, c')
  | (Err e, c') => (send_error e ao_kInvalidRequest (describe f c), c')
  end.

(** An error of a query is part of its answer. *)
Definition answer_query {A} (f : Frame) (m : co A) (found : A -> Reply) (missing : bytes -> Reply)
    (c : Coordinator) : Reply * Coordinator :=
  match m c with
  | (Ok a, c') => (found a, c')
  | (Err e, c') => (missing (describe f c), c')
  end.

(** Decode the request in the frame; what follows it in the payload is not
    looked at. *)
Definition on_request {A} (f : Frame) (dec : rd A) (serve : A -> Coordinator -> Reply * Coordinator)
    (c : Coordinator) : Reply * Coordinator :=
  match dec (fr_payload f) with
  | Err e => (send_error e ao_kInvalidRequest (describe f c), c)
  | Ok (request, _) => serve request c
  end.

Definition list_response (outcome : AdmissionOutcome) (message : bytes) (l : list ReservationRecord) : Reply :=
  (mt_kOk, encode_ReservationListResponse (mkReservationListResponse outcome message l false)).

(** One definition per message type. *)
Definition on_hello (f : Frame) : Coordinator -> Reply * Coordinator :=
  on_request f decode_HelloRequest (fun _ c =>
    let i := incarnation (env c) in
    ((mt_kHelloAck, encode_HelloResponse
        (mkHelloResponse kWireProtocolVersion (ci_epoch i) (ci_boot i) (ci_store i) kMaxFrameBytes true)), c)).

Definition on_ingest_capacity (f : Frame) : Coordinator -> Reply * Coordinator :=
  on_request f decode_CapacityIngestRequest (fun q =>
    answer f (ingest_capacity_locked (cir_snapshot q) (cir_withdrawals q) (cir_context q))
      (fun _ => send_status (str "capacity ingested"))).

Definition on_ingest_paths (f : Frame) : Coordinator -> Reply * Coordinator :=
  on_request f decode_PathIngestRequest (fun q =>
    answer f (ingest_paths_locked (pir_snapshot q) (pir_context q))
      (fun _ => send_status (str "path authority ingested"))).

Definition on_ingest_policy (f : Frame) : Coordinator -> Reply * Coordinator :=
  on_request f decode_PolicyIngestRequest (fun q =>
    answer f (ingest_policy_locked (por_record q) (por_context q))
      (fun _ => send_status (str "policy ingested"))).

Definition on_register_claimant (f : Frame) : Coordinator -> Reply * Coordinator :=
  on_request f decode_ClaimantRegistrationRequest (fun q =>
    answer f (register_claimant_locked (crr_claimant q) (crr_generation q) (crr_context q))
      (fun _ => send_status (str "claimant registered"))).

Definition on_fence (f : Frame) : Coordinator -> Reply * Coordinator :=
  on_request f decode_FenceRequest (fun q =>
    answer f (fence_locked (fr_context q) (fr_claimant q) (fr_claimant_generation q) (fr_boot q)
                (fr_session q) (fr_claimant_wide q))
      (fun _ => send_status (str "fence recorded"))).

Definition on_commit (f : Frame) : Coordinator -> Reply * Coordinator :=
  on_request f decode_ReservationCreateRequest (fun q =>
    answer f (create_locked (rcr_context q) (rcr_terms q) (rcr_requested_id q)
                (beq (fr_type f) mt_kValidate || rcr_dry_run q) (consume_holds q))
      commit_response).

Definition on_amend (f : Frame) : Coordinator -> Reply * Coordinator :=
  on_request f decode_AmendmentRequest (fun q =>
    answer f (amend_locked (amr_context q) (amr_target q) (amr_target_generation q) (amr_terms q)
                (amr_dry_run q))
      amendment_response).

Definition on_release (f : Frame) : Coordinator -> Reply * Coordinator :=
  on_request f decode_ReservationRefRequest (fun q =>
    answer f (release_locked (rrr_context q) (rrr_id q) (rrr_generation q)) moved_response).

Definition on_revoke (f : Frame) : Coordinator -> Reply * Coordinator :=
  on_request f decode_ReservationRefRequest (fun q =>
    answer f (revoke_locked (rrr_context q) (rrr_id q) (rrr_generation q)) moved_response).

Definition on_recall (f : Frame) : Coordinator -> Reply * Coordinator :=
  on_request f decode_RecallRequest (fun q =>
    answer f (recall_locked (rlr_context q) (rlr_id q) (rlr_generation q) (rlr_effective_at q)
                (rlr_grace q) (rlr_force q)) moved_response).

Definition on_revalidate (f : Frame) : Coordinator -> Reply * Coordinator :=
  on_request f decode_RevalidateRequest (fun q =>
    answer f (revalidate_locked (rvr_context q) (rvr_id q) (rvr_generation q) (rvr_mark_stale q))
      (lifecycle_response (str "revalidated"))).

Definition on_reconcile_attempt (f : Frame) : Coordinator -> Reply * Coordinator :=
  on_request f decode_AttemptRequest (fun q =>
    answer f (reconcile_attempt_locked (atr_context q) (atr_attempt q)) (fun r =>
      (mt_kOk, encode_ReconciliationResponse
         (mkReconciliationResponse (if committed r then ao_kCommittable else ao_kInvalidRequest) r)))).

Definition on_reconcile_lifecycle (f : Frame) : Coordinator -> Reply * Coordinator :=
  on_request f decode_LifecycleReconcileRequest (fun q =>
    answer f (reconcile_lifecycle_locked (lrr_context q)) (lifecycle_response (str "lifecycle reconciled"))).

Definition on_get_reservation (f : Frame) : Coordinator -> Reply * Coordinator :=
  on_request f decode_ReservationRefRequest (fun q =>
    answer_query f (get_reservation (rrr_id q) (rrr_generation q))
      (fun r => (mt_kOk, encode_ReservationResponse
                   (mkReservationResponse ao_kCommittable (state_reason r) true r)))
      (fun text => (mt_kOk, encode_ReservationResponse
                      (mkReservationResponse ao_kInvalidRequest text false default_record)))).

Definition on_query_claimant (f : Frame) : Coordinator -> Reply * Coordinator :=
  on_request f decode_ClaimantQueryRequest (fun q =>
    answer_query f (query_claimant (cqr_claimant q) (cqr_include_terminal q))
      (list_response ao_kCommittable []) (fun text => list_response ao_kInvalidRequest text [])).

Definition on_query_resource (f : Frame) : Coordinator -> Reply * Coordinator :=
  on_request f decode_QueryRequest (fun q =>
    answer_query f (query_resource (qr_resource q) (qr_window q) (qr_include_terminal q))
      (list_response ao_kCommittable []) (fun text => list_response ao_kInvalidRequest text [])).

Definition on_query_remaining (f : Frame) : Coordinator -> Reply * Coordinator :=
  on_request f decode_QueryRequest (fun q =>
    answer_query f (query_remaining (qr_resource q) (qr_window q))
      (fun l => (mt_kOk, encode_RemainingResponse (mkRemainingResponse ao_kCommittable [] l)))
      (fun text => (mt_kOk, encode_RemainingResponse (mkRemainingResponse ao_kInvalidRequest text [])))).

Definition on_explain_conflicts (f : Frame) : Coordinator -> Reply * Coordinator :=
  on_request f decode_ReservationCreateRequest (fun q =>
    answer f (explain_conflicts (rcr_terms q) (rcr_requested_id q)) (fun r =>
      (mt_kOk, encode_ReportResponse (mkReportResponse (ar_outcome r) r)))).

Definition on_timeline (f : Frame) : Coordinator -> Reply * Coordinator :=
  on_request f decode_QueryRequest (fun q =>
    answer f (query_timeline (qr_resource q) (qr_window q) 64) (fun t =>
      (mt_kOk, encode_TimelineResponse (mkTimelineResponse ao_kCommittable t)))).

Definition on_lineage (f : Frame) : Coordinator -> Reply * Coordinator :=
  on_request f decode_LineageRequest (fun q =>
    answer f (fun c => (query_lineage c (lnr_id q) (lnr_generation q), c)) (fun v =>
      (mt_kOk, encode_LineageResponse (mkLineageResponse ao_kCommittable v)))).

Definition on_overcommit_report (f : Frame) : Coordinator -> Reply * Coordinator :=
  fun c =>
    ((mt_kOk, encode_OvercommitResponse (mkOvercommitResponse ao_kCommittable (overcommit_report c))), c).

Definition on_stats (f : Frame) : Coordinator -> Reply * Coordinator :=
  fun c => (stats_response c, c).

Definition on_hold_acquire (f : Frame) : Coordinator -> Reply * Coordinator :=
  on_request f decode_HoldAcquireRequest (fun q =>
    answer f (acquire_hold (har_context q) (har_terms q) (har_expires_at q))
      (hold_response (str "hold acquired"))).

Definition on_hold_release (f : Frame) : Coordinator -> Reply * Coordinator :=
  on_request f decode_HoldReleaseRequest (fun q =>
    answer f (release_hold (hrr_context q) (hrr_id q) (hrr_generation q))
      (hold_response (str "hold released"))).

Definition on_hold_query (f : Frame) : Coordinator -> Reply * Coordinator :=
  fun c => (hold_response (str "holds") default_hold, c).

Definition on_session_release (f : Frame) : Coordinator -> Reply * Coordinator :=
  on_request f decode_LifecycleReconcileRequest (fun q =>
    answer f (release_session (lrr_context q)) (fun _ => send_status (str "session released"))).

Definition on_unsupported (f : Frame) : Coordinator -> Reply * Coordinator :=
  fun c =>
    (send_error kUnsupported ao_kUnsupported
       (str "unsupported message type: " ++ MessageType_to_string (fr_type f)), c).

Definition dispatch (f : Frame) : Coordinator -> Reply * Coordinator :=
  match fr_type f with
  | mt_kHello => on_hello f
  | mt_kIngestCapacity => on_ingest_capacity f
  | mt_kIngestPathAuthority => on_ingest_paths f
  | mt_kIngestPolicy => on_ingest_policy f
  | mt_kRegisterClaimant => on_register_claimant f
  | mt_kFence => on_fence f
  | mt_kValidate | mt_kCommit => on_commit f
  | mt_kAmend => on_amend f
  | mt_kRelease => on_release f
  | mt_kRevoke => on_revoke f
  | mt_kRecall => on_recall f
  | mt_kRevalidate => on_revalidate f
  | mt_kReconcileAttempt => on_reconcile_attempt f
  | mt_kReconcileLifecycle => on_reconcile_lifecycle f
  | mt_kGetReservation => on_get_reservation f
  | mt_kQueryClaimant => on_query_claimant f
  | mt_kQueryResource | mt_kQueryCommitted => on_query_resource f
  | mt_kQueryRemaining => on_query_remaining f
  | mt_kExplainConflicts => on_explain_conflicts f
  | mt_kTimeline => on_timeline f
  | mt_kLineage => on_lineage f
  | mt_kOvercommitReport => on_overcommit_report f
  | mt_kStats | mt_kDurableReplay => on_stats f
  | mt_kHoldAcquire => on_hold_acquire f
  | mt_kHoldRelease => on_hold_release f
  | mt_kHoldQuery => on_hold_query f
  | mt_kSessionRelease => on_session_release f
  | mt_kHelloAck | mt_kShutdown | mt_kOk | mt_kError | mt_unnamed _ => on_unsupported f
  end.

(** ** The session *)

(** What a session leaves: the bytes it wrote, the coordinator, and whether a
    shutdown was asked for. *)
Record Served := mkServed {
  sent : bytes;
  after : Coordinator;
  shutdown_requested : bool }.

(** [Session::serve] on everything the peer sends before it closes; the session
    ends at the first frame that is none, at a shutdown, or when an answer does
    not fit a frame.  Each round takes sixteen bytes at least. *)
Fixpoint serve (fuel : nat) (stream out : bytes) (c : Coordinator) : Served :=
  match fuel with
  | O => mkServed out c false
  | S fuel =>
      match read_frame kMaxFrameBytes stream with
      | Err _ => mkServed out c false
      | Ok (f, stream) =>
          if beq (fr_type f) mt_kShutdown then
            let '(t, p) := send_status (str "shutdown accepted") in
            mkServed (match write_frame t p with Ok b => out ++ b | Err _ => out end) c true
          else
            let '((t, p), c) := dispatch f c in
            match write_frame t p with
            | Err _ => mkServed out c false
            | Ok b => serve fuel stream (out ++ b) c
            end
      end
  end.

Definition serve_session (stream : bytes) (c : Coordinator) : Served := serve (S (length stream)) stream [] c.

(** ** What a session does

    The request a frame asks of the coordinator, if it can be decoded and is one. *)
Definition asked {A} (f : Frame) (dec : rd A) (ask : A -> Request) : option Request :=
  match dec (fr_payload f) with Ok (q, _) => Some (ask q) | Err _ => None end.

Definition request_of (f : Frame) : option Request :=
  match fr_type f with
  | mt_kIngestCapacity => asked f decode_CapacityIngestRequest (fun q =>
      QIngestCapacity (cir_snapshot q) (cir_withdrawals q) (cir_context q))
  | mt_kIngestPathAuthority => asked f decode_PathIngestRequest (fun q =>
      QIngestPaths (pir_snapshot q) (pir_context q))
  | mt_kIngestPolicy => asked f decode_PolicyIngestRequest (fun q => QIngestPolicy (por_record q) (por_context q))
  | mt_kRegisterClaimant => asked f decode_ClaimantRegistrationRequest (fun q =>
      QRegisterClaimant (crr_claimant q) (crr_generation q) (crr_context q))
  | mt_kFence => asked f decode_FenceRequest (fun q =>
      QFence (fr_context q) (fr_claimant q) (fr_claimant_generation q) (fr_boot q) (fr_session q) (fr_claimant_wide q))
  | mt_kValidate => asked f decode_ReservationCreateRequest (fun q =>
      QCreate (rcr_context q) (rcr_terms q) (rcr_requested_id q) true (consume_holds q))
  | mt_kCommit => asked f decode_ReservationCreateRequest (fun q =>
      QCreate (rcr_context q) (rcr_terms q) (rcr_requested_id q) (rcr_dry_run q) (consume_holds q))
  | mt_kAmend => asked f decode_AmendmentRequest (fun q =>
      QAmend (amr_context q) (amr_target q) (amr_target_generation q) (amr_terms q) (amr_dry_run q))
  | mt_kRelease => asked f decode_ReservationRefRequest (fun q => QRelease (rrr_context q) (rrr_id q) (rrr_generation q))
  | mt_kRevoke => asked f decode_ReservationRefRequest (fun q => QRevoke (rrr_context q) (rrr_id q) (rrr_generation q))
  | mt_kRecall => asked f decode_RecallRequest (fun q =>
      QRecall (rlr_context q) (rlr_id q) (rlr_generation q) (rlr_effective_at q) (rlr_grace q) (rlr_force q))
  | mt_kRevalidate => asked f decode_RevalidateRequest (fun q =>
      QRevalidate (rvr_context q) (rvr_id q) (rvr_generation q) (rvr_mark_stale q))
  | mt_kReconcileAttempt => asked f decode_AttemptRequest (fun q => QReconcileAttempt (atr_context q) (atr_attempt q))
  | mt_kReconcileLifecycle => asked f decode_LifecycleReconcileRequest (fun q => QReconcileLifecycle (lrr_context q))
  | mt_kGetReservation => asked f decode_ReservationRefRequest (fun q => QGetReservation (rrr_id q) (rrr_generation q))
  | mt_kQueryClaimant => asked f decode_ClaimantQueryRequest (fun q =>
      QQueryClaimant (cqr_claimant q) (cqr_include_terminal q))
  | mt_kQueryResource | mt_kQueryCommitted => asked f decode_QueryRequest (fun q =>
      QQueryResource (qr_resource q) (qr_window q) (qr_include_terminal q))
  | mt_kQueryRemaining => asked f decode_QueryRequest (fun q => QQueryRemaining (qr_resource q) (qr_window q))
  | mt_kExplainConflicts => asked f decode_ReservationCreateRequest (fun q =>
      QExplainConflicts (rcr_terms q) (rcr_requested_id q))
  | mt_kTimeline => asked f decode_QueryRequest (fun q => QQueryTimeline (qr_resource q) (qr_window q) 64)
  | mt_kHoldAcquire => asked f decode_HoldAcquireRequest (fun q =>
      QAcquireHold (har_context q) (har_terms q) (har_expires_at q))
  | mt_kHoldRelease => asked f decode_HoldReleaseRequest (fun q =>
      QReleaseHold (hrr_context q) (hrr_id q) (hrr_generation q))
  | mt_kSessionRelease => asked f decode_LifecycleReconcileRequest (fun q => QReleaseSession (lrr_context q))
  | _ => None
  end.

Definition requests_of (fs : list Frame) : list Request := flat_map (fun f => option_list (request_of f)) fs.

Create HintDb server.
#[local] Hint Unfold on_hello on_ingest_capacity on_ingest_paths on_ingest_policy on_register_claimant on_fence on_commit on_amend on_release
  on_revoke on_recall on_revalidate on_reconcile_attempt on_reconcile_lifecycle on_get_reservation on_query_claimant on_query_resource on_query_remaining
  on_explain_conflicts on_timeline on_lineage on_overcommit_report on_stats on_hold_acquire on_hold_release on_hold_query on_session_release on_unsupported : server.

Lemma drop_state {A} (m : co A) c : (drop m c).2 = (m c).2.
Proof. unfold drop, bind. destruct (m c) as [[a|e] c']; reflexivity. Qed.

Lemma answer_state {A} f (m : co A) respond c : (answer f m respond c).2 = (m c).2.
Proof. unfold answer. destruct (m c) as [[a|e] c']; reflexivity. Qed.

Lemma answer_query_state {A} f (m : co A) found missing c : (answer_query f m found missing c).2 = (m c).2.
Proof. unfold answer_query. destruct (m c) as [[a|e] c']; reflexivity. Qed.

(** Serving a request is running it. *)
Lemma on_request_state {A} f (dec : rd A) serve_it ask c :
  (forall q c, (serve_it q c).2 = (handle (ask q) c).2) ->
  (on_request f dec serve_it c).2 = run (option_list (asked f dec ask)) c.
Proof. intros H. unfold on_request, asked. destruct (dec (fr_payload f)) as [[q s]|e]; [apply H | reflexivity]. Qed.

Lemma on_request_silent {A} f (dec : rd A) serve_it c :
  (forall q c, (serve_it q c).2 = c) -> (on_request f dec serve_it c).2 = c.
Proof. intros H. unfold on_request. destruct (dec (fr_payload f)) as [[q s]|e]; [apply H | reflexivity]. Qed.

Lemma dispatch_state f c : (dispatch f c).2 = run (option_list (request_of f)) c.
Proof.
  destruct f as [t p]. destruct t; unfold dispatch, request_of; cbn [fr_type]; autounfold with server; cbn [fr_type];
    first [reflexivity
          | apply on_request_silent; intros; rewrite ?answer_state; reflexivity
          | apply on_request_state; intros; cbn [handle];
            rewrite ?answer_state, ?answer_query_state, ?drop_state; reflexivity].
Qed.

(** ** Transcripts *)

Definition wire (r : Reply) : bytes := encode_frame r.1 r.2.
Definition frame_wire (f : Frame) : bytes := wire (fr_type f, fr_payload f).
Definition too_long (r : Reply) : bool := Z.of_nat (length r.2) >? kMaxFrameBytes.
Definition asks_shutdown (f : Frame) : bool := beq (fr_type f) mt_kShutdown.

(** The answers to a list of frames, each in the state the ones before left. *)
Fixpoint answers (fs : list Frame) (c : Coordinator) : list Reply :=
  match fs with
  | [] => []
  | f :: fs => let (r, c) := dispatch f c in r :: answers fs c
  end.

Lemma answers_snoc fs f c : answers (fs ++ [f]) c = answers fs c ++ [(dispatch f (run (requests_of fs) c)).1].
Proof.
  revert c. induction fs as [|g fs IH]; intros c; cbn [app answers].
  - cbn [requests_of flat_map run fold_left]. destruct (dispatch f c) as [r c']. reflexivity.
  - pose proof (dispatch_state g c) as S. destruct (dispatch g c) as [r c']. cbn [snd] in S. subst c'.
    rewrite IH. unfold requests_of, run. cbn [flat_map]. rewrite fold_left_app. reflexivity.
Qed.

Lemma write_frame_fits r : too_long r = false -> write_frame r.1 r.2 = Ok (wire r).
Proof. unfold too_long, write_frame. intros ->. reflexivity. Qed.

Lemma write_frame_long r : too_long r = true -> write_frame r.1 r.2 = Err kResourceExhausted.
Proof. unfold too_long, write_frame. intros ->. reflexivity. Qed.

Lemma read_frame_wire stream f rest :
  read_frame kMaxFrameBytes stream = Ok (f, rest) -> stream = frame_wire f ++ rest.
Proof. destruct f as [t p]. now intros (-> & _)%stream_frame_inv. Qed.

(** How a session over a stream ends, having answered [rs] to the frames [fs]:
    at bytes that are no frame, at a shutdown, or at an answer that is too long;
    until then no frame asks for a shutdown. *)
Definition serving (fs : list Frame) : Prop := Forall (fun f => asks_shutdown f = false) fs.

Inductive Ends (c : Coordinator) : list Frame -> bytes -> list Reply -> bool -> Prop :=
  | ends_at_no_frame fs rest e :
      serving fs -> read_frame kMaxFrameBytes rest = Err e -> Ends c fs rest (answers fs c) false
  | ends_at_shutdown fs f rest :
      serving fs -> asks_shutdown f = true ->
      Ends c (fs ++ [f]) rest (answers fs c ++ [send_status (str "shutdown accepted")]) true
  | ends_at_long_answer fs f rest :
      serving (fs ++ [f]) -> too_long (dispatch f (run (requests_of fs) c)).1 = true ->
      Ends c (fs ++ [f]) rest (answers fs c) false.

Lemma ends_after f c r c' fs rest rs b :
  asks_shutdown f = false -> dispatch f c = (r, c') -> Ends c' fs rest rs b -> Ends c (f :: fs) rest (r :: rs) b.
Proof.
  intros N D. pose proof (dispatch_state f c) as S. rewrite D in S. cbn [snd] in S.
  assert (forall fs, answers (f :: fs) c = r :: answers fs c') as A.
  { intros gs. cbn [answers]. now rewrite D. }
  destruct 1 as [fs rest e V H|fs g rest V H|fs g rest V H]; rewrite ?app_comm_cons, <- A.
  - apply (ends_at_no_frame c (f :: fs) rest e); [now constructor | exact H].
  - apply (ends_at_shutdown c (f :: fs)); [now constructor | exact H].
  - apply (ends_at_long_answer c (f :: fs)); [now constructor|].
    unfold requests_of. cbn [flat_map]. unfold run. rewrite fold_left_app.
    fold (run (option_list (request_of f)) c). rewrite <- S. exact H.
Qed.

Lemma serve_spec fuel : forall stream out c,
  (length stream < fuel)%nat ->
  let s := serve fuel stream out c in
  exists fs rest rs, stream = flat_map frame_wire fs ++ rest /\
    Ends c fs rest rs (shutdown_requested s) /\
    sent s = out ++ flat_map wire rs /\ after s = run (requests_of fs) c.
Proof.
  induction fuel as [|fuel IH]; intros stream out c L; [lia|]. cbn [serve].
  destruct (read_frame kMaxFrameBytes stream) as [[f rest]|e] eqn:R.
  2: { exists [], stream, []. split; [reflexivity|].
       split; [exact (ends_at_no_frame c [] stream e (List.Forall_nil _) R)|]. now rewrite app_nil_r. }
  pose proof (read_frame_shorter _ _ _ _ R) as Sh. apply read_frame_wire in R. subst stream.
  destruct (beq (fr_type f) mt_kShutdown) eqn:Sd.
  - exists [f], rest, [send_status (str "shutdown accepted")].
    split; [cbn [flat_map]; now rewrite app_nil_r|].
    split; [exact (ends_at_shutdown c [] f rest (List.Forall_nil _) Sd)|]. apply beq_true in Sd.
    split; [reflexivity|]. destruct f as [t p]. cbn [fr_type] in Sd. now subst t.
  - destruct (dispatch f c) as [r c'] eqn:D. pose proof (dispatch_state f c) as S. rewrite D in S. cbn [snd] in S.
    destruct (too_long r) eqn:T.
    + destruct r as [t p]. pose proof (write_frame_long (t, p) T) as W. cbn [fst snd] in W. rewrite W.
      exists [f], rest, []. split; [cbn [flat_map]; now rewrite app_nil_r|].
      split; [|split; [now rewrite app_nil_r | cbn; now rewrite app_nil_r]].
      apply (ends_at_long_answer c [] f rest); [repeat constructor; exact Sd|].
      cbn [requests_of flat_map run fold_left]. now rewrite D.
    + pose proof (write_frame_fits r T) as W. destruct r as [t p]. cbn [fst snd] in W. rewrite W.
      specialize (IH rest (out ++ wire (t, p)) c' ltac:(lia)).
      destruct IH as (fs & rest' & rs & -> & E & O & A).
      exists (f :: fs), rest', ((t, p) :: rs). split; [cbn [flat_map]; now rewrite app_assoc|].
      split; [exact (ends_after _ _ _ _ _ _ _ _ Sd D E)|]. rewrite O, A. cbn [flat_map].
      split; [now rewrite app_assoc|]. unfold requests_of. cbn [flat_map]. unfold run at 2.
      rewrite fold_left_app. fold (run (option_list (request_of f)) c). now rewrite <- S.
Qed.

(** C16. Whatever bytes a client sends, its session ends, and all it did is run
    requests: the stream is a sequence of whole frames and a remainder, the
    coordinator is left in the state after the requests of these frames in their
    order, and the bytes sent back are the encoded answers, one per frame and
    each computed in the state the requests before it left.  The session stops
    nowhere but at bytes that are no frame, behind the one shutdown request, or
    at an answer too long for a frame, whose request has then been run but is
    not answered. *)
Theorem session_is_a_run stream c :
  let s := serve_session stream c in
  exists fs rest rs, stream = flat_map frame_wire fs ++ rest /\
    Ends c fs rest rs (shutdown_requested s) /\
    sent s = flat_map wire rs /\ after s = run (requests_of fs) c.
Proof. apply (serve_spec (S (length stream)) stream [] c). lia. Qed.

End server.
