(* ===== verification/Process.v ===== *)
(** * The server process

    [main] of [tools/brf_coordinator.cpp]: the start, the accept loop, one worker
    per connection, the shutdown.  The workers run concurrently.  What a worker
    shares with others is the coordinator, whose operations take its mutex, so
    a round of a session (a frame read, run and answered) is one step. *)
From S2P Require Import Prelude Errors Containers Identity Hash Bandwidth Time Authority Wire Policy Capacity Reservation Outcome SegTree Index Durable CodecBase Codec CodecReports Store Coordinator CoordRecords CoordPersist CoordAssess CoordLifecycle CoordCommit CoordOps CoordQuery CoordSample CoordSteps CoordJournal CoordGate Protocol Server CommandLine.

(** ** Connections *)

(** What the peer sends before it closes and was not read yet, what was written
    to it, whether its worker is inside [serve], and whether the peer asked for
    the shutdown. *)
Record Client := mkClient {
  unread : bytes;
  written : bytes;
  attended : bool;
  wants_shutdown : bool }.

Definition leave (cl : Client) : Client := mkClient (unread cl) (written cl) false (wants_shutdown cl).

Section process.
Context (describe : Frame -> Coordinator -> bytes).

(** A round of the loop of [Session::serve]. *)
Definition turn (cl : Client) (c : Coordinator) : Client * Coordinator :=
  match read_frame kMaxFrameBytes (unread cl) with
  | Err _ => (leave cl, c)
  | Ok (f, rest) =>
      if beq (fr_type f) mt_kShutdown then
        let '(t, p) := send_status (str "shutdown accepted") in
        (mkClient rest (match write_frame t p with Ok b => written cl ++ b | Err _ => written cl end) false true, c)
      else
        let '((t, p), c) := dispatch describe f c in
        match write_frame t p with
        | Err _ => (mkClient rest (written cl) false (wants_shutdown cl), c)
        | Ok b => (mkClient rest (written cl ++ b) true (wants_shutdown cl), c)
        end
  end.

(** A round whose frame was read before the socket was closed under it: the
    answer cannot be written. *)
Definition cut_turn (cl : Client) (c : Coordinator) : Client * Coordinator :=
  match read_frame kMaxFrameBytes (unread cl) with
  | Err _ => (leave cl, c)
  | Ok (f, rest) =>
      (mkClient rest (written cl) false (wants_shutdown cl || beq (fr_type f) mt_kShutdown),
       if beq (fr_type f) mt_kShutdown then c else (dispatch describe f c).2)
  end.

Fixpoint turns (fuel : nat) (cl : Client) (c : Coordinator) : Client * Coordinator :=
  match fuel with
  | O => (cl, c)
  | S fuel => let (cl, c) := turn cl c in if attended cl then turns fuel cl c else (cl, c)
  end.

(** A session is its rounds. *)
Lemma serve_turns fuel : forall stream out c,
  let s := serve describe fuel stream out c in let (cl, c') := turns fuel (mkClient stream out true false) c in
  sent s = written cl /\ after s = c' /\ shutdown_requested s = wants_shutdown cl.
Proof.
  induction fuel as [|fuel IH]; intros stream out c; cbn [serve turns]; [now split|].
  unfold turn. cbn [unread written wants_shutdown].
  destruct (read_frame kMaxFrameBytes stream) as [[f rest]|e]; [|now split].
  destruct (beq (fr_type f) mt_kShutdown); [now split|]. destruct (dispatch describe f c) as [[t p] c1].
  destruct (write_frame t p) as [b|e]; cbn [attended]; [apply IH | now split].
Qed.

(** ** The process *)

(** Where [main] is: at the test of [stop], inside [accept], behind the loop with
    the sockets of the first [closed] sessions closed, or behind the joining of
    the workers. *)
Inductive Phase := checking | accepting | draining (closed : nat) | halted.

#[export] Instance Phase_eq_dec : EqDecision Phase.
Proof. solve_decision. Defined.

Record Process := mkProcess {
  fabric : Coordinator;
  clients : list Client;
  stop_flag : bool;
  phase : Phase }.

Definition at_phase (ph : Phase) (p : Process) : Process := mkProcess (fabric p) (clients p) (stop_flag p) ph.
Definition with_client (i : nat) (r : Client * Coordinator) (p : Process) : Process :=
  mkProcess r.2 (<[i := r.1]> (clients p)) (stop_flag p) (phase p).

(** The socket of session [i] has been closed by [main]. *)
Definition socket_closed (p : Process) (i : nat) : bool :=
  match phase p with draining k => (i <? k)%nat | halted => true | _ => false end.

Inductive Event :=
  | checked | accepted (stream : bytes) | accept_failed | served_round (i : nat) | cut (i : nat)
  | served_late (i : nat) | flagged (i : nat) | socket_shut | joined.

#[export] Instance Event_eq_dec : EqDecision Event.
Proof. solve_decision. Defined.

(** The accept loop tests [stop] at its top and [shutdown_requested] behind
    [accept]; a worker sets both when its session ended with a shutdown.  A
    session whose socket was closed finds that its next frame cannot be read, or
    that the answer to the frame it has read cannot be written. *)
Inductive step (p : Process) : Event -> Process -> Prop :=
  | step_check : phase p = checking ->
      step p checked (at_phase (if stop_flag p then draining 0 else accepting) p)
  | step_accept stream : phase p = accepting ->
      step p (accepted stream)
        (mkProcess (fabric p) (clients p ++ [mkClient stream [] true false]) (stop_flag p)
           (if stop_flag p then draining 0 else checking))
  | step_accept_failed : phase p = accepting -> step p accept_failed (at_phase (draining 0) p)
  | step_round i cl : clients p !! i = Some cl -> attended cl = true -> socket_closed p i = false ->
      step p (served_round i) (with_client i (turn cl (fabric p)) p)
  | step_cut i cl : clients p !! i = Some cl -> attended cl = true -> socket_closed p i = true ->
      step p (cut i) (with_client i (leave cl, fabric p) p)
  | step_late i cl : clients p !! i = Some cl -> attended cl = true -> socket_closed p i = true ->
      step p (served_late i) (with_client i (cut_turn cl (fabric p)) p)
  | step_flag i cl : clients p !! i = Some cl -> attended cl = false -> wants_shutdown cl = true ->
      step p (flagged i) (mkProcess (fabric p) (clients p) true (phase p))
  | step_shut k : phase p = draining k -> (k < length (clients p))%nat ->
      step p socket_shut (at_phase (draining (S k)) p)
  | step_join : phase p = draining (length (clients p)) ->
      forallb (fun cl => negb (attended cl)) (clients p) = true ->
      step p joined (mkProcess (begin_shutdown (fabric p)).2 (clients p) (stop_flag p) halted).

(** The frame an event handles, with its session. *)
Definition handled (p : Process) (e : Event) : list (nat * Frame) :=
  match e with
  | served_round i | served_late i =>
      match clients p !! i with
      | Some cl => match read_frame kMaxFrameBytes (unread cl) with Ok (f, _) => [(i, f)] | Err _ => [] end
      | None => []
      end
  | _ => []
  end.

(** An execution: its events and the frames handled in it, in their order. *)
Inductive exec (p : Process) : list Event -> list (nat * Frame) -> Process -> Prop :=
  | exec_nil : exec p [] [] p
  | exec_snoc es log e p1 p2 :
      exec p es log p1 -> step p1 e p2 -> exec p (es ++ [e]) (log ++ handled p1 e) p2.

Definition started (c : Coordinator) : Process := mkProcess c [] false checking.

(** ** The start

    What the process is given by its host: the clock, the directory of [--store],
    how the steps of opening and writing it turn out, the random identities, and
    the port a listener gets. *)
Record Host := mkHost {
  host_clock : Clock;
  host_directory : Disk;
  host_open : OpenIo;
  host_io : Io;
  fresh_store : bytes;
  fresh_boot : Identity128;
  bind_loopback : Z -> Result Z }.

(** Its output, the files it wrote, the directory, and whether it has ended or
    serves. *)
Record Launch := mkLaunch {
  said : list Line;
  files_written : list (bytes * bytes);
  left_directory : Disk;
  outcome_of : Ending + Process }.

Definition write_file (path text : bytes) : list (bytes * bytes) := if beq path [] then [] else [(path, text)].

Definition coordinator_usage : list Line :=
  [printed (str "brf-coordinator --store <dir> [--port <n>] [--port-file <path>] [--epoch-file <path>]");
   printed (str "  Serves the Bandwidth Reservation Fabric over loopback TCP.");
   printed (str "  Port 0 selects an ephemeral port, reported on stdout as LISTENING <port>.")].

Definition launch_lines (port : Z) (c : Coordinator) : list Line :=
  let i := incarnation (env c) in
  [printed (str "LISTENING " ++ to_decimal port); printed (str "EPOCH " ++ counter_to_string (ci_epoch i));
   printed (str "BOOT " ++ to_hex (ci_boot i)); printed (str "STORE " ++ to_hex (ci_store i));
   printed (str "RECOVERED torn_tail=" ++ print_flag (torn_tail_truncated (recovery (env c))) ++ str " records=" ++
     to_decimal (records_replayed (recovery (env c))) ++ str " snapshot=" ++ print_flag (snapshot_loaded (recovery (env c))))].

Definition launch (args : list bytes) (h : Host) : Launch :=
  let ended out d e := mkLaunch out [] d (inl e) in
  if has_flag args (str "--help") then ended coordinator_usage (host_directory h) (exits 0)
  else
    match stoi (argument_value args (str "--port") (str "0")) with
    | None => ended [] (host_directory h) throws
    | Some port =>
        match open_coordinator default_config (host_clock h) (host_directory h) (host_open h) (host_io h) (fresh_store h) (fresh_boot h) with
        | (Err e, d) => ended [complaint (str "brf-coordinator: failed to open the store: ") e] d (exits 2)
        | (Ok c, d) =>
            match bind_loopback h (to_u 16 port) with
            | Err e => ended [complaint (str "brf-coordinator: bind failed: ") e] d (exits 2)
            | Ok bound =>
                mkLaunch (launch_lines bound c)
                  (write_file (argument_value args (str "--port-file") []) (to_decimal bound) ++
                   write_file (argument_value args (str "--epoch-file") []) (counter_to_string (ci_epoch (incarnation (env c)))))
                  d (inr (started c))
            end
        end
    end.
(** ** One after the other

    The frames in the order in which they were handled, run one after the other. *)
Definition answer_to (f : Frame) (c : Coordinator) : Reply :=
  if asks_shutdown f then send_status (str "shutdown accepted") else (dispatch describe f c).1.

Fixpoint transcript (log : list (nat * Frame)) (c : Coordinator) : list (nat * Reply) :=
  match log with
  | [] => []
  | (i, f) :: log => (i, answer_to f c) :: transcript log (run (option_list (request_of f)) c)
  end.

(** What belongs to session [i]. *)
Definition of_session {A} (i : nat) (l : list (nat * A)) : list A := map snd (List.filter (fun p => (p.1 =? i)%nat) l).

(** What the peers send, in the order of their connections. *)
Definition streams (es : list Event) : list bytes :=
  flat_map (fun e => match e with accepted stream => [stream] | _ => [] end) es.

(** A session that was sent [stream] has taken the frames [fs] off it and has
    written the answers [rs], but for the last one if it has ended. *)
Record session_ok (stream : bytes) (fs : list Frame) (rs : list Reply) (cl : Client) : Prop := {
  se_read : stream = flat_map frame_wire fs ++ unread cl;
  se_written : exists lost, rs = lost.1 ++ lost.2 /\ (length lost.2 <= 1)%nat /\
    (attended cl = true -> lost.2 = []) /\ written cl = flat_map wire lost.1;
  se_wants : wants_shutdown cl = existsb asks_shutdown fs;
  se_attended : attended cl = true -> wants_shutdown cl = false }.

Record linear (c0 : Coordinator) (es : list Event) (log : list (nat * Frame)) (p : Process) : Prop := {
  li_fabric : fabric p = run (requests_of (map snd log) ++ if decide (phase p = halted) then [QShutdown] else []) c0;
  li_streams : length (streams es) = length (clients p);
  li_sessions : forall i cl, clients p !! i = Some cl -> exists stream, streams es !! i = Some stream /\
    session_ok stream (of_session i log) (of_session i (transcript log c0)) cl;
  li_log : Forall (fun h => (h.1 < length (clients p))%nat) log;
  li_stop : stop_flag p = true -> Exists (fun cl => wants_shutdown cl = true) (clients p);
  li_over : phase p = halted -> Forall (fun cl => attended cl = false) (clients p) }.

Lemma of_session_app {A} i (l l' : list (nat * A)) : of_session i (l ++ l') = of_session i l ++ of_session i l'.
Proof. unfold of_session. now rewrite List.filter_app, map_app. Qed.

Lemma of_session_same {A} i (l : list A) : of_session i (map (pair i) l) = l.
Proof. unfold of_session. induction l as [|a l IH]; [reflexivity|]. cbn. rewrite Nat.eqb_refl. cbn. now f_equal. Qed.

Lemma of_session_other {A} i j (l : list A) : i <> j -> of_session i (map (pair j) l) = [].
Proof. unfold of_session. intros N. induction l as [|a l IH]; [reflexivity|]. cbn. destruct (Nat.eqb_spec j i); [congruence | exact IH]. Qed.

Lemma of_session_new {A} n (l : list (nat * A)) : Forall (fun h => (h.1 < n)%nat) l -> of_session n l = [].
Proof.
  unfold of_session. induction 1 as [|[j a] l L _ IH]; [reflexivity|]. cbn in *. destruct (Nat.eqb_spec j n); [lia | exact IH].
Qed.

Lemma requests_of_app fs fs' : requests_of (fs ++ fs') = requests_of fs ++ requests_of fs'.
Proof. apply flat_map_app. Qed.

Lemma transcript_app log log' c :
  transcript (log ++ log') c = transcript log c ++ transcript log' (run (requests_of (map snd log)) c).
Proof.
  revert c. induction log as [|[i f] log IH]; intros c; [reflexivity|]. cbn [app transcript map snd].
  rewrite IH. unfold requests_of. cbn [flat_map]. do 3 f_equal. unfold run. now rewrite fold_left_app.
Qed.

Lemma transcript_sessions log c : map fst (transcript log c) = map fst log.
Proof. revert c. induction log as [|[i f] log IH]; intros c; [reflexivity|]. cbn. now rewrite IH. Qed.

(** The frame a round takes. *)
Definition took (cl : Client) : list Frame :=
  match read_frame kMaxFrameBytes (unread cl) with Ok (f, _) => [f] | Err _ => [] end.

Lemma handled_took p i cl e : clients p !! i = Some cl -> e = served_round i \/ e = served_late i -> handled p e = map (pair i) (took cl).
Proof. intros C [-> | ->]; unfold handled, took; rewrite C; destruct (read_frame _ _) as [[f rest]|]; reflexivity. Qed.

(** A round takes these frames, one at most, runs and answers them. *)
Definition advances (taken : list Frame) (cl : Client) (c : Coordinator) (r : Client * Coordinator) : Prop :=
  (length taken <= 1)%nat /\ r.2 = run (requests_of taken) c /\
  forall stream fs rs, attended cl = true -> session_ok stream fs rs cl ->
    session_ok stream (fs ++ taken) (rs ++ map (fun f => answer_to f c) taken) r.1.

Lemma transcript_taken i fs c :
  (length fs <= 1)%nat -> transcript (map (pair i) fs) c = map (pair i) (map (fun f => answer_to f c) fs).
Proof. destruct fs as [|f [|g fs]]; cbn [length]; intros L; [reflexivity | reflexivity | lia]. Qed.

Lemma shutdown_request f : asks_shutdown f = true -> request_of f = None.
Proof. unfold asks_shutdown. intros S%beq_true. destruct f as [t q]. cbn in S. now subst t. Qed.

Lemma requests_one f : requests_of [f] = option_list (request_of f).
Proof. apply app_nil_r. Qed.

Lemma session_leaves stream fs rs cl : session_ok stream fs rs cl -> session_ok stream fs rs (leave cl).
Proof. intros [R (l & E & L & _ & W) S A]. split; [exact R | exists l; now repeat split | exact S | discriminate]. Qed.

(** The end of a round that took the frame [f]. *)
Lemma session_takes stream fs rs cl f rest out att r :
  read_frame kMaxFrameBytes (unread cl) = Ok (f, rest) -> attended cl = true ->
  (att = true -> asks_shutdown f = false) ->
  (out = written cl ++ wire r \/ out = written cl /\ att = false) ->
  session_ok stream fs rs cl ->
  session_ok stream (fs ++ [f]) (rs ++ [r]) (mkClient rest out att (wants_shutdown cl || asks_shutdown f)).
Proof.
  intros F A At O [R ([told lost] & E & L & V & W) S N]. cbn [fst snd] in *. rewrite (V A), app_nil_r in E. subst told. split; cbn [unread written attended wants_shutdown].
  - rewrite R, (read_frame_wire _ _ _ F), flat_map_app, <- app_assoc. cbn [flat_map]. now rewrite app_nil_r.
  - destruct O as [-> | [-> ->]]; [exists (rs ++ [r], []) | exists (rs, [r])]; cbn [fst snd].
    + split; [now rewrite app_nil_r | split; [cbn; lia | split; [reflexivity|]]]. rewrite W, flat_map_app. cbn [flat_map]. now rewrite app_nil_r.
    + split; [reflexivity | split; [cbn; lia | split; [discriminate | exact W]]].
  - rewrite existsb_app, S. cbn [existsb]. now rewrite orb_false_r.
  - intros T. now rewrite (N A), (At T).
Qed.

Lemma leave_advances cl c : advances [] cl c (leave cl, c).
Proof. split; [cbn; lia | split; [reflexivity|]]. intros. rewrite !app_nil_r. now apply session_leaves. Qed.

Lemma turn_advances cl c : advances (took cl) cl c (turn cl c).
Proof.
  unfold turn, took. destruct (read_frame kMaxFrameBytes (unread cl)) as [[f rest]|e] eqn:F; [|apply leave_advances].
  split; [cbn; lia|]. cbn [map]. rewrite requests_one. fold (asks_shutdown f). destruct (asks_shutdown f) eqn:S.
  - rewrite (shutdown_request f S). split; [reflexivity|]. intros stream fs rs A Ok_. unfold answer_to. rewrite S.
    pose proof (session_takes stream fs rs cl f rest (written cl ++ wire (send_status (str "shutdown accepted"))) false
      (send_status (str "shutdown accepted")) F A ltac:(discriminate) (or_introl eq_refl) Ok_) as K.
    rewrite S, orb_true_r in K. exact K.
  - pose proof (dispatch_state describe f c) as D. unfold answer_to. rewrite S. destruct (dispatch describe f c) as [r c'] eqn:E.
    cbn [fst snd] in *. destruct r as [t q]. destruct (too_long (t, q)) eqn:T.
    + pose proof (write_frame_long (t, q) T) as W. cbn [fst snd] in W. rewrite W. split; [exact D|]. intros stream fs rs A Ok_. cbn [fst].
      pose proof (session_takes stream fs rs cl f rest (written cl) false (t, q) F A ltac:(discriminate) (or_intror (conj eq_refl eq_refl)) Ok_) as K.
      now rewrite S, orb_false_r in K.
    + pose proof (write_frame_fits (t, q) T) as W. cbn [fst snd] in W. rewrite W. split; [exact D|]. intros stream fs rs A Ok_. cbn [fst].
      pose proof (session_takes stream fs rs cl f rest (written cl ++ wire (t, q)) true (t, q) F A (fun _ => S) (or_introl eq_refl) Ok_) as K.
      now rewrite S, orb_false_r in K.
Qed.

Lemma cut_turn_advances cl c : advances (took cl) cl c (cut_turn cl c).
Proof.
  unfold cut_turn, took. destruct (read_frame kMaxFrameBytes (unread cl)) as [[f rest]|e] eqn:F; [|apply leave_advances].
  split; [cbn; lia|]. cbn [map]. rewrite requests_one. fold (asks_shutdown f). split.
  - cbn [snd]. destruct (asks_shutdown f) eqn:S; [now rewrite (shutdown_request f S) | apply dispatch_state].
  - intros stream fs rs A Ok_. apply session_takes; [exact F | exact A | discriminate | right; now split | exact Ok_].
Qed.

(** ** The invariant *)
Lemma streams_app es es' : streams (es ++ es') = streams es ++ streams es'.
Proof. apply flat_map_app. Qed.

Lemma linear_round c0 es log p e i cl taken r :
  linear c0 es log p -> clients p !! i = Some cl -> attended cl = true -> advances taken cl (fabric p) r -> streams [e] = [] ->
  linear c0 (es ++ [e]) (log ++ map (pair i) taken) (with_client i r p).
Proof.
  intros [Fa St Se Lo Sp Ov] C A (L & F & Adv) E.
  assert (phase p <> halted) as N.
  { intros H. specialize (Ov H). rewrite Forall_lookup in Ov. rewrite (Ov i cl C) in A. discriminate. }
  rewrite decide_False, app_nil_r in Fa by exact N.
  pose proof (lookup_lt_Some _ _ _ C) as B. split; cbn [with_client fabric clients stop_flag phase].
  - rewrite decide_False, app_nil_r by exact N. rewrite map_app, map_map, map_id, requests_of_app. unfold run. rewrite fold_left_app.
    fold (run (requests_of (map snd log)) c0). now rewrite <- Fa.
  - rewrite streams_app, E, app_nil_r, length_insert. exact St.
  - intros j cl' C'. rewrite streams_app, E, app_nil_r, transcript_app, !of_session_app, transcript_taken by exact L.
    apply list_lookup_insert_Some in C' as [(<- & <- & _)|[Ne C']].
    + destruct (Se i cl C) as (stream & H & K). exists stream. split; [exact H|]. rewrite !of_session_same, <- Fa. now apply Adv.
    + destruct (Se j cl' C') as (stream & H & K). exists stream. split; [exact H|]. now rewrite !of_session_other, !app_nil_r by congruence.
  - rewrite length_insert. apply Forall_app. split; [exact Lo|]. apply Forall_map, Forall_true. intros f. exact B.
  - intros S. specialize (Sp S). apply Exists_exists in Sp as (cl' & In_ & W). apply list_elem_of_lookup in In_ as [j Cj].
    apply Exists_exists. destruct (decide (i = j)) as [<-|Ne].
    + rewrite C in Cj. injection Cj as <-. destruct (Se i cl C) as (stream & _ & K). rewrite (se_attended _ _ _ _ K A) in W. discriminate.
    + exists cl'. split; [|exact W]. apply list_elem_of_lookup. exists j. now rewrite list_lookup_insert_ne.
  - intros H. contradiction.
Qed.

(** An event of [main], which touches no session. *)
Lemma linear_quiet c0 es log p e ph stop :
  linear c0 es log p -> streams [e] = [] -> ph = phase p \/ phase p <> halted /\ ph <> halted ->
  (stop = true -> stop_flag p = true \/ Exists (fun cl => wants_shutdown cl = true) (clients p)) ->
  linear c0 (es ++ [e]) log (mkProcess (fabric p) (clients p) stop ph).
Proof.
  intros [Fa St Se Lo Sp Ov] E N S. split; cbn [fabric clients stop_flag phase]; rewrite ?streams_app, ?E, ?app_nil_r; try assumption.
  - destruct N as [-> | [N N']]; [exact Fa|]. rewrite decide_False in Fa by exact N. now rewrite decide_False by exact N'.
  - intros T. destruct (S T); [now apply Sp | assumption].
  - intros H. destruct N as [-> | [N N']]; [now apply Ov | contradiction].
Qed.

Lemma linear_step c0 es log p e p' :
  linear c0 es log p -> step p e p' -> linear c0 (es ++ [e]) (log ++ handled p e) p'.
Proof.
  intros I. destruct 1 as [H|stream H|H|i cl C A S|i cl C A S|i cl C A S|i cl C A W|k H L|H L];
    try (cbn [handled]; rewrite app_nil_r).
  - apply linear_quiet; try assumption; [reflexivity | rewrite H; right; split; [discriminate | now destruct (stop_flag p)] | now left].
  - destruct I as [Fa St Se Lo Sp Ov]. split; cbn [fabric clients stop_flag phase].
    + rewrite H in Fa. rewrite decide_False in Fa by discriminate. rewrite decide_False; [exact Fa|]. now destruct (stop_flag p).
    + rewrite streams_app, !length_app, St. reflexivity.
    + intros i cl C. rewrite streams_app. apply lookup_app_Some in C as [C|[B C]].
      * destruct (Se i cl C) as (str_ & T & K). exists str_. split; [now apply lookup_app_l_Some | exact K].
      * destruct (i - length (clients p))%nat as [|n] eqn:D; [|destruct n; discriminate C]. injection C as <-.
        assert (i = length (clients p)) as -> by lia. exists stream. split; [rewrite lookup_app_r by lia; rewrite St, Nat.sub_diag; reflexivity|].
        rewrite of_session_new by exact Lo. rewrite of_session_new.
        2: { rewrite <- Forall_map with (P := fun n => (n < length (clients p))%nat), transcript_sessions. now apply Forall_map. }
        split; cbn; try reflexivity. exists ([], []). repeat split. cbn. lia.
    + eapply Forall_impl; [exact Lo|]. intros h. rewrite length_app. cbn. lia.
    + intros S. apply Exists_app. left. now apply Sp.
    + destruct (stop_flag p); discriminate.
  - apply linear_quiet; try assumption; [reflexivity | rewrite H; right; split; discriminate | now left].
  - rewrite (handled_took p i cl _ C (or_introl eq_refl)). now apply (linear_round c0 es log p _ i cl); [| | |apply turn_advances|].
  - rewrite <- (app_nil_r log). now apply (linear_round c0 es log p _ i cl []); [| | |apply leave_advances|].
  - rewrite (handled_took p i cl _ C (or_intror eq_refl)). now apply (linear_round c0 es log p _ i cl); [| | |apply cut_turn_advances|].
  - apply linear_quiet; try assumption; [reflexivity | now left | right]. apply Exists_exists. exists cl. split; [|exact W].
    apply list_elem_of_lookup. now exists i.
  - apply linear_quiet; try assumption; [reflexivity | rewrite H; right; split; discriminate | now left].
  - destruct I as [Fa St Se Lo Sp Ov]. split; cbn [fabric clients stop_flag phase]; rewrite ?streams_app, ?app_nil_r; try assumption.
    + rewrite decide_True by reflexivity. rewrite H, decide_False, app_nil_r in Fa by discriminate.
      unfold run. rewrite fold_left_app. fold (run (requests_of (map snd log)) c0). now rewrite <- Fa.
    + intros _. apply Forall_forall. intros cl In_. rewrite forallb_forall in L. apply list_elem_of_In, L in In_. now destruct (attended cl).
Qed.

Lemma exec_linear c0 es log p : exec (started c0) es log p -> linear c0 es log p.
Proof.
  induction 1 as [|es log e p1 p2 E IH S]; [|now apply linear_step].
  split; cbn; try reflexivity; try discriminate; constructor.
Qed.

(** ** Executions that can be run *)
Definition fire (p : Process) (e : Event) : option Process :=
  let of_client i (ready : Client -> bool) (go : Client -> Process) :=
    match clients p !! i with Some cl => if ready cl then Some (go cl) else None | None => None end in
  match e with
  | checked =>
      if decide (phase p = checking) then Some (at_phase (if stop_flag p then draining 0 else accepting) p) else None
  | accepted stream =>
      if decide (phase p = accepting) then
        Some (mkProcess (fabric p) (clients p ++ [mkClient stream [] true false]) (stop_flag p)
                (if stop_flag p then draining 0 else checking))
      else None
  | accept_failed => if decide (phase p = accepting) then Some (at_phase (draining 0) p) else None
  | served_round i =>
      of_client i (fun cl => attended cl && negb (socket_closed p i)) (fun cl => with_client i (turn cl (fabric p)) p)
  | cut i => of_client i (fun cl => attended cl && socket_closed p i) (fun cl => with_client i (leave cl, fabric p) p)
  | served_late i =>
      of_client i (fun cl => attended cl && socket_closed p i) (fun cl => with_client i (cut_turn cl (fabric p)) p)
  | flagged i =>
      of_client i (fun cl => negb (attended cl) && wants_shutdown cl) (fun _ => mkProcess (fabric p) (clients p) true (phase p))
  | socket_shut =>
      match phase p with
      | draining k => if (k <? length (clients p))%nat then Some (at_phase (draining (S k)) p) else None
      | _ => None
      end
  | joined =>
      if decide (phase p = draining (length (clients p))) then
        if forallb (fun cl => negb (attended cl)) (clients p) then
          Some (mkProcess (begin_shutdown (fabric p)).2 (clients p) (stop_flag p) halted)
        else None
      else None
  end.

(** The function and the relation are the same. *)
Lemma fire_iff p e p' : fire p e = Some p' <-> step p e p'.
Proof.
  split.
  - destruct e as [|stream| |i|i|i|i| |]; unfold fire; cbv zeta.
    1-3: destruct (decide _) as [H|]; [|discriminate]; intros [= <-]; now constructor.
    1-4: destruct (clients p !! i) as [cl|] eqn:C; [|discriminate]; destruct (_ && _) eqn:B; [|discriminate];
      apply andb_true_iff in B as [A B]; rewrite ?negb_true_iff in *; intros [= <-]; econstructor; eassumption.
    + destruct (phase p) as [| |k|] eqn:H; try discriminate. destruct (Nat.ltb_spec k (length (clients p))) as [L|]; [|discriminate].
      intros [= <-]. exact (step_shut p k H L).
    + destruct (decide _) as [H|]; [|discriminate]. destruct (forallb _ _) eqn:L; [|discriminate]. intros [= <-]. exact (step_join p H L).
  - destruct 1 as [H|stream H|H|i cl C A S|i cl C A S|i cl C A S|i cl C A W|k H L|H L]; unfold fire; rewrite ?H, ?L, ?C, ?A, ?S, ?W;
      rewrite ?decide_True by reflexivity; try reflexivity.
    + apply Nat.ltb_lt in L. now rewrite L.
Qed.

Fixpoint fires (p : Process) (es : list Event) : option (list (nat * Frame) * Process) :=
  match es with
  | [] => Some ([], p)
  | e :: es =>
      match fire p e with
      | Some p1 => match fires p1 es with Some (log, p2) => Some (handled p e ++ log, p2) | None => None end
      | None => None
      end
  end.

Lemma exec_app p es log p1 es' log' p2 :
  exec p es log p1 -> exec p1 es' log' p2 -> exec p (es ++ es') (log ++ log') p2.
Proof.
  intros E. induction 1 as [|es' log' e p2 p3 E' IH S]; [now rewrite !app_nil_r|]. rewrite !app_assoc. now apply (exec_snoc _ _ _ _ p2).
Qed.

Lemma fires_exec es : forall p r, fires p es = Some r -> exec p es r.1 r.2.
Proof.
  induction es as [|e es IH]; intros p r; cbn [fires]; [intros [= <-]; constructor|].
  destruct (fire p e) as [p1|] eqn:F; [|discriminate]. destruct (fires p1 es) as [[log1 p2]|] eqn:G; [|discriminate]. intros [= <-].
  apply (exec_app p [e] _ p1); [|exact (IH _ _ G)]. apply (exec_snoc p [] [] e p p1); [constructor | now apply fire_iff].
Qed.

(** ** Theorems *)

(** C4. The concurrent sessions of the server act one after the other.  For every
    execution of the process, whatever the interleaving of its sessions and
    wherever a shutdown cuts them off, the frames in the order in which they were
    handled explain all that is seen: the fabric is in the state after the
    requests of these frames, and after the shutdown once the process has
    halted; what each peer sent is its own frames in their order and what was not
    read yet; and it was sent the answers to its frames, each computed in the
    state the frames before, of all sessions, had left.  At most the last answer
    is missing, and only when the session has ended. *)
Theorem sessions_linearize c0 es log p :
  exec (started c0) es log p ->
  fabric p = run (requests_of (map snd log) ++ if decide (phase p = halted) then [QShutdown] else []) c0 /\
  length (streams es) = length (clients p) /\
  forall i cl, clients p !! i = Some cl -> exists stream rs lost,
    streams es !! i = Some stream /\ stream = flat_map frame_wire (of_session i log) ++ unread cl /\
    of_session i (transcript log c0) = rs ++ lost /\ written cl = flat_map wire rs /\
    (length lost <= 1)%nat /\ (attended cl = true -> lost = []).
Proof.
  intros E. destruct (exec_linear _ _ _ _ E) as [Fa St Se _ _ _]. split; [exact Fa | split; [exact St|]]. intros i cl C.
  destruct (Se i cl C) as (stream & H & [R ([rs lost] & T & L & A & W) _ _]). exists stream, rs, lost. now repeat split.
Qed.

Definition connects (e : Event) : bool := match e with accepted _ | accept_failed => true | _ => false end.

(** [main] stays inside [accept] until a connection comes. *)
Lemma accepting_stays p es log p' :
  phase p = accepting -> exec p es log p' -> forallb (fun e => negb (connects e)) es = true -> phase p' = accepting.
Proof.
  intros A. induction 1 as [|es log e p1 p2 E IH S]; [easy|]. rewrite forallb_app. intros [N C]%andb_true_iff. specialize (IH N).
  destruct S; cbn in C; try discriminate C; cbn [phase at_phase with_client]; congruence.
Qed.

(** C21. A shutdown that was asked for waits for a stranger.  Whatever the state of
    the fabric, an execution reaches a point where a client asked for the
    shutdown and was told it is accepted, the process has noted it and no session
    is running, but the accept loop is blocked: it does not halt, and does not
    leave [accept], until somebody connects again or [accept] fails.  When
    somebody does connect, the process can halt without reading anything from
    that connection, the fabric shut down in the state it had. *)
Theorem shutdown_waits_for_a_client c0 :
  exists es log p, exec (started c0) es log p /\
    map written (clients p) = [wire (send_status (str "shutdown accepted"))] /\ stop_flag p = true /\
    Forall (fun cl => attended cl = false) (clients p) /\
    (forall es' log' p', exec p es' log' p' -> forallb (fun e => negb (connects e)) es' = true -> phase p' = accepting) /\
    (forall stream, exists es' p', exec p (accepted stream :: es') [] p' /\ phase p' = halted /\
       fabric p' = (begin_shutdown c0).2).
Proof.
  set (first := [checked; accepted (encode_frame mt_kShutdown []); checked; served_round 0; flagged 0]).
  set (done := mkClient [] (wire (send_status (str "shutdown accepted"))) false true).
  assert (fires (started c0) first = Some ([(0%nat, mkFrame mt_kShutdown [])], mkProcess c0 [done] true accepting)) as F.
  { vm_compute. reflexivity. }
  eexists first, _, _. split; [exact (fires_exec _ _ _ F)|]. do 3 (split; [try reflexivity; now repeat constructor|]). split.
  - intros es' log' p' E N. exact (accepting_stays _ _ _ _ (eq_refl : phase (mkProcess c0 [done] true accepting) = accepting) E N).
  - intros stream. exists [socket_shut; socket_shut; cut 1; joined], (mkProcess (begin_shutdown c0).2 [done; mkClient stream [] false false] true halted).
    split; [apply (fires_exec _ _ ([], _)); reflexivity | split; reflexivity].
Qed.

End process.

(** Two clients race for a link of 1000 bit/s, each for 600; the first asks for
    the shutdown next, the second is cut off before its answer. *)
Definition racing_frame (n : Z) : bytes :=
  encode_frame mt_kCommit (encode_ReservationCreateRequest
    (mkReservationCreateRequest (Sample.context (Sample.id_of (20 + n))) (Sample.terms_on 2000 3000 600 kProtected)
       (Sample.id_of (30 + n)) false [])).

Definition race : list Event :=
  [checked; accepted (racing_frame 0 ++ encode_frame mt_kShutdown []); checked; accepted (racing_frame 1); served_round 0; checked;
   served_round 0; flagged 0; accepted (racing_frame 2); socket_shut; socket_shut; served_late 1; socket_shut; cut 2; joined].

Definition no_text (f : Frame) (c : Coordinator) : bytes := [].

Definition raced : list (nat * Frame) * Process :=
  default ([], started Sample.ready) (fires no_text (started Sample.ready) race).

Lemma sessions_linearize_witness :
  let p := raced.2 in
  map fst raced.1 = [0; 0; 1]%nat /\ map wants_shutdown (clients p) = [true; false; false] /\
  map (fun cl => length (written cl)) (clients p) = [1785; 0; 0]%nat /\
  map (fun r => rr_id r.2) (records (book (fabric p))) = [Sample.id_of 30] /\
  fabric p = run (requests_of (map snd raced.1) ++ if decide (phase p = halted) then [QShutdown] else []) Sample.ready /\
  length (streams race) = length (clients p) /\
  forall i cl, clients p !! i = Some cl -> exists stream rs lost,
    streams race !! i = Some stream /\ stream = flat_map frame_wire (of_session i raced.1) ++ unread cl /\
    of_session i (transcript no_text raced.1 Sample.ready) = rs ++ lost /\ written cl = flat_map wire rs /\
    (length lost <= 1)%nat /\ (attended cl = true -> lost = []).
Proof.
  assert (fires no_text (started Sample.ready) race = Some raced) as F by (vm_compute; reflexivity).
  do 4 (split; [vm_compute; reflexivity|]).
  exact (sessions_linearize no_text Sample.ready race raced.1 raced.2 (fires_exec no_text race (started Sample.ready) raced F)).
Defined.
