(* ===== verification/Killed.v ===== *)
(** * A server that is killed

    The process of [Process] and the restart of [CoordTorn] together: wherever an
    execution stops, between two rounds or inside one, the directory it leaves
    restores its fabric, advanced by what the round had journalled. *)
From S2P Require Import Prelude Errors Containers Identity Hash Bandwidth Time Authority Wire Policy Capacity Reservation Outcome SegTree Index Durable CodecBase Codec CodecReports Store StoreContract Coordinator CoordRecords CoordPersist CoordAssess CoordLifecycle CoordCommit CoordOps CoordQuery CoordSample CoordSteps CoordJournal CoordGate CoordBook CoordLifetime CoordMirror CoordLogged CoordRestart CoordReplay CoordReopen CoordTorn Protocol Server CommandLine Process.

(** A shutdown journals nothing. *)
Lemma tended_shutdown c : ~ snapshotted (handle QShutdown c).2 -> tended QShutdown c = true.
Proof.
  assert (keeps idle begin_shutdown) as K by (unfold begin_shutdown, fence_holds_for_session_locked; frame).
  intros N. unfold tended. destruct (K c) as [(_ & _ & gone & G & W) _].
  destruct gone as [|g gone]; [|destruct N; now apply W]. cbn [app] in G. rewrite app_nil_r in G.
  cbn [handle] in *. rewrite G, Nat.eqb_refl. now rewrite orb_true_r.
Qed.

Lemma served_snoc qs q c : served (qs ++ [q]) c = served qs c && tended q (run qs c).
Proof.
  revert c. induction qs as [|q0 qs IH]; intros c; cbn [app served]; [now rewrite andb_comm|]. rewrite IH, andb_assoc. reflexivity.
Qed.

(** A process that serves has opened its fabric. *)
Lemma launch_started args h p0 : outcome_of (launch args h) = inr p0 ->
  exists c d, open_coordinator default_config (host_clock h) (host_directory h) (host_open h) (host_io h) (fresh_store h) (fresh_boot h) = (Ok c, d) /\
    p0 = started c.
Proof.
  intros L. unfold launch in L. destruct (has_flag _ _); [discriminate|]. destruct (stoi _); [|discriminate].
  destruct (open_coordinator _ _ _ _ _ _ _) as [[c|e] d]; [|discriminate]. destruct (bind_loopback h _); [|discriminate].
  injection L as <-. now exists c, d.
Qed.

(** Behind the joining of the workers nothing runs any more. *)
Lemma halted_rests describe p es log p' : exec describe p es log p' -> phase p = halted ->
  Forall (fun cl => attended cl = false) (clients p) ->
  phase p' = halted /\ clients p' = clients p /\ fabric p' = fabric p /\ log = [].
Proof.
  intros E H A. induction E as [|es log e p1 p2 E (H1 & C1 & F1 & ->) S]; [now split|].
  inversion S; subst; try congruence; cbn [phase clients fabric handled]; try (now repeat split).
  all: match goal with L : clients ?q !! _ = Some _, C : clients ?q = _, A : Forall _ _ |- _ =>
    rewrite C in L; rewrite Forall_lookup in A; pose proof (A _ _ L); congruence end.
Qed.

(** Two points of an execution, as two points of a run. *)
Lemma two_points describe c es log p es' log' p' :
  exec describe (started c) es log p -> exec describe p es' log' p' ->
  exists qs qs', qs ++ qs' = requests_of (map snd (log ++ log')) ++ (if decide (phase p' = halted) then [QShutdown] else []) /\
    fabric p = run qs c /\ fabric p' = run (qs ++ qs') c.
Proof.
  intros E E'. pose proof (exec_linear _ _ _ _ _ E) as Li.
  pose proof (li_fabric _ _ _ _ _ (exec_linear _ _ _ _ _ (exec_app _ _ _ _ _ _ _ _ E E'))) as F'. pose proof (li_fabric _ _ _ _ _ Li) as F.
  destruct (decide (phase p = halted)) as [H|H].
  - destruct (halted_rests _ _ _ _ _ E' H (li_over _ _ _ _ _ Li H)) as (H' & _ & _ & ->).
    rewrite app_nil_r in *. rewrite (decide_True _ _ H') in *. exists (requests_of (map snd log) ++ [QShutdown]), [].
    rewrite app_nil_r. now repeat split.
  - exists (requests_of (map snd log)), (requests_of (map snd log') ++ if decide (phase p' = halted) then [QShutdown] else []).
    rewrite map_app, requests_of_app, <- !app_assoc in *. rewrite app_nil_r in F. now repeat split.
Qed.

(** C5. A server may be killed at any point, also inside a request.  It was started
    on a new directory, every file operation of its start and every write after
    it succeeds, and it served any number of clients.  Take two points of an
    execution, such as before and after a round or a shutdown, or one point twice,
    with the requests handled up to the later one within the conditions of
    [restart_restores] (no recurring amendment, no revocation of an overcommit; each
    succeeds, is turned away by the gate, or, unless it is an ingestion, is
    refused without having journalled anything; no compaction; a journal the
    store can read).  Then the directory of the earlier point is that of the later
    one with its journal cut, and wherever between them the journal ends, in the
    middle of a record or not, the directory opens again (if the files can be
    opened, and the records are within the bounds of the codec): the store hands
    back the records that are complete, these are the ones of the earlier point
    and the first [k] of those appended after it; recovery accepts each, whatever
    its clock and later writes, and they end in a state that mirrors the fabric of
    the earlier point advanced by these [k], which with all of them mirrors the
    fabric of the later point.  So does the coordinator that recovery returns,
    when the index can be rebuilt behind them. *)
Theorem killed_server_restores describe args h p0 es log p es' log' p' n :
  new_directory (host_directory h) -> host_open h = open_io_ok -> host_io h = io_ok ->
  outcome_of (launch args h) = inr p0 -> exec describe p0 es log p -> exec describe p es' log' p' ->
  let qs := requests_of (map snd (log ++ log')) in
  forallb plain qs = true -> served qs (fabric p0) = true ->
  snapshot_payload_ (store (env (fabric p'))) = [] -> journal_size (fabric p') <= kMaxJournalFile ->
  journal_size (fabric p) <= Z.of_nat n ->
  disk (env (fabric p)) = crash (disk (env (fabric p'))) (Z.to_nat (journal_size (fabric p))) /\
  torn_restart default_config (fabric p) (fabric p') n.
Proof.
  intros N O I L E E' qs P S Sn B Le. destruct (launch_started _ _ _ L) as (c & d & Op & ->). rewrite O, I in Op.
  destruct (two_points _ _ _ _ _ _ _ _ E E') as (q1 & q2 & Q & F & F'). fold qs in Q. rewrite F, F' in *.
  apply (torn_spec default_config (host_clock h) (host_directory h) (fresh_store h) (fresh_boot h) c d _ _ _ N Op); try assumption.
  - rewrite Q, forallb_app, P. destruct (decide _); reflexivity.
  - rewrite Q in Sn |- *. destruct (decide (phase p' = halted)); [|now rewrite app_nil_r]. rewrite served_snoc. cbn [fabric started] in S. rewrite S.
    apply tended_shutdown. rewrite run_app in Sn. intros T. now apply T.
Qed.

(** A first client feeds the server the capacity of the link, two others race for
    it; the process is killed before the last is answered. *)
Definition sample_host : Host :=
  mkHost (mkClock (Sample.second 1000) []) empty_disk open_io_ok io_ok (str "store") (Sample.id_of 2) (fun port => Ok port).

Definition feeding_frame : bytes :=
  encode_frame mt_kIngestCapacity (encode_CapacityIngestRequest
    (mkCapacityIngestRequest (Sample.context nil_id) (Sample.snapshot 1 (Sample.link_capacity 1 1000)) [])).

Definition killed_events : list Event :=
  [checked; accepted feeding_frame; checked; accepted (racing_frame 0); checked; accepted (racing_frame 1);
   served_round 0; served_round 2; served_round 1].

Definition launched : Process :=
  match outcome_of (launch [str "--port"; str "7001"] sample_host) with inr p => p | inl _ => started Sample.opened end.
Definition killed : list (nat * Frame) * Process := default ([], launched) (fires no_text launched killed_events).

(** The first round fed the server; it is killed while it handles the second, which
    registers a claimant and commits a reservation: the registration is in the
    journal, the commit is there but for its last bytes. *)
Definition fed : list (nat * Frame) * Process := default ([], launched) (fires no_text launched (firstn 7 killed_events)).
Definition racing : list (nat * Frame) * Process := default ([], launched) (fires no_text fed.2 [served_round 2]).
Definition killed_at : nat := Z.to_nat (journal_size (fabric racing.2) - 3).

(** What recovery makes of the directory. *)
Definition left_behind : Result Store * Disk := open (crash (disk (env (fabric racing.2))) killed_at) default_options open_io_ok (str "again").
Definition recovered : Result Coordinator :=
  rbind left_behind.1 (fun st => recover st (blank_coordinator default_config (mkClock (Sample.second 2000) []) st left_behind.2 io_ok (Sample.id_of 2))).

Lemma killed_server_restores_witness :
  map jr_kind (journal_of (fabric fed.2)) = [kFabricBoot; kCapacitySnapshot] /\
  map jr_kind (journal_of (fabric racing.2)) = [kFabricBoot; kCapacitySnapshot; kClaimantRegistration; kReservationCommit] /\
  map jr_kind (complete (Z.of_nat killed_at) (journal_of (fabric racing.2))) = [kFabricBoot; kCapacitySnapshot; kClaimantRegistration] /\
  match recovered with
  | Ok c => records (book c) = [] /\ length (claimants (sessions c)) = 1%nat /\ ledger (tables c) = ledger (tables (fabric fed.2))
  | Err _ => False
  end /\
  disk (env (fabric fed.2)) = crash (disk (env (fabric racing.2))) (Z.to_nat (journal_size (fabric fed.2))) /\
  torn_restart default_config (fabric fed.2) (fabric racing.2) killed_at.
Proof.
  assert (fires no_text launched (firstn 7 killed_events) = Some fed) as F by (vm_compute; reflexivity).
  assert (fires no_text fed.2 [served_round 2] = Some racing) as R by (vm_compute; reflexivity).
  do 3 (split; [vm_compute; reflexivity|]). split; [vm_compute; repeat split|].
  apply (killed_server_restores no_text [str "--port"; str "7001"] sample_host launched (firstn 7 killed_events) fed.1 fed.2 [served_round 2] racing.1 racing.2).
  - split; reflexivity.
  - reflexivity.
  - reflexivity.
  - vm_compute. reflexivity.
  - exact (fires_exec no_text _ launched fed F).
  - exact (fires_exec no_text _ fed.2 racing R).
  - vm_compute. reflexivity.
  - vm_compute. reflexivity.
  - vm_compute. reflexivity.
  - vm_compute. discriminate.
  - vm_compute. discriminate.
Defined.
