(* ===== verification/Journalled.v ===== *)
(** * The journal of a running server

    The process of [Process] and the invariant of [CoordTyped] together.  What a
    client asks went through a decoder, which bounds every field of it; the
    operations keep the bounds; hence whatever the clients send and however the
    writes turn out, recovery can decode every record of the journal. *)
From S2P Require Import Prelude Errors Containers Identity Hash Bandwidth Time Authority Wire Policy Capacity Reservation Outcome SegTree Index Durable CodecBase Codec CodecReports Store StoreContract Coordinator CoordRecords CoordPersist CoordAssess CoordLifecycle CoordCommit CoordOps CoordQuery CoordSample CoordSteps CoordJournal CoordGate CoordTyped CoordTypedOps Protocol Server CommandLine Process Killed.

(** ** What a frame asks is within the bounds of its decoder *)
Lemma asked_wf {A} {enc : A -> bytes} {dec : rd A} {wf : A -> bool} `{!Codec enc dec wf} f (ask : A -> Request) q :
  (forall a, wf a = true -> wf_Request (ask a) = true) -> asked f dec ask = Some q -> wf_Request q = true.
Proof.
  intros W. unfold asked. destruct (dec (fr_payload f)) as [[a rest]|e] eqn:D; [|discriminate]. intros [= <-].
  apply codec_canonical in D as [_ Wa]. now apply W.
Qed.

Create HintDb wire_bounds.
#[local] Hint Unfold wf_CapacityIngestRequest wf_PathIngestRequest wf_PolicyIngestRequest wf_ClaimantRegistrationRequest wf_FenceRequest wf_ReservationCreateRequest wf_AmendmentRequest wf_ReservationRefRequest
  wf_RecallRequest wf_RevalidateRequest wf_AttemptRequest wf_LifecycleReconcileRequest wf_QueryRequest wf_ClaimantQueryRequest wf_HoldAcquireRequest wf_HoldReleaseRequest : wire_bounds.

Lemma request_wf f q : request_of f = Some q -> wf_Request q = true.
Proof.
  unfold request_of. destruct (fr_type f); try discriminate; apply asked_wf; intros [] W; autounfold with wire_bounds in W; cbn in W |- *; split_andb; bool_goal; assumption || reflexivity.
Qed.

Lemma requests_wf fs : forallb wf_Request (requests_of fs) = true.
Proof.
  apply forallb_forall. intros q. unfold requests_of. rewrite in_flat_map. intros (f & _ & Q). apply (request_wf f).
  destruct (request_of f) as [q'|]; [|destruct Q]. destruct Q as [-> | []]. reflexivity.
Qed.

(** ** The start *)
Lemma typed_launch args h p0 :
  dk_snapshot (host_directory h) = None -> wf_clock (host_clock h) -> id_ok (fresh_boot h) = true ->
  outcome_of (launch args h) = inr p0 -> exists c, p0 = started c /\ typed c.
Proof.
  intros S K B L. destruct (launch_started _ _ _ L) as (c & d & O & ->). exists c. split; [reflexivity|].
  exact (typed_open default_config _ _ _ _ _ _ _ _ S K eq_refl B O).
Qed.

(** C6. Recovery can read whatever a server journals.  The server was started on
    a directory without a snapshot (a journal may be there), under a clock whose
    readings are 64-bit numbers; how the writes turn out is up to the host.  Any
    number of clients connect, send any bytes and are served in any order.  At
    any point of the execution each record of the journal is one the decoder of
    its kind accepts: it is the encoding of a durable record every field of which
    is within the bounds the decoder imposes, so no request makes the fabric
    journal what its own recovery refuses. *)
Theorem server_journal_decodes describe args h p0 es log p :
  dk_snapshot (host_directory h) = None -> wf_clock (host_clock h) -> id_ok (fresh_boot h) = true ->
  outcome_of (launch args h) = inr p0 -> exec describe p0 es log p ->
  Forall (fun j => exists r, decode_record (payload j) (jr_kind j) = Ok r /\ encode_record r = payload j /\ record_kind r = jr_kind j)
    (journal_of (fabric p)).
Proof.
  intros S K B L E. destruct (typed_launch _ _ _ S K B L) as (c & -> & T0). rewrite (li_fabric _ _ _ _ _ (exec_linear _ _ _ _ _ E)).
  assert (typed (run (requests_of (map snd log) ++ if decide (phase p = halted) then [QShutdown] else []) c)) as T.
  { apply typed_run; [|exact T0]. rewrite forallb_app, requests_wf. now destruct (decide _). }
  eapply Forall_impl; [exact (ty_journal _ T)|]. intros j (r & [P Kd] & W). exists r. rewrite P, Kd.
  split; [now apply decode_record_enc | now split].
Qed.

Lemma server_journal_decodes_witness :
  map jr_kind (journal_of (fabric killed.2)) = [kFabricBoot; kCapacitySnapshot; kClaimantRegistration; kReservationCommit; kAttemptOutcome] /\
  Forall (fun j => exists r, decode_record (payload j) (jr_kind j) = Ok r /\ encode_record r = payload j /\ record_kind r = jr_kind j)
    (journal_of (fabric killed.2)).
Proof.
  assert (fires no_text launched killed_events = Some killed) as F by (vm_compute; reflexivity).
  split; [vm_compute; reflexivity|].
  apply (server_journal_decodes no_text [str "--port"; str "7001"] sample_host launched killed_events killed.1 killed.2).
  - reflexivity.
  - repeat constructor.
  - vm_compute. reflexivity.
  - vm_compute. reflexivity.
  - exact (fires_exec no_text killed_events launched killed F).
Defined.
