(* ===== verification/Probe.v ===== *)
(** * The probe client

    [tools/brf_probe.cpp]: a command-line client of the server.  What it does is
    a tree of its interactions: lines it prints, frames it exchanges, readings of
    the clock and random identities, and at the leaves how the program ends. *)
From S2P Require Import Prelude Errors Containers Identity Hash Bandwidth Time Authority Wire Policy Capacity Reservation Outcome SegTree Index Durable CodecBase Codec CodecReports Store Coordinator CoordRecords CoordPersist CoordAssess CoordLifecycle CoordCommit CoordOps CoordQuery CoordSample CoordSteps CoordJournal CoordGate Protocol Server CommandLine Process.

(** ** Interactions *)
Inductive Act :=
  | Done (e : Ending)
  | Say (l : Line) (next : Act)
  | Connect (port : Z) (next : Result unit -> Act)
  | Exchange (t : MessageType) (payload : bytes) (next : Result Frame -> Act)
  | Now (next : Timestamp -> Act)
  | Draw (next : Identity128 -> Act)
  | Sleep (next : Act).

Definition say (text : bytes) (next : Act) : Act := Say (printed text) next.
Definition fail (message : bytes) : Act := say (str "ERR " ++ message) (Done (exits 1)).
Definition fail_with (message : bytes) (e : ErrorCode) : Act := Say (complaint (str "ERR " ++ message) e) (Done (exits 1)).

(** The result, or the end with its error; the result, or the empty optional
    dereferenced; the number, or the exception of the parser. *)
Definition need {A} (r : Result A) (message : bytes) (k : A -> Act) : Act :=
  match r with Ok a => k a | Err e => fail_with message e end.
Definition unwrap {A} (r : Result A) (k : A -> Act) : Act :=
  match r with Ok a => k a | Err _ => Done undefined end.
Definition number (o : option Z) (k : Z -> Act) : Act :=
  match o with Some n => k n | None => Done throws end.
(** Signed arithmetic that must not overflow. *)
Definition within_i64 (z : Z) (k : Z -> Act) : Act := if i64_ok z then k z else Done undefined.

Notation "'let>' x := m 'in' k" := (m (fun x => k)) (at level 10, x pattern, m at level 100, k at level 200, only parsing) : brf_scope.

(** [%s] prints up to the first zero byte. *)
Fixpoint c_str (text : bytes) : bytes :=
  match text with
  | b :: rest => if b2z b =? 0 then [] else b :: c_str rest
  | [] => []
  end.

(** ** Options *)
Record Options := mkOptions {
  port : Z;
  seed : Z;
  command : bytes;
  arguments : list (bytes * bytes) }.

Definition default_options_ : Options := mkOptions 0 1 [] [].

Inductive Parsed := options_ok (o : Options) | help | bad_number | unexpected (token : bytes).

Definition is_option (token : bytes) : bool :=
  match token with a :: b :: _ :: _ => byte_eqb a x2d && byte_eqb b x2d | _ => false end.
Definition starts_with_dash (token : bytes) : bool := match token with a :: _ => byte_eqb a x2d | [] => false end.

(** The loop over [argv]. *)
Fixpoint parse_options (args : list bytes) (o : Options) : Parsed :=
  let with_argument name value_ := mkOptions (port o) (seed o) (command o) (arguments o ++ [(name, value_)]) in
  match args with
  | [] => options_ok o
  | token :: rest =>
      if beq token (str "--help") then help
      else
        let positional :=
          if is_option token then parse_options rest (with_argument token (str "1"))
          else match command o with
               | [] => parse_options rest (mkOptions (port o) (seed o) token (arguments o))
               | _ => unexpected token
               end in
        match rest with
        | [] => positional
        | next_ :: rest' =>
            if beq token (str "--port") then
              match stoi next_ with
              | Some n => parse_options rest' (mkOptions (to_u 16 n) (seed o) (command o) (arguments o))
              | None => bad_number
              end
            else if beq token (str "--seed") then
              match stoull next_ with
              | Some n => parse_options rest' (mkOptions (port o) n (command o) (arguments o))
              | None => bad_number
              end
            else if is_option token && negb (starts_with_dash next_) then
              parse_options rest' (with_argument token next_)
            else positional
        end
  end.

Definition argument (o : Options) (name fallback : bytes) : bytes :=
  match find (fun p => beq p.1 name) (arguments o) with Some p => p.2 | None => fallback end.
Definition has_argument (o : Options) (name : bytes) : bool := existsb (fun p => beq p.1 name) (arguments o).

(** ** Values *)
Definition parse_amount (text : bytes) : Result Z := let? b := parse_bandwidth text in Ok (bps b).

Definition parse_zeroable_bandwidth (text : bytes) : Result Z :=
  let? n := parse_uint64_decimal text in
  refuse_if n >? kMaxBandwidthBps with kInvalidBandwidth in
  Ok n.

Definition parse_instant (text : bytes) (k : Result Timestamp -> Act) : Act :=
  match text with
  | b :: rest =>
      if byte_eqb b x2b then
        match parse_uint64_decimal rest with
        | Err e => k (Err e)
        | Ok n =>
            Now (fun now =>
              let> offset := within_i64 (to_i64 n * kNsPerSecond) in
              let> at_ := within_i64 (ns now + offset) in
              k (Ok (mkTs at_)))
        end
      else k (parse_timestamp text)
  | [] => k (parse_timestamp text)
  end.

Definition need_instant (text message : bytes) (k : Timestamp -> Act) : Act :=
  parse_instant text (fun r => need r message k).

(** ** Identities derived from the seed *)
Definition seed_root : Identity128 :=
  match from_hex (str "5eed5eed5eed5eed5eed5eed5eed5eed") with Ok i => i | Err _ => nil_id end.
Definition seed_identity (seed : Z) : Identity128 := derive seed_root seed.
Definition seeded (o : Options) (tag : Z) : Identity128 := derive (seed_identity (seed o)) tag.

Definition tag_publisher : Z := 0x505542.
Definition tag_boot : Z := 0x424F4F54.
Definition tag_session : Z := 0x53455353.
Definition tag_claimant : Z := 0x434C4149.
Definition tag_attempt : Z := 0x41545445.
Definition tag_snapshot : Z := 0x534E4150.

(** The identity a text gives, or the seeded one when there is none. *)
Definition given_or_seeded (o : Options) (text : bytes) (tag : Z) (k : Identity128 -> Act) : Act :=
  match text with [] => k (seeded o tag) | _ => unwrap (from_hex text) k end.

Definition make_context (o : Options) (epoch : FabricEpoch) (claimant_text attempt_text : bytes)
    (k : RequestContext -> Act) : Act :=
  let> claimant_ := given_or_seeded o claimant_text tag_claimant in
  let with_epoch (e : FabricEpoch) :=
    let> attempt := given_or_seeded o attempt_text tag_attempt in
    k (mkRequestContext (mkName (str "brf-probe")) (seeded o tag_publisher) (seeded o tag_boot)
         (seeded o tag_session) attempt claimant_ (mkCounter 1) e (str "brf-probe")) in
  match argument o (str "--epoch") [] with
  | [] => with_epoch epoch
  | asserted => number (stoull asserted) (fun n => with_epoch (mkCounter n))
  end.

Definition print_identity (o : Options) (next : Act) : Act :=
  say (str "BOOT " ++ to_hex (seeded o tag_boot))
  (say (str "SESSION " ++ to_hex (seeded o tag_session))
  (say (str "CLAIMANT " ++ to_hex (seeded o tag_claimant)) next)).

(** ** Requests *)
Definition report_error (f : Frame) : Act :=
  match decode_ErrorResponse (fr_payload f) with
  | Err _ => fail (str "undecodable error frame")
  | Ok (r, _) => fail (ErrorCode_to_string (err_code r) ++ str " " ++ c_str (err_message r))
  end.

(** A request and the frame that answers it, unless it is an error. *)
Definition request (t : MessageType) (payload message : bytes) (k : Frame -> Act) : Act :=
  Exchange t payload (fun r =>
    need r message (fun f => if beq (fr_type f) mt_kError then report_error f else k f)).

Definition decoded {A} (dec : rd A) (f : Frame) (message : bytes) (k : A -> Act) : Act :=
  match dec (fr_payload f) with Ok (a, _) => k a | Err _ => fail message end.

Definition greeting_of (client : Identity128) : bytes :=
  encode_HelloRequest (mkHelloRequest kWireProtocolVersion client (str "brf-probe")).

Definition greeted (f : Frame) : Result HelloResponse := let? (h, _) := decode_HelloResponse (fr_payload f) in Ok h.

Definition greet (client : Identity128) (k : HelloResponse -> Act) : Act :=
  Exchange mt_kHello (greeting_of client) (fun r =>
    need r (str "handshake failed: ") (fun f =>
      if beq (fr_type f) mt_kHelloAck then need (greeted f) (str "handshake failed: ") k
      else fail_with (str "handshake failed: ") kInternal)).

Definition hello (k : HelloResponse -> Act) : Act := Draw (fun client => greet client k).

(** ** Commands *)
Definition option_text (o : Options) (name fallback : String.string) : bytes := argument o (str name) (str fallback).

(** The policy of [seed]: the strict default, recall of protected reservations
    allowed, holds of up to 100 Gbit/s. *)
Definition seed_policy (name : PolicyName) (generation ttl : Z) : PolicyRecord :=
  let d := strict_default name in
  mkPolicyRecord (pr_name d) (mkCounter generation) (pr_ingested_at d) (allow_recall_guaranteed d) true
    (allow_preemption_on_commit d) (max_preemption_victims d) (default_recall_grace d) (allow_overcommit d)
    (overcommit_allowance d) (minimum_reservation_amount d) (allow_past_start d) (max_future_horizon d)
    (max_extra_headroom d) (auto_revalidate_on_generation_change d) (policy_headroom d) (max_conflict_set d)
    (max_explanation_bytes d) (max_series_members d) (mkDur ttl) 8 (mkBandwidth 100000000000).

Definition as_authority (x : RequestContext) : RequestContext :=
  mkRequestContext (mkName (str "brf-authority")) (rq_publisher x) (rq_publisher_boot x) (rq_session x) (rq_attempt x)
    nil_id (rq_claimant_generation x) (asserted_epoch x) (rq_reason x).

Definition as_operator (x : RequestContext) : RequestContext :=
  mkRequestContext (mkName (str "brf-operator")) (rq_publisher x) (rq_publisher_boot x) (rq_session x) (rq_attempt x)
    (rq_claimant x) (rq_claimant_generation x) (asserted_epoch x) (rq_reason x).

Definition run_seed (o : Options) (epoch : FabricEpoch) : Act :=
  let resource_text := option_text o "--resource" "r1" in
  let> capacity := need (parse_amount (option_text o "--capacity" "100000000000")) (str "bad capacity: ") in
  let> headroom := need (parse_zeroable_bandwidth (option_text o "--headroom" "0")) (str "bad headroom: ") in
  let generation_text := option_text o "--generation" "1" in
  let> x := make_context o epoch [] [] in
  let> policy_ := unwrap (name_from_string (option_text o "--policy" "fabric-default")) in
  let> generation := number (stoull generation_text) in
  let> ttl_seconds := number (stoll (option_text o "--max-hold-ttl-seconds" "5")) in
  let> ttl := within_i64 (ttl_seconds * kNsPerSecond) in
  let> _ := request mt_kIngestPolicy
      (encode_PolicyIngestRequest (mkPolicyIngestRequest (as_authority x) (seed_policy policy_ generation ttl)))
      (str "policy request failed: ") in
  let> resource_ := unwrap (name_from_string resource_text) in
  let> resource_generation := number (stoull (argument o (str "--resource-generation") generation_text)) in
  let entry := mkResourceCapacity resource_ (mkCounter resource_generation) (mkBandwidth capacity)
    (mkBandwidth headroom) empty_name (mkCounter 0) [] in
  let snapshot := mkCapacitySnapshot (seeded o tag_snapshot) (mkCounter generation) epoch ts0 true [entry] in
  let ingest withdrawn :=
    request mt_kIngestCapacity
      (encode_CapacityIngestRequest (mkCapacityIngestRequest (as_authority x) snapshot withdrawn))
      (str "capacity request failed: ") (fun _ =>
      say (str "OK seed resource=" ++ resource_text ++ str " capacity=" ++ print_signed capacity ++
           str " generation=" ++ generation_text) (Done (exits 0))) in
  if has_argument o (str "--withdraw") then
    let> name := unwrap (name_from_string (argument o (str "--withdraw") [])) in ingest [name]
  else ingest [].

(** The terms of [commit] and [hold]. *)
Definition probe_terms (x : RequestContext) (resource_ : ResourceName) (from to : Timestamp) (amount_ : Z)
    (policy_ : PolicyName) (class : GuaranteeClass) : ReservationTerms :=
  mkReservationTerms (rq_claimant x) (rq_claimant_generation x) kResources [resource_] empty_name (mkCounter 0)
    (mkInterval from to) (mkBandwidth amount_) None None class 0 false false (mkDur 0) bw0 policy_ [] no_recurrence.

Definition commit_lines (hangs : bool) (r : CommitResponse) : Act :=
  let record := cr_record (cmr_result r) in
  let seen := str " outcome=" ++ AdmissionOutcome_to_string (cmr_outcome r) ++ str " id=" ++ to_hex (rr_id record) ++
    str " generation=" ++ counter_to_string (rr_generation record) in
  if hangs then say (str "DURABLE" ++ seen) (Sleep (Done (exits 0)))
  else
    say (str "OK commit" ++ seen ++ str " state=" ++ ReservationState_to_string (rr_state record) ++ str " amount=" ++
         print_signed (bps (amount (terms record))) ++ str " reply=" ++
         (if cr_replayed (cmr_result r) then str "replayed" else str "fresh"))
      (Done (exits (if beq (ar_outcome (cr_report (cmr_result r))) ao_kCommittable then 0 else 3))).

Definition run_commit (o : Options) (hangs : bool) (epoch : FabricEpoch) : Act :=
  let> amount_ := need (parse_amount (option_text o "--amount" "1000000000")) (str "bad amount: ") in
  let> from := need_instant (option_text o "--start" "+60") (str "bad start: ") in
  let> to := need_instant (option_text o "--end" "+3600") (str "bad end: ") in
  let> x := make_context o epoch (argument o (str "--claimant") []) (argument o (str "--attempt") []) in
  let> resource_ := unwrap (name_from_string (option_text o "--resource" "r1")) in
  let> policy_ := unwrap (name_from_string (option_text o "--policy" "fabric-default")) in
  let with_class class :=
    let with_id id :=
      let> f := request mt_kCommit
        (encode_ReservationCreateRequest
           (mkReservationCreateRequest x (probe_terms x resource_ from to amount_ policy_ class) id false []))
        (str "commit request failed: ") in
      let> r := decoded decode_CommitResponse f (str "undecodable commit response") in
      commit_lines hangs r in
    if has_argument o (str "--id") then let> id := unwrap (from_hex (argument o (str "--id") [])) in with_id id
    else with_id nil_id in
  if has_argument o (str "--guarantee") then
    match parse_guarantee_class (argument o (str "--guarantee") []) with
    | Ok class => with_class class
    | Err _ => fail (str "bad guarantee class")
    end
  else with_class kGuaranteed.

Definition remaining_line (e : RemainingCapacity) : bytes :=
  str "OK remaining resource=" ++ c_str (name_view (rm_resource e)) ++ str " generation=" ++
  counter_to_string (rm_generation e) ++ str " ceiling=" ++ print_signed (bps (rm_committable_ceiling e)) ++
  str " committed=" ++ print_signed (bps (rm_committed_peak e)) ++ str " holds=" ++ print_signed (bps (rm_holds_peak e)) ++
  str " remaining=" ++ print_signed (bps (remaining e)) ++ str " emergency=" ++ print_flag (rm_overcommit_emergency e).

Definition run_remaining (o : Options) (epoch : FabricEpoch) : Act :=
  let> from := need_instant (option_text o "--start" "+0") (str "bad start: ") in
  let> to := need_instant (option_text o "--end" "+86400") (str "bad end: ") in
  let> x := make_context o epoch [] [] in
  let> resource_ := unwrap (name_from_string (option_text o "--resource" "r1")) in
  let> f := request mt_kQueryRemaining (encode_QueryRequest (mkQueryRequest x resource_ (mkInterval from to) bw0 false))
    (str "query failed: ") in
  let> r := decoded decode_RemainingResponse f (str "undecodable remaining response") in
  fold_right (fun e next => say (remaining_line e) next) (Done (exits 0)) (rmr_resources r).

Definition run_reconcile (o : Options) (epoch : FabricEpoch) : Act :=
  let> x := make_context o epoch [] [] in
  let go attempt :=
    let> f := request mt_kReconcileAttempt (encode_AttemptRequest (mkAttemptRequest x attempt)) (str "reconcile failed: ") in
    let> r := decoded decode_ReconciliationResponse f (str "undecodable reconciliation response") in
    let a := rnr_reconciliation r in
    say (str "OK reconcile known=" ++ print_flag (known a) ++ str " committed=" ++ print_flag (committed a) ++
         str " outcome=" ++ AdmissionOutcome_to_string (ac_outcome a) ++ str " id=" ++ to_hex (ac_reservation a) ++
         str " generation=" ++ counter_to_string (ac_generation a) ++ str " note=" ++ c_str (note a)) (Done (exits 0)) in
  if has_argument o (str "--attempt") then let> attempt := unwrap (from_hex (argument o (str "--attempt") [])) in go attempt
  else go (rq_attempt x).

Definition run_release (o : Options) (epoch : FabricEpoch) : Act :=
  let> x := make_context o epoch [] [] in
  let> id := unwrap (from_hex (argument o (str "--id") [])) in
  let> generation := number (stoull (option_text o "--generation" "1")) in
  let> f := request mt_kRelease (encode_ReservationRefRequest (mkReservationRefRequest x id (mkCounter generation)))
    (str "release failed: ") in
  let> r := decoded decode_LifecycleResponse f (str "undecodable release response") in
  say (str "OK release state=" ++ ReservationState_to_string (rr_state (lr_record (lcr_result r))) ++ str " replayed=" ++
       print_flag (lr_replayed (lcr_result r))) (Done (exits 0)).

Definition run_hold (o : Options) (epoch : FabricEpoch) : Act :=
  let> x := make_context o epoch [] [] in
  let> amount_ := need (parse_amount (option_text o "--amount" "1000000000")) (str "bad amount: ") in
  let> from := need_instant (option_text o "--start" "+60") (str "bad start: ") in
  let> to := need_instant (option_text o "--end" "+3600") (str "bad end: ") in
  let> resource_ := unwrap (name_from_string (option_text o "--resource" "r1")) in
  Now (fun now =>
    let> ttl_seconds := number (stoll (option_text o "--ttl-seconds" "5")) in
    let> ttl := within_i64 (ttl_seconds * kNsPerSecond) in
    let> expires_at := within_i64 (ns now + ttl) in
    let terms_ := probe_terms x resource_ from to amount_ (mkName (str "fabric-default")) kGuaranteed in
    let> f := request mt_kHoldAcquire (encode_HoldAcquireRequest (mkHoldAcquireRequest x terms_ (mkTs expires_at)))
      (str "hold failed: ") in
    let> r := decoded decode_HoldResponse f (str "undecodable hold response") in
    say (str "OK hold id=" ++ to_hex (hr_id (hor_hold r)) ++ str " generation=" ++
         counter_to_string (hr_generation (hor_hold r))) (Done (exits 0))).

(** The claimant and its generation are left at their defaults. *)
Definition run_fence_session (o : Options) (epoch : FabricEpoch) : Act :=
  let> x := make_context o epoch [] [] in
  let> boot := unwrap (from_hex (argument o (str "--boot") [])) in
  let> session := unwrap (from_hex (argument o (str "--session") [])) in
  let> _ := request mt_kFence
    (encode_FenceRequest (mkFenceRequest (as_operator x) nil_id (mkCounter 0) boot session (has_argument o (str "--claimant-wide"))))
    (str "fence failed: ") in
  say (str "OK fence boot=" ++ to_hex boot ++ str " session=" ++ to_hex session) (Done (exits 0)).

Definition run_session_release (o : Options) (epoch : FabricEpoch) : Act :=
  let> x := make_context o epoch [] [] in
  let> _ := request mt_kSessionRelease (encode_LifecycleReconcileRequest (mkLifecycleReconcileRequest x true))
    (str "session release failed: ") in
  say (str "OK session-release") (Done (exits 0)).

Definition run_stats : Act :=
  let> f := request mt_kStats (w_u8 0) (str "stats failed: ") in
  let> r := decoded decode_StatsResponse f (str "undecodable stats response") in
  let s := ssr_stats r in
  say (str "OK stats epoch=" ++ counter_to_string (st_epoch s) ++ str " commits=" ++ to_decimal (commits s) ++
       str " rejections=" ++ to_decimal (commit_rejections s) ++ str " replayed=" ++ to_decimal (replayed_attempts s) ++
       str " releases=" ++ to_decimal (releases s) ++ str " expiries=" ++ to_decimal (expiries s) ++ str " records=" ++
       to_decimal (durable_records s) ++ str " tracked=" ++ to_decimal (tracked_reservations s) ++ str " holds=" ++
       to_decimal (live_holds s)) (Done (exits 0)).

Definition is_command (o : Options) (name : String.string) : bool := beq (command o) (str name).

Definition run_command (o : Options) (epoch : FabricEpoch) : Act :=
  if is_command o "hello" then say (str "OK hello") (Done (exits 0))
  else if is_command o "seed" then run_seed o epoch
  else if is_command o "commit" || is_command o "commit-then-hang" then run_commit o (is_command o "commit-then-hang") epoch
  else if is_command o "remaining" then run_remaining o epoch
  else if is_command o "reconcile" then run_reconcile o epoch
  else if is_command o "release" then run_release o epoch
  else if is_command o "hold" then run_hold o epoch
  else if is_command o "fence-session" then run_fence_session o epoch
  else if is_command o "session-release" then run_session_release o epoch
  else if is_command o "stats" then run_stats
  else if is_command o "pause" then say (str "OK pause") (Sleep (Done (exits 0)))
  else fail (str "unknown command: " ++ command o).

(** [main]; [args] is [argv] without the name of the program. *)
Definition probe (args : list bytes) : Act :=
  match parse_options args default_options_ with
  | help =>
      say (str "brf-probe --port <n> --seed <n> <command> [--key value ...]")
      (say (str "commands: hello, seed, commit, commit-then-hang, remaining, reconcile, release, hold,")
      (say (str "          fence-session, stats, pause") (Done (exits 0))))
  | bad_number => Done throws
  | unexpected token => fail (str "unexpected argument: " ++ token)
  | options_ok o =>
      if (port o =? 0) || beq (command o) [] then fail (str "--port and a command are required")
      else
        print_identity o
        (Connect (port o) (fun connected =>
          let> _ := need connected (str "connect failed: ") in
          let> greeting := hello in
          say (str "EPOCH " ++ counter_to_string (ha_epoch greeting))
          (say (str "COORDINATOR " ++ to_hex (ha_coordinator_boot greeting))
          (run_command o (ha_epoch greeting)))))
  end.

(** ** A probe and a server

    The server the probe talks to, on which port, whether the session is still
    served, and what the clock and the random generator of the probe give. *)
Record Scene := mkScene {
  listening : Z;
  peer : Coordinator;
  line_open : bool;
  time : Clock;
  draws : list Identity128 }.

(** What it printed, the frames the server took, how it ended, and what is left. *)
Record Played := mkPlayed {
  shown : list Line;
  frames : list Frame;
  finish : Ending;
  left_behind : Scene }.

Section play.
Context (describe : Frame -> Coordinator -> bytes).

(** [request] of the probe and a round of the session. *)
Definition exchange (t : MessageType) (payload : bytes) (s : Scene) : Result Frame * list Frame * Scene :=
  match write_frame t payload with
  | Err e => (Err e, [], s)
  | Ok b =>
      if line_open s then
        let cl0 := mkClient b [] true false in
        let (cl, c) := turn describe cl0 (peer s) in
        (let? (f, _) := read_frame kMaxFrameBytes (written cl) in Ok f, took cl0,
         mkScene (listening s) c (attended cl) (time s) (draws s))
      else (Err kCancelled, [], s)
  end.

Fixpoint play (a : Act) (s : Scene) : Played :=
  match a with
  | Done e => mkPlayed [] [] e s
  | Say l next => let r := play next s in mkPlayed (l :: shown r) (frames r) (finish r) (left_behind r)
  | Connect p next => play (next (if p =? listening s then Ok tt else Err kIo)) s
  | Exchange t payload next =>
      let '(answer, fs, s) := exchange t payload s in
      let r := play (next answer) s in mkPlayed (shown r) (fs ++ frames r) (finish r) (left_behind r)
  | Now next =>
      let (now, k) := clock_read (time s) in
      play (next now) (mkScene (listening s) (peer s) (line_open s) k (draws s))
  | Draw next =>
      match draws s with
      | i :: l => play (next i) (mkScene (listening s) (peer s) (line_open s) (time s) l)
      | [] => play (next nil_id) s
      end
  | Sleep next => play next s
  end.

End play.
