(* ===== verification/ProbeClient.v ===== *)
(** * What the probe does to a server

    The requests [Probe.probe] sends are within the bounds of the codec, all it
    does is run them, and its exit code is the decision of the server. *)
From S2P Require Import Prelude Errors Containers Identity Hash Bandwidth Time Authority Wire Policy Capacity Reservation Outcome SegTree Index Durable CodecBase Codec CodecReports Store Coordinator CoordRecords CoordPersist CoordAssess CoordLifecycle CoordCommit CoordOps CoordQuery CoordSample CoordSteps CoordJournal CoordGate CoordMirror CoordLogged Protocol Server CommandLine Process Probe.

(** ** What the parsers give is in range *)
Lemma wrapped_ok z : u_ok 64 (to_u 64 z) = true.
Proof. pose proof (to_u_range 64 z ltac:(lia)). unfold u_ok. bool_goal; lia. Qed.

Lemma decimal_ok text n : parse_uint64_decimal text = Ok n -> u_ok 64 n = true.
Proof.
  unfold parse_uint64_decimal. intros E. apply rbind_refuse_Ok in E as [_ E]. apply rbind_refuse_Ok in E as [_ E]. revert E.
  assert (forall acc, u_ok 64 acc = true -> decimal_loop text acc = Ok n -> u_ok 64 n = true) as H; [|now apply H].
  induction text as [|ch text IH]; intros acc U; cbn [decimal_loop]; [now intros [= <-]|].
  destruct (_ || _); [discriminate|]. destruct (_ >? _); [discriminate|]. apply IH, wrapped_ok.
Qed.

Lemma leading_digits_digits text : forallb is_digit (leading_digits text) = true.
Proof. induction text as [|b text IH]; cbn; [reflexivity|]. destruct (is_digit b) eqn:D; cbn; [now rewrite D | reflexivity]. Qed.

Lemma stoull_ok text n : stoull text = Some n -> u_ok 64 n = true.
Proof.
  unfold stoull, scan_number. destruct (split_sign _) as [b rest]. pose proof (leading_digits_digits rest) as D.
  destruct (leading_digits rest) as [|d ds] eqn:L; [discriminate|].
  destruct (_ >? _) eqn:G; [discriminate|]. destruct b; intros [= <-]; [apply wrapped_ok|].
  rewrite Z.gtb_ltb in G. apply Z.ltb_ge in G. pose proof (decimal_value_mono (d :: ds) 0 D ltac:(lia)). cbn [decimal_value] in *. unfold u_ok, u64_max in *. bool_goal; lia.
Qed.

Lemma amount_ok text n : parse_amount text = Ok n -> bandwidth_ok (mkBandwidth n) = true.
Proof.
  unfold parse_amount. intros E. apply rbind_Ok in E as ([b] & E & [= <-]). cbn [bps].
  assert (exists v, make_bandwidth v = Ok (mkBandwidth b)) as [v M].
  { unfold parse_bandwidth in E. destruct (rev text) as [|last front]; [discriminate|]. destruct (scale_of last);
      (apply rbind_Ok in E as (v & _ & E); apply rbind_refuse_Ok in E as [_ E]; cbv zeta in E; apply rbind_refuse_Ok in E as [_ E]; eexists; exact E). }
  unfold make_bandwidth in M. apply rbind_refuse_Ok in M as [G M]. apply rbind_refuse_Ok in M as [H M]. injection M as ->.
  rewrite Z.gtb_ltb in H. apply Z.leb_gt in G. apply Z.ltb_ge in H. unfold bandwidth_ok, i64_ok, kMaxBandwidthBps in *. cbn [bps]. bool_goal; lia.
Qed.

Lemma zeroable_ok text n : parse_zeroable_bandwidth text = Ok n -> bandwidth_ok (mkBandwidth n) = true.
Proof.
  unfold parse_zeroable_bandwidth. intros E. apply rbind_Ok in E as (v & U%decimal_ok & E). apply rbind_refuse_Ok in E as [G E].
  injection E as ->. rewrite Z.gtb_ltb in G. apply Z.ltb_ge in G. unfold u_ok, bandwidth_ok, i64_ok, kMaxBandwidthBps in *. cbn [bps]. bool_prop.
  bool_goal; lia.
Qed.

Lemma fraction_loop_ok s : forall nanos digits n d tail,
  0 <= nanos -> fraction_loop s nanos digits = Ok (n, d, tail) -> 0 <= n.
Proof.
  induction s as [|ch s IH]; intros nanos digits n d tail P; cbn [fraction_loop]; [now intros [= <- _ _]|].
  destruct (is_digit ch) eqn:D; [|now intros [= <- _ _]]. destruct (9 <=? digits)%nat; [discriminate|]. apply IH.
  unfold is_digit in D. bool_prop. lia.
Qed.

Lemma timestamp_ok text t : parse_timestamp text = Ok t -> ts_ok t = true.
Proof.
  unfold parse_timestamp. intros E. do 2 apply rbind_refuse_Ok in E as [_ E].
  do 6 (destruct (parse_fixed_digits text _ _) as [?|]; [|discriminate]).
  apply rbind_Ok in E as ([nanos tail] & F & E). do 4 apply rbind_refuse_Ok in E as [_ E]. cbv zeta in E.
  apply rbind_refuse_Ok in E as [G E]. apply rbind_refuse_Ok in E as [H E]. injection E as <-.
  assert (0 <= nanos) as P.
  { unfold parse_fraction in F. destruct (skipn 19 text) as [|ch s]; [now injection F as <- _|].
    destruct (byte_eqb ch _); [|now injection F as <- _]. apply rbind_Ok in F as ([[n d] rest] & L & F). apply rbind_refuse_Ok in F as [_ F].
    injection F as <- _. apply fraction_loop_ok in L; [|lia]. clear -L. induction (9 - d)%nat as [|k IH]; [exact L | change (0 <= Nat.iter k (fun m => m * 10) n * 10); lia]. }
  apply Z.ltb_ge in G. rewrite Z.gtb_ltb in H. apply Z.ltb_ge in H. unfold ts_ok, i64_ok, kMaxTimestampNs, kNsPerSecond in *. cbn [ns]. bool_goal; lia.
Qed.

Lemma name_given {cap} text (n : FixedName cap) : name_from_string text = Ok n -> name_ok n = true.
Proof.
  intros E. pose proof (name_from_string_view _ _ E) as V. unfold name_ok. rewrite V, E. apply orb_true_r.
Qed.

Lemma decodes_whole {A} (enc : A -> bytes) (dec : rd A) (wf : A -> bool) `{!Codec enc dec wf} v :
  wf v = true -> dec (enc v) = Ok (v, []).
Proof. intros W. rewrite <- (app_nil_r (enc v)). now apply codec_roundtrip. Qed.

Lemma authority_ok x : wf_RequestContext x = true -> wf_RequestContext (as_authority x) = true.
Proof. destruct x. unfold wf_RequestContext. cbn -[text_ok]. intros W. split_andb. bool_goal; try assumption; reflexivity. Qed.

Lemma operator_ok x : wf_RequestContext x = true -> wf_RequestContext (as_operator x) = true.
Proof. destruct x. unfold wf_RequestContext. cbn -[text_ok]. intros W. split_andb. bool_goal; try assumption; reflexivity. Qed.

Lemma probe_terms_ok x r from to a p class :
  wf_RequestContext x = true -> name_ok r = true -> ts_ok from = true -> ts_ok to = true ->
  bandwidth_ok (mkBandwidth a) = true -> name_ok p = true -> wf_ReservationTerms (probe_terms x r from to a p class) = true.
Proof.
  unfold wf_RequestContext. intros W R F T A P. split_andb. unfold wf_ReservationTerms, probe_terms, interval_ok, list_ok. cbn -[name_ok].
  rewrite R, F, T, A, P. bool_goal; first [assumption | reflexivity | vm_compute; discriminate].
Qed.

Lemma seed_policy_ok name generation ttl :
  name_ok name = true -> u_ok 64 generation = true -> i64_ok ttl = true -> wf_PolicyRecord (seed_policy name generation ttl) = true.
Proof.
  intros N G T. unfold wf_PolicyRecord, seed_policy, strict_default, counter_ok, dur_ok. cbn -[name_ok u_ok i64_ok]. rewrite N, G, T. reflexivity.
Qed.

Lemma attempt_ok x : wf_RequestContext x = true -> id_ok (rq_attempt x) = true.
Proof. unfold wf_RequestContext. intros W. now split_andb. Qed.

Lemma list_ok_one {A} (wf : A -> bool) a : wf a = true -> list_ok wf [a] = true.
Proof. unfold list_ok. cbn. intros ->. reflexivity. Qed.

(** Well-formedness of a request from that of its parts. *)
Ltac in_range :=
  first [ assumption
        | lazymatch goal with
          | |- wf_ReservationTerms (probe_terms _ _ _ _ _ _ _) = true => apply probe_terms_ok
          | |- wf_PolicyRecord (seed_policy _ _ _) = true => apply seed_policy_ok
          | |- wf_RequestContext (as_authority _) = true => apply authority_ok
          | |- wf_RequestContext (as_operator _) = true => apply operator_ok
          | |- list_ok _ [_] = true => apply list_ok_one; cbn [rc_resource rc_generation reservable_capacity protected_headroom failure_domain failure_domain_generation maintenance value]; bool_goal
          | |- name_ok _ = true => first [eapply name_given; eassumption | reflexivity]
          | |- id_ok (derive _ _) = true => apply derive_ok
          | |- id_ok (seeded _ _) = true => apply derive_ok
          | |- id_ok (rq_attempt _) = true => eapply attempt_ok; eassumption
          | |- id_ok _ = true => first [eapply from_hex_ok; eassumption | reflexivity]
          | |- bandwidth_ok _ = true => first [eapply amount_ok; eassumption | eapply zeroable_ok; eassumption | reflexivity]
          | |- u_ok 64 _ = true => first [eapply stoull_ok; eassumption | reflexivity]
          | |- interval_ok (mkInterval _ _) = true => apply andb_true_iff; split
          end
        | reflexivity ].

Ltac well_formed :=
  unfold wf_ReservationCreateRequest, wf_HoldAcquireRequest, wf_QueryRequest, wf_AttemptRequest, wf_ReservationRefRequest,
    wf_FenceRequest, wf_LifecycleReconcileRequest, wf_PolicyIngestRequest, wf_CapacityIngestRequest, wf_CapacitySnapshot, wf_ResourceCapacity, counter_ok;
  cbn -[name_ok wf_RequestContext wf_ReservationTerms id_ok interval_ok bandwidth_ok wf_PolicyRecord nil_id seeded u_ok ts_ok i64_ok as_authority as_operator
        probe_terms seed_policy];
  bool_goal; repeat in_range.


(** ** Ways to tell what it does

    A property of actions that holds of the ends without a request and passes
    through what is printed and the readings of the clock holds of an action
    built with the combinators when it holds of what follows them. *)
Definition early (e : Ending) : Prop := e = exits 1 \/ e = throws \/ e = undefined.

Class Tale (P : Act -> Prop) : Prop := {
  tale_end : forall e, early e -> P (Done e);
  tale_say : forall l next, P next -> P (Say l next);
  tale_now : forall next, (forall t, P (next t)) -> P (Now next) }.

Section tale.
Context (P : Act -> Prop) `{!Tale P}.

Lemma tale_fail m : P (fail m).
Proof. apply tale_say, tale_end. now left. Qed.
Lemma tale_need {A} (r : Result A) m k : (forall a, r = Ok a -> P (k a)) -> P (need r m k).
Proof. destruct r as [a|e]; intros H; [now apply H|]. apply tale_say, tale_end. now left. Qed.
Lemma tale_unwrap {A} (r : Result A) k : (forall a, r = Ok a -> P (k a)) -> P (unwrap r k).
Proof. destruct r as [a|e]; intros H; [now apply H|]. apply tale_end. right. now right. Qed.
Lemma tale_number o k : (forall n, o = Some n -> P (k n)) -> P (number o k).
Proof. destruct o as [n|]; intros H; [now apply H|]. apply tale_end. right. now left. Qed.
Lemma tale_within z k : (i64_ok z = true -> P (k z)) -> P (within_i64 z k).
Proof. unfold within_i64. destruct (i64_ok z); intros H; [now apply H|]. apply tale_end. right. now right. Qed.
Lemma tale_decoded {A} (dec : rd A) f m k : (forall a, P (k a)) -> P (decoded dec f m k).
Proof. unfold decoded. intros H. destruct (dec _) as [[a s]|e]; [apply H | apply tale_fail]. Qed.

Lemma tale_error f : P (report_error f).
Proof. unfold report_error. destruct (decode_ErrorResponse _) as [[r s]|e]; apply tale_fail. Qed.

Lemma tale_instant text m k : (forall t, ts_ok t = true -> P (k t)) -> P (need_instant text m k).
Proof.
  intros H. unfold need_instant, parse_instant.
  assert (P (need (parse_timestamp text) m k)) as Plain.
  { apply tale_need. intros t E. exact (H t (timestamp_ok _ _ E)). }
  destruct text as [|b rest]; [exact Plain|]. destruct (byte_eqb b x2b); [|exact Plain].
  destruct (parse_uint64_decimal rest) as [n|e]; [|apply tale_need; discriminate]. apply tale_now. intros now.
  apply tale_within. intros _. apply tale_within. intros B. exact (H (mkTs _) B).
Qed.

Lemma tale_given o text tag k : (forall i, id_ok i = true -> P (k i)) -> P (given_or_seeded o text tag k).
Proof.
  intros H. unfold given_or_seeded. destruct text as [|b text]; [apply H, derive_ok|]. apply tale_unwrap. intros i E.
  exact (H i (from_hex_ok _ _ E)).
Qed.

Lemma tale_context o epoch a b k :
  counter_ok epoch = true -> (forall x, wf_RequestContext x = true -> P (k x)) -> P (make_context o epoch a b k).
Proof.
  intros C H. unfold make_context. apply tale_given. intros i Oi. cbv zeta.
  assert (forall e : FabricEpoch, counter_ok e = true -> P (given_or_seeded o b tag_attempt (fun attempt =>
    k (mkRequestContext (mkName (str "brf-probe")) (seeded o tag_publisher) (seeded o tag_boot) (seeded o tag_session) attempt i
         (mkCounter 1) e (str "brf-probe"))))) as W.
  { intros e Ce. apply tale_given. intros j Oj. apply H. unfold wf_RequestContext.
    cbn [rq_actor rq_publisher rq_publisher_boot rq_session rq_attempt rq_claimant rq_claimant_generation asserted_epoch rq_reason].
    unfold seeded. rewrite !derive_ok, Oi, Oj, Ce. reflexivity. }
  destruct (argument o _ _) as [|ch text]; [now apply W|]. apply tale_number. intros n E. apply W. exact (stoull_ok _ _ E).
Qed.

End tale.

Ltac utter :=
  repeat (lazymatch goal with
  | |- ?P (need _ _ _) => apply (tale_need P); intros ? ?
  | |- ?P (unwrap _ _) => apply (tale_unwrap P); intros ? ?
  | |- ?P (number _ _) => apply (tale_number P); intros ? ?
  | |- ?P (within_i64 _ _) => apply (tale_within P); intros ?
  | |- ?P (need_instant _ _ _) => apply (tale_instant P); intros ? ?
  | |- ?P (make_context _ _ _ _ _) => apply (tale_context P); [assumption | intros ? ?]
  | |- ?P (decoded _ _ _ _) => apply (tale_decoded P); intros ?
  | |- ?P (fail _) => apply (tale_fail P)
  | |- ?P (if ?b then _ else _) => destruct b
  | |- ?P (match ?r with Ok _ => _ | Err _ => _ end) => destruct r
  end; cbv zeta).

Section play.
Context (describe : Frame -> Coordinator -> bytes).

(** ** What the probe says

    The frames of the probe carry requests the server can decode. *)
Definition understood (f : Frame) : bool :=
  match fr_type f with
  | mt_kHello => has_value (decode_HelloRequest (fr_payload f))
  | mt_kStats => true
  | _ => match request_of f with Some _ => true | None => false end
  end.

(** Whatever it is answered, it sends nothing else. *)
Fixpoint speaks (a : Act) : Prop :=
  match a with
  | Done _ => True
  | Say _ next | Sleep next => speaks next
  | Connect _ next => forall r, speaks (next r)
  | Exchange t payload next => understood (mkFrame t payload) = true /\ forall r, speaks (next r)
  | Now next => forall t, speaks (next t)
  | Draw next => forall i, id_ok i = true -> speaks (next i)
  end.

#[local] Instance speaks_tale : Tale speaks.
Proof. split; [intros; exact I | auto | auto]. Qed.

Lemma speaks_request t payload m k :
  understood (mkFrame t payload) = true -> (forall f, speaks (k f)) -> speaks (request t payload m k).
Proof.
  intros U H. split; [exact U|]. intros r. apply (tale_need speaks). intros f _. destruct (beq _ _); [apply tale_error; exact _ | apply H].
Qed.

Lemma speaks_commit_lines hangs r : speaks (commit_lines hangs r).
Proof. unfold commit_lines. destruct hangs; exact I. Qed.

(** The frame of a well-formed request is understood. *)
Ltac understand :=
  unfold understood; cbn [fr_type fr_payload]; unfold request_of; cbn [fr_type]; unfold asked; cbn [fr_payload];
  erewrite decodes_whole; [reflexivity | typeclasses eauto|].

Ltac speak :=
  repeat (first [ progress utter
  | lazymatch goal with
    | |- speaks (request _ _ _ _) => apply speaks_request; [understand | intros ?]
    | |- speaks (commit_lines _ _) => apply speaks_commit_lines
    | |- speaks (Now _) => intros ?
    | |- speaks (say _ (Done _)) => exact I
    end ]).

Lemma speaks_commit o hangs epoch : counter_ok epoch = true -> speaks (run_commit o hangs epoch).
Proof. intros C. unfold run_commit. speak; well_formed. Qed.

Lemma speaks_hold o epoch : counter_ok epoch = true -> speaks (run_hold o epoch).
Proof. intros C. unfold run_hold. speak; well_formed. Qed.

Lemma speaks_seed o epoch : counter_ok epoch = true -> speaks (run_seed o epoch).
Proof. intros C. unfold run_seed. speak; well_formed. Qed.

Lemma speaks_remaining o epoch : counter_ok epoch = true -> speaks (run_remaining o epoch).
Proof.
  intros C. unfold run_remaining. speak; [well_formed|]. induction (rmr_resources _) as [|e l IH]; [exact I | exact IH].
Qed.

Lemma speaks_others o epoch : counter_ok epoch = true ->
  speaks (run_reconcile o epoch) /\ speaks (run_release o epoch) /\ speaks (run_fence_session o epoch) /\
  speaks (run_session_release o epoch).
Proof.
  intros C. unfold run_reconcile, run_release, run_fence_session, run_session_release.
  repeat split; speak; well_formed.
Qed.

Lemma speaks_stats : speaks run_stats.
Proof. unfold run_stats. apply speaks_request; [reflexivity | intros f]. now speak. Qed.

Lemma speaks_command o epoch : counter_ok epoch = true -> speaks (run_command o epoch).
Proof.
  intros C. destruct (speaks_others o epoch C) as (A & B & D & E). pose proof speaks_stats.
  unfold run_command. repeat (match goal with |- speaks (if ?b then _ else _) => destruct b end);
    try assumption; first [now apply speaks_seed | now apply speaks_commit | now apply speaks_remaining | now apply speaks_hold | exact I].
Qed.

Lemma greeted_ok f h : greeted f = Ok h -> counter_ok (ha_epoch h) = true.
Proof.
  unfold greeted. intros E. apply rbind_Ok in E as ([h' rest] & E & [= ->]). apply codec_canonical in E as [_ W].
  unfold wf_HelloResponse in W. now split_andb.
Qed.

Lemma speaks_hello k : (forall h, counter_ok (ha_epoch h) = true -> speaks (k h)) -> speaks (hello k).
Proof.
  intros H i Oi. split.
  - unfold understood, greeting_of. cbn [fr_type fr_payload]. erewrite decodes_whole; [reflexivity | typeclasses eauto|].
    unfold wf_HelloRequest. cbn [hl_protocol_version client client_name]. now rewrite Oi.
  - intros r. apply (tale_need speaks). intros f _. destruct (beq _ _); [|exact I]. apply (tale_need speaks). intros h G.
    exact (H h (greeted_ok f h G)).
Qed.

Lemma speaks_probe args : speaks (probe args).
Proof.
  unfold probe. destruct (parse_options args default_options_) as [o| | |token]; try exact I.
  destruct (_ || _); [exact I|]. cbn [print_identity say speaks]. intros r. apply (tale_need speaks). intros u _. apply speaks_hello.
  intros h C. exact (speaks_command o (ha_epoch h) C).
Qed.

(** ** The server under a probe *)
Definition named (t : MessageType) : bool := message_type_ok t && u_ok 16 (MessageType_to_Z t).
Definition reply_fits (r : Reply) : bool := kFrameHeaderBytes + Z.of_nat (length r.2) <=? kMaxFrameBytes.

Lemma understood_named t payload :
  understood (mkFrame t payload) = true -> named t = true /\ asks_shutdown (mkFrame t payload) = false.
Proof. destruct t; intros U; first [discriminate U | split; reflexivity]. Qed.

(** What one side writes the other reads, when it is not too long. *)
Lemma written_is_read r :
  named r.1 = true ->
  match write_frame r.1 r.2 with
  | Ok b => if reply_fits r then read_frame kMaxFrameBytes b = Ok (mkFrame r.1 r.2, []) else has_value (read_frame kMaxFrameBytes b) = false
  | Err _ => reply_fits r = false
  end.
Proof.
  destruct r as [t p]. unfold named, reply_fits. cbn [fst snd]. intros [T U]%andb_true_iff. unfold write_frame. rewrite Z.gtb_ltb.
  destruct (Z.ltb_spec kMaxFrameBytes (Z.of_nat (length p))) as [L|L]; cbn [refuse rbind].
  - apply Z.leb_gt. unfold kFrameHeaderBytes. lia.
  - destruct (Z.leb_spec (kFrameHeaderBytes + Z.of_nat (length p)) kMaxFrameBytes) as [B|B].
    + rewrite encode_frame_header, <- (app_nil_r (encode_header _ ++ p)), <- app_assoc. apply read_encoded_frame; try assumption.
      unfold frame_fits, u_ok, kMaxFrameBytes, kFrameHeaderBytes in *. bool_goal; lia.
    + destruct (largest_frames_unreadable t p []) as (b & W & R); [lia | exact U|]. unfold write_frame in W.
      rewrite Z.gtb_ltb in W. apply Z.ltb_ge in L. rewrite L in W. injection W as <-. rewrite app_nil_r in R. now rewrite R.
Qed.

(** A request is lost, or the server runs it; then its answer arrives when it
    fits a frame. *)
Lemma exchange_spec t payload s :
  named t = true -> asks_shutdown (mkFrame t payload) = false ->
  let '(r, fs, s') := exchange describe t payload s in
  listening s' = listening s /\ draws s' = draws s /\ time s' = time s /\
  (fs = [] /\ peer s' = peer s /\ has_value r = false \/
   let '(reply, c) := dispatch describe (mkFrame t payload) (peer s) in
   fs = [mkFrame t payload] /\ peer s' = c /\
   (named reply.1 = true -> if reply_fits reply then r = Ok (mkFrame reply.1 reply.2) else has_value r = false)).
Proof.
  intros N S. pose proof (written_is_read (t, payload) N) as R. cbn [fst snd] in R.
  unfold exchange. destruct (write_frame t payload) as [b|e]; [|repeat split; now left].
  destruct (line_open s); [|repeat split; now left]. unfold turn, took. cbn [unread written].
  destruct (read_frame kMaxFrameBytes b) as [[f rest]|e] eqn:F.
  2: { cbn [leave written]. repeat split. left. split; [reflexivity | split; [reflexivity|]]. reflexivity. }
  destruct (reply_fits (t, payload)); [|discriminate R]. injection R as -> ->.
  unfold asks_shutdown in S. rewrite S. destruct (dispatch describe (mkFrame t payload) (peer s)) as [[t1 p1] c].
  destruct (write_frame t1 p1) as [b1|e] eqn:W; cbn [written app peer listening draws time]; repeat split; right; (split; [reflexivity | split; [reflexivity|]]);
    intros N1; pose proof (written_is_read (t1, p1) N1) as R1; cbn [fst snd] in *; rewrite W in R1.
  - destruct (reply_fits (t1, p1)); [now rewrite R1|]. destruct (read_frame kMaxFrameBytes b1) as [[f r]|e]; [discriminate R1 | reflexivity].
  - rewrite R1. reflexivity.
Qed.

Lemma play_runs a : forall s, speaks a -> Forall (fun i => id_ok i = true) (draws s) ->
  let r := play describe a s in
  peer (left_behind r) = run (requests_of (frames r)) (peer s) /\ Forall (fun f => understood f = true) (frames r).
Proof.
  induction a as [e|l next IH|p next IH|t payload next IH|next IH|next IH|next IH]; intros s S D; cbn [play speaks] in *.
  - split; [reflexivity | constructor].
  - exact (IH s S D).
  - exact (IH _ s (S _) D).
  - destruct S as [U S]. destruct (understood_named _ _ U) as [N Sd]. pose proof (exchange_spec t payload s N Sd) as X. destruct (exchange describe t payload s) as [[r fs] s'].
    destruct X as (_ & Dr & _ & X). specialize (IH r s' (S r)). rewrite Dr in IH. destruct (IH D) as [P F]. cbn [left_behind frames].
    pose proof (dispatch_state describe (mkFrame t payload) (peer s)) as Ds.
    destruct X as [(-> & E & _)|X]; [now rewrite <- E|]. destruct (dispatch describe _ _) as [reply c]. destruct X as (-> & E & _).
    rewrite requests_of_app, requests_one. split; [|constructor; assumption].
    rewrite P, E. cbn [snd] in Ds. rewrite Ds. unfold run. now rewrite fold_left_app.
  - destruct (clock_read (time s)) as [now k]. exact (IH now (mkScene (listening s) (peer s) (line_open s) k (draws s)) (S now) D).
  - destruct (draws s) as [|i l] eqn:Ed; [apply IH; [now apply S | now rewrite Ed]|]. inversion D as [|? ? Oi Dl]. subst.
    exact (IH i (mkScene (listening s) (peer s) (line_open s) (time s) l) (S i Oi) Dl).
  - exact (IH s S D).
Qed.

(** C20. A probe is a client like any other.  Whatever the arguments, the clock and
    the server: every frame of the probe the server takes is a greeting, a query
    for the statistics or a request its decoder accepts, for the contexts, terms,
    policies and snapshots the probe makes of its arguments are within the bounds
    of the codec; and all the probe does to the server is run these requests. *)
Theorem probe_is_understood args s :
  Forall (fun i => id_ok i = true) (draws s) ->
  let r := play describe (probe args) s in
  peer (left_behind r) = run (requests_of (frames r)) (peer s) /\ Forall (fun f => understood f = true) (frames r).
Proof. exact (play_runs (probe args) s (speaks_probe args)). Qed.


(** ** Exit codes *)

(** A greeting changes nothing. *)
Lemma exchange_hello payload s : let '(_, _, s') := exchange describe mt_kHello payload s in peer s' = peer s.
Proof.
  pose proof (exchange_spec mt_kHello payload s eq_refl eq_refl) as X. destruct (exchange describe mt_kHello payload s) as [[r fs] s'].
  destruct X as (_ & _ & _ & X). pose proof (dispatch_state describe (mkFrame mt_kHello payload) (peer s)) as D.
  destruct (dispatch describe _ _) as [reply c]. destruct X as [(_ & -> & _)|(_ & -> & _)]; [reflexivity | exact D].
Qed.

(** From the server state [c] on, the action ends in [Q], whatever the clock and
    the session. *)
Definition always (Q : Ending -> Coordinator -> Prop) (c : Coordinator) (a : Act) : Prop :=
  forall s, peer s = c -> Q (finish (play describe a s)) (peer (left_behind (play describe a s))).

Section always.
Context (Q : Ending -> Coordinator -> Prop) (c : Coordinator) (Early : forall e, early e -> Q e c).

#[local] Instance always_tale : Tale (always Q c).
Proof.
  split.
  - intros e E s <-. now apply Early.
  - intros l next H s E. exact (H s E).
  - intros next H s E. cbn [play]. destruct (clock_read (time s)) as [now k].
    exact (H now (mkScene (listening s) (peer s) (line_open s) k (draws s)) E).
Qed.

(** A request the server may lose, run without its answer arriving, or answer. *)
Lemma always_request t payload m k :
  named t = true -> asks_shutdown (mkFrame t payload) = false ->
  (let '(reply, c') := dispatch describe (mkFrame t payload) c in
   named reply.1 = true /\ (reply_fits reply = false -> Q (exits 1) c') /\
   if beq reply.1 mt_kError then Q (exits 1) c' else always Q c' (k (mkFrame reply.1 reply.2))) ->
  always Q c (request t payload m k).
Proof.
  intros Nt Sd K s E. assert (Q (exits 1) c) as H by (apply Early; now left). unfold request. cbn [play]. pose proof (exchange_spec t payload s Nt Sd) as X.
  destruct (exchange describe t payload s) as [[r fs] s']. rewrite E in X. destruct X as (_ & _ & _ & X). cbn [finish left_behind].
  destruct (dispatch describe (mkFrame t payload) c) as [reply c']. destruct K as (N & L & K).
  destruct X as [(-> & P & V)|(-> & P & X)]; [destruct r as [f|e]; [discriminate V|]; cbn; now rewrite P|].
  specialize (X N). destruct (reply_fits reply); [|destruct r as [f|e]; [discriminate X|]; cbn; rewrite P; now apply L].
  rewrite X. cbn [need fr_type]. destruct (beq reply.1 mt_kError); [|now apply K].
  unfold report_error. destruct (decode_ErrorResponse _) as [[r0 rest]|e]; cbn; now rewrite P.
Qed.

Lemma always_greet client k : (forall h, counter_ok (ha_epoch h) = true -> always Q c (k h)) -> always Q c (greet client k).
Proof.
  intros K s E. unfold greet. cbn [play]. pose proof (exchange_hello (greeting_of client) s) as P.
  destruct (exchange describe mt_kHello (greeting_of client) s) as [[r fs] s']. rewrite E in P. cbn [finish left_behind].
  refine ((_ : always Q c (need r _ _)) s' P). apply (tale_need (always Q c)). intros f _.
  destruct (beq _ _); [|apply tale_say, tale_end; now left]. apply (tale_need (always Q c)). intros h G. exact (K h (greeted_ok f h G)).
Qed.

Lemma always_draw next : (forall i, always Q c (next i)) -> always Q c (Draw next).
Proof.
  intros H s E. cbn [play]. destruct (draws s) as [|i l]; [exact (H nil_id s E)|].
  exact (H i (mkScene (listening s) (peer s) (line_open s) (time s) l) E).
Qed.

Lemma always_hello k : (forall h, counter_ok (ha_epoch h) = true -> always Q c (k h)) -> always Q c (hello k).
Proof. intros K. apply (always_draw (fun client => greet client k)). intros i. exact (always_greet i k K). Qed.

End always.

(** How [commit] ends: short of asking, with the server as it was; or with the
    code of the decision on a request of its arguments. *)
Definition commit_ends (o : Options) (c : Coordinator) (e : Ending) (c' : Coordinator) : Prop :=
  c' = c /\ early e \/
  exists x t id,
    parse_amount (option_text o "--amount" "1000000000") = Ok (bps (amount t)) /\
    resources t = [mkName (option_text o "--resource" "r1")] /\ claimant t = rq_claimant x /\
    let (answer, c1) := create_locked x t id false [] c in
    c' = c1 /\
    match answer with
    | Err _ => e = exits 1
    | Ok r =>
        wf_CommitResponse (mkCommitResponse (ar_outcome (cr_report r)) (explanation (cr_report r)) r) = true ->
        reply_fits (commit_response r) = true ->
        e = exits (if beq (ar_outcome (cr_report r)) ao_kCommittable then 0 else 3)
    end.

Lemma commit_ends_early o c e : early e -> commit_ends o c e c.
Proof. intros H. now left. Qed.

Lemma always_commit_request o x t id m c :
  wf_ReservationCreateRequest (mkReservationCreateRequest x t id false []) = true ->
  parse_amount (option_text o "--amount" "1000000000") = Ok (bps (amount t)) ->
  resources t = [mkName (option_text o "--resource" "r1")] -> claimant t = rq_claimant x ->
  always (commit_ends o c) c (request mt_kCommit (encode_ReservationCreateRequest (mkReservationCreateRequest x t id false [])) m (fun f =>
    decoded decode_CommitResponse f (str "undecodable commit response") (commit_lines false))).
Proof.
  intros W A R C. apply always_request; [apply commit_ends_early | reflexivity | reflexivity|].
  unfold dispatch. cbn [fr_type]. unfold on_commit, on_request. cbn [fr_payload fr_type]. erewrite decodes_whole; [|typeclasses eauto | exact W].
  cbn [rcr_context rcr_terms rcr_requested_id rcr_dry_run consume_holds]. change (beq mt_kCommit mt_kValidate || false) with false.
  unfold answer. assert (forall e c', (let (answer, c1) := create_locked x t id false [] c in
    c' = c1 /\ match answer with
    | Err _ => e = exits 1
    | Ok r =>
        wf_CommitResponse (mkCommitResponse (ar_outcome (cr_report r)) (explanation (cr_report r)) r) = true ->
        reply_fits (commit_response r) = true -> e = exits (if beq (ar_outcome (cr_report r)) ao_kCommittable then 0 else 3)
    end) -> commit_ends o c e c') as Asked.
  { intros e c' H. right. exists x, t, id. auto. }
  destruct (create_locked x t id false [] c) as [[r|e] c'].
  - split; [reflexivity|]. split; [intros L; apply Asked; split; [reflexivity | intros _ F; now rewrite L in F]|].
    change (beq (commit_response r).1 mt_kError) with false. cbv iota. intros s E. unfold decoded. cbn [fr_payload commit_response snd].
    destruct (decode_CommitResponse _) as [[q rest]|e] eqn:D.
    + cbn [play commit_lines say finish left_behind]. rewrite E. apply Asked. split; [reflexivity|]. intros Wr _.
      erewrite decodes_whole in D; [|typeclasses eauto | exact Wr]. injection D as <- _. reflexivity.
    + cbn [play fail say finish left_behind]. rewrite E. apply Asked. split; [reflexivity|]. intros Wr _.
      erewrite decodes_whole in D; [discriminate | typeclasses eauto | exact Wr].
  - split; [reflexivity|]. split; [intros _|]; now apply Asked.
Qed.

Lemma always_commit o epoch c : counter_ok epoch = true -> always (commit_ends o c) c (run_commit o false epoch).
Proof.
  intros C. pose proof (always_tale (commit_ends o c) c (commit_ends_early o c)) as T. unfold run_commit. utter;
    (apply always_commit_request; [well_formed | cbn; assumption | | reflexivity]);
    match goal with E : name_from_string (option_text _ "--resource" _) = Ok _ |- _ => now rewrite (proj1 (name_from_string_id _ _ E)) end.
Qed.

Lemma commit_command o epoch : command o = str "commit" -> run_command o epoch = run_commit o false epoch.
Proof. intros C. unfold run_command, is_command. rewrite C. reflexivity. Qed.

(** C19. The exit code of [probe commit] is the decision of the server.  Whatever
    the other arguments, the clock and the server, either the probe ends without
    having asked for anything, the server as it was, with code 1, an uncaught
    exception or an empty optional; or the server has run one create operation,
    for the amount and the one link of the arguments and the claimant of its
    context: then the probe exits with 1 when the operation is refused, and with
    0 or 3 as its outcome is COMMITTABLE or not, provided the answer is within
    the bounds of the codec and fits a frame. *)
Theorem probe_commit_exit args o s :
  parse_options args default_options_ = options_ok o -> command o = str "commit" ->
  let r := play describe (probe args) s in
  commit_ends o (peer s) (finish r) (peer (left_behind r)).
Proof.
  intros E C. unfold probe. rewrite E. destruct (_ || _); [apply commit_ends_early; now left|].
  pose proof (always_tale (commit_ends o (peer s)) (peer s) (commit_ends_early o (peer s))) as T.
  match goal with |- context [print_identity o ?a] => enough (always (commit_ends o (peer s)) (peer s) (print_identity o a)) as H by exact (H s eq_refl) end.
  do 3 apply tale_say. intros s1 E1. cbn [play].
  refine ((_ : always (commit_ends o (peer s)) (peer s) (need _ _ _)) s1 E1).
  apply tale_need; [exact T|]. intros u _. apply always_hello; [apply commit_ends_early|]. intros h W.
  do 2 apply tale_say. rewrite commit_command by exact C. now apply always_commit.
Qed.

(** ** Fencing *)

(** The fences of whole claimants stay. *)
Definition spares (c c' : Coordinator) : Prop := fenced_claimants (sessions c') = fenced_claimants (sessions c).

#[local] Instance spares_PreOrder : PreOrder spares.
Proof. split; [intros c; reflexivity | intros a b c E F; unfold spares in *; congruence]. Qed.

Lemma keeps_spares {A} (m : co A) : keeps idle m -> keeps spares m.
Proof.
  intros K c. destruct (K c) as [_ F]. apply (f_equal (fun t => t.2.2)) in F. apply guards_fields in F. apply F.
Qed.

Lemma spares_fence x g boot session wide : keeps spares (fence_locked x nil_id g boot session wide).
Proof.
  unfold fence_locked. apply keeps_bind; [exact _ | apply keeps_spares; frame | intros now].
  apply keeps_bind; [exact _ | apply keeps_spares; frame | intros _]. apply keeps_bind; [exact _ | apply keeps_spares; frame | intros _]. cbv zeta.
  apply keeps_bind; [exact _| |intros sq].
  { intros c. pose proof (append_moves (DFence (mkFenceMutation nil_id g boot session now (sanitize_reason (rq_reason x)) wide)) c) as [(_ & _ & S & _) _].
    unfold spares. now rewrite S. }
  apply keeps_bind; [exact _| |intros _; apply keeps_spares; unfold fence_holds_for_boot_locked, fence_holds_for_session_locked, fence_holds_for_claimant_locked; frame].
  apply keeps_modify. intros c. unfold spares, apply_fence. cbn [fm_claimant claimant_wide fm_boot sessions set_sessions].
  replace (wide && negb (is_nil nil_id)) with false by (symmetry; apply andb_false_r). destruct (negb (is_nil boot)); reflexivity.
Qed.

(** The option [--claimant-wide] of [fence-session] has no effect on the
    claimant: the probe never names one, so whatever the other arguments and the
    server, no claimant is fenced that was not fenced before. *)
Theorem claimant_wide_is_ignored o epoch s :
  counter_ok epoch = true ->
  fenced_claimants (sessions (peer (left_behind (play describe (run_fence_session o epoch) s)))) = fenced_claimants (sessions (peer s)).
Proof.
  intros C. set (Q := fun (_ : Ending) c' => spares (peer s) c'). assert (forall e, early e -> Q e (peer s)) as E by (intros e _; reflexivity).
  pose proof (always_tale Q (peer s) E) as T.
  enough (always Q (peer s) (run_fence_session o epoch)) as H by exact (H s eq_refl).
  unfold run_fence_session. utter. apply always_request; [exact E | reflexivity | reflexivity|].
  unfold dispatch. cbn [fr_type]. unfold on_fence, on_request. cbn [fr_payload]. erewrite decodes_whole; [|typeclasses eauto | well_formed].
  cbn [fr_context fr_claimant fr_claimant_generation fr_boot fr_session fr_claimant_wide]. unfold answer.
  match goal with |- context [fence_locked ?x nil_id ?g ?b ?ss ?w] => pose proof (spares_fence x g b ss w (peer s)) as K;
    destruct (fence_locked x nil_id g b ss w (peer s)) as [[u|e] c'] end; cbn [snd] in K.
  - split; [reflexivity | split; [intros _; exact K|]]. intros s1 <-. exact K.
  - split; [reflexivity | split; [intros _; exact K | exact K]].
Qed.

End play.

(** ** Witnesses

    A probe asks for 600 bit/s of a link of 1000, another one for the same. *)
Definition sample_scene (c : Coordinator) : Scene :=
  mkScene 7001 c true (mkClock (Sample.second 1000) []) [Sample.id_of 50].
Definition sample_args (seed_ : bytes) : list bytes :=
  [str "--port"; str "7001"; str "--seed"; seed_; str "commit"; str "--resource"; str "link"; str "--amount"; str "600";
   str "--policy"; str "policy"; str "--start"; str "+1000"; str "--end"; str "+2000"].
Definition parsed (args : list bytes) : Options :=
  match parse_options args default_options_ with options_ok o => o | _ => default_options_ end.
Definition probed (seed_ : bytes) (c : Coordinator) : Played := play no_text (probe (sample_args seed_)) (sample_scene c).
Definition after_probe : Coordinator := peer (left_behind (probed (str "1") Sample.ready)).

Lemma probe_is_understood_witness :
  length (frames (probed (str "2") after_probe)) = 2%nat /\
  let r := play no_text (probe (sample_args (str "2"))) (sample_scene after_probe) in
  peer (left_behind r) = run (requests_of (frames r)) (peer (sample_scene after_probe)) /\
  Forall (fun f => understood f = true) (frames r).
Proof.
  split; [vm_compute; reflexivity|].
  assert (Forall (fun i => id_ok i = true) (draws (sample_scene after_probe))) as D by (constructor; [reflexivity | constructor]).
  exact (probe_is_understood no_text (sample_args (str "2")) (sample_scene after_probe) D).
Defined.

Lemma probe_commit_exit_witness :
  finish (probed (str "1") Sample.ready) = exits 0 /\ finish (probed (str "2") after_probe) = exits 3 /\
  let r := play no_text (probe (sample_args (str "2"))) (sample_scene after_probe) in
  commit_ends (parsed (sample_args (str "2"))) (peer (sample_scene after_probe)) (finish r) (peer (left_behind r)).
Proof.
  do 2 (split; [vm_compute; reflexivity|]).
  assert (parse_options (sample_args (str "2")) default_options_ = options_ok (parsed (sample_args (str "2")))) as P by (vm_compute; reflexivity).
  assert (command (parsed (sample_args (str "2"))) = str "commit") as C by (vm_compute; reflexivity).
  exact (probe_commit_exit no_text (sample_args (str "2")) (parsed (sample_args (str "2"))) (sample_scene after_probe) P C).
Defined.

(** The boot of an incarnation is fenced, its claimant is not. *)
Definition fencing_args : list bytes :=
  [str "--port"; str "7001"; str "fence-session"; str "--boot"; to_hex (Sample.id_of 4); str "--session"; to_hex (Sample.id_of 5);
   str "--claimant-wide"].

Lemma claimant_wide_is_ignored_witness :
  has_argument (parsed fencing_args) (str "--claimant-wide") = true /\
  let s := sample_scene Sample.ready in
  let left := left_behind (play no_text (run_fence_session (parsed fencing_args) (mkCounter 1)) s) in
  map fst (fenced_boots (sessions (peer left))) = [Sample.id_of 4] /\
  fenced_claimants (sessions (peer left)) = fenced_claimants (sessions (peer s)).
Proof.
  split; [reflexivity|]. intros s left. split; [vm_compute; reflexivity|].
  exact (claimant_wide_is_ignored no_text (parsed fencing_args) (mkCounter 1) s (eq_refl true)).
Defined.

(** A probe told to release nothing reads an empty optional; one given a seed that
    is no number ends with an exception. *)
Example release_without_id :
  finish (play no_text (probe [str "--port"; str "7001"; str "release"]) (sample_scene Sample.ready)) = undefined /\
  finish (play no_text (probe [str "--seed"; str "one"]) (sample_scene Sample.ready)) = throws.
Proof. split; vm_compute; reflexivity. Qed.
