(* ===== verification/Transport.v ===== *)
(** * The sockets

    [src/transport.cpp] on a POSIX system: the calls of the kernel are the class
    [Kernel], the sending and receiving loops, frames over a socket, the objects
    that own a handle, listening, accepting and connecting.  [Protocol.read_frame]
    and [Protocol.write_frame] are the same frames over the bytes of a stream;
    here they come in the pieces the kernel chooses.  The text of an error
    ([last_socket_error]) is not modelled, nor are the Windows branches. *)
From stdpp Require Import gmap.
From S2P Require Import Prelude Errors Containers Identity Hash Bandwidth Time Authority Wire Policy Capacity Reservation Outcome SegTree Index Durable CodecBase Codec CodecReports Store Coordinator CoordRecords CoordPersist CoordAssess CoordLifecycle CoordCommit CoordOps CoordQuery CoordSample CoordSteps CoordJournal CoordGate Protocol Server.

(** ** The kernel

    What the calls return and what they do to the state [K] of the kernel.  A
    handle is an [int]; [recv] gives the bytes it placed in the buffer, none of
    them when the peer has closed, or fails; [getsockname] gives its status and
    the port. *)
Class Kernel (K : Type) := {
  sys_socket : K -> Z * K;
  sys_bind : Z -> Z -> K -> Z * K;
  sys_listen : Z -> Z -> K -> Z * K;
  sys_getsockname : Z -> K -> Z * Z * K;
  sys_accept : Z -> K -> Z * K;
  sys_connect : Z -> Z -> K -> Z * K;
  sys_setsockopt : Z -> K -> K;
  sys_send : Z -> bytes -> K -> Z * K;
  sys_recv : Z -> Z -> K -> option bytes * K;
  sys_close : Z -> K -> K }.

(** The kernel and the flag [g_transport_ready] of the process. *)
Record World (K : Type) := mkWorld { g_transport_ready : bool; kernel : K }.
Arguments mkWorld {K} _ _.
Arguments g_transport_ready {K} _.
Arguments kernel {K} _.

(** ** Handles *)
Definition kInvalidSocket : Z := -1.
Definition kInvalidHandle : Z := to_u 64 (-1).

Definition to_socket (handle : Z) : Z := (handle + 2 ^ 31) mod 2 ^ 32 - 2 ^ 31.

Definition from_socket (handle : Z) : Z := to_u 64 handle.

Definition socket_valid (handle : Z) : bool := negb (handle =? kInvalidSocket).

(** A handle the kernel gives out. *)
Definition descriptor (h : Z) : Prop := 0 <= h < 2 ^ 31.

Lemma to_from_socket h : descriptor h -> to_socket (from_socket h) = h.
Proof.
  unfold descriptor, to_socket, from_socket, to_u. intros D. rewrite (Z.mod_small h) by lia.
  rewrite Z.mod_small by lia. lia.
Qed.

Lemma from_socket_valid h : descriptor h -> from_socket h <> kInvalidHandle.
Proof. unfold descriptor, from_socket, kInvalidHandle, to_u. intros D. rewrite (Z.mod_small h) by lia. intros E.
  replace (-1 mod 2 ^ 64) with (2 ^ 64 - 1) in E by reflexivity. lia.
Qed.

(** [TcpSocket] and [TcpListener]. *)
Record TcpSocket := mkTcpSocket { handle_ : Z }.
Record TcpListener := mkTcpListener { lst_handle_ : Z; port_ : Z }.

Definition no_socket : TcpSocket := mkTcpSocket kInvalidHandle.
Definition no_listener : TcpListener := mkTcpListener kInvalidHandle 0.

Definition valid (s : TcpSocket) : bool := negb (handle_ s =? kInvalidHandle).

Definition lst_valid (l : TcpListener) : bool := negb (lst_handle_ l =? kInvalidHandle).

Definition adopt (handle : Z) : TcpSocket := mkTcpSocket handle.

Section transport.
Context {K : Type} `{!Kernel K}.

(** A call, and what runs behind one that may fail. *)
Definition IO (A : Type) : Type := World K -> A * World K.

Definition call {A} (f : K -> A * K) : IO A :=
  fun w => let (a, k) := f (kernel w) in (a, mkWorld (g_transport_ready w) k).

Definition command (f : K -> K) : IO unit := fun w => (tt, mkWorld (g_transport_ready w) (f (kernel w))).

Definition ret {A} (a : A) : IO A := fun w => (a, w).

Definition after_call {A B} (m : IO A) (k : A -> IO B) : IO B := fun w => let (a, w) := m w in k a w.

Definition attempt {A B} (m : IO (Result A)) (k : A -> IO (Result B)) : IO (Result B) :=
  after_call m (fun r => match r with Ok a => k a | Err e => ret (Err e) end).

#[local] Notation "'do' x <- m 'in' k" := (after_call m (fun x => k))
  (at level 10, x pattern, m at level 100, k at level 200).
#[local] Notation "'try' x <- m 'in' k" := (attempt m (fun x => k))
  (at level 10, x pattern, m at level 100, k at level 200).
#[local] Notation "'fail_if' c 'with' e 'in' k" := (if c then ret (Err e) else k)
  (at level 10, c at level 100, e at level 100, k at level 200).

Definition close_socket (handle : Z) : IO unit :=
  if socket_valid handle then command (sys_close handle) else ret tt.

(** ** Sending and receiving

    Every round of [send_all] sends a byte at least and every round of
    [receive_exact] receives one, so that as many rounds as bytes are enough
    ([send_all_eq], [receive_exact_eq]). *)
Fixpoint send_loop (rounds : nat) (handle : Z) (data : bytes) : IO Status :=
  match rounds, data with
  | S rounds, _ :: _ =>
      do chunk <- call (sys_send handle data) in
      fail_if chunk <=? 0 with kIo in
      send_loop rounds handle (skipn (Z.to_nat chunk) data)
  | _, _ => ret (Ok tt)
  end.

Definition send_all (handle : Z) (data : bytes) : IO Status := send_loop (length data) handle data.

Definition receive_some (handle size : Z) : IO (Result bytes) :=
  do received <- call (sys_recv handle size) in
  match received with
  | None => ret (Err kIo)
  | Some b => ret (Ok b)
  end.

(** [buffer]: what the rounds before have received. *)
Fixpoint receive_loop (rounds : nat) (handle size : Z) (buffer : bytes) : IO (Result bytes) :=
  match rounds with
  | O => ret (Ok buffer)
  | S rounds =>
      if Z.of_nat (length buffer) <? size then
        try chunk <- receive_some handle (size - Z.of_nat (length buffer)) in
        fail_if match chunk with [] => true | _ => false end with kCancelled in
        receive_loop rounds handle size (buffer ++ chunk)
      else ret (Ok buffer)
  end.

Definition receive_exact (handle size : Z) : IO (Result bytes) := receive_loop (Z.to_nat size) handle size [].

Definition transport_init : IO Status := fun w => (Ok tt, mkWorld true (kernel w)).

Definition transport_shutdown : IO unit := fun w => (tt, mkWorld false (kernel w)).

(** ** Frames over a socket *)
Definition write_bytes (s : TcpSocket) (data : bytes) : IO Status :=
  fail_if negb (valid s) with kIo in
  send_all (to_socket (handle_ s)) data.

Definition write_frame (s : TcpSocket) (t : MessageType) (payload : bytes) : IO Status :=
  fail_if Z.of_nat (length payload) >? kMaxFrameBytes with kResourceExhausted in
  write_bytes s (encode_frame t payload).

Definition read_exact (s : TcpSocket) (size : Z) : IO (Result bytes) :=
  fail_if negb (valid s) with kIo in
  receive_exact (to_socket (handle_ s)) size.

Definition read_frame (s : TcpSocket) (max_frame_bytes : Z) : IO (Result Frame) :=
  fail_if negb (valid s) with kIo in
  try header <- receive_exact (to_socket (handle_ s)) kFrameHeaderBytes in
  try fields <- ret (let? (fields, _) := decode_header header in Ok fields) in
  let '(magic, declared, checksum, type, version) := fields in
  fail_if negb (magic =? kFrameMagic) with kCorrupt in
  fail_if (declared <? kFrameHeaderBytes) || (declared >? max_frame_bytes) with kResourceExhausted in
  fail_if negb (version =? kWireProtocolVersion) with kUnsupported in
  let payload_size := declared - kFrameHeaderBytes in
  try payload <- (if payload_size >? 0 then receive_exact (to_socket (handle_ s)) payload_size else ret (Ok [])) in
  fail_if negb (crc32c payload =? checksum) with kCorrupt in
  ret (Ok (mkFrame (MessageType_of_Z type) payload)).

(** ** Owning a handle

    [move]: the new object and what it was made from.  [assign]: the target and
    the source after the assignment of two different objects. *)
Definition close (s : TcpSocket) : IO TcpSocket :=
  if valid s then do _ <- close_socket (to_socket (handle_ s)) in ret no_socket else ret s.

Definition destroy (s : TcpSocket) : IO unit := do _ <- close s in ret tt.

Definition move (other : TcpSocket) : TcpSocket * TcpSocket := (mkTcpSocket (handle_ other), no_socket).

Definition assign (this other : TcpSocket) : IO (TcpSocket * TcpSocket) :=
  do _ <- close this in ret (move other).

Definition lst_close (l : TcpListener) : IO TcpListener :=
  if lst_valid l then
    do _ <- close_socket (to_socket (lst_handle_ l)) in ret (mkTcpListener kInvalidHandle (port_ l))
  else ret l.

Definition lst_destroy (l : TcpListener) : IO unit := do _ <- lst_close l in ret tt.

Definition lst_move (other : TcpListener) : TcpListener * TcpListener :=
  (mkTcpListener (lst_handle_ other) (port_ other), no_listener).

Definition lst_assign (this other : TcpListener) : IO (TcpListener * TcpListener) :=
  do _ <- lst_close this in ret (lst_move other).

(** ** Listening, accepting, connecting *)
Definition kBacklog : Z := 64.

(** The handle is closed before the error is returned. *)
Definition give_up_on (handle : Z) {A} : IO (Result A) :=
  do _ <- close_socket handle in ret (Err kIo).

Definition bind_loopback (port : Z) : IO (Result TcpListener) :=
  try _ <- transport_init in
  do handle <- call sys_socket in
  fail_if negb (socket_valid handle) with kIo in
  do _ <- command (sys_setsockopt handle) in
  do bound <- call (sys_bind handle port) in
  if negb (bound =? 0) then give_up_on handle else
  do listening <- call (sys_listen handle kBacklog) in
  if negb (listening =? 0) then give_up_on handle else
  do (named, number) <- call (sys_getsockname handle) in
  if negb (named =? 0) then give_up_on handle else
  ret (Ok (mkTcpListener (from_socket handle) (to_u 16 number))).

Definition accept (l : TcpListener) : IO (Result TcpSocket) :=
  fail_if negb (lst_valid l) with kIo in
  do handle <- call (sys_accept (to_socket (lst_handle_ l))) in
  fail_if negb (socket_valid handle) with kIo in
  do _ <- command (sys_setsockopt handle) in
  ret (Ok (adopt (from_socket handle))).

Definition connect_loopback (port : Z) : IO (Result TcpSocket) :=
  try _ <- transport_init in
  do handle <- call sys_socket in
  fail_if negb (socket_valid handle) with kIo in
  do connected <- call (sys_connect handle port) in
  if negb (connected =? 0) then give_up_on handle else
  do _ <- command (sys_setsockopt handle) in
  ret (Ok (adopt (from_socket handle))).

(** ** A session over a socket

    [Session::serve] of [tools/brf_coordinator.cpp] reading and writing through
    the socket: the coordinator it leaves and whether a shutdown was asked for.
    [rounds] bounds the frames that are read. *)
Context (describe : Frame -> Coordinator -> bytes).

Fixpoint session (rounds : nat) (s : TcpSocket) (c : Coordinator) : IO (Coordinator * bool) :=
  match rounds with
  | O => ret (c, false)
  | S rounds =>
      do frame <- read_frame s kMaxFrameBytes in
      match frame with
      | Err _ => ret (c, false)
      | Ok f =>
          if beq (fr_type f) mt_kShutdown then
            let '(t, p) := send_status (str "shutdown accepted") in
            do _ <- write_frame s t p in ret (c, true)
          else
            let '((t, p), c) := dispatch describe f c in
            do written <- write_frame s t p in
            match written with
            | Err _ => ret (c, false)
            | Ok _ => session rounds s c
            end
      end
  end.

(** ** The loops *)
Lemma send_loop_enough rounds : forall handle data w,
  (length data <= rounds)%nat -> send_loop rounds handle data w = send_all handle data w.
Proof.
  unfold send_all. induction rounds as [rounds IH] using lt_wf_ind. intros handle data w L.
  destruct rounds as [|rounds]; [destruct data; [reflexivity | cbn in L; lia]|].
  destruct data as [|b data]; [reflexivity|]. cbn [length] in *. cbn [send_loop].
  unfold after_call. destruct (call _ w) as [chunk w1]. destruct (chunk <=? 0) eqn:N; [reflexivity|].
  apply Z.leb_gt in N. rewrite !(IH rounds) by (try rewrite length_skipn; cbn [length]; lia).
  destruct (decide (length data = rounds)) as [->|]; [now rewrite (IH rounds) by (try rewrite length_skipn; cbn [length]; lia)|].
  rewrite (IH (length data)) by (try rewrite length_skipn; cbn [length]; lia). reflexivity.
Qed.

(** The loop of [send_all]. *)
Lemma send_all_eq handle data w :
  send_all handle data w =
    match data with
    | [] => (Ok tt, w)
    | _ :: _ =>
        let (chunk, w) := call (sys_send handle data) w in
        if chunk <=? 0 then (Err kIo, w) else send_all handle (skipn (Z.to_nat chunk) data) w
    end.
Proof.
  destruct data as [|b data]; [reflexivity|]. unfold send_all at 1. cbn [length send_loop].
  unfold after_call. destruct (call _ w) as [chunk w1]. destruct (chunk <=? 0) eqn:N; [reflexivity|].
  apply Z.leb_gt in N. apply send_loop_enough. rewrite length_skipn. cbn [length]. lia.
Qed.

End transport.
Arguments IO K A : clear implicits.

(** ** What the kernel promises

    Of a connected stream socket: [incoming] is what the peer sends before it
    closes and was not received yet, [outgoing] what was sent to it.  Calls may
    move any number of bytes; they fail only if the connection may be reset. *)
Class Streams (K : Type) `{!Kernel K} := {
  connected : Z -> K -> Prop;
  incoming : Z -> K -> bytes;
  outgoing : Z -> K -> bytes;
  may_reset : Prop;
  recv_law h n k : connected h k -> 0 < n ->
    let (r, k') := sys_recv h n k in
    outgoing h k' = outgoing h k /\
    match r with
    | None => may_reset
    | Some b => connected h k' /\ incoming h k = b ++ incoming h k' /\ Z.of_nat (length b) <= n /\
        (b = [] -> incoming h k = [])
    end;
  send_law h data k : connected h k -> data <> [] ->
    let (n, k') := sys_send h data k in
    if n <=? 0 then may_reset /\ outgoing h k' = outgoing h k
    else connected h k' /\ n <= Z.of_nat (length data) /\ incoming h k' = incoming h k /\
      outgoing h k' = outgoing h k ++ firstn (Z.to_nat n) data }.

Section streams.
Context {K : Type} `{!Kernel K, !Streams K}.
Implicit Types w : World K.

Lemma send_all_spec h data w : connected h (kernel w) ->
  let (r, w') := send_all h data w in
  match r with
  | Ok _ => connected h (kernel w') /\ incoming h (kernel w') = incoming h (kernel w) /\
      outgoing h (kernel w') = outgoing h (kernel w) ++ data
  | Err e => may_reset /\ e = kIo /\ exists part, part `prefix_of` data /\ outgoing h (kernel w') = outgoing h (kernel w) ++ part
  end.
Proof.
  remember (length data) as n eqn:N. revert data w N. induction n as [n IH] using lt_wf_ind. intros data w -> C.
  rewrite send_all_eq. destruct data as [|b data]; [now rewrite app_nil_r|].
  pose proof (send_law h (b :: data) (kernel w) C ltac:(discriminate)) as L. unfold call.
  destruct (sys_send h (b :: data) (kernel w)) as [chunk k]. destruct (chunk <=? 0) eqn:P; cbn [kernel].
  { destruct L as [Re L]. split; [exact Re|]. split; [reflexivity|]. exists [].
    split; [apply prefix_nil | now rewrite app_nil_r]. }
  apply Z.leb_gt in P. destruct L as (C1 & M & I & O). set (rest := skipn (Z.to_nat chunk) (b :: data)).
  assert (length rest < length (b :: data))%nat as S by (unfold rest; rewrite length_skipn; cbn [length] in *; lia).
  specialize (IH _ S rest (mkWorld (g_transport_ready w) k) eq_refl C1). cbn [kernel] in IH. rewrite I, O in IH.
  destruct (send_all h rest _) as [[[]|e] w'].
  - unfold rest in IH. now rewrite <- app_assoc, firstn_skipn in IH.
  - destruct IH as (Re & -> & part & Pr & ->). split; [exact Re|]. split; [reflexivity|]. exists (firstn (Z.to_nat chunk) (b :: data) ++ part).
    split; [|now rewrite app_assoc]. rewrite <- (firstn_skipn (Z.to_nat chunk) (b :: data)) at 2. now apply prefix_app.
Qed.

(** The bytes of the stream in pieces: [receive_exact] gives what the stream
    model gives, unless a call fails. *)
Lemma receive_loop_spec h size : forall rounds buffer w,
  connected h (kernel w) -> (Z.to_nat size <= rounds + length buffer)%nat -> Z.of_nat (length buffer) <= size ->
  let (r, w') := receive_loop rounds h size buffer w in
  outgoing h (kernel w') = outgoing h (kernel w) /\
  (may_reset /\ r = Err kIo \/
   match Protocol.receive_exact (size - Z.of_nat (length buffer)) (incoming h (kernel w)) with
   | Ok (b, rest) => r = Ok (buffer ++ b) /\ connected h (kernel w') /\ incoming h (kernel w') = rest
   | Err e => r = Err e
   end).
Proof.
  unfold Protocol.receive_exact.
  assert (forall buffer w, Z.of_nat (length buffer) = size -> connected h (kernel w) ->
    match (if Z.of_nat (length (incoming h (kernel w))) <? size - Z.of_nat (length buffer) then Err kCancelled
           else Ok (firstn (Z.to_nat (size - Z.of_nat (length buffer))) (incoming h (kernel w)),
                    skipn (Z.to_nat (size - Z.of_nat (length buffer))) (incoming h (kernel w)))) with
    | Ok (b, rest) => Ok (buffer) = Ok (buffer ++ b) /\ connected h (kernel w) /\ incoming h (kernel w) = rest
    | Err e => @Ok bytes buffer = Err e
    end) as Full.
  { intros buffer w <- C. rewrite Z.sub_diag. destruct (_ <? 0) eqn:F; [blia|]. cbn. now rewrite app_nil_r. }
  induction rounds as [|rounds IH]; intros buffer w C R L.
  { cbn [receive_loop]. unfold ret. split; [reflexivity | right; apply Full; [lia | exact C]]. }
  cbn [receive_loop]. destruct (_ <? size) eqn:S.
  2: { unfold ret. split; [reflexivity | right; apply Full; [lia | exact C]]. }
  apply Z.ltb_lt in S. set (n := size - Z.of_nat (length buffer)) in *.
  pose proof (recv_law h n (kernel w) C ltac:(lia)) as Law. unfold attempt, after_call, receive_some, call, after_call.
  destruct (sys_recv h n (kernel w)) as [[b|] k]; cbn [kernel]; [|unfold ret; cbn [kernel]; split; [apply Law | left; split; [apply Law | reflexivity]]].
  destruct Law as (O & C1 & I & M & E). cbn [ret]. destruct b as [|x b].
  { cbn [kernel]. split; [exact O|]. right. rewrite (E eq_refl). unfold n. cbn [length].
    destruct (_ <? _) eqn:F; [reflexivity | blia]. }
  specialize (IH (buffer ++ x :: b) (mkWorld (g_transport_ready w) k) C1).
  rewrite length_app in IH. cbn [length kernel] in IH, M.
  specialize (IH ltac:(lia) ltac:(lia)). replace (size - _) with (n - Z.of_nat (length (x :: b))) in IH by (cbn [length]; lia).
  destruct (receive_loop _ _ _ _ _) as [r w']. rewrite O in IH. destruct IH as [-> IH]. split; [reflexivity|].
  destruct IH as [IH|IH]; [left; exact IH | right]. rewrite I. set (m := n - _) in IH.
  assert (n = Z.of_nat (length (x :: b)) + m) as Nm by (unfold m; lia).
  assert (0 <= m) as Pos by (unfold m; cbn [length]; lia). clearbody m. rewrite Nm, length_app.
  destruct (_ <? m) eqn:F; destruct (_ <? _ + m) eqn:G; try blia; [exact IH|].
  destruct IH as (-> & C2 & Rest). rewrite <- app_assoc.
  replace (Z.to_nat (Z.of_nat (length (x :: b)) + m)) with (length (x :: b) + Z.to_nat m)%nat by lia.
  rewrite firstn_app_2, skipn_app, skipn_all2 by lia.
  split; [reflexivity|]. split; [exact C2|]. rewrite Rest. cbn [app]. f_equal. lia.
Qed.

Lemma receive_exact_spec h size w : connected h (kernel w) -> 0 <= size ->
  let (r, w') := receive_exact h size w in
  outgoing h (kernel w') = outgoing h (kernel w) /\
  (may_reset /\ r = Err kIo \/
   match Protocol.receive_exact size (incoming h (kernel w)) with
   | Ok (b, rest) => r = Ok b /\ connected h (kernel w') /\ incoming h (kernel w') = rest
   | Err e => r = Err e
   end).
Proof.
  intros C S. pose proof (receive_loop_spec h size (Z.to_nat size) [] w C ltac:(cbn; lia) ltac:(cbn; lia)) as R.
  cbn [length app] in R. now rewrite Z.sub_0_r in R.
Qed.

(** The payload, which is not asked for when it is empty. *)
Lemma receive_payload_spec h size w : connected h (kernel w) -> 0 <= size ->
  let (r, w') := (if size >? 0 then receive_exact h size else fun w : World K => (Ok [], w)) w in
  outgoing h (kernel w') = outgoing h (kernel w) /\
  (may_reset /\ r = Err kIo \/
   match Protocol.receive_exact size (incoming h (kernel w)) with
   | Ok (b, rest) => r = Ok b /\ connected h (kernel w') /\ incoming h (kernel w') = rest
   | Err e => r = Err e
   end).
Proof.
  intros C N. destruct (size >? 0) eqn:P; [now apply receive_exact_spec|].
  replace size with 0 by blia. unfold Protocol.receive_exact. destruct (_ <? 0) eqn:F; [blia|].
  split; [reflexivity|]. now right.
Qed.

(** ** Frames *)
Lemma write_frame_spec s t p w : valid s = true -> connected (to_socket (handle_ s)) (kernel w) ->
  let h := to_socket (handle_ s) in let (r, w') := write_frame s t p w in
  match Protocol.write_frame t p with
  | Err e => r = Err e /\ outgoing h (kernel w') = outgoing h (kernel w)
  | Ok b =>
      match r with
      | Ok _ => connected h (kernel w') /\ incoming h (kernel w') = incoming h (kernel w) /\
          outgoing h (kernel w') = outgoing h (kernel w) ++ b
      | Err e => may_reset /\ exists part, part `prefix_of` b /\ outgoing h (kernel w') = outgoing h (kernel w) ++ part
      end
  end.
Proof.
  intros V C. unfold write_frame, Protocol.write_frame, write_bytes. cbn zeta. rewrite V. cbn [negb].
  destruct (_ >? _); cbn [refuse rbind]; [now split|].
  pose proof (send_all_spec _ (encode_frame t p) w C) as S. destruct (send_all _ _ _) as [[[]|e] w']; [exact S|].
  destruct S as (Re & _ & S). now split.
Qed.

Lemma read_frame_spec s bound w : valid s = true -> connected (to_socket (handle_ s)) (kernel w) ->
  let h := to_socket (handle_ s) in let (r, w') := read_frame s bound w in
  outgoing h (kernel w') = outgoing h (kernel w) /\
  (may_reset /\ r = Err kIo \/
   match Protocol.read_frame bound (incoming h (kernel w)) with
   | Ok (f, rest) => r = Ok f /\ connected h (kernel w') /\ incoming h (kernel w') = rest
   | Err e => r = Err e
   end).
Proof.
  intros V C. unfold read_frame, Protocol.read_frame. cbn zeta. rewrite V. cbn [negb].
  set (h := to_socket (handle_ s)) in *. pose proof (receive_exact_spec h kFrameHeaderBytes w C ltac:(now vm_compute)) as R.
  unfold attempt at 1, after_call at 1. destruct (receive_exact h kFrameHeaderBytes w) as [r w1]. destruct R as [O R].
  rewrite <- O. clear O. destruct R as [[Re ->]|R]; [split; [reflexivity | now left]|].
  destruct (Protocol.receive_exact _ _) as [[header rest]|e]; cbn [rbind]; [|subst r; split; [reflexivity | now right]].
  destruct R as (-> & C1 & I). unfold attempt at 1, after_call, ret.
  destruct (decode_header header) as [[[[[[magic declared] checksum] type] version] ?]|e]; cbn [rbind]; [|now split; [|right]].
  destruct (negb _); cbn [refuse rbind]; [now split; [|right]|].
  destruct (_ || _) eqn:L; cbn [refuse rbind]; [now split; [|right]|].
  destruct (negb _); cbn [refuse rbind]; [now split; [|right]|].
  unfold attempt, after_call. rewrite <- I.
  pose proof (receive_payload_spec h (declared - kFrameHeaderBytes) w1 C1 ltac:(blia)) as R. cbv beta in R.
  destruct ((if declared - kFrameHeaderBytes >? 0 then receive_exact h (declared - kFrameHeaderBytes)
             else fun w => (Ok [], w)) w1) as [r w2].
  destruct R as [O [[Re ->]|R]]; [split; [exact O | now left]|].
  destruct (Protocol.receive_exact _ _) as [[payload rest1]|e]; cbn [rbind]; [|subst r; split; [exact O | now right]].
  destruct R as (-> & C2 & I2).
  destruct (negb _); cbn [refuse rbind]; split; try exact O; right; [reflexivity | now split].
Qed.

End streams.

(** ** A session *)
Section sessions.
Context {K : Type} `{!Kernel K, !Streams K} (describe : Frame -> Coordinator -> bytes).

Lemma serve_out fuel : forall stream out c,
  serve describe fuel stream out c =
  let s := serve describe fuel stream [] c in mkServed (out ++ sent s) (after s) (shutdown_requested s).
Proof.
  induction fuel as [|fuel IH]; intros stream out c; cbn [serve]; [now rewrite app_nil_r|].
  destruct (Protocol.read_frame _ _) as [[f rest]|e]; [|cbn; now rewrite app_nil_r].
  destruct (beq _ _).
  { unfold send_status. destruct (Protocol.write_frame mt_kOk _); cbn [sent after shutdown_requested];
      [reflexivity | now rewrite app_nil_r]. }
  destruct (dispatch describe f c) as [[t p] c1]. destruct (Protocol.write_frame t p) as [b|e]; [|cbn; now rewrite app_nil_r].
  rewrite (IH rest (out ++ b)), (IH rest ([] ++ b)). cbn. now rewrite <- app_assoc.
Qed.

Lemma serve_enough fuel : forall stream c, (length stream < fuel)%nat ->
  serve describe fuel stream [] c = serve_session describe stream c.
Proof.
  unfold serve_session. induction fuel as [fuel IH] using lt_wf_ind. intros stream c L.
  destruct fuel as [|fuel]; [lia|]. cbn [serve].
  destruct (Protocol.read_frame _ _) as [[f rest]|e] eqn:R; [|reflexivity]. apply read_frame_shorter in R.
  destruct (beq _ _); [reflexivity|]. destruct (dispatch describe f c) as [[t p] c1].
  destruct (Protocol.write_frame t p) as [b|e]; [|reflexivity]. rewrite (serve_out fuel), (serve_out (length stream)).
  destruct (decide (fuel = length stream)) as [->|]; [reflexivity|].
  now rewrite (IH fuel), (IH (length stream)) by lia.
Qed.

(** A session, frame by frame. *)
Lemma serve_session_eq stream c :
  serve_session describe stream c =
  match Protocol.read_frame kMaxFrameBytes stream with
  | Err _ => mkServed [] c false
  | Ok (f, rest) =>
      if beq (fr_type f) mt_kShutdown then
        mkServed (match Protocol.write_frame mt_kOk (send_status (str "shutdown accepted")).2 with Ok b => b | Err _ => [] end) c true
      else
        let '((t, p), c) := dispatch describe f c in
        match Protocol.write_frame t p with
        | Err _ => mkServed [] c false
        | Ok b => let s := serve_session describe rest c in mkServed (b ++ sent s) (after s) (shutdown_requested s)
        end
  end.
Proof.
  unfold serve_session at 1. cbn [serve]. destruct (Protocol.read_frame _ _) as [[f rest]|e] eqn:R; [|reflexivity].
  apply read_frame_shorter in R. destruct (beq _ _); [reflexivity|]. destruct (dispatch describe f c) as [[t p] c1].
  destruct (Protocol.write_frame t p) as [b|e]; [|reflexivity]. rewrite serve_out, serve_enough by exact R. reflexivity.
Qed.

(** What a session over a socket leaves, when it started with [before] sent: all
    that the session over the stream does, or, if the connection may be reset, the
    requests of the first frames and a part of the bytes. *)
Definition served_as (stream before : bytes) (c : Coordinator) (sent_ : bytes) (c' : Coordinator) (sd : bool) : Prop :=
  let s := serve_session describe stream c in
  (sent_ = before ++ sent s /\ c' = after s /\ sd = shutdown_requested s) \/
  (may_reset /\ exists fs rest part, stream = flat_map frame_wire fs ++ rest /\ c' = run (requests_of fs) c /\
     sent_ = before ++ part /\ part `prefix_of` sent s /\ (sd = true -> shutdown_requested s = true)).

Lemma reset_at_once stream before c : may_reset -> served_as stream before c before c false.
Proof.
  intros Re. right. split; [exact Re|]. exists [], stream, []. cbn. rewrite app_nil_r.
  repeat split; [apply prefix_nil | discriminate].
Qed.

Lemma session_served rounds s : valid s = true -> let h := to_socket (handle_ s) in forall c (w : World K),
  connected h (kernel w) -> (length (incoming h (kernel w)) < rounds)%nat ->
  let '((c', sd), w') := session describe rounds s c w in
  served_as (incoming h (kernel w)) (outgoing h (kernel w)) c (outgoing h (kernel w')) c' sd.
Proof.
  intros V h. induction rounds as [|rounds IH]; intros c w C L; [lia|]. cbn [session]. unfold after_call at 1.
  pose proof (read_frame_spec s kMaxFrameBytes w V C) as R. fold h in R. cbn zeta in R.
  destruct (read_frame s kMaxFrameBytes w) as [r w1]. destruct R as [O R].
  destruct R as [[Re ->]|R]; [unfold ret; rewrite O; now apply reset_at_once|].
  pose proof (serve_session_eq (incoming h (kernel w)) c) as Sv.
  destruct (Protocol.read_frame kMaxFrameBytes (incoming h (kernel w))) as [[f rest]|e] eqn:F.
  2: { subst r. unfold ret. left. rewrite Sv, O. cbn. now rewrite app_nil_r. }
  destruct R as (-> & C1 & I1). pose proof (read_frame_wire _ _ _ F) as W.
  destruct (beq (fr_type f) mt_kShutdown) eqn:Sd.
  - unfold send_status. unfold after_call. pose proof (write_frame_spec s mt_kOk
      (encode_StatusResponse (status_of ao_kCommittable (str "shutdown accepted"))) w1 V C1) as Wr. fold h in Wr. cbn zeta in Wr.
    destruct (write_frame s _ _ w1) as [r w2]. unfold ret. unfold send_status in Sv. cbn [snd] in Sv.
    destruct (Protocol.write_frame mt_kOk _) as [b|e]; [destruct r as [[]|e]|].
    + left. rewrite Sv. cbn. destruct Wr as (_ & _ & ->). now rewrite O.
    + right. destruct Wr as (Re & part & P & ->). split; [exact Re|]. exists [f], rest, part. rewrite Sv, O. cbn [sent shutdown_requested].
      repeat split; [cbn; now rewrite app_nil_r | | exact P].
      unfold requests_of. cbn. destruct f as [t p]. apply beq_true in Sd. cbn [fr_type] in Sd. now subst t.
    + left. rewrite Sv. cbn. destruct Wr as (_ & ->). now rewrite O, app_nil_r.
  - pose proof (dispatch_state describe f c) as D. destruct (dispatch describe f c) as [[t p] c1]. cbn [snd] in D.
    assert (forall fs, run (requests_of (f :: fs)) c = run (requests_of fs) c1) as Rq.
    { intros fs. unfold requests_of. cbn [flat_map]. unfold run at 1. rewrite fold_left_app.
      fold (run (option_list (request_of f)) c). now rewrite <- D. }
    unfold after_call. pose proof (write_frame_spec s t p w1 V C1) as Wr. fold h in Wr. cbn zeta in Wr.
    destruct (write_frame s t p w1) as [r w2]. destruct (Protocol.write_frame t p) as [b|e].
    2: { destruct Wr as [-> Wr]. unfold ret. left. rewrite Sv, Wr, O. cbn. now rewrite app_nil_r. }
    destruct r as [[]|e].
    + destruct Wr as (C2 & I2 & O2). specialize (IH c1 w2 C2).
      apply read_frame_shorter in F. rewrite I2, I1 in IH. specialize (IH ltac:(lia)). rewrite O2, O in IH.
      destruct (session describe rounds s c1 w2) as [[c' sd] w3]. unfold served_as in IH |- *. rewrite Sv. cbn [sent after shutdown_requested].
      destruct IH as [(-> & -> & ->)|(Re & fs & rest1 & part & -> & -> & -> & P & Q)]; [left; now rewrite app_assoc|right].
      split; [exact Re|]. exists (f :: fs), rest1, (b ++ part). rewrite W, Rq. cbn [flat_map]. rewrite <- !app_assoc.
      repeat split; [now apply prefix_app | exact Q].
    + destruct Wr as (Re & part & P & E). unfold ret. right. split; [exact Re|]. exists [f], rest, part.
      rewrite Sv, E, O. cbn [sent shutdown_requested]. rewrite Rq.
      repeat split; [cbn; now rewrite app_nil_r | now apply prefix_app_r | discriminate].
Qed.

End sessions.

(** ** The handles of the process

    What the calls do to the set of open handles; [gives] is a call that returns
    a new handle or fails. *)
Definition gives {K} (opened : K -> gset Z) (h : Z) (k k' : K) : Prop :=
  (h = kInvalidSocket /\ opened k' = opened k) \/
  (descriptor h /\ (h ∉ opened k) /\ opened k' = ({[h]} ∪ opened k)).

Class Handles (K : Type) `{!Kernel K} := {
  opened : K -> gset Z;
  socket_law k : let (h, k') := sys_socket k in gives opened h k k';
  accept_law l k : let (h, k') := sys_accept l k in gives opened h k k';
  close_law h k : opened (sys_close h k) = (opened k ∖ {[h]});
  bind_law h port k : opened (sys_bind h port k).2 = opened k;
  listen_law h n k : opened (sys_listen h n k).2 = opened k;
  getsockname_law h k : opened (sys_getsockname h k).2 = opened k;
  connect_law h port k : opened (sys_connect h port k).2 = opened k;
  setsockopt_law h k : opened (sys_setsockopt h k) = opened k }.

(** The objects of a program that hold a handle, by the variable they are in. *)
Inductive Object := Socket (s : TcpSocket) | Listener (l : TcpListener).

Definition owned (o : Object) : option Z :=
  match o with
  | Socket s => if valid s then Some (to_socket (handle_ s)) else None
  | Listener l => if lst_valid l then Some (to_socket (lst_handle_ l)) else None
  end.

Abbreviation Objects := (gmap nat Object).

(** What a program does with them; [Assign v v] is an assignment to itself. *)
Inductive SocketAct :=
  | Listen (v : nat) (port : Z)
  | Accept (v listener : nat)
  | Connect (v : nat) (port : Z)
  | Move (v from : nat)
  | Assign (v from : nat)
  | Close (v : nat)
  | Destroy (v : nat).

Section handles.
Context {K : Type} `{!Kernel K, !Handles K}.
Implicit Types w : World K.

Definition obtain {A} (v : nat) (object : A -> Object) (t : Objects) (m : IO K (Result A)) : IO K Objects :=
  after_call m (fun r => ret (match r with Ok a => <[v := object a]> t | Err _ => t end)).

Definition close_object (o : Object) : IO K Object :=
  match o with
  | Socket s => after_call (close s) (fun s => ret (Socket s))
  | Listener l => after_call (lst_close l) (fun l => ret (Listener l))
  end.

Definition move_object (o : Object) : Object * Object :=
  match o with
  | Socket s => let (s, t) := move s in (Socket s, Socket t)
  | Listener l => let (l, t) := lst_move l in (Listener l, Listener t)
  end.

(** [assign] and [lst_assign]; between the two kinds there is no assignment. *)
Definition assign_object (this other : Object) : IO K (Object * Object) :=
  match this, other with
  | Socket this, Socket other => after_call (assign this other) (fun p => ret (Socket p.1, Socket p.2))
  | Listener this, Listener other => after_call (lst_assign this other) (fun p => ret (Listener p.1, Listener p.2))
  | _, _ => ret (this, other)
  end.

Definition destroy_object (o : Object) : IO K unit :=
  match o with Socket s => destroy s | Listener l => lst_destroy l end.

(** A new object goes to a variable that has none; what does not make sense does
    nothing. *)
Definition act (a : SocketAct) (t : Objects) : IO K Objects :=
  match a with
  | Listen v port => match t !! v with None => obtain v Listener t (bind_loopback port) | Some _ => ret t end
  | Connect v port => match t !! v with None => obtain v Socket t (connect_loopback port) | Some _ => ret t end
  | Accept v l =>
      match t !! v, t !! l with
      | None, Some (Listener l) => obtain v Socket t (accept l)
      | _, _ => ret t
      end
  | Move v u =>
      match t !! v, t !! u with
      | None, Some o => let (o, rest) := move_object o in ret (<[u := rest]> (<[v := o]> t))
      | _, _ => ret t
      end
  | Assign v u =>
      match t !! v, t !! u with
      | Some this, Some other =>
          if decide (v = u) then ret t
          else after_call (assign_object this other) (fun p => ret (<[u := p.2]> (<[v := p.1]> t)))
      | _, _ => ret t
      end
  | Close v =>
      match t !! v with
      | Some o => after_call (close_object o) (fun o => ret (<[v := o]> t))
      | None => ret t
      end
  | Destroy v =>
      match t !! v with
      | Some o => after_call (destroy_object o) (fun _ => ret (delete v t))
      | None => ret t
      end
  end.

Fixpoint acts (l : list SocketAct) (t : Objects) : IO K Objects :=
  match l with
  | [] => ret t
  | a :: l => after_call (act a t) (acts l)
  end.

(** ** One owner per handle *)
Definition holds (t : Objects) (v : nat) (h : Z) : Prop := exists o, t !! v = Some o /\ owned o = Some h.

(** The handles of the objects and the [foreign] ones are the open ones, and no
    handle has two owners. *)
Definition accounted (foreign : gset Z) (t : Objects) (k : K) : Prop :=
  (forall h, h ∈ opened k <-> h ∈ foreign \/ exists v, holds t v h) /\
  (forall v u h, holds t v h -> holds t u h -> v = u) /\
  (forall v h, holds t v h -> (h ∉ foreign) /\ descriptor h).

(** What a function that returns an object leaves open. *)
Definition obtains {A} (object : A -> Object) (m : IO K (Result A)) : Prop := forall w,
  let (r, w') := m w in
  match r with
  | Ok a => exists h, owned (object a) = Some h /\ descriptor h /\ (h ∉ opened (kernel w)) /\
      opened (kernel w') = ({[h]} ∪ opened (kernel w))
  | Err _ => opened (kernel w') = opened (kernel w)
  end.

Lemma owned_socket h : descriptor h -> owned (Socket (adopt (from_socket h))) = Some h.
Proof.
  intros D. cbn. unfold valid. cbn. destruct (Z.eqb_spec (from_socket h) kInvalidHandle) as [E|_].
  - now apply from_socket_valid in E.
  - cbn. now rewrite to_from_socket.
Qed.

Lemma owned_listener h port : descriptor h -> owned (Listener (mkTcpListener (from_socket h) port)) = Some h.
Proof. exact (owned_socket h). Qed.

Lemma gives_valid h k k' : gives opened h k k' ->
  if socket_valid h then descriptor h /\ (h ∉ opened k) /\ opened k' = ({[h]} ∪ opened k) else opened k' = opened k.
Proof.
  unfold socket_valid. intros [[-> O]|(D & N & O)]; [exact O|].
  destruct (Z.eqb_spec h kInvalidSocket) as [->|_]; [unfold descriptor, kInvalidSocket in D; lia | now split].
Qed.

Lemma give_up_opened {A} h w : socket_valid h = true ->
  let (r, w') := @give_up_on K _ h A w in r = Err kIo /\ opened (kernel w') = (opened (kernel w) ∖ {[h]}).
Proof. intros V. unfold give_up_on, close_socket. rewrite V. cbn. split; [reflexivity | apply close_law]. Qed.

Lemma bind_loopback_obtains port : obtains Listener (bind_loopback port).
Proof.
  intros w. unfold bind_loopback, attempt, transport_init, after_call, call, command, ret. cbn [kernel g_transport_ready].
  pose proof (socket_law (kernel w)) as S. destruct (sys_socket (kernel w)) as [h k]. apply gives_valid in S.
  destruct (socket_valid h) eqn:V; cbn [negb]; [|exact S]. destruct S as (D & N & O). cbn [kernel].
  pose proof (setsockopt_law h k) as O1. set (k1 := sys_setsockopt h k) in *.
  assert (forall w0, opened (kernel w0) = opened k1 -> let (r, w') := @give_up_on K _ h TcpListener w0 in
    match r with
    | Ok a => exists g, owned (Listener a) = Some g /\ descriptor g /\ (g ∉ opened (kernel w)) /\
        opened (kernel w') = {[g]} ∪ opened (kernel w)
    | Err _ => opened (kernel w') = opened (kernel w)
    end) as Up.
  { intros w0 E. pose proof (@give_up_opened TcpListener h w0 V) as G. destruct (give_up_on h w0) as [r w']. destruct G as [-> G].
    rewrite G, E, O1, O. set_solver +N. }
  pose proof (bind_law h port k1) as O2. destruct (sys_bind h port k1) as [bound k2]. cbn [snd] in O2.
  destruct (negb (bound =? 0)); [apply Up; exact O2|]. cbn [kernel].
  pose proof (listen_law h kBacklog k2) as O3. destruct (sys_listen h kBacklog k2) as [listening k3]. cbn [snd] in O3.
  destruct (negb (listening =? 0)); [apply Up; cbn [kernel]; congruence|]. cbn [kernel].
  pose proof (getsockname_law h k3) as O4. destruct (sys_getsockname h k3) as [[named number] k4]. cbn [snd] in O4.
  destruct (negb (named =? 0)); [apply Up; cbn [kernel]; congruence|]. cbn [kernel].
  exists h. split; [now apply owned_listener|]. repeat split; [apply D | apply D | exact N | congruence].
Qed.

Lemma connect_loopback_obtains port : obtains Socket (connect_loopback port).
Proof.
  intros w. unfold connect_loopback, attempt, transport_init, after_call, call, command, ret. cbn [kernel g_transport_ready].
  pose proof (socket_law (kernel w)) as S. destruct (sys_socket (kernel w)) as [h k]. apply gives_valid in S.
  destruct (socket_valid h) eqn:V; cbn [negb]; [|exact S]. destruct S as (D & N & O). cbn [kernel].
  pose proof (connect_law h port k) as O1. destruct (sys_connect h port k) as [connected k1]. cbn [snd] in O1.
  destruct (negb (connected =? 0)).
  - pose proof (@give_up_opened TcpSocket h (mkWorld true k1) V) as G. destruct (give_up_on h _) as [r w']. destruct G as [-> G].
    rewrite G. cbn [kernel]. rewrite O1, O. set_solver +N.
  - cbn [kernel]. exists h. split; [now apply owned_socket|]. rewrite setsockopt_law. repeat split; [apply D | apply D | exact N | congruence].
Qed.

Lemma accept_obtains l : obtains Socket (accept l).
Proof.
  intros w. unfold accept. destruct (lst_valid l); cbn [negb]; [|reflexivity].
  unfold after_call, call, command, ret. set (lh := to_socket _).
  pose proof (accept_law lh (kernel w)) as S. destruct (sys_accept lh (kernel w)) as [h k]. apply gives_valid in S.
  destruct (socket_valid h) eqn:V; cbn [negb]; [|exact S]. destruct S as (D & N & O). cbn [kernel].
  exists h. split; [now apply owned_socket|]. rewrite setsockopt_law. repeat split; [apply D | apply D | exact N | congruence].
Qed.

(** *** Steps of the accounting *)
Lemma holds_insert t v o u h : holds (<[v := o]> t) u h <-> (u = v /\ owned o = Some h) \/ (u <> v /\ holds t u h).
Proof.
  unfold holds. destruct (decide (u = v)) as [->|N].
  - setoid_rewrite lookup_insert_eq. split; [intros (? & [= <-] & H); now left | intros [[_ H]|[[] _]]; [now exists o | reflexivity]].
  - setoid_rewrite lookup_insert_ne; [|congruence]. split; [now right | now intros [[]|[]]].
Qed.

Lemma holds_delete t v u h : holds (delete v t) u h <-> u <> v /\ holds t u h.
Proof.
  unfold holds. destruct (decide (u = v)) as [->|N].
  - setoid_rewrite lookup_delete_eq. split; [intros (? & [=] & _) | now intros []].
  - setoid_rewrite lookup_delete_ne; [|congruence]. split; [now split | now intros []].
Qed.

Lemma accounted_new F t v o h k k' : accounted F t k -> t !! v = None ->
  owned o = Some h -> descriptor h -> h ∉ opened k -> opened k' = {[h]} ∪ opened k -> accounted F (<[v := o]> t) k'.
Proof.
  intros (A & B & C) N O D Fr E.
  assert (forall u g, holds t u g -> u <> v) as Nv by (intros u g (o' & L & _) ->; congruence).
  assert (forall u, holds t u h -> False) as Nh by (intros u H; apply Fr, A; eauto).
  split; [|split].
  - intros g. setoid_rewrite holds_insert. rewrite E, elem_of_union, elem_of_singleton, A.
    split; [intros [->|[H|[u H]]]; eauto 6|].
    intros [H|(u & [[-> H]|[_ H]])]; [auto | left; congruence | eauto].
  - intros u u' g. rewrite !holds_insert. intros [[-> H]|[_ H]] [[-> H']|[_ H']]; [reflexivity | | |eauto].
    + destruct (Nh u'). congruence.
    + destruct (Nh u). congruence.
  - intros u g. rewrite holds_insert. intros [[-> H]|[_ H]]; [|now apply (C u g)].
    replace g with h by congruence. split; [intros Hf; apply Fr, A; now left | exact D].
Qed.

(** A change of the table in which each handle keeps its one owner, or is closed. *)
Lemma accounted_close F t t' k k' (gone : option Z) : accounted F t k ->
  (forall g, gone = Some g -> exists v, holds t v g) ->
  opened k' = opened k ∖ (match gone with Some g => {[g]} | None => ∅ end) ->
  (forall h, (exists v, holds t' v h) <-> (exists v, holds t v h) /\ gone <> Some h) ->
  (forall v u h, holds t' v h -> holds t' u h -> v = u) -> accounted F t' k'.
Proof.
  intros (A & B & C) G E H U. split; [|split; [exact U|]].
  - intros h. rewrite E, H, elem_of_difference, A. destruct gone as [g|]; [|set_solver +].
    destruct (G g eq_refl) as [v0 Hv]. destruct (C _ _ Hv) as [Nf _]. rewrite not_elem_of_singleton. split.
    + intros [[?|?] N]; [now left | right; split; [assumption | congruence]].
    + intros [Hf|[? N]]; (split; [now auto | intros ->; now auto]).
  - intros v h Hv. destruct (proj1 (H h) (ex_intro _ v Hv)) as [[u Hu] _]. now apply (C u h).
Qed.

(** *** Acts *)
Lemma owned_none : owned (Socket no_socket) = None.
Proof. reflexivity. Qed.

Definition handle_set (h : option Z) : gset Z := match h with Some g => {[g]} | None => ∅ end.

Definition closes_object (o : Object) (w w' : World K) : Prop :=
  opened (kernel w') = opened (kernel w) ∖ handle_set (owned o).

Lemma descriptor_valid h : descriptor h -> socket_valid h = true.
Proof. unfold descriptor, socket_valid, kInvalidSocket. intros D. apply negb_true_iff, Z.eqb_neq. lia. Qed.

Lemma close_object_spec o w : (forall h, owned o = Some h -> descriptor h) ->
  let (o', w') := close_object o w in owned o' = None /\ closes_object o w w'.
Proof.
  unfold closes_object.
  destruct o as [s|l]; cbn [close_object owned]; unfold close, lst_close, after_call, close_socket, ret; intros D.
  - destruct (valid s) eqn:V; [|cbn [owned]; rewrite V; split; [reflexivity | set_solver +]].
    rewrite (descriptor_valid _ (D _ eq_refl)). split; [reflexivity | apply close_law].
  - destruct (lst_valid l) eqn:V; [|cbn [owned]; rewrite V; split; [reflexivity | set_solver +]].
    rewrite (descriptor_valid _ (D _ eq_refl)). split; [reflexivity | apply close_law].
Qed.

Lemma destroy_object_closes o w : destroy_object o w = (tt, (close_object o w).2).
Proof.
  destruct o as [s|l]; cbn [close_object destroy_object]; unfold destroy, lst_destroy, after_call, ret.
  - now destruct (close s w).
  - now destruct (lst_close l w).
Qed.

Lemma move_object_owned o : let (o', rest) := move_object o in owned o' = owned o /\ owned rest = None.
Proof. destruct o; now split. Qed.

Lemma assign_object_spec this other w : (forall h, owned this = Some h -> descriptor h) ->
  let (p, w') := assign_object this other w in
  p = (this, other) /\ w' = w \/ p = move_object other /\ closes_object this w w'.
Proof.
  destruct this as [s|l], other as [t|m]; intros D; cbn [assign_object]; try (left; split; reflexivity).
  - pose proof (close_object_spec (Socket s) w D) as C. cbn [close_object] in C. unfold assign, after_call, ret in *.
    destruct (close s w) as [s' w']. right. now split.
  - pose proof (close_object_spec (Listener l) w D) as C. cbn [close_object] in C. unfold lst_assign, after_call, ret in *.
    destruct (lst_close l w) as [l' w']. right. now split.
Qed.

Lemma obtain_accounted {A} F v (object : A -> Object) t m w : accounted F t (kernel w) -> t !! v = None ->
  obtains object m -> let (t', w') := obtain v object t m w in accounted F t' (kernel w').
Proof.
  intros I N M. unfold obtain, after_call, ret. specialize (M w). destruct (m w) as [[a|e] w'].
  - destruct M as (h & O & D & Fr & E). exact (accounted_new F t v (object a) h _ _ I N O D Fr E).
  - destruct I as (A' & B & C). split; [|now split]. intros h. now rewrite M.
Qed.

Lemma owner_unique F t k v o h : accounted F t k -> t !! v = Some o -> owned o = Some h ->
  forall u, holds t u h <-> u = v.
Proof. intros (_ & B & _) L O u. split; [intros H; apply (B _ _ h H) | intros ->]; now exists o. Qed.

(** The variable [v] loses its handle, which is closed. *)
Lemma release_accounted F t t' v o w w' : accounted F t (kernel w) -> t !! v = Some o -> closes_object o w w' ->
  (forall u h, holds t' u h <-> u <> v /\ holds t u h) -> accounted F t' (kernel w').
Proof.
  intros I L Cl H. apply (accounted_close F t t' (kernel w) _ (owned o) I); [| exact Cl | |].
  - intros g O. exists v. now exists o.
  - intros h. setoid_rewrite H. split.
    + intros (u & Ne & Hu). split; [now exists u|]. intros O. apply Ne. now apply (owner_unique F t _ v o h I L O).
    + intros [[u Hu] N]. exists u. split; [|exact Hu]. intros ->. apply N. destruct Hu as (o' & L' & O). congruence.
  - intros u u' h. rewrite !H. intros [_ H1] [_ H2]. destruct I as (_ & B & _). exact (B _ _ _ H1 H2).
Qed.

(** The variable [u] hands its handle on to [v], which has none. *)
Lemma transfer_accounted F t u v o o' rest k : accounted F t k -> t !! u = Some o -> u <> v ->
  (forall h, ~ holds t v h) -> owned o' = owned o -> owned rest = None ->
  accounted F (<[u := rest]> (<[v := o']> t)) k.
Proof.
  intros I L N Nv E R.
  assert (forall x h, holds (<[u := rest]> (<[v := o']> t)) x h <-> (x = v /\ owned o = Some h) \/ (x <> u /\ holds t x h)) as H.
  { intros x h. rewrite !holds_insert, R, E. split.
    - intros [[_ [=]]|[Nx [X|[_ X]]]]; auto.
    - intros [[-> O]|[Nx X]]; right; (split; [congruence|]); [now left|]. right. split; [intros ->; now apply (Nv h) | exact X]. }
  apply (accounted_close F t _ k k None I); [discriminate | set_solver + | |].
  - intros h. setoid_rewrite H. split.
    + intros (x & [[-> O]|[_ X]]); (split; [|discriminate]); [exists u; now exists o | now exists x].
    + intros [[x X] _]. destruct (decide (x = u)) as [->|]; [|exists x; auto]. exists v. left. split; [reflexivity|].
      destruct X as (o0 & L0 & O). congruence.
  - assert (forall x h, owned o = Some h -> x <> u -> ~ holds t x h) as Un.
    { intros x h O Nx X. apply Nx. now apply (owner_unique F t k u o h I L O). }
    intros x y h. rewrite !H. intros [[-> O]|[Nx X]] [[-> O']|[Ny Y]]; [reflexivity | | |].
    + now destruct (Un y h O Ny).
    + now destruct (Un x h O' Nx).
    + destruct I as (_ & B & _). exact (B _ _ _ X Y).
Qed.

Lemma owned_descriptor F t k v o : accounted F t k -> t !! v = Some o -> forall h, owned o = Some h -> descriptor h.
Proof. intros (_ & _ & C) L h O. apply (C v h). now exists o. Qed.

Lemma act_accounted F a t w : accounted F t (kernel w) ->
  let (t', w') := act a t w in accounted F t' (kernel w').
Proof.
  intros I. destruct a as [v port|v l|v port|v u|v u|v|v]; cbn [act].
  - destruct (t !! v) eqn:L; [exact I|]. now apply obtain_accounted, bind_loopback_obtains.
  - destruct (t !! v) eqn:L; [exact I|]. destruct (t !! l) as [[s|m]|]; try exact I.
    now apply obtain_accounted, accept_obtains.
  - destruct (t !! v) eqn:L; [exact I|]. now apply obtain_accounted, connect_loopback_obtains.
  - destruct (t !! v) eqn:L; [exact I|]. destruct (t !! u) as [o|] eqn:Lu; [|exact I].
    pose proof (move_object_owned o) as M. destruct (move_object o) as [o' rest]. destruct M as [M R].
    apply (transfer_accounted F t u v o o' rest (kernel w) I Lu); [congruence | | exact M | exact R].
    intros h (x & Lx & _). congruence.
  - destruct (t !! v) as [this|] eqn:L; [|exact I]. destruct (t !! u) as [other|] eqn:Lu; [|exact I].
    destruct (decide (v = u)) as [|N]; [exact I|]. unfold after_call, ret.
    pose proof (assign_object_spec this other w (owned_descriptor _ _ _ _ _ I L)) as A.
    destruct (assign_object this other w) as [p w']. destruct A as [[-> ->]|[-> Cl]].
    + cbn [fst snd]. rewrite (insert_id t v) by exact L. now rewrite insert_id.
    + pose proof (move_object_owned other) as M. destruct (move_object other) as [o' rest]. destruct M as [M R]. cbn [fst snd].
      set (t0 := <[v := Socket no_socket]> t).
      assert (accounted F t0 (kernel w')) as I0.
      { apply (release_accounted F t t0 v this w w' I L Cl). intros x h. unfold t0. rewrite holds_insert, owned_none. intuition congruence. }
      replace (<[v := o']> t) with (<[v := o']> t0) by (unfold t0; apply insert_insert_eq).
      apply (transfer_accounted F t0 u v other o' rest (kernel w') I0); [| congruence | | exact M | exact R].
      * unfold t0. now rewrite lookup_insert_ne.
      * intros h. unfold t0. rewrite holds_insert, owned_none. intuition congruence.
  - destruct (t !! v) as [o|] eqn:L; [|exact I]. unfold after_call, ret.
    pose proof (close_object_spec o w (owned_descriptor _ _ _ _ _ I L)) as C. destruct (close_object o w) as [o' w']. destruct C as [O Cl].
    apply (release_accounted F t _ v o w w' I L Cl). intros x h. rewrite holds_insert, O. intuition congruence.
  - destruct (t !! v) as [o|] eqn:L; [|exact I]. unfold after_call, ret. rewrite destroy_object_closes.
    pose proof (close_object_spec o w (owned_descriptor _ _ _ _ _ I L)) as C. destruct (close_object o w) as [o' w']. destruct C as [O Cl].
    apply (release_accounted F t _ v o w w' I L Cl). intros x h. apply holds_delete.
Qed.

Lemma acts_accounted F l : forall t w, accounted F t (kernel w) ->
  let (t', w') := acts l t w in accounted F t' (kernel w').
Proof.
  induction l as [|a l IH]; intros t w I; [exact I|]. cbn [acts]. unfold after_call.
  pose proof (act_accounted F a t w I) as A. destruct (act a t w) as [t1 w1]. exact (IH t1 w1 A).
Qed.

End handles.

(** ** A kernel

    One peer at the other end of every socket: three bytes at most are received
    by a call and five are sent; the handles are 3, 4, 5 and 6. *)
Record Cable := mkCable { to_receive : bytes; was_sent : bytes; in_use : gset Z }.

Definition open_new (k : Cable) : Z * Cable :=
  match find (fun h => bool_decide (h ∉ in_use k)) [3; 4; 5; 6] with
  | Some h => (h, mkCable (to_receive k) (was_sent k) ({[h]} ∪ in_use k))
  | None => (kInvalidSocket, k)
  end.

#[export] Instance cable_kernel : Kernel Cable := {
  sys_socket := open_new;
  sys_bind _ _ k := (0, k);
  sys_listen _ _ k := (0, k);
  sys_getsockname _ k := (0, 7000, k);
  sys_accept _ k := open_new k;
  sys_connect _ _ k := (0, k);
  sys_setsockopt _ k := k;
  sys_send _ data k := (Z.min 5 (Z.of_nat (length data)), mkCable (to_receive k) (was_sent k ++ firstn 5 data) (in_use k));
  sys_recv _ n k :=
    let m := Z.to_nat (Z.min 3 n) in
    (Some (firstn m (to_receive k)), mkCable (skipn m (to_receive k)) (was_sent k) (in_use k));
  sys_close h k := mkCable (to_receive k) (was_sent k) (in_use k ∖ {[h]}) }.

#[export, program] Instance cable_streams : Streams Cable := {
  connected _ _ := True;
  incoming _ := to_receive;
  outgoing _ := was_sent;
  may_reset := False }.
Next Obligation.
  intros h n k _ N. cbn. split; [reflexivity|]. split; [exact I|]. rewrite firstn_skipn, length_firstn.
  split; [reflexivity|]. split; [lia|]. destruct (Z.to_nat (Z.min 3 n)) eqn:E; [lia|]. now destruct (to_receive k).
Qed.
Next Obligation.
  intros h data k _ N. cbn [sys_send cable_kernel]. destruct data as [|b data]; [congruence|]. cbn [length].
  destruct (_ <=? 0) eqn:L; [blia|]. split; [exact I|]. split; [lia|]. split; [reflexivity|]. cbn [was_sent]. f_equal.
  destruct (decide (5 <= Z.of_nat (S (length data)))); [now rewrite Z.min_l by lia|].
  rewrite Z.min_r by lia. rewrite !firstn_all2 by (cbn [length]; lia). reflexivity.
Qed.

Lemma open_new_gives k : let (h, k') := open_new k in gives in_use h k k'.
Proof.
  unfold open_new. destruct (find _ _) as [h|] eqn:F; [|now left]. right.
  apply find_some in F as [M B]. apply bool_decide_eq_true in B. split; [|now split].
  unfold descriptor. cbn [List.In] in M. lia.
Qed.

#[export, program] Instance cable_handles : Handles Cable := { opened := in_use }.
Next Obligation. exact open_new_gives. Qed.
Next Obligation. intros l. exact open_new_gives. Qed.
Solve Obligations with done.

(** ** What the sockets promise *)

(** C17. A session over a socket is the session over the bytes the peer sends,
    however the kernel cuts them into pieces: if the connection is not reset it
    answers with the same bytes, leaves the coordinator in the same state and
    knows as well whether a shutdown was asked for; if it is reset, the requests
    of the first frames were run and the bytes sent are the first of those
    answers. *)
Theorem socket_session_is_the_session {K} `{!Kernel K, !Streams K} describe rounds s c (w : World K) :
  valid s = true -> let h := to_socket (handle_ s) in
  connected h (kernel w) -> (length (incoming h (kernel w)) < rounds)%nat ->
  let '((c', sd), w') := session describe rounds s c w in
  let served := serve_session describe (incoming h (kernel w)) c in
  (outgoing h (kernel w') = outgoing h (kernel w) ++ sent served /\ c' = after served /\ sd = shutdown_requested served) \/
  (may_reset /\ exists fs rest part, incoming h (kernel w) = flat_map frame_wire fs ++ rest /\
     c' = run (requests_of fs) c /\ outgoing h (kernel w') = outgoing h (kernel w) ++ part /\
     part `prefix_of` sent served /\ (sd = true -> shutdown_requested served = true)).
Proof. intros V h. exact (session_served describe rounds s V c w). Qed.

(** A client that asks how the coordinator stands, and then for the shutdown. *)
Definition two_requests : World Cable :=
  mkWorld true (mkCable (encode_frame mt_kStats [] ++ encode_frame mt_kShutdown []) [] {[3]}).

Lemma socket_session_is_the_session_witness :
  let w := two_requests in
  let '((c', sd), w') := session (fun _ _ => []) 40 (adopt 3) Sample.opened w in
  let served := serve_session (fun _ _ => []) (incoming 3 (kernel w)) Sample.opened in
  (outgoing 3 (kernel w') = outgoing 3 (kernel w) ++ sent served /\ c' = after served /\ sd = shutdown_requested served) \/
  (may_reset /\ exists fs rest part, incoming 3 (kernel w) = flat_map frame_wire fs ++ rest /\
     c' = run (requests_of fs) Sample.opened /\ outgoing 3 (kernel w') = outgoing 3 (kernel w) ++ part /\
     part `prefix_of` sent served /\ (sd = true -> shutdown_requested served = true)).
Proof.
  assert (valid (adopt 3) = true) as V by reflexivity.
  assert (length (incoming (to_socket (handle_ (adopt 3))) (kernel two_requests)) < 40)%nat as L by (apply Nat.ltb_lt; vm_compute; reflexivity).
  exact (socket_session_is_the_session (fun _ _ => []) 40 (adopt 3) Sample.opened two_requests V I L).
Defined.

(** The pieces make no difference: thirty-two bytes came in eleven calls at least. *)
Example pieces_are_put_together :
  let '((c', sd), w') := session (fun _ _ => []) 3 (adopt 3) Sample.opened two_requests in
  sd = true /\ was_sent (kernel w') = sent (serve_session (fun _ _ => []) (to_receive (kernel two_requests)) Sample.opened).
Proof. vm_compute. split; reflexivity. Qed.

(** C18. No handle leaks and none is closed twice: whatever a program does with
    sockets and listeners, failed calls, moves and assignments included, every
    open handle that it did not find open is owned by exactly one of its objects,
    and when it has destroyed them all the open handles are those it found. *)
Theorem handles_have_one_owner {K} `{!Kernel K, !Handles K} l (w : World K) :
  let (t, w') := acts l ∅ w in
  accounted (opened (kernel w)) t (kernel w') /\ (t = ∅ -> opened (kernel w') = opened (kernel w)).
Proof.
  assert (forall v h, ~ holds ∅ v h) as N by (intros v h (o & L & _); now rewrite lookup_empty in L).
  assert (accounted (opened (kernel w)) ∅ (kernel w)) as A0.
  { split; [|split; [intros v u h H; now destruct (N v h) | intros v h H; now destruct (N v h)]].
    intros h. split; [now left | intros [H|[v H]]; [exact H | now destruct (N v h)]]. }
  pose proof (acts_accounted _ l ∅ w A0) as A. destruct (acts l ∅ w) as [t w']. split; [exact A|].
  intros ->. destruct A as [A _]. apply set_eq. intros h. rewrite A. split; [intros [H|[v H]]; [exact H | now destruct (N v h)] | now left].
Qed.

Lemma handles_have_one_owner_witness :
  let w := mkWorld false (mkCable [] [] {[0; 1; 2]}) in
  let (t, w') := acts [Listen 0 7000; Accept 1 0; Connect 2 7000; Assign 1 2; Destroy 0; Move 3 1; Destroy 1; Destroy 2; Close 3;
                       Destroy 3] ∅ w in
  t = ∅ /\ opened (kernel w') = opened (kernel w).
Proof.
  set (w := mkWorld _ _). set (l := [Listen 0 7000; _; _; _; _; _; _; _; _; _]). cbv zeta.
  pose proof (handles_have_one_owner l w) as H. assert ((acts l ∅ w).1 = ∅) as E by reflexivity.
  destruct (acts l ∅ w) as [t w']. split; [exact E | exact (proj2 H E)].
Defined.

(** A peer that closes in the middle of a frame is read as one that closed
    between frames: the code of the error is the same. *)
Example torn_frame_reads_as_closed :
  let torn := firstn 17 (encode_frame mt_kShutdown [x00; x01; x02]) in
  (read_frame (adopt 3) kMaxFrameBytes (mkWorld true (mkCable torn [] {[3]}))).1 = Err kCancelled /\
  (read_frame (adopt 3) kMaxFrameBytes (mkWorld true (mkCable [] [] {[3]}))).1 = Err kCancelled.
Proof. vm_compute. split; reflexivity. Qed.
